(** * Metronome: the beat scheduler, the tempo and signature setters and the
    sound emitters, embedded from the JavaScript sources.

    Conventions of the embedding.

    - JavaScript numbers that carry clock times, tempi and gains are exact
      rationals ([Q]); the rounding of IEEE doubles is not modelled.  The
      public setters, which can be handed [NaN] or an infinity, take a [num],
      which adds those values; the sound emitters are modelled on the finite
      numbers their callers pass.
    - Beat counters are integers ([Z]); [%] is [Z.rem].
    - Host effects (timers, log lines, the callback being invoked, DOM events)
      are returned as a list of [Effect]s next to the new state.
    - The fields [lookahead], [scheduleAheadTime], [minScheduleInterval],
      [maxScheduleInterval] and [maxAllowedErrors] of the scheduler object are
      never assigned after creation; they are constants here. *)

From Stdlib Require Import String ZArith QArith Qround Qminmax Qabs List Bool Lia Lqa.
Import ListNotations.
Open Scope Q_scope.

(** ** Comparisons on rationals as booleans *)

Definition Qltb (x y : Q) : bool := negb (Qle_bool y x).

(** ** Host effects *)

Inductive TimerTask : Type :=
| TickTask            (* () => this.schedulerLoop() *)
| RecoveryTask        (* the async closure of attemptRecovery *)
| ToggleUnlockTask.   (* () => { toggleLock = false } *)

Inductive Effect : Type :=
| Dispatch (beatTime : Q) (beatNumber : Z)   (* schedulerCallback(nextBeatTime, currentBeat) *)
| HandleAudioError (context : string)
| HandleConfigError (context : string)
| ConsoleWarn (what : string)
| ConsoleLog (what : string)
| SetTimeout (task : TimerTask) (delay : Q)
| ClearTimeout (task : TimerTask)
| ResumeAudio                                  (* audioContext.resume() *)
| CreateAudioContext                           (* new AudioContext(...) *)
| PlaySound (firstBeat : bool) (time : Q) (volume : Q)   (* playSound({type, time, volume}) *)
| WindowEvent (name : string).

(** The beats handed to the callback, in order. *)
Fixpoint dispatched (es : list Effect) : list (Q * Z) :=
  match es with
  | [] => []
  | Dispatch t b :: es' => (t, b) :: dispatched es'
  | _ :: es' => dispatched es'
  end.

(** ** The scheduler object (audio/scheduler.js) *)

Module Sched.

Inductive ContextState : Type := Running | Suspended | Closed.

(** The host's AudioContext as the scheduler reads it. *)
Record AudioContext : Type := mkContext {
  ctx_state : ContextState;
  currentTime : Q
}.

Record PerformanceStats : Type := mkStats {
  beatsScheduled : Z;
  successfulBeats : Z;
  failedBeats : Z;
  averageLatency : Q;
  totalLatency : Q;
  startTime : option Z
}.

Definition freshStats : PerformanceStats :=
  mkStats 0 0 0 0 0 None.

(** What the scheduler learns from calling the beat callback: [true] when it
    returns, [false] when it throws.  This describes a callback that does not
    call back into the scheduler; [Reentrant] and [Application] below describe
    the ones that do. *)
Definition Callback : Type := Q -> Z -> bool.

Record Scheduler : Type := mkScheduler {
  audioContext : option AudioContext;
  isRunning : bool;
  currentBeat : Z;
  nextBeatTime : Q;
  schedulerCallback : option Callback;
  lastUpdateTime : Z;
  timerID : option Q;          (* handle of the last tick timer: the delay it was armed with *)
  errorCount : Z;
  recoveryTimeout : option Q;  (* handle of the pending recovery timer *)
  performanceStats : PerformanceStats
}.

Definition lookahead : Q := 25.
Definition scheduleAheadTime : Q := 0.2.
Definition minScheduleInterval : Q := 1.
Definition maxScheduleInterval : Q := 100.
Definition maxAllowedErrors : Z := 3.
Definition maxSchedulesPerIteration : nat := 20.

(** The object literal exported by the module. *)
Definition scheduler0 : Scheduler :=
  mkScheduler None false 1 0 None 0 None 0 None freshStats.

(** Field assignments. *)
Definition set_audioContext (v : option AudioContext) (s : Scheduler) : Scheduler :=
  mkScheduler v (isRunning s) (currentBeat s) (nextBeatTime s) (schedulerCallback s)
    (lastUpdateTime s) (timerID s) (errorCount s) (recoveryTimeout s) (performanceStats s).
Definition set_isRunning (v : bool) (s : Scheduler) : Scheduler :=
  mkScheduler (audioContext s) v (currentBeat s) (nextBeatTime s) (schedulerCallback s)
    (lastUpdateTime s) (timerID s) (errorCount s) (recoveryTimeout s) (performanceStats s).
Definition set_currentBeat (v : Z) (s : Scheduler) : Scheduler :=
  mkScheduler (audioContext s) (isRunning s) v (nextBeatTime s) (schedulerCallback s)
    (lastUpdateTime s) (timerID s) (errorCount s) (recoveryTimeout s) (performanceStats s).
Definition set_nextBeatTime (v : Q) (s : Scheduler) : Scheduler :=
  mkScheduler (audioContext s) (isRunning s) (currentBeat s) v (schedulerCallback s)
    (lastUpdateTime s) (timerID s) (errorCount s) (recoveryTimeout s) (performanceStats s).
Definition set_schedulerCallback (v : option Callback) (s : Scheduler) : Scheduler :=
  mkScheduler (audioContext s) (isRunning s) (currentBeat s) (nextBeatTime s) v
    (lastUpdateTime s) (timerID s) (errorCount s) (recoveryTimeout s) (performanceStats s).
Definition set_lastUpdateTime (v : Z) (s : Scheduler) : Scheduler :=
  mkScheduler (audioContext s) (isRunning s) (currentBeat s) (nextBeatTime s) (schedulerCallback s)
    v (timerID s) (errorCount s) (recoveryTimeout s) (performanceStats s).
Definition set_timerID (v : option Q) (s : Scheduler) : Scheduler :=
  mkScheduler (audioContext s) (isRunning s) (currentBeat s) (nextBeatTime s) (schedulerCallback s)
    (lastUpdateTime s) v (errorCount s) (recoveryTimeout s) (performanceStats s).
Definition set_errorCount (v : Z) (s : Scheduler) : Scheduler :=
  mkScheduler (audioContext s) (isRunning s) (currentBeat s) (nextBeatTime s) (schedulerCallback s)
    (lastUpdateTime s) (timerID s) v (recoveryTimeout s) (performanceStats s).
Definition set_recoveryTimeout (v : option Q) (s : Scheduler) : Scheduler :=
  mkScheduler (audioContext s) (isRunning s) (currentBeat s) (nextBeatTime s) (schedulerCallback s)
    (lastUpdateTime s) (timerID s) (errorCount s) v (performanceStats s).
Definition set_performanceStats (v : PerformanceStats) (s : Scheduler) : Scheduler :=
  mkScheduler (audioContext s) (isRunning s) (currentBeat s) (nextBeatTime s) (schedulerCallback s)
    (lastUpdateTime s) (timerID s) (errorCount s) (recoveryTimeout s) v.

(** What [getState()] gives the scheduler: the tempo and the numerator of the
    time signature.  [Date.now()] is read once per tick.  The interval
    [60.0 / state.bpm] is meant for a positive tempo: at [bpm = 0] JavaScript
    yields [Infinity] where [Q] yields [0]. *)
Record TickEnv : Type := mkEnv {
  dateNow : Z;
  st_bpm : Q;
  st_beatNumerator : Z
}.

Definition secondsPerBeat (bpm : Q) : Q := 60 / bpm.

(** [stop()] *)
Definition stop (s : Scheduler) : Scheduler * list Effect :=
  let s1 := set_isRunning false s in
  let '(s2, e2) :=
    match timerID s1 with
    | Some _ => (set_timerID None s1, [ClearTimeout TickTask])
    | None => (s1, [])
    end in
  let '(s3, e3) :=
    match recoveryTimeout s2 with
    | Some _ => (set_recoveryTimeout None s2, [ClearTimeout RecoveryTask])
    | None => (s2, [])
    end in
  (set_errorCount 0 (set_currentBeat 1 (set_schedulerCallback None s3)), (e2 ++ e3)%list).

(** [attemptRecovery()]: arms the recovery timer unless one is pending. *)
Definition attemptRecovery (s : Scheduler) : Scheduler * list Effect :=
  match recoveryTimeout s with
  | Some _ => (s, [])
  | None =>
      (set_recoveryTimeout (Some 1000) s,
       [ConsoleLog "attempting scheduler recovery"; SetTimeout RecoveryTask 1000])
  end.

(** The statistics lines that open the [try] block of the loop body. *)
Definition countScheduled (now : Q) (s : Scheduler) : Scheduler :=
  let p := performanceStats s in
  let latency := nextBeatTime s - now in
  set_performanceStats
    (mkStats (beatsScheduled p + 1) (successfulBeats p) (failedBeats p)
       (averageLatency p) (totalLatency p + Qabs latency) (startTime p)) s.

Definition countSuccess (s : Scheduler) : Scheduler :=
  let p := performanceStats s in
  let n := (successfulBeats p + 1)%Z in
  set_performanceStats
    (mkStats (beatsScheduled p) n (failedBeats p)
       (totalLatency p / inject_Z n) (totalLatency p) (startTime p)) s.

Definition countFailure (s : Scheduler) : Scheduler :=
  let p := performanceStats s in
  set_performanceStats
    (mkStats (beatsScheduled p) (successfulBeats p) (failedBeats p + 1)
       (averageLatency p) (totalLatency p) (startTime p)) s.

(** [nextBeatTime += interval; currentBeat = (currentBeat % beatNumerator) + 1] *)
Definition advanceTimeline (interval : Q) (numerator : Z) (s : Scheduler) : Scheduler :=
  let s1 := set_nextBeatTime (nextBeatTime s + interval) s in
  set_currentBeat (Z.rem (currentBeat s1) numerator + 1) s1.

(** One pass through the body of the [while] loop of [schedulerLoop].  The
    boolean is [true] when the body executed [return] (error threshold). *)
Definition dispatchBeat (interval : Q) (numerator : Z) (now : Q) (s : Scheduler)
  : Scheduler * list Effect * bool :=
  let s1 := countScheduled now s in
  let outcome :=
    match schedulerCallback s1 with
    | Some cb => (cb (nextBeatTime s1) (currentBeat s1),
                  [Dispatch (nextBeatTime s1) (currentBeat s1)])
    | None => (true, [])
    end in
  if fst outcome then
    let s2 := countSuccess s1 in
    let s3 := advanceTimeline interval numerator s2 in
    (set_errorCount 0 s3, snd outcome, false)
  else
    let s2 := set_errorCount (errorCount s1 + 1) s1 in
    let e2 := (snd outcome ++ [HandleAudioError "scheduling beat"])%list in
    if (maxAllowedErrors <=? errorCount s2)%Z then
      let '(s3, e3) := stop s2 in
      let '(s4, e4) := attemptRecovery s3 in
      (s4, (e2 ++ ConsoleWarn "too many errors, stopping scheduler" :: e3 ++ e4)%list, true)
    else
      let s3 := countFailure s2 in
      (advanceTimeline interval numerator s3, e2, false).

(** The [while] loop: [fuel] is [maxSchedulesPerIteration - scheduleCount]. *)
Fixpoint beatLoop (fuel : nat) (interval : Q) (numerator : Z) (now : Q) (s : Scheduler)
  : Scheduler * list Effect * bool :=
  match fuel with
  | O => (s, [], false)
  | S fuel' =>
      if Qltb (nextBeatTime s) (now + scheduleAheadTime) then
        let '(s1, e1, returned) := dispatchBeat interval numerator now s in
        if returned then (s1, e1, true)
        else
          let '(s2, e2, r2) := beatLoop fuel' interval numerator now s1 in
          (s2, (e1 ++ e2)%list, r2)
      else (s, [], false)
  end.

(** The delay of the next tick, in milliseconds. *)
Definition nextDelay (now : Q) (s : Scheduler) : Q :=
  let timeUntilNextSchedule := (nextBeatTime s - now - scheduleAheadTime) * 1000 in
  if Qle_bool timeUntilNextSchedule 0 then 0
  else Qmax minScheduleInterval (Qmin timeUntilNextSchedule maxScheduleInterval).

(** [schedulerLoop()] *)
Definition schedulerLoop (env : TickEnv) (s : Scheduler) : Scheduler * list Effect :=
  if negb (isRunning s) then (s, [])
  else if negb (lastUpdateTime s =? 0)%Z
          && Qltb (inject_Z (dateNow env - lastUpdateTime s)) minScheduleInterval
  then (set_timerID (Some minScheduleInterval) s, [SetTimeout TickTask minScheduleInterval])
  else
    let s0 := set_lastUpdateTime (dateNow env) s in
    let interval := secondsPerBeat (st_bpm env) in
    match audioContext s0 with
    | None =>
        let '(s1, e1) := stop s0 in
        (s1, HandleAudioError "audio context closed" :: e1)
    | Some ctx =>
        match ctx_state ctx with
        | Closed =>
            let '(s1, e1) := stop s0 in
            (s1, HandleAudioError "audio context closed" :: e1)
        | Suspended =>
            (set_timerID (Some 50) s0, [ResumeAudio; SetTimeout TickTask 50])
        | Running =>
            let now := currentTime ctx in
            let '(s1, e1, returned) :=
              beatLoop maxSchedulesPerIteration interval (st_beatNumerator env) now s0 in
            if returned then (s1, e1)
            else
              let scheduleTime := nextDelay now s1 in
              if isRunning s1
              then (set_timerID (Some scheduleTime) s1,
                    (e1 ++ [SetTimeout TickTask scheduleTime])%list)
              else (s1, e1)
        end
    end.

(** [start(callback)]; [None] stands for an argument that is not a function.
    [now_ms] is what [Date.now()] returns inside [start], [env] what the first
    [schedulerLoop()] call reads. *)
Definition start (callback : option Callback) (now_ms : Z) (env : TickEnv) (s : Scheduler)
  : bool * Scheduler * list Effect :=
  match audioContext s with
  | None => (false, s, [HandleAudioError "scheduler start"])
  | Some ctx =>
      if isRunning s then (true, s, [ConsoleWarn "scheduler already running"])
      else
        match callback with
        | None => (false, s, [HandleAudioError "validating scheduler callback"])
        | Some cb =>
            let s1 := set_schedulerCallback (Some cb) s in
            let s2 := set_isRunning true s1 in
            let s3 := set_currentBeat 1 s2 in
            let s4 := set_errorCount 0 s3 in
            let p := performanceStats s4 in
            let s5 := set_performanceStats
                        (mkStats (beatsScheduled p) (successfulBeats p) (failedBeats p)
                           (averageLatency p) (totalLatency p) (Some now_ms)) s4 in
            let s6 := set_nextBeatTime (currentTime ctx + 0.2) s5 in
            let s7 := set_lastUpdateTime now_ms s6 in
            let '(s8, e8) := schedulerLoop env s7 in
            (true, s8, e8)
        end
  end.

(** [updateInterval()]: re-anchors the next beat 150 ms after the clock. *)
Definition updateInterval (s : Scheduler) : bool * Scheduler * list Effect :=
  match audioContext s with
  | Some ctx => (true, set_nextBeatTime (currentTime ctx + 0.15) s, [])
  | None => (false, s, [HandleAudioError "updating schedule interval"])
  end.

(** [reset()] *)
Definition reset (s : Scheduler) : Scheduler * list Effect :=
  let '(s1, e1) := stop s in
  let s2 := set_audioContext None s1 in
  let s3 := set_nextBeatTime 0 s2 in
  let s4 := set_lastUpdateTime 0 s3 in
  (set_performanceStats freshStats s4, (e1 ++ [ConsoleLog "scheduler reset"])%list).

(** What the host does when [init()] asks for a new AudioContext: the
    constructor throws, or a context is created; a context created suspended
    is resumed, which may fail. *)
Inductive InitOutcome : Type :=
| ConstructorThrows
| Created (st : ContextState) (time : Q) (resumeOk : bool).

(** [init()]; the boolean is [false] when the promise is rejected. *)
Definition init (io : InitOutcome) (s : Scheduler) : bool * Scheduler * list Effect :=
  match audioContext s with
  | Some _ => (true, s, [ConsoleWarn "scheduler already initialised"])
  | None =>
      let s1 := set_performanceStats freshStats s in
      match io with
      | ConstructorThrows =>
          (false, s1, [CreateAudioContext; HandleAudioError "initialising scheduler"])
      | Created Suspended t ok =>
          let st := if ok then Running else Suspended in
          (true, set_audioContext (Some (mkContext st t)) s1,
           [CreateAudioContext; ResumeAudio] ++
           (if ok then [] else [ConsoleWarn "resume failed, continuing"]) ++
           [ConsoleLog "scheduler initialised"])%list
      | Created st t _ =>
          (true, set_audioContext (Some (mkContext st t)) s1,
           [CreateAudioContext; ConsoleLog "scheduler initialised"])
      end
  end.

(** The closure armed by [attemptRecovery], run when its timer fires. *)
Definition needsInit (s : Scheduler) : bool :=
  match audioContext s with
  | None => true
  | Some ctx => match ctx_state ctx with Closed => true | _ => false end
  end.

Definition recoveryTimerFired (io : InitOutcome) (s : Scheduler) : Scheduler * list Effect :=
  let s1 := set_errorCount 0 s in
  if needsInit s1 then
    let '(ok, s2, e2) := init io s1 in
    if ok then
      (set_recoveryTimeout None s2, (e2 ++ [ConsoleLog "recovery attempt finished"])%list)
    else
      (set_recoveryTimeout None s2,
       (e2 ++ [HandleAudioError "scheduler recovery"; ConsoleWarn "scheduler recovery failed"])%list)
  else
    (set_recoveryTimeout None s1, [ConsoleLog "recovery attempt finished"]).

(** The [onstatechange] listener installed by [init()]. *)
Definition onstatechange (st : ContextState) (s : Scheduler) : Scheduler * list Effect :=
  let s1 := match audioContext s with
            | Some ctx => set_audioContext (Some (mkContext st (currentTime ctx))) s
            | None => s
            end in
  match st with
  | Closed =>
      let '(s2, e2) := reset s1 in
      (s2, ConsoleLog "audio context state changed" :: e2)
  | _ => (s1, [ConsoleLog "audio context state changed"])
  end.

End Sched.

(** ** Driving the scheduler: timer ticks, realignment and host events *)

Module Trace.
Import Sched.

Inductive Event : Type :=
| Tick (env : TickEnv)                      (* the tick timer fires: schedulerLoop() *)
| Realign                                   (* scheduler.updateInterval(), as setBPM calls it *)
| ClockAdvance (t : Q)                      (* audioContext.currentTime now reads t *)
| ContextStateChange (st : ContextState).   (* the context fires onstatechange *)

Definition set_clock (t : Q) (s : Scheduler) : Scheduler :=
  match audioContext s with
  | Some ctx => set_audioContext (Some (mkContext (ctx_state ctx) t)) s
  | None => s
  end.

Definition step (ev : Event) (s : Scheduler) : Scheduler * list Effect :=
  match ev with
  | Tick env => schedulerLoop env s
  | Realign => let '(_, s1, e1) := updateInterval s in (s1, e1)
  | ClockAdvance t => (set_clock t s, [])
  | ContextStateChange st => onstatechange st s
  end.

Fixpoint run (evs : list Event) (s : Scheduler) : Scheduler * list Effect :=
  match evs with
  | [] => (s, [])
  | ev :: evs' =>
      let '(s1, e1) := step ev s in
      let '(s2, e2) := run evs' s1 in
      (s2, (e1 ++ e2)%list)
  end.

(** The throttle test at the top of [schedulerLoop]. *)
Definition throttled (env : TickEnv) (s : Scheduler) : bool :=
  negb (lastUpdateTime s =? 0)%Z
  && Qltb (inject_Z (dateNow env - lastUpdateTime s)) minScheduleInterval.

End Trace.

(** ** Beat callbacks that call back into the scheduler

    The callback the application installs, [scheduleBeat], dispatches the
    ['metronome:beat'] event synchronously.  A listener of that event (the
    training session is one) may call [setBPM] or [setTimeSignature], which
    call [scheduler.updateInterval()] on a running metronome, or
    [stopMetronome], which calls [scheduler.stop()], while the [while] loop of
    [schedulerLoop] is still running.  [Sched.Callback] only says whether the
    callback returns; here every invocation also comes with the scheduler
    methods it calls, in order.  No listener in the sources calls [start] or
    [reset] from a beat event.  The audio clock does not move during one
    synchronous call of [schedulerLoop]. *)

Module Reentrant.
Import Sched.

Inductive Reentry : Type :=
| CallUpdateInterval     (* scheduler.updateInterval() *)
| CallStop.              (* scheduler.stop() *)

(** The calls made by the first, second, ... invocation of the callback; an
    invocation past the end of the script makes none. *)
Definition Script : Type := list (list Reentry).

Definition reenter (call : Reentry) (s : Scheduler) : Scheduler * list Effect :=
  match call with
  | CallUpdateInterval => let '(_, s1, e1) := updateInterval s in (s1, e1)
  | CallStop => stop s
  end.

Fixpoint reenterAll (calls : list Reentry) (s : Scheduler) : Scheduler * list Effect :=
  match calls with
  | [] => (s, [])
  | call :: rest =>
      let '(s1, e1) := reenter call s in
      let '(s2, e2) := reenterAll rest s1 in
      (s2, (e1 ++ e2)%list)
  end.

(** One pass through the body of the [while] loop, the callback making
    [calls] before it returns or throws.  The statements after the callback
    read the fields as the calls left them. *)
Definition dispatchBeat (calls : list Reentry) (interval : Q) (numerator : Z) (now : Q)
    (s : Scheduler) : Scheduler * list Effect * bool :=
  let s1 := countScheduled now s in
  let '(outcome, s1', e1) :=
    match schedulerCallback s1 with
    | Some cb =>
        let '(s', ec) := reenterAll calls s1 in
        (cb (nextBeatTime s1) (currentBeat s1), s',
         Dispatch (nextBeatTime s1) (currentBeat s1) :: ec)
    | None => (true, s1, [])
    end in
  if outcome then
    let s2 := countSuccess s1' in
    let s3 := advanceTimeline interval numerator s2 in
    (set_errorCount 0 s3, e1, false)
  else
    let s2 := set_errorCount (errorCount s1' + 1) s1' in
    let e2 := (e1 ++ [HandleAudioError "scheduling beat"])%list in
    if (maxAllowedErrors <=? errorCount s2)%Z then
      let '(s3, e3) := stop s2 in
      let '(s4, e4) := attemptRecovery s3 in
      (s4, (e2 ++ ConsoleWarn "too many errors, stopping scheduler" :: e3 ++ e4)%list, true)
    else
      let s3 := countFailure s2 in
      (advanceTimeline interval numerator s3, e2, false).

(** The calls of the next invocation, and the script that is left: a pass
    that finds no callback installed invokes nothing. *)
Definition nextCalls (script : Script) (s : Scheduler) : list Reentry * Script :=
  match schedulerCallback s, script with
  | Some _, calls :: rest => (calls, rest)
  | _, _ => ([], script)
  end.

(** The [while] loop; the script that is left is returned as well. *)
Fixpoint beatLoop (fuel : nat) (script : Script) (interval : Q) (numerator : Z) (now : Q)
    (s : Scheduler) : Scheduler * list Effect * bool * Script :=
  match fuel with
  | O => (s, [], false, script)
  | S fuel' =>
      if Qltb (nextBeatTime s) (now + scheduleAheadTime) then
        let '(calls, script1) := nextCalls script s in
        let '(s1, e1, returned) := dispatchBeat calls interval numerator now s in
        if returned then (s1, e1, true, script1)
        else
          let '(s2, e2, r2, script2) := beatLoop fuel' script1 interval numerator now s1 in
          (s2, (e1 ++ e2)%list, r2, script2)
      else (s, [], false, script)
  end.

(** [schedulerLoop()] *)
Definition schedulerLoop (env : TickEnv) (script : Script) (s : Scheduler)
  : Scheduler * list Effect * Script :=
  if negb (isRunning s) then (s, [], script)
  else if negb (lastUpdateTime s =? 0)%Z
          && Qltb (inject_Z (dateNow env - lastUpdateTime s)) minScheduleInterval
  then (set_timerID (Some minScheduleInterval) s, [SetTimeout TickTask minScheduleInterval],
        script)
  else
    let s0 := set_lastUpdateTime (dateNow env) s in
    let interval := secondsPerBeat (st_bpm env) in
    match audioContext s0 with
    | None =>
        let '(s1, e1) := stop s0 in
        (s1, HandleAudioError "audio context closed" :: e1, script)
    | Some ctx =>
        match ctx_state ctx with
        | Closed =>
            let '(s1, e1) := stop s0 in
            (s1, HandleAudioError "audio context closed" :: e1, script)
        | Suspended =>
            (set_timerID (Some 50) s0, [ResumeAudio; SetTimeout TickTask 50], script)
        | Running =>
            let now := currentTime ctx in
            let '(s1, e1, returned, script1) :=
              beatLoop maxSchedulesPerIteration script interval (st_beatNumerator env) now s0 in
            if returned then (s1, e1, script1)
            else
              let scheduleTime := nextDelay now s1 in
              if isRunning s1
              then (set_timerID (Some scheduleTime) s1,
                    (e1 ++ [SetTimeout TickTask scheduleTime])%list, script1)
              else (s1, e1, script1)
        end
    end.

(** The events of [Trace], the callback following the script. *)
Definition step (ev : Trace.Event) (script : Script) (s : Scheduler)
  : Scheduler * list Effect * Script :=
  match ev with
  | Trace.Tick env => schedulerLoop env script s
  | _ => let '(s1, e1) := Trace.step ev s in (s1, e1, script)
  end.

Fixpoint run (evs : list Trace.Event) (script : Script) (s : Scheduler)
  : Scheduler * list Effect * Script :=
  match evs with
  | [] => (s, [], script)
  | ev :: evs' =>
      let '(s1, e1, script1) := step ev script s in
      let '(s2, e2, script2) := run evs' script1 s1 in
      (s2, (e1 ++ e2)%list, script2)
  end.

(** No invocation of the script realigns the timeline. *)
Definition noRealign (script : Script) : Prop :=
  Forall (fun calls => ~ In CallUpdateInterval calls) script.

End Reentrant.

(** ** JavaScript numbers with their special values *)

Module Js.

Inductive num : Type :=
| Fin (q : Q)
| NaN
| PosInf
| NegInf.

(** An argument as a caller may pass it: a number, or something whose
    [typeof] is not ['number']. *)
Inductive value : Type :=
| Number (n : num)
| NotNumber.

(** [a < b]: false as soon as one side is [NaN]. *)
Definition lt (a b : num) : bool :=
  match a, b with
  | NaN, _ | _, NaN => false
  | Fin x, Fin y => Qltb x y
  | Fin _, PosInf => true
  | Fin _, NegInf => false
  | PosInf, _ => false
  | NegInf, NegInf => false
  | NegInf, _ => true
  end.

(** [a > b] *)
Definition gt (a b : num) : bool := lt b a.

(** [a >= b] and [a <= b] *)
Definition le (a b : num) : bool :=
  match a, b with
  | NaN, _ | _, NaN => false
  | Fin x, Fin y => Qle_bool x y
  | Fin _, PosInf => true
  | Fin _, NegInf => false
  | PosInf, PosInf => true
  | PosInf, _ => false
  | NegInf, _ => true
  end.
Definition ge (a b : num) : bool := le b a.

(** [Math.max] and [Math.min] of two arguments. *)
Definition max (a b : num) : num :=
  match a, b with
  | NaN, _ | _, NaN => NaN
  | _, _ => if lt a b then b else a
  end.

Definition min (a b : num) : num :=
  match a, b with
  | NaN, _ | _, NaN => NaN
  | _, _ => if lt b a then b else a
  end.

(** [x || 0] on a number: [NaN] and zero are falsy. *)
Definition orZero (x : num) : num :=
  match x with
  | NaN => Fin 0
  | _ => x
  end.

(** [Math.abs] *)
Definition abs (x : num) : num :=
  match x with
  | Fin q => Fin (Qabs q)
  | NaN => NaN
  | _ => PosInf
  end.

(** [Math.round]: the nearest integer, halves upwards. *)
Definition round (x : num) : num :=
  match x with
  | Fin q => Fin (inject_Z (Qfloor (q + (1 # 2))))
  | _ => x
  end.

(** [x * c] and [x / c] for a positive finite constant [c]. *)
Definition times (x : num) (c : Q) : num :=
  match x with Fin q => Fin (q * c) | _ => x end.
Definition over (x : num) (c : Q) : num :=
  match x with Fin q => Fin (q / c) | _ => x end.

(** [a - b] with a finite left operand. *)
Definition minus (a : Q) (b : num) : num :=
  match b with
  | Fin q => Fin (a - q)
  | NaN => NaN
  | PosInf => NegInf
  | NegInf => PosInf
  end.

(** A number after [JSON.parse(JSON.stringify(_))]: the non-finite ones come
    back as [null]. *)
Inductive json : Type :=
| JNum (q : Q)
| JNull.

Definition toJSON (x : num) : json :=
  match x with Fin q => JNum q | _ => JNull end.

(** [null] in arithmetic is 0. *)
Definition jsonToQ (j : json) : Q :=
  match j with JNum q => q | JNull => 0 end.

(** [j === x] for a value read back from JSON and a number. *)
Definition strictEq (j : json) (x : num) : bool :=
  match j, x with
  | JNum a, Fin b => Qeq_bool a b
  | _, _ => false
  end.

(** [a / j] for a finite [a] and a value read back from JSON. *)
Definition divide (a : Q) (j : json) : num :=
  let d := jsonToQ j in
  if Qeq_bool d 0
  then (if Qeq_bool a 0 then NaN else if Qltb 0 a then PosInf else NegInf)
  else Fin (a / d).

(** [Math.floor] *)
Definition floor (x : num) : num :=
  match x with Fin q => Fin (inject_Z (Qfloor q)) | _ => x end.

(** [list.includes(v)] on a list of finite numbers. *)
Definition includes (l : list Q) (v : value) : bool :=
  match v with
  | Number (Fin q) => existsb (Qeq_bool q) l
  | _ => false
  end.

End Js.

(** ** Configuration (utils/config.js) and application state (utils/state.js) *)

Module Config.

Record Config : Type := mkConfig {
  minBPM : Q;
  maxBPM : Q;
  minBeatNumerator : Q;
  maxBeatNumerator : Q;
  validDenominators : list Q
}.

(** The [CONFIG] object as shipped. *)
Definition CONFIG : Config := mkConfig 40 300 1 16 [1; 2; 4; 8; 16].

End Config.

Module State.
Import Js.

Record AppState : Type := mkState {
  bpm : num;
  beatNumerator : num;
  beatDenominator : num;
  volume : num;
  isRunning : bool;
  currentBeat : num;
  currentBar : num
}.

(** The initial [state] object. *)
Definition state0 : AppState :=
  mkState (Fin 120) (Fin 4) (Fin 4) (Fin 50) false (Fin 0) (Fin 0).

(** [updateState({ ... })] for the keys the metronome writes. *)
Definition update_bpm (v : num) (a : AppState) : AppState :=
  mkState v (beatNumerator a) (beatDenominator a) (volume a) (isRunning a)
    (currentBeat a) (currentBar a).
Definition update_isRunning (v : bool) (a : AppState) : AppState :=
  mkState (bpm a) (beatNumerator a) (beatDenominator a) (volume a) v
    (currentBeat a) (currentBar a).
Definition update_position (beat bar : num) (a : AppState) : AppState :=
  mkState (bpm a) (beatNumerator a) (beatDenominator a) (volume a) (isRunning a) beat bar.
Definition update_signature (n d : num) (a : AppState) : AppState :=
  mkState (bpm a) n d (volume a) (isRunning a) (Fin 0) (Fin 0).

(** What the scheduler computes with after [getState()].  The scheduler is
    modelled on rational tempi and integer numerators: a tempo that is not a
    finite number reads as [0] here (JavaScript divides by [null] and gets
    [Infinity]) and a numerator is rounded down to an integer. *)
Definition readTempo (a : AppState) : Q := jsonToQ (toJSON (bpm a)).
Definition readNumerator (a : AppState) : Z := Qfloor (jsonToQ (toJSON (beatNumerator a))).

End State.

(** ** The metronome module (core/metronome.js, functional version) *)

Module Metronome.
Import Js Config State.

Record MetronomeState : Type := mkMetro {
  isInitialized : bool;
  totalBeats : Z;
  totalRuntime : Z;
  lastStartTime : Z;
  avgBeatInterval : num
}.

(** Everything the module's functions read or write: the application state,
    the scheduler object, the module's own state, whether the sound buffers
    are loaded, and the toggle lock with the due times (ms) of its pending
    unlock timers. *)
Record World : Type := mkWorld {
  app : AppState;
  sched : Sched.Scheduler;
  metro : MetronomeState;
  soundsReady : bool;
  toggleLock : bool;
  lockTimers : list Z
}.

Definition TOGGLE_LOCK_DURATION : Z := 300.

Definition with_app (a : AppState) (w : World) : World :=
  mkWorld a (sched w) (metro w) (soundsReady w) (toggleLock w) (lockTimers w).
Definition with_sched (s : Sched.Scheduler) (w : World) : World :=
  mkWorld (app w) s (metro w) (soundsReady w) (toggleLock w) (lockTimers w).
Definition with_metro (m : MetronomeState) (w : World) : World :=
  mkWorld (app w) (sched w) m (soundsReady w) (toggleLock w) (lockTimers w).
Definition with_lock (l : bool) (timers : list Z) (w : World) : World :=
  mkWorld (app w) (sched w) (metro w) (soundsReady w) l timers.

Definition world0 : World :=
  mkWorld state0 Sched.scheduler0 (mkMetro false 0 0 0 (Fin 0)) false false [].

(** [isAudioReady()] of the sound module. *)
Definition isAudioReady (w : World) : bool :=
  soundsReady w &&
  match Sched.audioContext (sched w) with
  | Some ctx => match Sched.ctx_state ctx with Sched.Closed => false | _ => true end
  | None => false
  end.

(** [scheduleBeat(beatTime, beatNumber)]: the callback given to the
    scheduler.  Its body sits in a [try] whose handler only logs, so the
    scheduler always sees it return. *)
Definition scheduleBeat (beatTime : Q) (beatNumber : Z) (w : World) : World * list Effect :=
  let state := app w in
  let isFirstBeat := (beatNumber =? 1)%Z in
  let m := metro w in
  let total := (totalBeats m + 1)%Z in
  let newBar := floor (divide (inject_Z (beatNumber - 1)) (toJSON (beatNumerator state))) in
  let avg := if (1 <? total)%Z then divide 60000 (toJSON (bpm state)) else avgBeatInterval m in
  let w1 := with_metro (mkMetro (isInitialized m) total (totalRuntime m) (lastStartTime m) avg) w in
  (with_app (update_position (Fin (inject_Z beatNumber)) newBar (app w1)) w1,
   [PlaySound isFirstBeat beatTime (jsonToQ (toJSON (volume state)) / 100);
    WindowEvent "metronome:beat"]).

Definition scheduleBeatOutcome : Sched.Callback := fun _ _ => true.

(** The effects of the beats a scheduler call handed to [scheduleBeat]. *)
Fixpoint deliver (beats : list (Q * Z)) (w : World) : World * list Effect :=
  match beats with
  | [] => (w, [])
  | (t, b) :: rest =>
      let '(w1, e1) := scheduleBeat t b w in
      let '(w2, e2) := deliver rest w1 in
      (w2, (e1 ++ e2)%list)
  end.

Definition tickEnv (now_ms : Z) (w : World) : Sched.TickEnv :=
  Sched.mkEnv now_ms (readTempo (app w)) (readNumerator (app w)).

(** The audio clock moves to [t]. *)
Definition advanceClock (t : Q) (w : World) : World :=
  with_sched (Trace.set_clock t (sched w)) w.

(** The start times asked of [playSound], in order. *)
Fixpoint played (es : list Effect) : list Q :=
  match es with
  | [] => []
  | PlaySound _ t _ :: es' => t :: played es'
  | _ :: es' => played es'
  end.

(** The [catch] block of [startMetronome]. *)
Definition startFailed (w : World) : bool * World * list Effect :=
  (false, with_app (update_isRunning false (app w)) w,
   [HandleAudioError "starting metronome"; WindowEvent "metronome:startFailed"]).

(** [startMetronome()] *)
Definition startMetronome (now_ms : Z) (w : World) : bool * World * list Effect :=
  if negb (isInitialized (metro w)) then startFailed w
  else if negb (isAudioReady w) then startFailed w
  else if isRunning (app w) then (false, w, [ConsoleWarn "metronome already running"])
  else
    let m := metro w in
    let w1 := with_metro (mkMetro (isInitialized m) 0 (totalRuntime m) now_ms
                            (avgBeatInterval m)) w in
    let w2 := with_app (update_isRunning true (app w1)) w1 in
    let '(started, s', es) :=
      Sched.start (Some scheduleBeatOutcome) now_ms (tickEnv now_ms w2) (sched w2) in
    let '(w3, e3) := deliver (dispatched es) (with_sched s' w2) in
    if started
    then (true, w3, (es ++ e3 ++ [WindowEvent "metronome:started"])%list)
    else
      let '(r, w4, e4) := startFailed w3 in
      (r, w4, (es ++ e3 ++ e4)%list).

(** [stopMetronome()] *)
Definition stopMetronome (now_ms : Z) (w : World) : bool * World * list Effect :=
  if negb (isRunning (app w))
  then (false, w, [ConsoleWarn "metronome is not running"])
  else
    let m := metro w in
    let m1 := if (0 <? lastStartTime m)%Z
              then mkMetro (isInitialized m) (totalBeats m)
                     (totalRuntime m + (now_ms - lastStartTime m)) (lastStartTime m)
                     (avgBeatInterval m)
              else m in
    let '(s', es) := Sched.stop (sched w) in
    let w1 := with_sched s' (with_metro m1 w) in
    let a1 := update_position (Fin 0) (Fin 0) (update_isRunning false (app w1)) in
    (true, with_app a1 w1,
     (es ++ [ConsoleWarn "scheduler stop may have failed"; WindowEvent "metronome:stopped"])%list).

(** [toggleMetronome()], called when the host clock reads [now_ms]. *)
Definition toggleMetronome (now_ms : Z) (w : World) : bool * World * list Effect :=
  if toggleLock w
  then (false, w, [ConsoleWarn "toggle blocked by the debounce lock"])
  else
    let w1 := with_lock true (lockTimers w ++ [now_ms + TOGGLE_LOCK_DURATION])%Z w in
    let e1 := [SetTimeout ToggleUnlockTask (inject_Z TOGGLE_LOCK_DURATION);
               ConsoleLog "toggleMetronome called"] in
    let '(r, w2, e2) :=
      if isRunning (app w1) then stopMetronome now_ms w1 else startMetronome now_ms w1 in
    (r, w2, (e1 ++ e2)%list).

(** The host runs the oldest pending unlock timer at [now_ms]; a timer never
    runs before it is due. *)
Definition fireUnlock (now_ms : Z) (w : World) : World :=
  match lockTimers w with
  | due :: rest => if (due <=? now_ms)%Z then with_lock false rest w else w
  | [] => w
  end.

(** [setBPM(newBPM)].  The test for an unchanged value,
    [Math.abs(state.bpm - clampedBPM) < 0.1], is made on the rationals here.
    In IEEE doubles [Math.round(x * 10) / 10] is the double nearest to the
    tenth, so for two values one tenth apart (120 and 120.1) the difference
    can come out just below 0.1 and the call then stores nothing; what is
    proved about the outcome of this test leaves that step open. *)
Definition setBPM (cfg : Config) (newBPM : value) (w : World) : bool * World * list Effect :=
  match newBPM with
  | NotNumber => (false, w, [HandleConfigError "setting BPM"])
  | Number n =>
      if lt n (Fin (minBPM cfg)) || gt n (Fin (maxBPM cfg))
      then (false, w, [HandleConfigError "setting BPM"])
      else
        let clampedBPM := over (round (times n 10)) 10 in
        let state := app w in
        if lt (abs (minus (jsonToQ (toJSON (bpm state))) clampedBPM)) (Fin 0.1)
        then (true, w, [])
        else
          let w1 := with_app (update_bpm clampedBPM (app w)) w in
          let '(w2, e2) :=
            if isRunning state
            then
              let '(ok, s', es) := Sched.updateInterval (sched w1) in
              (with_sched s' w1,
               (es ++ (if ok then [] else [ConsoleWarn "updating scheduler interval failed"]))%list)
            else (w1, []) in
          (true, w2, (e2 ++ [WindowEvent "metronome:bpmChanged"])%list)
  end.

(** [setTimeSignature(numerator, denominator)] *)
Definition setTimeSignature (cfg : Config) (numerator denominator : value) (w : World)
  : bool * World * list Effect :=
  match numerator with
  | NotNumber => (false, w, [HandleConfigError "setting time signature"])
  | Number n =>
      if lt n (Fin (minBeatNumerator cfg)) || gt n (Fin (maxBeatNumerator cfg))
      then (false, w, [HandleConfigError "setting time signature"])
      else if negb (includes (validDenominators cfg) denominator)
      then (false, w, [HandleConfigError "setting time signature"])
      else
        match denominator with
        | NotNumber => (false, w, [HandleConfigError "setting time signature"])
        | Number d =>
            let state := app w in
            if strictEq (toJSON (beatNumerator state)) n
               && strictEq (toJSON (beatDenominator state)) d
            then (true, w, [])
            else
              let w1 := with_app (update_signature n d (app w)) w in
              let '(w2, e2) :=
                if isRunning state
                then let '(_, s', es) := Sched.updateInterval (sched w1) in (with_sched s' w1, es)
                else (w1, []) in
              (true, w2, (e2 ++ [WindowEvent "metronome:timeSignatureChanged"])%list)
        end
  end.

(** [isValidTimeSignature(numerator, denominator)] of utils/helpers.js, the
    check the controls run before calling the setter. *)
Definition isValidTimeSignature (cfg : Config) (numerator denominator : value) : bool :=
  match numerator, denominator with
  | Number n, Number _ =>
      ge n (Fin (minBeatNumerator cfg)) && le n (Fin (maxBeatNumerator cfg))
      && includes (validDenominators cfg) denominator
  | _, _ => false
  end.

(** [isValidBPM(bpm)] of utils/helpers.js. *)
Definition isValidBPM (cfg : Config) (v : value) : bool :=
  match v with
  | Number n => ge n (Fin (minBPM cfg)) && le n (Fin (maxBPM cfg))
  | NotNumber => false
  end.

End Metronome.

(** ** The scheduler's loop inside the application

    [startMetronome] hands [scheduleBeat] to [scheduler.start], so in the
    application the callback the loop invokes is [scheduleBeat].  It catches
    its own errors, and its last statement dispatches ['metronome:beat'] to
    the listeners synchronously.  The training session is a listener that calls [setBPM],
    [setTimeSignature] and [stopMetronome] from that event, while the [while]
    loop of [schedulerLoop] is still running: the statements after the
    callback then work on the scheduler as those calls left it. *)

Module Application.
Import Js Config State Metronome.

Inductive ListenerCall : Type :=
| ListenerSetBPM (newBPM : value)                            (* setBPM(segment.bpm) *)
| ListenerSetTimeSignature (numerator denominator : value)   (* setTimeSignature(segment.beats, 4) *)
| ListenerStopMetronome.                                     (* stopMetronome() *)

(** The calls the listeners make at the first, second, ... beat event; at an
    event past the end of the list they make none. *)
Definition Listeners : Type := list (list ListenerCall).

Definition listenerCall (cfg : Config) (now_ms : Z) (call : ListenerCall) (w : World)
  : World * list Effect :=
  match call with
  | ListenerSetBPM newBPM => let '(_, w1, e1) := setBPM cfg newBPM w in (w1, e1)
  | ListenerSetTimeSignature numerator denominator =>
      let '(_, w1, e1) := setTimeSignature cfg numerator denominator w in (w1, e1)
  | ListenerStopMetronome => let '(_, w1, e1) := stopMetronome now_ms w in (w1, e1)
  end.

Fixpoint listenerCalls (cfg : Config) (now_ms : Z) (calls : list ListenerCall) (w : World)
  : World * list Effect :=
  match calls with
  | [] => (w, [])
  | call :: rest =>
      let '(w1, e1) := listenerCall cfg now_ms call w in
      let '(w2, e2) := listenerCalls cfg now_ms rest w1 in
      (w2, (e1 ++ e2)%list)
  end.

(** [scheduleBeat(beatTime, beatNumber)] with the listeners of its event. *)
Definition beatCallback (cfg : Config) (now_ms : Z) (calls : list ListenerCall)
    (beatTime : Q) (beatNumber : Z) (w : World) : World * list Effect :=
  let '(w1, e1) := scheduleBeat beatTime beatNumber w in
  let '(w2, e2) := listenerCalls cfg now_ms calls w1 in
  (w2, (e1 ++ e2)%list).

(** One pass through the body of the [while] loop of [schedulerLoop]; the
    callback returns, so the pass ends in the [try] block. *)
Definition dispatchBeat (cfg : Config) (now_ms : Z) (listeners : Listeners)
    (interval : Q) (numerator : Z) (now : Q) (w : World) : World * list Effect * Listeners :=
  let s1 := Sched.countScheduled now (sched w) in
  let '(w1, e1, rest) :=
    match Sched.schedulerCallback s1 with
    | Some _ =>
        let '(w', e') :=
          beatCallback cfg now_ms (hd [] listeners) (Sched.nextBeatTime s1)
            (Sched.currentBeat s1) (with_sched s1 w) in
        (w', Dispatch (Sched.nextBeatTime s1) (Sched.currentBeat s1) :: e', tl listeners)
    | None => (with_sched s1 w, [], listeners)
    end in
  let s2 := Sched.countSuccess (sched w1) in
  let s3 := Sched.advanceTimeline interval numerator s2 in
  (with_sched (Sched.set_errorCount 0 s3) w1, e1, rest).

(** The [while] loop: [fuel] is [maxSchedulesPerIteration - scheduleCount]. *)
Fixpoint beatLoop (cfg : Config) (now_ms : Z) (fuel : nat) (listeners : Listeners)
    (interval : Q) (numerator : Z) (now : Q) (w : World) : World * list Effect * Listeners :=
  match fuel with
  | O => (w, [], listeners)
  | S fuel' =>
      if Qltb (Sched.nextBeatTime (sched w)) (now + Sched.scheduleAheadTime) then
        let '(w1, e1, rest) := dispatchBeat cfg now_ms listeners interval numerator now w in
        let '(w2, e2, rest2) := beatLoop cfg now_ms fuel' rest interval numerator now w1 in
        (w2, (e1 ++ e2)%list, rest2)
      else (w, [], listeners)
  end.

(** What the loop body does with the tempo and the numerator of the state
    stays on the rational timeline when the tempo is a finite number other
    than 0 and the numerator a whole number other than 0.  With any other
    tempo [60 / state.bpm] is [Infinity] (the state is copied through JSON,
    where [NaN] and the infinities become [null]) and so is [nextBeatTime]
    after the first beat; with any other numerator
    [currentBeat % state.beatNumerator] is not an integer. *)
Definition readable (a : AppState) : bool :=
  match bpm a, beatNumerator a with
  | Fin q, Fin n =>
      negb (Qeq_bool q 0) && Qeq_bool (inject_Z (Qfloor n)) n && negb (Qeq_bool n 0)
  | _, _ => false
  end.

(** A tick of the scheduler inside the application: [schedulerLoop()] when
    [Date.now()] reads [now_ms].  The result is [None] when the loop body
    would run with a tempo or a numerator that is not [readable]: the
    scheduler's fields then leave the numbers of this model. *)
Definition tick (cfg : Config) (now_ms : Z) (listeners : Listeners) (w : World)
  : option (World * list Effect * Listeners) :=
  let s := sched w in
  let env := tickEnv now_ms w in
  if negb (Sched.isRunning s) then Some (w, [], listeners)
  else if Trace.throttled env s
  then Some (with_sched (Sched.set_timerID (Some Sched.minScheduleInterval) s) w,
             [SetTimeout TickTask Sched.minScheduleInterval], listeners)
  else
    let s0 := Sched.set_lastUpdateTime now_ms s in
    let interval := Sched.secondsPerBeat (Sched.st_bpm env) in
    match Sched.audioContext s0 with
    | None =>
        let '(s1, e1) := Sched.stop s0 in
        Some (with_sched s1 w, HandleAudioError "audio context closed" :: e1, listeners)
    | Some ctx =>
        match Sched.ctx_state ctx with
        | Sched.Closed =>
            let '(s1, e1) := Sched.stop s0 in
            Some (with_sched s1 w, HandleAudioError "audio context closed" :: e1, listeners)
        | Sched.Suspended =>
            Some (with_sched (Sched.set_timerID (Some 50) s0) w,
                  [ResumeAudio; SetTimeout TickTask 50], listeners)
        | Sched.Running =>
            let now := Sched.currentTime ctx in
            if Qltb (Sched.nextBeatTime s0) (now + Sched.scheduleAheadTime)
               && negb (readable (app w))
            then None
            else
              let '(w1, e1, rest) :=
                beatLoop cfg now_ms Sched.maxSchedulesPerIteration listeners interval
                  (Sched.st_beatNumerator env) now (with_sched s0 w) in
              let scheduleTime := Sched.nextDelay now (sched w1) in
              if Sched.isRunning (sched w1)
              then Some (with_sched (Sched.set_timerID (Some scheduleTime) (sched w1)) w1,
                         (e1 ++ [SetTimeout TickTask scheduleTime])%list, rest)
              else Some (w1, e1, rest)
        end
    end.

(** The callback stored in the scheduler returns, as [scheduleBeat] does. *)
Definition callbackReturns (s : Sched.Scheduler) : Prop :=
  forall cb, Sched.schedulerCallback s = Some cb -> forall t b, cb t b = true.

End Application.

(** ** Gain automation as the emitters program it *)

Inductive GainEvent : Type :=
| SetValueAtTime (v t : Q)
| LinearRampToValueAtTime (v t : Q)
| ExponentialRampToValueAtTime (v t : Q).

Definition gainValue (e : GainEvent) : Q :=
  match e with
  | SetValueAtTime v _ | LinearRampToValueAtTime v _ | ExponentialRampToValueAtTime v _ => v
  end.

(** ** The sound module (audio/soundBuffers.js) *)

Module SoundBuffers.

Record SoundState : Type := mkSound {
  initialized : bool;
  buffers : list string        (* the keys of soundBuffers / soundBufferCache *)
}.

(** [sounds.firstBeatSound] and [sounds.regularBeatSound] of the config; an
    empty name is falsy. *)
Record SoundConfig : Type := mkSoundConfig {
  firstBeatSound : string;
  regularBeatSound : string
}.

Definition SOUNDS : SoundConfig := mkSoundConfig "high" "low".

(** The options object; [None] is a missing key and takes the default of the
    destructuring pattern. *)
Record Options : Type := mkOptions {
  firstBeat : bool;            (* type === 'firstBeat' *)
  time : option Q;
  volume : option Q
}.

(** What was programmed on the audio graph. *)
Record Voice : Type := mkVoice {
  soundType : string;
  startTime : Q;               (* source.start(startTime) *)
  envelope : list GainEvent;
  cleanupDelay : Q             (* ms *)
}.

Definition orName (s d : string) : string :=
  if String.eqb s "" then d else s.

(** [getActualSoundDuration(soundType)] *)
Definition getActualSoundDuration (soundType : string) : Q :=
  if String.eqb soundType "high" then 0.02
  else if String.eqb soundType "low" then 0.03
  else if String.eqb soundType "medium" then 0.025
  else if String.eqb soundType "click" then 0.01
  else if String.eqb soundType "beep" then 0.05
  else 0.03.

Definition hasBuffer (st : SoundState) (name : string) : bool :=
  existsb (String.eqb name) (buffers st).

(** [playSoundInternal(options)]; [None] for the first argument is a call
    without an options object.  The result is [None] when the function
    returns [false]. *)
Definition playSoundInternal (cfg : SoundConfig) (st : SoundState)
    (ctx : option Sched.AudioContext) (options : option Options)
  : option Voice * list Effect :=
  match ctx with
  | None => (None, [HandleAudioError "sound precheck"])
  | Some c =>
      if negb (initialized st) then (None, [HandleAudioError "sound precheck"])
      else
        match options with
        | None => (None, [HandleAudioError "validating play options"])
        | Some o =>
            let time := match time o with Some t => t | None => Sched.currentTime c end in
            let volume := match volume o with Some v => v | None => 1 end in
            let soundType :=
              if firstBeat o then orName (firstBeatSound cfg) "high"
              else orName (regularBeatSound cfg) "medium" in
            if negb (hasBuffer st soundType)
            then (None, [HandleAudioError "looking up sound"])
            else
              let resume :=
                match Sched.ctx_state c with
                | Sched.Suspended => [ResumeAudio]
                | _ => []
                end in
              let safeVolume := Qmax 0 (Qmin 0.9 volume) in
              let actualDuration := getActualSoundDuration soundType in
              let currentTime := Sched.currentTime c in
              let startTime := Qmax time currentTime in
              let fadeInTime := Qmin 0.002 (actualDuration * 0.1) in
              let fadeOutTime := Qmin 0.003 (actualDuration * 0.15) in
              let totalFadeTime := fadeInTime + fadeOutTime in
              let scaled := Qltb (actualDuration * 0.8) totalFadeTime in
              let scale := (actualDuration * 0.8) / totalFadeTime in
              let adjustedFadeIn := if scaled then fadeInTime * scale else fadeInTime in
              let adjustedFadeOut := if scaled then fadeOutTime * scale else fadeOutTime in
              let sustainTime := Qmax 0 (actualDuration - adjustedFadeIn - adjustedFadeOut) in
              let tail :=
                if Qltb 0.001 sustainTime
                then [SetValueAtTime safeVolume (startTime + adjustedFadeIn + sustainTime);
                      LinearRampToValueAtTime 0 (startTime + actualDuration)]
                else [LinearRampToValueAtTime 0 (startTime + adjustedFadeIn + adjustedFadeOut)] in
              let cleanupDelay := Qmax 100 (actualDuration * 1000 + 50) in
              (Some (mkVoice soundType startTime
                       (SetValueAtTime 0 startTime
                        :: LinearRampToValueAtTime safeVolume (startTime + adjustedFadeIn)
                        :: tail)
                       cleanupDelay),
               resume)
        end
  end.

End SoundBuffers.

(** ** The Metronome class (modules/core/metronome.js) *)

Module MetronomeClass.
Import Js.

(** [clamp(value, min, max)]: [Math.min(Math.max(Number(value) || 0, min), max)],
    on an argument that already is a number. *)
Definition clamp (value : num) (lo hi : Q) : num :=
  min (max (orZero value) (Fin lo)) (Fin hi).

(** [getConfig(key) || fallback] *)
Definition orDefault (v fallback : Q) : Q :=
  if Qeq_bool v 0 then fallback else v.

Record Tone : Type := mkTone { frequency : Q; duration : Q }.
Definition click : Tone := mkTone 800 0.05.
Definition accent : Tone := mkTone 1200 0.07.

Record Metronome : Type := mkMetronome {
  initialized : bool;
  isPlaying : bool;
  bpm : num;
  volume : num;
  beatNumerator : num;
  beatDenominator : num;
  nextBeatTime : Q;
  currentBeat : Z
}.

Definition set_bpm (v : num) (m : Metronome) : Metronome :=
  mkMetronome (initialized m) (isPlaying m) v (volume m) (beatNumerator m)
    (beatDenominator m) (nextBeatTime m) (currentBeat m).

(** [setBPM(bpm)] of the class: it clamps, stores, publishes, and returns
    nothing. *)
Definition setBPM (cfg : Config.Config) (v : num) (m : Metronome) (a : State.AppState)
  : Metronome * State.AppState * list Effect :=
  let minBPM := orDefault (Config.minBPM cfg) 40 in
  let maxBPM := orDefault (Config.maxBPM cfg) 208 in
  let b := clamp v minBPM maxBPM in
  (set_bpm b m, State.update_bpm b a, [ConsoleLog "BPM set"]).

(** What [_playBeat] programs on a fresh oscillator and a gain node. *)
Record OscillatorVoice : Type := mkOscVoice {
  osc_frequency : Q;
  osc_envelope : list GainEvent;
  osc_start : Q;              (* oscillator.start(time) *)
  osc_stop : Q                (* oscillator.stop(time + duration + 0.01) *)
}.

(** The audio part of [_playBeat({time, isAccent, volume})] for numeric
    arguments; the [updateState] call that follows it is left out. *)
Definition _playBeat (time : Q) (isAccent : bool) (volume : Q) : option OscillatorVoice :=
  let audioVolume := volume / 100 in
  match clamp (Fin audioVolume) 0 1 with
  | Fin safeVolume =>
      let tone := if isAccent then accent else click in
      Some (mkOscVoice (frequency tone)
              [SetValueAtTime 0 time;
               LinearRampToValueAtTime (safeVolume * 0.5) (time + 0.01);
               ExponentialRampToValueAtTime 0.001 (time + duration tone)]
              time (time + duration tone + 0.01))
  | _ => None
  end.

End MetronomeClass.

(** ** The host calling [toggleMetronome] and running unlock timers *)

Module Host.
Import Metronome.

Inductive HostEvent : Type :=
| Call (t : Z)       (* toggleMetronome() while the clock reads t ms *)
| Fire (t : Z).      (* the host's timer phase at t ms *)

Definition eventTime (ev : HostEvent) : Z :=
  match ev with Call t | Fire t => t end.

Definition isCall (ev : HostEvent) : bool :=
  match ev with Call _ => true | Fire _ => false end.

(** The world after the event, and the value returned by a call. *)
Definition hostStep (ev : HostEvent) (w : World) : World * option bool :=
  match ev with
  | Call t => let '(r, w', _) := toggleMetronome t w in (w', Some r)
  | Fire t => (fireUnlock t w, None)
  end.

Fixpoint runHost (evs : list HostEvent) (w : World) : World * list bool :=
  match evs with
  | [] => (w, [])
  | ev :: evs' =>
      let '(w1, r1) := hostStep ev w in
      let '(w2, rs) := runHost evs' w1 in
      (w2, match r1 with Some r => r :: rs | None => rs end)
  end.

(** No unlock timer is pending while the lock is open, and at most one is
    pending while it is closed. *)
Definition lockInvariant (w : World) : Prop :=
  (toggleLock w = false /\ lockTimers w = []) \/
  (toggleLock w = true /\ exists due, lockTimers w = [due]).

(** Events that happen less than [TOGGLE_LOCK_DURATION] ms after [t0]. *)
Definition within (t0 : Z) (ev : HostEvent) : Prop :=
  (t0 <= eventTime ev < t0 + TOGGLE_LOCK_DURATION)%Z.

End Host.

(** ** The beat grid: what a run is expected to dispatch *)

Module GridSpec.
Import Sched Trace.

(** The beats a loop emits from time [t] and beat [c]: [len] of them. *)
Fixpoint grid (len : nat) (iv : Q) (N : Z) (t : Q) (c : Z) : list (Q * Z) :=
  match len with
  | O => []
  | S l => (t, c) :: grid l iv N (t + iv) (Z.rem c N + 1)
  end.

Fixpoint gridEnd (len : nat) (iv : Q) (N : Z) (t : Q) (c : Z) : Q * Z :=
  match len with
  | O => (t, c)
  | S l => gridEnd l iv N (t + iv) (Z.rem c N + 1)
  end.

(** The beat number of the [k]-th dispatched beat of a run (from 0). *)
Definition beatAt (N : Z) (k : nat) : Z := (Z.of_nat k mod N + 1)%Z.

Definition numerator_is (N : Z) (ev : Event) : Prop :=
  match ev with
  | Tick env => st_beatNumerator env = N
  | _ => True
  end.

(** While a callback is installed the counter is the beat number of the next
    dispatch, and a running scheduler has one installed.  ([stop()], which a
    callback may call, removes the callback and resets the counter.) *)
Definition numbered (N : Z) (k : nat) (s : Scheduler) : Prop :=
  (schedulerCallback s <> None -> currentBeat s = beatAt N k) /\
  (isRunning s = true -> schedulerCallback s <> None).

(** The claim of a strictly increasing grid, on a list of timestamps. *)
Definition strictly_increasing (ts : list Q) : Prop :=
  forall i : nat, (S i < length ts)%nat -> nth i ts 0 < nth (S i) ts 0.

(** While a callback is installed, the next beat is the [k]-th point of the
    grid that starts at [t0] with step [iv]. *)
Definition anchored (t0 iv : Q) (k : nat) (s : Scheduler) : Prop :=
  schedulerCallback s <> None ->
  nextBeatTime s == t0 + inject_Z (Z.of_nat k) * iv.

(** The timestamps [l] are the grid points [k], [k+1], ... *)
Definition on_grid (t0 iv : Q) (k : nat) (l : list Q) : Prop :=
  forall i : nat, (i < length l)%nat ->
    nth i l 0 == t0 + inject_Z (Z.of_nat (k + i)) * iv.

(** A running scheduler has an audio context. *)
Definition runningHasContext (s : Scheduler) : Prop :=
  isRunning s = true -> exists ctx, audioContext s = Some ctx.

(** Events of a run at constant tempo [b] with no realignment. *)
Definition steady (b : Q) (ev : Event) : Prop :=
  match ev with
  | Tick env => st_bpm env = b
  | Realign => False
  | _ => True
  end.

End GridSpec.

(** ** Concrete schedulers and runs used to instantiate the statements *)

Module Samples.
Import Sched Trace.

Definition always_throws : Callback := fun _ _ => false.
Definition always_returns : Callback := fun _ _ => true.

(** A running scheduler with [errors] consecutive failures behind it. *)
Definition sample_running (errors : Z) (cb : Callback) : Scheduler :=
  mkScheduler (Some (mkContext Running 1)) true 2 (11 # 10) (Some cb) 1000 (Some 1) errors None
    (mkStats 1 1 0 0 0 (Some 0%Z)).

(** The scheduler right after [init()]: a running context at clock 0. *)
Definition sample_ready : Scheduler :=
  set_audioContext (Some (mkContext Running 0)) scheduler0.

(** The same with the device suspended. *)
Definition sample_suspended (cb : Callback) : Scheduler :=
  mkScheduler (Some (mkContext Suspended 1)) true 2 (11 # 10) (Some cb) 1000 (Some 1) 0 None
    (mkStats 1 1 0 0 0 (Some 0%Z)).

(** 120 bpm in 4/4; the clock jumps to 3 s and one tick schedules six beats. *)
Definition env_120 (ms : Z) : TickEnv := mkEnv ms 120 4.
Definition six_beats : list Event := [ClockAdvance 3; Tick (env_120 1010)].

(** 60 bpm: two beats are scheduled, for 0.2 s and 1.2 s; while the clock
    reads 1.1 s the tempo setter realigns the timeline (as [setBPM(120)] does
    on a running metronome) and the next tick schedules the third beat. *)
Definition env_60 (ms : Z) : TickEnv := mkEnv ms 60 4.
Definition tempo_change_run : list Event :=
  [ ClockAdvance (1 # 100); Tick (env_60 1010);
    ClockAdvance (101 # 100); Tick (env_60 2010);
    ClockAdvance (110 # 100); Realign;
    Tick (env_120 2100) ].

(** The callback of the second beat stops the scheduler. *)
Definition stop_at_second_beat : Reentrant.Script := [[]; [Reentrant.CallStop]].

(** The callback of the second beat changes the tempo. *)
Definition realign_at_second_beat : Reentrant.Script := [[]; [Reentrant.CallUpdateInterval]].

(** 120 bpm in 4/4: two ticks three seconds apart, the callback of the third
    beat changing the tempo setting mid-bar. *)
Definition two_ticks_run : list Event :=
  [ ClockAdvance 3; Tick (env_120 1010); ClockAdvance 6; Tick (env_120 2010) ].
Definition realign_at_third_beat : Reentrant.Script :=
  [[]; []; [Reentrant.CallUpdateInterval]].

(** Clock movement and ticks only, at 60 bpm. *)
Definition steady_run : list Event :=
  [ ClockAdvance (1 # 100); Tick (env_60 1010);
    ClockAdvance (101 # 100); Tick (env_60 2010);
    ClockAdvance (201 # 100); Tick (env_60 3010) ].

End Samples.

(** ** Concrete worlds used to instantiate the statements *)

Module WorldSamples.
Import Js State Metronome.

(** An initialised metronome, stopped, at 120 bpm in 4/4. *)
Definition ready : World :=
  mkWorld state0 Samples.sample_ready (mkMetro true 0 0 0 (Fin 0)) true false [].

(** A running metronome: [startMetronome] at 1000 ms. *)
Definition running : World := snd (fst (startMetronome 1000 ready)).

(** The same at 60 bpm, started at 1000 ms; two beats are scheduled, the
    tempo is set to 120 while the clock reads 1.1 s, and a third tick
    follows. *)
Definition ready60 : World := with_app (update_bpm (Fin 60) state0) ready.

Definition afterTwoBeats : option (World * list Effect) :=
  let '(_, w1, e1) := startMetronome 1000 ready60 in
  match Application.tick Config.CONFIG 1010 [] (advanceClock (1 # 100) w1) with
  | Some (w2, e2, _) =>
      match Application.tick Config.CONFIG 2010 [] (advanceClock (101 # 100) w2) with
      | Some (w3, e3, _) => Some (w3, (e1 ++ e2 ++ e3)%list)
      | None => None
      end
  | None => None
  end.

Definition afterTempoChange : option (World * list Effect) :=
  match afterTwoBeats with
  | Some (w3, e3) =>
      let '(_, w4, e4) :=
        setBPM Config.CONFIG (Number (Fin 120)) (advanceClock (110 # 100) w3) in
      match Application.tick Config.CONFIG 2100 [] w4 with
      | Some (w5, e5, _) => Some (w5, (e3 ++ e4 ++ e5)%list)
      | None => None
      end
  | None => None
  end.

(** The same run with a listener that sets the tempo to 120 from the event
    of the second beat, while the clock reads 1.01 s; the third tick comes
    when the clock reads 2.01 s. *)
Definition afterTempoChangeByListener : option (World * list Effect) :=
  let '(_, w1, e1) := startMetronome 1000 ready60 in
  match Application.tick Config.CONFIG 1010
          [[]; [Application.ListenerSetBPM (Number (Fin 120))]]
          (advanceClock (1 # 100) w1) with
  | Some (w2, e2, l2) =>
      match Application.tick Config.CONFIG 2010 l2 (advanceClock (101 # 100) w2) with
      | Some (w3, e3, l3) =>
          match Application.tick Config.CONFIG 3010 l3 (advanceClock (201 # 100) w3) with
          | Some (w4, e4, _) => Some (w4, (e1 ++ e2 ++ e3 ++ e4)%list)
          | None => None
          end
      | None => None
      end
  | None => None
  end.

(** A [Metronome] instance at 120 bpm. *)
Definition instance : MetronomeClass.Metronome :=
  MetronomeClass.mkMetronome true false (Fin 120) (Fin 70) (Fin 4) (Fin 4) 0 0.

(** The sound module after [initSoundBuffers()]. *)
Definition sounds : SoundBuffers.SoundState :=
  SoundBuffers.mkSound true ["high"; "low"; "medium"; "click"; "beep"]%string.

End WorldSamples.

(** ** The scheduler's remaining methods and its life cycle (audio/scheduler.js) *)

Module SchedOps.
Import Sched.

(** [getAudioContextState()]; [None] stands for the string ['uninitialized']. *)
Definition getAudioContextState (s : Scheduler) : option ContextState :=
  match audioContext s with
  | Some ctx => Some (ctx_state ctx)
  | None => None
  end.

(** [isInitialized()] *)
Definition isInitialized (s : Scheduler) : bool :=
  match audioContext s with Some _ => true | None => false end.

(** [cleanupScheduler()]: stops, and asks the host to close a context that is
    not closed yet; the boolean tells whether [close()] was called. *)
Definition cleanupScheduler (s : Scheduler) : Scheduler * list Effect * bool :=
  let '(s1, e1) := stop s in
  let closing :=
    match audioContext s1 with
    | Some ctx => match ctx_state ctx with Closed => false | _ => true end
    | None => false
    end in
  (s1, (e1 ++ [ConsoleLog "scheduler resources cleaned up"])%list, closing).

(** What can happen to the scheduler object: a call of one of its methods, one
    of its timers firing, or the host changing the audio context.  The host
    runs the recovery closure only while its timer is armed ([stop()] clears
    it). *)
Inductive Op : Type :=
| Init (io : InitOutcome)
| Start (callback : option Callback) (now_ms : Z) (env : TickEnv)
| Stop
| UpdateInterval
| Reset
| Cleanup
| TimerTick (env : TickEnv)
| RecoveryFires (io : InitOutcome)
| StateChange (st : ContextState)
| Clock (t : Q).

Definition apply (op : Op) (s : Scheduler) : Scheduler * list Effect :=
  match op with
  | Init io => let '(_, s1, e1) := init io s in (s1, e1)
  | Start cb ms env => let '(_, s1, e1) := start cb ms env s in (s1, e1)
  | Stop => stop s
  | UpdateInterval => let '(_, s1, e1) := updateInterval s in (s1, e1)
  | Reset => reset s
  | Cleanup => let '(s1, e1, _) := cleanupScheduler s in (s1, e1)
  | TimerTick env => schedulerLoop env s
  | RecoveryFires io =>
      match recoveryTimeout s with
      | Some _ => recoveryTimerFired io s
      | None => (s, [])
      end
  | StateChange st => onstatechange st s
  | Clock t => (Trace.set_clock t s, [])
  end.

Fixpoint runOps (ops : list Op) (s : Scheduler) : Scheduler * list Effect :=
  match ops with
  | [] => (s, [])
  | op :: ops' =>
      let '(s1, e1) := apply op s in
      let '(s2, e2) := runOps ops' s1 in
      (s2, (e1 ++ e2)%list)
  end.

(** The timers armed by a list of effects, in order. *)
Fixpoint armed (es : list Effect) : list (TimerTask * Q) :=
  match es with
  | [] => []
  | SetTimeout task d :: es' => (task, d) :: armed es'
  | _ :: es' => armed es'
  end.

(** The flags of the scheduler agree with each other: a running scheduler has
    a context and a callback, a stopped one has neither callback nor tick
    timer handle, and the error counter stays below the threshold. *)
Definition consistent (s : Scheduler) : Prop :=
  (isRunning s = true ->
     (exists ctx, audioContext s = Some ctx) /\ (exists cb, schedulerCallback s = Some cb)) /\
  (isRunning s = false -> schedulerCallback s = None /\ timerID s = None) /\
  (0 <= errorCount s < maxAllowedErrors)%Z.

(** The counters of [performanceStats] add up. *)
Definition statsOk (p : PerformanceStats) : Prop :=
  (0 <= successfulBeats p)%Z /\ (0 <= failedBeats p)%Z /\
  (successfulBeats p + failedBeats p <= beatsScheduled p)%Z /\
  0 <= totalLatency p.

(** The look-ahead horizon of a tick that reads the clock at [now]. *)
Definition horizon (now : Q) : Q := now + scheduleAheadTime.

End SchedOps.


(** ** The metronome module, continued: volume, recovery and reset
    (core/metronome.js), and the keyboard's tempo steps (utils/keyboard.js) *)

Module MetronomeOps.
Import Js Config State Metronome.

(** [updateState({ volume })] *)
Definition update_volume (v : num) (a : AppState) : AppState :=
  mkState (bpm a) (beatNumerator a) (beatDenominator a) v (isRunning a)
    (currentBeat a) (currentBar a).

(** [getBPM()]: [getState().bpm], read through the JSON copy. *)
Definition getBPM (w : World) : json := toJSON (bpm (app w)).

(** [setVolume(newVolume)]; [minVolume] and [maxVolume] are the values of
    [getConfig('minVolume')] and [getConfig('maxVolume')]. *)
Definition setVolume (minVolume maxVolume : Q) (newVolume : value) (w : World)
  : bool * World * list Effect :=
  match newVolume with
  | NotNumber => (false, w, [HandleConfigError "setting volume"])
  | Number n =>
      if lt n (Fin minVolume) || gt n (Fin maxVolume)
      then (false, w, [HandleConfigError "setting volume"])
      else
        let clampedVolume := round n in
        if strictEq (toJSON (volume (app w))) clampedVolume
        then (true, w, [])
        else (true, with_app (update_volume clampedVolume (app w)) w,
              [WindowEvent "metronome:volumeChanged"])
  end.

(** The statistics object the module starts with. *)
Definition freshPerformance (initialised : bool) : MetronomeState :=
  mkMetro initialised 0 0 0 (Fin 0).

(** [attemptRecovery()] of the module *)
Definition attemptRecovery (now_ms : Z) (w : World) : bool * World * list Effect :=
  let '(_, w1, e1) := stopMetronome now_ms w in
  let a := update_isRunning false (update_position (Fin 0) (Fin 0) (app w1)) in
  let w2 := with_metro (freshPerformance (isInitialized (metro w1))) (with_app a w1) in
  (true, w2,
   (ConsoleLog "trying to recover the metronome" :: e1 ++
    [WindowEvent "metronome:recovered"; ConsoleLog "metronome recovered"])%list).

(** [resetMetronome()] *)
Definition resetMetronome (now_ms : Z) (w : World) : bool * World * list Effect :=
  let '(_, w1, e1) := stopMetronome now_ms w in
  (true, with_metro (freshPerformance false) w1,
   (e1 ++ [ConsoleLog "metronome resources cleaned up"])%list).

(** The tempo rounded to one decimal, as [setBPM] stores it:
    [Math.round(q * 10) / 10]. *)
Definition roundTenth (q : Q) : Q := inject_Z (Qfloor (q * 10 + (1 # 2))) / 10.

End MetronomeOps.

Module Keyboard.
Import Js Config State Metronome MetronomeOps.

(** [_increaseBPM()]: [setBPM(Math.min(getBPM() + 5, getConfig('maxBPM')))];
    the result of [setBPM] is dropped. *)
Definition _increaseBPM (cfg : Config) (w : World) : World * list Effect :=
  let currentBPM := jsonToQ (getBPM w) in
  let newBPM := Qmin (currentBPM + 5) (maxBPM cfg) in
  let '(_, w1, e1) := setBPM cfg (Number (Fin newBPM)) w in (w1, e1).

(** [_decreaseBPM()]: [setBPM(Math.max(getBPM() - 5, getConfig('minBPM')))] *)
Definition _decreaseBPM (cfg : Config) (w : World) : World * list Effect :=
  let currentBPM := jsonToQ (getBPM w) in
  let newBPM := Qmax (currentBPM - 5) (minBPM cfg) in
  let '(_, w1, e1) := setBPM cfg (Number (Fin newBPM)) w in (w1, e1).

End Keyboard.


(** ** The Metronome class, continued: volume and time signature
    (modules/core/metronome.js) *)

Module MetronomeClassOps.
Import Js MetronomeClass.

Definition set_volume (v : num) (m : Metronome) : Metronome :=
  mkMetronome (initialized m) (isPlaying m) (bpm m) v (beatNumerator m)
    (beatDenominator m) (nextBeatTime m) (currentBeat m).

Definition set_signature (n d : num) (m : Metronome) : Metronome :=
  mkMetronome (initialized m) (isPlaying m) (bpm m) (volume m) n d
    (nextBeatTime m) (currentBeat m).

(** [updateState({ beatNumerator, beatDenominator })]: the position is kept. *)
Definition update_signature_only (n d : num) (a : State.AppState) : State.AppState :=
  State.mkState (State.bpm a) n d (State.volume a) (State.isRunning a)
    (State.currentBeat a) (State.currentBar a).

(** [setVolume(volume)]: [Math.max(0, Math.min(100, volume))] *)
Definition setVolume (v : num) (m : Metronome) (a : State.AppState)
  : Metronome * State.AppState * list Effect :=
  let vol := max (Fin 0) (min (Fin 100) v) in
  (set_volume vol m, MetronomeOps.update_volume vol a, [ConsoleLog "volume set"]).

(** [Math.round(Math.log2(x))] for a finite [x] between 1 and 16: the integer
    [k] with [2^(k - 1/2) <= x < 2^(k + 1/2)].  These bounds are irrational,
    so the comparison is made on the squares: [2^(2k - 1) <= x * x < 2^(2k + 1)].
    In IEEE doubles [Math.log2] of a double next to such a bound can come out
    as exactly [k + 1/2] and round upwards; what is proved about the snapped
    value keeps clear of the bounds by a factor. *)
Definition roundLog2 (x : Q) : Z :=
  if Qltb (x * x) 2 then 0
  else if Qltb (x * x) 8 then 1
  else if Qltb (x * x) 32 then 2
  else if Qltb (x * x) 128 then 3
  else 4.

(** [Math.pow(2, Math.round(Math.log2(Math.max(1, Math.min(16, d)))))] *)
Definition snapDenominator (d : num) : num :=
  match max (Fin 1) (min (Fin 16) d) with
  | Fin x => Fin (inject_Z (2 ^ roundLog2 x))
  | other => other
  end.

(** [setTimeSignature(numerator, denominator)] of the class *)
Definition setTimeSignature (numerator denominator : num) (m : Metronome) (a : State.AppState)
  : Metronome * State.AppState * list Effect :=
  let n := max (Fin 1) (min (Fin 16) numerator) in
  let d := snapDenominator denominator in
  (set_signature n d m, update_signature_only n d a, [ConsoleLog "time signature set"]).

End MetronomeClassOps.

(** ** The sound module, continued: buffers (audio/soundBuffers.js) *)

(** The time a gain event is programmed for. *)
Definition gainTime (e : GainEvent) : Q :=
  match e with
  | SetValueAtTime _ t | LinearRampToValueAtTime _ t | ExponentialRampToValueAtTime _ t => t
  end.

Module SoundBuffersOps.
Import Js.

(** The integrity pass of [createSoundBuffer] on one sample: a [NaN] or an
    infinity becomes 0, then the sample is limited to [-1, 1]. *)
Definition sanitizeSample (x : num) : num :=
  let y := match x with Fin _ => x | _ => Fin 0 end in
  max (Fin (-1)) (min (Fin 1) y).

(** [getConfig('audio.bufferSize') || 4096], rounded and limited to
    [512, 16384]; zero and [NaN] are falsy. *)
Definition bufferSizeFor (configured : num) : num :=
  let bufferSize :=
    match configured with
    | NaN => Fin 4096
    | Fin q => if Qeq_bool q 0 then Fin 4096 else configured
    | _ => configured
    end in
  max (Fin 512) (min (Fin 16384) (round bufferSize)).

(** The channel data [createSoundBuffer] stores for a buffer of [size]
    samples: the generator writes sample [i] (an index it leaves alone keeps
    the 0 of [data.fill(0)]), or it throws ([None]) and the data is silence. *)
Definition bufferData (size : nat) (generator : option (nat -> num)) : list num :=
  match generator with
  | Some g => map (fun i => sanitizeSample (g i)) (seq 0 size)
  | None => map (fun _ => Fin 0) (seq 0 size)
  end.

End SoundBuffersOps.


(** ** From the scheduler to the sound module: what a tick asks [playSound] for *)

Module Pipeline.
Import State Metronome Application.

(** The calls of [playSound] among the effects, in order: whether the beat
    is a first beat, the start time and the volume asked for. *)
Fixpoint soundRequests (es : list Effect) : list (bool * Q * Q) :=
  match es with
  | [] => []
  | PlaySound firstBeat time volume :: es' => (firstBeat, time, volume) :: soundRequests es'
  | _ :: es' => soundRequests es'
  end.

(** What [scheduleBeat] asks of [playSound] for the beat [(time, number)]
    while the stored volume is [volume]. *)
Definition requestFor (volume : Js.num) (beat : Q * Z) : bool * Q * Q :=
  ((snd beat =? 1)%Z, fst beat, Js.jsonToQ (Js.toJSON volume) / 100).

(** What a tick has done so far: one request per beat handed out, with the
    volume the tick started with, which is still the stored one, and as many
    beats counted. *)
Definition piped (w0 : World) (r : World * list Effect * Listeners) : Prop :=
  soundRequests (snd (fst r)) = map (requestFor (volume (app w0))) (dispatched (snd (fst r))) /\
  volume (app (fst (fst r))) = volume (app w0) /\
  totalBeats (metro (fst (fst r)))
    = (totalBeats (metro w0) + Z.of_nat (length (dispatched (snd (fst r)))))%Z.

(** With no listener calling back, a tick changes the position only. *)
Definition undisturbed (w0 : World) (r : World * list Effect * Listeners) : Prop :=
  let w' := fst (fst r) in
  let beats := dispatched (snd (fst r)) in
  snd r = [] /\
  isRunning (app w') = isRunning (app w0) /\ bpm (app w') = bpm (app w0) /\
  beatNumerator (app w') = beatNumerator (app w0) /\
  beatDenominator (app w') = beatDenominator (app w0) /\
  currentBeat (app w') = match beats with
                         | [] => currentBeat (app w0)
                         | _ => Js.Fin (inject_Z (snd (last beats (0, 0%Z))))
                         end.

End Pipeline.


(** ** Rate limiting closures (utils/helpers.js): [throttle] and [debounce] *)

Module Helpers.

(** What happens to a closure returned by [throttle] or [debounce]: it is
    called with some arguments while the clock reads [t] ms, or the host runs
    its timer phase at [t] ms.  A timer never runs before it is due. *)
Inductive CallEvent (A : Type) : Type :=
| Invoke (t : Z) (args : A)
| TimerPhase (t : Z).
Arguments Invoke {A} t args.
Arguments TimerPhase {A} t.

Definition callTime {A : Type} (ev : CallEvent A) : Z :=
  match ev with Invoke t _ | TimerPhase t => t end.

(** The times [ts] follow [t0] without going back. *)
Fixpoint chronological (t0 : Z) (ts : list Z) : Prop :=
  match ts with
  | [] => True
  | t :: rest => (t0 <= t)%Z /\ chronological t rest
  end.

(** Consecutive times are at least [gap] apart. *)
Fixpoint spaced (gap : Z) (ts : list Z) : Prop :=
  match ts with
  | a :: (b :: _) as rest => (a + gap <= b)%Z /\ spaced gap rest
  | _ => True
  end.

(** The variable [inThrottle] captured by [throttle(func, limit)], with the
    due times of the reset timers it has pending. *)
Record Throttle : Type := mkThrottle {
  inThrottle : bool;
  resetTimers : list Z
}.

Definition throttle0 : Throttle := mkThrottle false [].

(** One event on the throttled function; the list holds the call of [func]
    it made, with the time and the arguments ([func] is taken to return). *)
Definition throttleStep {A : Type} (limit : Z) (ev : CallEvent A) (st : Throttle)
  : Throttle * list (Z * A) :=
  match ev with
  | Invoke t args =>
      if inThrottle st then (st, [])
      else (mkThrottle true (resetTimers st ++ [t + limit])%Z, [(t, args)])
  | TimerPhase t =>
      match resetTimers st with
      | due :: rest => if (due <=? t)%Z then (mkThrottle false rest, []) else (st, [])
      | [] => (st, [])
      end
  end.

Fixpoint runThrottle {A : Type} (limit : Z) (evs : list (CallEvent A)) (st : Throttle)
  : Throttle * list (Z * A) :=
  match evs with
  | [] => (st, [])
  | ev :: evs' =>
      let '(st1, c1) := throttleStep limit ev st in
      let '(st2, c2) := runThrottle limit evs' st1 in
      (st2, (c1 ++ c2)%list)
  end.

(** The variable [timeout] captured by [debounce(func, wait)]: the timer that
    is pending, with its due time and the arguments its closure [later] holds. *)
Definition Debounce (A : Type) : Type := option (Z * A).

(** A call clears the pending timer and arms a new one; the timer phase runs
    [later] once it is due, which calls [func] with the arguments it holds. *)
Definition debounceStep {A : Type} (wait : Z) (ev : CallEvent A) (st : Debounce A)
  : Debounce A * list (Z * A) :=
  match ev with
  | Invoke t args => (Some (t + wait, args)%Z, [])
  | TimerPhase t =>
      match st with
      | Some (due, args) => if (due <=? t)%Z then (None, [(t, args)]) else (st, [])
      | None => (st, [])
      end
  end.

Fixpoint runDebounce {A : Type} (wait : Z) (evs : list (CallEvent A)) (st : Debounce A)
  : Debounce A * list (Z * A) :=
  match evs with
  | [] => (st, [])
  | ev :: evs' =>
      let '(st1, c1) := debounceStep wait ev st in
      let '(st2, c2) := runDebounce wait evs' st1 in
      (st2, (c1 ++ c2)%list)
  end.

(** The last call among the events, if any. *)
Fixpoint lastInvoke {A : Type} (evs : list (CallEvent A)) : option (Z * A) :=
  match evs with
  | [] => None
  | ev :: evs' =>
      match lastInvoke evs' with
      | Some c => Some c
      | None => match ev with Invoke t args => Some (t, args) | TimerPhase _ => None end
      end
  end.

(** The number of calls among the events. *)
Fixpoint invokeCount {A : Type} (evs : list (CallEvent A)) : nat :=
  match evs with
  | [] => O
  | Invoke _ _ :: evs' => S (invokeCount evs')
  | TimerPhase _ :: evs' => invokeCount evs'
  end.

(** While the throttle is closed one reset timer is pending, due [limit]
    after the last call of [func]; while it is open none is pending and the
    last call of [func] lies at least [limit] back. *)
Definition throttleInv (limit : Z) (st : Throttle) (last : option Z) (now : Z) : Prop :=
  (inThrottle st = true /\
   exists t, last = Some t /\ resetTimers st = [t + limit]%Z /\ (t <= now)%Z) \/
  (inThrottle st = false /\ resetTimers st = [] /\
   forall t, last = Some t -> (t + limit <= now)%Z).

End Helpers.


(** ** The controls calling the setters (ui/controls.js) *)

Module UIControls.
Import Js Config State Metronome MetronomeOps.

(** [_updateBPM(bpm)]: [NaN] is skipped, everything else is limited to
    [40, 300] before [setBPM] is called. *)
Definition _updateBPM (cfg : Config) (bpm : num) (w : World) : World * list Effect :=
  match bpm with
  | NaN => (w, [])
  | _ =>
      let validBPM := max (Fin 40) (min (Fin 300) bpm) in
      let '(_, w1, e1) := setBPM cfg (Number validBPM) w in (w1, e1)
  end.

(** [_handleVolumeInput(event)], from the value [parseInt] returned. *)
Definition _handleVolumeInput (minVolume maxVolume : Q) (volume : num) (w : World)
  : World * list Effect :=
  match volume with
  | NaN => (w, [])
  | _ =>
      let validVolume := max (Fin 0) (min (Fin 100) volume) in
      let '(_, w1, e1) := setVolume minVolume maxVolume (Number validVolume) w in (w1, e1)
  end.

(** The tap-tempo fields of the controller. *)
Record TapState : Type := mkTap {
  lastTapTime : option Z;     (* null, or a Date.now() value *)
  tapIntervals : list Z
}.

Definition tap0 : TapState := mkTap None [].

(** [tapIntervals.reduce((sum, val) => sum + val, 0) / tapIntervals.length] *)
Definition averageInterval (l : list Z) : Q :=
  inject_Z (fold_left Z.add l 0%Z) / inject_Z (Z.of_nat (length l)).

(** [Math.round(60000 / avgInterval)] *)
Definition tappedBPM (l : list Z) : Q :=
  inject_Z (Qfloor (60000 / averageInterval l + (1 # 2))).

(** [Math.max(40, Math.min(300, bpm))] *)
Definition validTapBPM (l : list Z) : Q := Qmax 40 (Qmin 300 (tappedBPM l)).

(** [push(interval)], then [shift()] when more than five are kept. *)
Definition pushInterval (interval : Z) (l : list Z) : list Z :=
  let l1 := (l ++ [interval])%list in
  if (5 <? length l1)%nat then tl l1 else l1.

(** [_handleTapClick()] while [Date.now()] reads [now]; the visual feedback
    on the button is left out.  A [lastTapTime] of 0 is falsy. *)
Definition _handleTapClick (cfg : Config) (now : Z) (ui : TapState) (w : World)
  : TapState * World * list Effect :=
  let skip := (mkTap (Some now) (tapIntervals ui), w, []) in
  match lastTapTime ui with
  | None => skip
  | Some last =>
      if (last =? 0)%Z then skip
      else
        let interval := (now - last)%Z in
        if (200 <=? interval)%Z && (interval <=? 2000)%Z
        then
          let intervals := pushInterval interval (tapIntervals ui) in
          let '(_, w1, e1) := setBPM cfg (Number (Fin (validTapBPM intervals))) w in
          (mkTap (Some now) intervals, w1, e1)
        else skip
  end.

(** The taps at the times [taps], one after the other. *)
Fixpoint runTaps (cfg : Config) (taps : list Z) (ui : TapState) (w : World)
  : TapState * World * list Effect :=
  match taps with
  | [] => (ui, w, [])
  | now :: rest =>
      let '(ui1, w1, e1) := _handleTapClick cfg now ui w in
      let '(ui2, w2, e2) := runTaps cfg rest ui1 w1 in
      (ui2, w2, (e1 ++ e2)%list)
  end.

(** The intervals the controller may hold. *)
Definition tapsOk (l : list Z) : Prop :=
  (length l <= 5)%nat /\ Forall (fun i => (200 <= i <= 2000)%Z) l.

End UIControls.


(** ** Training sessions (training/trainingCore.js)

    The fields of a segment are the integers the training form produces.  The
    metronome functions a session calls catch their own errors, so they
    appear here as effects only. *)

Module Training.

Record Segment : Type := mkSegment {
  seg_bpm : Z;
  seg_beats : Z;
  seg_repeats : Z
}.

Inductive TrainingEffect : Type :=
| CallSetBPM (bpm : Z)                       (* setBPM(segment.bpm) *)
| CallSetTimeSignature (beats denominator : Z)
| CallToggleMetronome
| CallStopMetronome
| Emit (name : string)                       (* window.dispatchEvent(new CustomEvent(name)) *)
| HandleTrainingError (context : string)
| ListenToBeats                              (* addEventListener('metronome:beat', ...) *)
| RemoveListeners
| ClearTrainingState                         (* updateState({ trainingState: null }), if one is stored *)
| UpdateTrainingState                        (* _updateTrainingState(): updateState and 'training:update' *)
| DebouncedUpdate.                           (* _debouncedUpdateState() *)

Record Session : Type := mkSession {
  sessionId : option Z;          (* 'session-' + Date.now() *)
  segments : list Segment;
  currentSegmentIndex : nat;
  currentRepeat : Z;
  remainingBeats : Z;
  isRunning : bool;
  totalBeats : Z;                (* performanceStats.totalBeats *)
  processedBeats : Z             (* performanceStats.processedBeats *)
}.

(** The manager after its constructor. *)
Definition session0 : Session := mkSession None [] 0 1 0 false 0 0.

(** The checks of [startSession] on one segment. *)
Definition validSegment (seg : Segment) : bool :=
  (40 <=? seg_bpm seg)%Z && (seg_bpm seg <=? 208)%Z &&
  (1 <=? seg_beats seg)%Z && (seg_beats seg <=? 16)%Z &&
  (1 <=? seg_repeats seg)%Z && (seg_repeats seg <=? 100)%Z.

(** [segments.reduce((total, seg) => total + (seg.beats * seg.repeats), 0)] *)
Definition plannedBeats (segs : list Segment) : Z :=
  fold_left (fun total seg => (total + seg_beats seg * seg_repeats seg)%Z) segs 0%Z.

(** [_configureMetronome(segment)] *)
Definition _configureMetronome (seg : Segment) : list TrainingEffect :=
  [CallSetBPM (seg_bpm seg); CallSetTimeSignature (seg_beats seg) 4].

(** [stopSession(isComplete)] *)
Definition stopSession (isComplete : bool) (s : Session) : bool * Session * list TrainingEffect :=
  match sessionId s with
  | None => (false, s, [])
  | Some _ =>
      (true,
       mkSession None [] 0 1 0 false (totalBeats s) (processedBeats s),
       ([CallStopMetronome; RemoveListeners] ++
        (if isRunning s && negb isComplete then [Emit "training:stopped"] else []) ++
        [ClearTrainingState])%list)
  end.

(** [startSession(segments)] while [Date.now()] reads [now]. *)
Definition startSession (now : Z) (segs : list Segment) (s : Session)
  : bool * Session * list TrainingEffect :=
  match segs with
  | [] => (false, s, [HandleTrainingError "starting session"; Emit "training:error"])
  | firstSegment :: _ =>
      if negb (forallb validSegment segs)
      then (false, s, [HandleTrainingError "starting session"; Emit "training:error"])
      else
        let '(_, s1, e1) := stopSession false s in
        let s2 := mkSession (Some now) segs 0 1 (seg_beats firstSegment) true
                    (plannedBeats segs) 0 in
        (true, s2,
         (e1 ++ _configureMetronome firstSegment ++
          [CallToggleMetronome; ListenToBeats; Emit "training:started";
           Emit "training:segmentChange"; UpdateTrainingState])%list)
  end.

(** [_completeSession()] *)
Definition _completeSession (s : Session) : Session * list TrainingEffect :=
  let '(_, s1, e1) := stopSession true s in
  (s1, (e1 ++ [Emit "training:complete"])%list).

(** The [catch] block of [_handleSegmentCompletion]. *)
Definition completionFailed (s : Session) : Session * list TrainingEffect :=
  let '(_, s1, e1) := stopSession false s in
  (s1, (HandleTrainingError "segment completion" :: Emit "training:error" :: e1)%list).

(** [_handleSegmentCompletion()] *)
Definition _handleSegmentCompletion (s : Session) : Session * list TrainingEffect :=
  match nth_error (segments s) (currentSegmentIndex s) with
  | None => completionFailed s
  | Some currentSegment =>
      if (currentRepeat s <? seg_repeats currentSegment)%Z
      then
        (mkSession (sessionId s) (segments s) (currentSegmentIndex s) (currentRepeat s + 1)
           (seg_beats currentSegment) (isRunning s) (totalBeats s) (processedBeats s),
         [Emit "training:segmentRepeat"; UpdateTrainingState])
      else if (Z.of_nat (currentSegmentIndex s) <? Z.of_nat (length (segments s)) - 1)%Z
      then
        let index := S (currentSegmentIndex s) in
        match nth_error (segments s) index with
        | None =>
            completionFailed
              (mkSession (sessionId s) (segments s) index 1 (remainingBeats s)
                 (isRunning s) (totalBeats s) (processedBeats s))
        | Some nextSegment =>
            (mkSession (sessionId s) (segments s) index 1 (seg_beats nextSegment)
               (isRunning s) (totalBeats s) (processedBeats s),
             (_configureMetronome nextSegment ++
              [Emit "training:segmentChange"; UpdateTrainingState])%list)
        end
      else _completeSession s
  end.

(** [_handleBeat(event)] *)
Definition _handleBeat (s : Session) : Session * list TrainingEffect :=
  match sessionId s with
  | None => (s, [])
  | Some _ =>
      if negb (isRunning s) then (s, [])
      else
        let s1 := mkSession (sessionId s) (segments s) (currentSegmentIndex s) (currentRepeat s)
                    (Z.max 0 (remainingBeats s - 1)) (isRunning s) (totalBeats s)
                    (processedBeats s + 1) in
        if (remainingBeats s1 <=? 0)%Z
        then _handleSegmentCompletion s1
        else (s1, [DebouncedUpdate])
  end.

(** [pauseSession()] *)
Definition pauseSession (s : Session) : bool * Session * list TrainingEffect :=
  if negb (isRunning s) then (false, s, [])
  else
    match sessionId s with
    | None => (false, s, [])
    | Some _ =>
        (true,
         mkSession (sessionId s) (segments s) (currentSegmentIndex s) (currentRepeat s)
           (remainingBeats s) false (totalBeats s) (processedBeats s),
         [CallToggleMetronome; Emit "training:paused"; UpdateTrainingState])
    end.

(** [resumeSession()] *)
Definition resumeSession (s : Session) : bool * Session * list TrainingEffect :=
  if isRunning s then (false, s, [])
  else
    match sessionId s with
    | None => (false, s, [])
    | Some _ =>
        (true,
         mkSession (sessionId s) (segments s) (currentSegmentIndex s) (currentRepeat s)
           (remainingBeats s) true (totalBeats s) (processedBeats s),
         [CallToggleMetronome; Emit "training:resumed"; UpdateTrainingState])
    end.

(** [count] beat events, one after the other. *)
Fixpoint beats (count : nat) (s : Session) : Session * list TrainingEffect :=
  match count with
  | O => (s, [])
  | S count' =>
      let '(s1, e1) := _handleBeat s in
      let '(s2, e2) := beats count' s1 in
      (s2, (e1 ++ e2)%list)
  end.

(** The tempi handed to [setBPM], in order. *)
Fixpoint tempi (es : list TrainingEffect) : list Z :=
  match es with
  | [] => []
  | CallSetBPM bpm :: es' => bpm :: tempi es'
  | _ :: es' => tempi es'
  end.

(** How often an event was dispatched. *)
Fixpoint emitted (name : string) (es : list TrainingEffect) : nat :=
  match es with
  | [] => O
  | Emit n :: es' => if String.eqb n name then S (emitted name es') else emitted name es'
  | _ :: es' => emitted name es'
  end.

(** The beats a running session still has to see: the rest of this pass, the
    passes of the segment that remain, and the segments after it. *)
Definition beatsLeft (s : Session) : Z :=
  match nth_error (segments s) (currentSegmentIndex s) with
  | Some seg =>
      remainingBeats s + (seg_repeats seg - currentRepeat s) * seg_beats seg
      + plannedBeats (skipn (S (currentSegmentIndex s)) (segments s))
  | None => 0
  end.

(** A running session in the middle of a pass. *)
Definition inSession (s : Session) : Prop :=
  (exists id, sessionId s = Some id) /\ isRunning s = true /\
  forallb validSegment (segments s) = true /\
  exists seg, nth_error (segments s) (currentSegmentIndex s) = Some seg /\
              (1 <= remainingBeats s <= seg_beats seg)%Z /\
              (1 <= currentRepeat s <= seg_repeats seg)%Z.

End Training.


(** * Properties *)

(** ** Auxiliary facts *)

Lemma Qltb_lt (x y : Q) : Qltb x y = true <-> x < y.
Proof.
  unfold Qltb. rewrite negb_true_iff.
  split; intro H.
  - apply Qnot_le_lt. intro L. apply Qle_bool_iff in L. congruence.
  - destruct (Qle_bool y x) eqn:E; [|reflexivity].
    apply Qle_bool_iff in E. exfalso. revert E. apply Qlt_not_le. exact H.
Qed.

Lemma Qltb_ge (x y : Q) : Qltb x y = false <-> y <= x.
Proof.
  unfold Qltb. rewrite negb_false_iff. apply Qle_bool_iff.
Qed.

Lemma dispatched_app (a b : list Effect) :
  dispatched (a ++ b) = (dispatched a ++ dispatched b)%list.
Proof.
  induction a as [|e a IH]; simpl; [reflexivity|].
  destruct e; simpl; rewrite ?IH; reflexivity.
Qed.


(** ** The scheduler: what [stop] and [attemptRecovery] leave behind *)

Section SchedulerBasics.
Import Sched.

Lemma stop_spec (s : Scheduler) :
  let s' := fst (stop s) in
  isRunning s' = false /\ currentBeat s' = 1%Z /\ errorCount s' = 0%Z /\
  schedulerCallback s' = None /\ timerID s' = None /\ recoveryTimeout s' = None /\
  audioContext s' = audioContext s /\ nextBeatTime s' = nextBeatTime s /\
  lastUpdateTime s' = lastUpdateTime s /\ performanceStats s' = performanceStats s /\
  dispatched (snd (stop s)) = [] /\
  (forall task d, ~ In (SetTimeout task d) (snd (stop s))).
Proof.
  unfold stop.
  destruct s as [ac run cur nbt cb lut tid ec rt ps]; simpl.
  destruct tid, rt; simpl; repeat split; try reflexivity;
    intros task d H; repeat (destruct H as [H|H]; [discriminate H|]); exact H.
Qed.

Lemma attemptRecovery_after_stop (s : Scheduler) :
  recoveryTimeout s = None ->
  attemptRecovery s =
    (set_recoveryTimeout (Some 1000) s,
     [ConsoleLog "attempting scheduler recovery"; SetTimeout RecoveryTask 1000]).
Proof.
  intro H. unfold attemptRecovery. rewrite H. reflexivity.
Qed.

End SchedulerBasics.

(** ** C1: a failing callback never desynchronises the grid *)

Section FailingCallback.
Import Sched.

(** C1, as the code has it.  In the body of the tick loop, with tempo [bpm]
    and numerator [N], the callback is handed [(nextBeatTime, currentBeat)].
    If it throws and the new error count stays below [maxAllowedErrors],
    [errorCount] grows by one, the error goes to [handleAudioError], and the
    timeline still moves exactly one beat: [nextBeatTime] grows by [60 / bpm]
    and [currentBeat] becomes [currentBeat % N + 1].  If it returns,
    [errorCount] is reset to 0 and the timeline moves the same way.  The throw
    that brings the count to [maxAllowedErrors = 3] is logged, stops the
    scheduler, arms the recovery timer and leaves the [while] loop at once,
    before the timeline is moved: [nextBeatTime] keeps the time of the failed
    beat and [stop()] has reset [currentBeat] to 1 and [errorCount] to 0. *)
Theorem failing_callback_keeps_grid :
  forall (cb : Callback) (bpm : Q) (N : Z) (now : Q) (s : Scheduler),
    schedulerCallback s = Some cb ->
    let r := dispatchBeat (secondsPerBeat bpm) N now s in
    let s' := fst (fst r) in
    let es := snd (fst r) in
    let returned := snd r in
    maxAllowedErrors = 3%Z /\
    dispatched es = [(nextBeatTime s, currentBeat s)] /\
    (cb (nextBeatTime s) (currentBeat s) = false ->
     (errorCount s + 1 < maxAllowedErrors)%Z ->
       errorCount s' = (errorCount s + 1)%Z /\
       In (HandleAudioError "scheduling beat") es /\
       nextBeatTime s' = nextBeatTime s + 60 / bpm /\
       currentBeat s' = (Z.rem (currentBeat s) N + 1)%Z /\
       isRunning s' = isRunning s /\
       returned = false) /\
    (cb (nextBeatTime s) (currentBeat s) = true ->
       errorCount s' = 0%Z /\
       nextBeatTime s' = nextBeatTime s + 60 / bpm /\
       currentBeat s' = (Z.rem (currentBeat s) N + 1)%Z /\
       isRunning s' = isRunning s /\
       returned = false) /\
    (cb (nextBeatTime s) (currentBeat s) = false ->
     (maxAllowedErrors <= errorCount s + 1)%Z ->
       isRunning s' = false /\
       In (HandleAudioError "scheduling beat") es /\
       In (SetTimeout RecoveryTask 1000) es /\
       recoveryTimeout s' = Some 1000 /\
       nextBeatTime s' = nextBeatTime s /\
       currentBeat s' = 1%Z /\
       errorCount s' = 0%Z /\
       returned = true /\
       forall fuel,
         nextBeatTime s < now + scheduleAheadTime ->
         beatLoop (S fuel) (secondsPerBeat bpm) N now s = (s', es, true)).
Proof.
  intros cb bpm N now s Hcb r s' es returned.
  split; [reflexivity|].
  subst r s' es returned.
  unfold dispatchBeat.
  assert (Hcb1 : schedulerCallback (countScheduled now s) = Some cb) by exact Hcb.
  rewrite Hcb1.
  change (nextBeatTime (countScheduled now s)) with (nextBeatTime s).
  change (currentBeat (countScheduled now s)) with (currentBeat s).
  cbn [fst snd].
  destruct (cb (nextBeatTime s) (currentBeat s)) eqn:Eo.
  - (* the callback returned *)
    cbn [fst snd]. split; [reflexivity|].
    split; [intro H; discriminate H|].
    split; [|intro H; discriminate H].
    intros _. repeat split; reflexivity.
  - (* the callback threw *)
    change (errorCount (set_errorCount (errorCount (countScheduled now s) + 1) (countScheduled now s)))
      with (errorCount s + 1)%Z.
    destruct (maxAllowedErrors <=? errorCount s + 1)%Z eqn:Eth.
    + (* threshold reached *)
      apply Z.leb_le in Eth.
      pose proof (stop_spec (set_errorCount (errorCount (countScheduled now s) + 1)
                               (countScheduled now s))) as Hs.
      cbv zeta in Hs.
      destruct (stop (set_errorCount (errorCount (countScheduled now s) + 1)
                        (countScheduled now s))) as [s3 e3] eqn:Es.
      cbn [fst snd] in Hs.
      destruct Hs as (Hrun & Hcur & Hec & _ & _ & Hrt & _ & Hnbt & _ & _ & Hd & _).
      rewrite (attemptRecovery_after_stop s3 Hrt).
      cbn [fst snd].
      split.
      { rewrite !dispatched_app. simpl. rewrite dispatched_app, Hd. reflexivity. }
      split; [intros _ Hlt; lia|].
      split; [intro H; discriminate H|].
      intros _ _.
      split; [exact Hrun|].
      split; [simpl; right; left; reflexivity|].
      split.
      { apply in_or_app. right. right. apply in_or_app. right. right. left. reflexivity. }
      split; [reflexivity|].
      split; [exact Hnbt|].
      split; [exact Hcur|].
      split; [exact Hec|].
      split; [reflexivity|].
      intros fuel Hdue.
      cbn [beatLoop].
      apply Qltb_lt in Hdue. rewrite Hdue.
      unfold dispatchBeat. rewrite Hcb1.
      change (nextBeatTime (countScheduled now s)) with (nextBeatTime s).
      change (currentBeat (countScheduled now s)) with (currentBeat s).
      cbn [fst snd]. rewrite Eo.
      change (errorCount (set_errorCount (errorCount (countScheduled now s) + 1) (countScheduled now s)))
        with (errorCount s + 1)%Z.
      apply Z.leb_le in Eth. rewrite Eth. rewrite Es.
      rewrite (attemptRecovery_after_stop s3 Hrt). reflexivity.
    + (* below the threshold *)
      apply Z.leb_gt in Eth.
      cbn [fst snd].
      split; [reflexivity|].
      split.
      { intros _ _. repeat split; try reflexivity. simpl. right. left. reflexivity. }
      split; [intro H; discriminate H|].
      intros _ Hge. lia.
Qed.

(** C1 at a scheduler that has failed twice and fails again. *)
Lemma failing_callback_keeps_grid_witness :
  isRunning (fst (fst (dispatchBeat (secondsPerBeat 120) 4 1
                         (Samples.sample_running 2 Samples.always_throws)))) = false.
Proof.
  exact (proj1 (proj2 (proj2 (proj2 (proj2
    (failing_callback_keeps_grid Samples.always_throws 120 4 1
       (Samples.sample_running 2 Samples.always_throws)
       eq_refl)))) eq_refl ltac:(vm_compute; discriminate))).
Defined.

(** C1 fails as stated at the third consecutive throw: at 120 bpm in 4/4,
    with beat 2 due at 1.1 s and two failures counted, the callback throws
    again; the timeline is not advanced -- [nextBeatTime] is still 1.1 s, not
    1.6 s, and the beat counter is 1, not 3 -- and [errorCount] reads 0. *)
Lemma third_throw_does_not_advance :
  let s := Samples.sample_running 2 Samples.always_throws in
  let s' := fst (fst (dispatchBeat (secondsPerBeat 120) 4 1 s)) in
  Samples.always_throws (nextBeatTime s) (currentBeat s) = false /\
  nextBeatTime s' == 11 # 10 /\
  ~ nextBeatTime s' == nextBeatTime s + 60 / 120 /\
  currentBeat s = 2%Z /\ currentBeat s' = 1%Z /\
  currentBeat s' <> (Z.rem (currentBeat s) 4 + 1)%Z /\
  errorCount s' = 0%Z.
Proof.
  cbv zeta. vm_compute. repeat split; try reflexivity; intro H; discriminate H.
Qed.

(** One tick with six beats due and a callback that always throws: three
    beats are attempted, then the scheduler is stopped. *)
Example three_throws_stop_the_scheduler :
  let s := set_nextBeatTime (1 # 10) (Samples.sample_running 0 Samples.always_throws) in
  let r := schedulerLoop (Samples.env_120 2000) s in
  map snd (dispatched (snd r)) = [2; 3; 4]%Z /\
  isRunning (fst r) = false /\
  recoveryTimeout (fst r) = Some 1000.
Proof. vm_compute. repeat split; reflexivity. Qed.

End FailingCallback.

(** ** The beat grid produced by the tick loop *)

Section Grid.
Import Sched Trace GridSpec.

Lemma dispatchBeat_shape (cb : Callback) (iv : Q) (N : Z) (now : Q) (s : Scheduler) :
  schedulerCallback s = Some cb ->
  let r := dispatchBeat iv N now s in
  dispatched (snd (fst r)) = [(nextBeatTime s, currentBeat s)] /\
  (snd r = true -> isRunning (fst (fst r)) = false) /\
  (snd r = false ->
     isRunning (fst (fst r)) = isRunning s /\
     schedulerCallback (fst (fst r)) = Some cb /\
     nextBeatTime (fst (fst r)) = nextBeatTime s + iv /\
     currentBeat (fst (fst r)) = (Z.rem (currentBeat s) N + 1)%Z /\
     audioContext (fst (fst r)) = audioContext s).
Proof.
  intros Hcb. cbv zeta. unfold dispatchBeat.
  assert (Hcb1 : schedulerCallback (countScheduled now s) = Some cb) by exact Hcb.
  rewrite Hcb1.
  change (nextBeatTime (countScheduled now s)) with (nextBeatTime s).
  change (currentBeat (countScheduled now s)) with (currentBeat s).
  cbn [fst snd].
  destruct (cb (nextBeatTime s) (currentBeat s)).
  - cbn [fst snd]. split; [reflexivity|]. split; [intro H; discriminate H|].
    intros _. repeat split; try reflexivity. exact Hcb.
  - destruct (maxAllowedErrors <=? _)%Z.
    + pose proof (stop_spec (set_errorCount (errorCount (countScheduled now s) + 1)
                               (countScheduled now s))) as Hs.
      cbv zeta in Hs.
      destruct (stop _) as [s3 e3]. cbn [fst snd] in Hs.
      destruct Hs as (Hrun & _ & _ & _ & _ & Hrt & _ & _ & _ & _ & Hd & _).
      rewrite (attemptRecovery_after_stop s3 Hrt). cbn [fst snd].
      split.
      { rewrite !dispatched_app. simpl. rewrite dispatched_app, Hd. reflexivity. }
      split; [intros _; exact Hrun|intro H; discriminate H].
    + cbn [fst snd]. split; [reflexivity|]. split; [intro H; discriminate H|].
      intros _. repeat split; try reflexivity. exact Hcb.
Qed.

Lemma beatLoop_grid (cb : Callback) (iv : Q) (N : Z) (now : Q) :
  forall (fuel : nat) (s : Scheduler),
    schedulerCallback s = Some cb ->
    let r := beatLoop fuel iv N now s in
    let len := length (dispatched (snd (fst r))) in
    dispatched (snd (fst r)) = grid len iv N (nextBeatTime s) (currentBeat s) /\
    (snd r = true -> isRunning (fst (fst r)) = false) /\
    (snd r = false ->
       isRunning (fst (fst r)) = isRunning s /\
       schedulerCallback (fst (fst r)) = Some cb /\
       (nextBeatTime (fst (fst r)), currentBeat (fst (fst r)))
         = gridEnd len iv N (nextBeatTime s) (currentBeat s) /\
       audioContext (fst (fst r)) = audioContext s).
Proof.
  induction fuel as [|fuel IH]; intros s Hcb; cbv zeta.
  - simpl. split; [reflexivity|]. split; [intro H; discriminate H|].
    intros _. repeat split; try reflexivity. exact Hcb.
  - cbn [beatLoop].
    destruct (Qltb (nextBeatTime s) (now + scheduleAheadTime)).
    2:{ simpl. split; [reflexivity|]. split; [intro H; discriminate H|].
        intros _. repeat split; try reflexivity. exact Hcb. }
    pose proof (dispatchBeat_shape cb iv N now s Hcb) as Hd. cbv zeta in Hd.
    destruct (dispatchBeat iv N now s) as [[s1 e1] ret1]. cbn [fst snd] in Hd.
    destruct Hd as (Hd1 & Hstop & Hgo).
    destruct ret1.
    + cbn [fst snd]. rewrite Hd1. simpl.
      split; [reflexivity|]. split; [intros _; apply Hstop; reflexivity|intro H; discriminate H].
    + destruct (Hgo eq_refl) as (Hrun & Hcb' & Hnbt & Hcur & Hac).
      pose proof (IH s1 Hcb') as IH1. cbv zeta in IH1.
      destruct (beatLoop fuel iv N now s1) as [[s2 e2] r2]. cbn [fst snd] in IH1 |- *.
      destruct IH1 as (IHd & IHstop & IHgo).
      rewrite dispatched_app, Hd1. simpl length.
      split.
      { simpl. rewrite IHd at 1. rewrite Hnbt, Hcur. reflexivity. }
      split; [exact IHstop|].
      intro Hr. destruct (IHgo Hr) as (R1 & R2 & R3 & R4).
      repeat split.
      * rewrite R1. exact Hrun.
      * exact R2.
      * simpl. rewrite R3, Hnbt, Hcur. reflexivity.
      * rewrite R4. exact Hac.
Qed.

Lemma dispatchBeat_returned_stopped (iv : Q) (N : Z) (now : Q) (s : Scheduler) :
  snd (dispatchBeat iv N now s) = true ->
  isRunning (fst (fst (dispatchBeat iv N now s))) = false.
Proof.
  unfold dispatchBeat.
  destruct (fst _).
  - intro H; discriminate H.
  - destruct (maxAllowedErrors <=? _)%Z; [|intro H; discriminate H].
    match goal with |- context [stop ?x] => pose proof (stop_spec x) as Hs end.
    cbv zeta in Hs. destruct (stop _) as [s3 e3]. cbn [fst snd] in Hs.
    destruct Hs as (Hrun & _ & _ & _ & _ & Hrt & _).
    rewrite (attemptRecovery_after_stop s3 Hrt). intros _. exact Hrun.
Qed.

Lemma beatLoop_returned_stopped (fuel : nat) (iv : Q) (N : Z) (now : Q) :
  forall s : Scheduler,
    snd (beatLoop fuel iv N now s) = true ->
    isRunning (fst (fst (beatLoop fuel iv N now s))) = false.
Proof.
  induction fuel as [|fuel IH]; intro s; cbn [beatLoop].
  - intro H; discriminate H.
  - destruct (Qltb _ _); [|intro H; discriminate H].
    pose proof (dispatchBeat_returned_stopped iv N now s) as Hd.
    destruct (dispatchBeat iv N now s) as [[s1 e1] ret1]. cbn [fst snd] in Hd.
    destruct ret1.
    + intros _. apply Hd. reflexivity.
    + specialize (IH s1). destruct (beatLoop fuel iv N now s1) as [[s2 e2] r2].
      exact IH.
Qed.

(** What one call of [schedulerLoop] can do: nothing the callback sees, or
    one run of the inner loop on a running context. *)
Lemma schedulerLoop_cases (env : TickEnv) (s : Scheduler) :
  let r := schedulerLoop env s in
  (dispatched (snd r) = [] /\
   (forall task d, In (SetTimeout task d) (snd r) -> task = TickTask) /\
   (isRunning (fst r) = true ->
      isRunning s = true /\ currentBeat (fst r) = currentBeat s /\
      schedulerCallback (fst r) = schedulerCallback s /\
      nextBeatTime (fst r) = nextBeatTime s /\ audioContext (fst r) = audioContext s))
  \/
  (isRunning s = true /\ throttled env s = false /\
   exists ctx, audioContext s = Some ctx /\ ctx_state ctx = Running /\
     let l := beatLoop maxSchedulesPerIteration (secondsPerBeat (st_bpm env))
                (st_beatNumerator env) (currentTime ctx) (set_lastUpdateTime (dateNow env) s) in
     dispatched (snd r) = dispatched (snd (fst l)) /\
     (isRunning (fst r) = true ->
        snd l = false /\ currentBeat (fst r) = currentBeat (fst (fst l)) /\
        schedulerCallback (fst r) = schedulerCallback (fst (fst l)) /\
        nextBeatTime (fst r) = nextBeatTime (fst (fst l)) /\
        audioContext (fst r) = audioContext (fst (fst l)))).
Proof.
  cbv zeta. unfold schedulerLoop.
  destruct (isRunning s) eqn:Erun; cbn [negb].
  2:{ left. simpl. split; [reflexivity|]. split; [intros ? ? []|].
      intro H. rewrite Erun in H. discriminate H. }
  fold (throttled env s).
  destruct (throttled env s) eqn:Eth.
  { left. simpl. split; [reflexivity|]. split.
    - intros task d [H|[]]. inversion H. reflexivity.
    - intros _. repeat split; reflexivity. }
  change (audioContext (set_lastUpdateTime (dateNow env) s)) with (audioContext s).
  destruct (audioContext s) as [ctx|] eqn:Eac.
  2:{ left.
      pose proof (stop_spec (set_lastUpdateTime (dateNow env) s)) as Hs. cbv zeta in Hs.
      destruct (stop _) as [s1 e1]. cbn [fst snd] in Hs |- *.
      destruct Hs as (Hrun & _ & _ & _ & _ & _ & _ & _ & _ & _ & Hd & Ht).
      split; [exact Hd|]. split.
      - intros task d [H|H]; [discriminate H|]. exfalso. exact (Ht task d H).
      - intro H. rewrite Hrun in H. discriminate H. }
  destruct (ctx_state ctx) eqn:Est.
  - right. split; [reflexivity|]. split; [reflexivity|].
    exists ctx. split; [reflexivity|]. split; [exact Est|].
    cbv zeta.
    destruct (beatLoop _ _ _ _ _) as [[s1 e1] ret] eqn:El. cbn [fst snd].
    destruct ret.
    + cbn [fst snd]. split; [reflexivity|].
      intro H. repeat split; try reflexivity.
      exfalso.
      pose proof (beatLoop_returned_stopped maxSchedulesPerIteration
                    (secondsPerBeat (st_bpm env)) (st_beatNumerator env) (currentTime ctx)
                    (set_lastUpdateTime (dateNow env) s)) as Hst.
      rewrite El in Hst. cbn [fst snd] in Hst. rewrite (Hst eq_refl) in H. discriminate H.
    + destruct (isRunning s1) eqn:Er1; cbn [fst snd].
      * split; [rewrite dispatched_app; simpl; rewrite app_nil_r; reflexivity|].
        intros _. repeat split; reflexivity.
      * split; [reflexivity|]. intro H. rewrite Er1 in H. discriminate H.
  - left. simpl. split; [reflexivity|]. split.
    + intros task d [H|[H|[]]]; [discriminate H|]. inversion H. reflexivity.
    + intros _. repeat split; try reflexivity. simpl. exact Eac.
  - left.
    pose proof (stop_spec (set_lastUpdateTime (dateNow env) s)) as Hs. cbv zeta in Hs.
    destruct (stop _) as [s1 e1]. cbn [fst snd] in Hs |- *.
    destruct Hs as (Hrun & _ & _ & _ & _ & _ & _ & _ & _ & _ & Hd & Ht).
    split; [exact Hd|]. split.
    + intros task d [H|H]; [discriminate H|]. exfalso. exact (Ht task d H).
    + intro H. rewrite Hrun in H. discriminate H.
Qed.

End Grid.

(** ** Beat numbers: one step of the cycle *)

Section BeatCycle.
Import Sched Trace GridSpec.

Variable N : Z.
Hypothesis N_pos : (1 <= N)%Z.

Lemma beatAt_next (k : nat) : (Z.rem (beatAt N k) N + 1)%Z = beatAt N (S k).
Proof.
  unfold beatAt.
  assert (0 <= Z.of_nat k mod N < N)%Z by (apply Z.mod_pos_bound; lia).
  rewrite Z.rem_mod_nonneg by lia.
  rewrite Z.add_mod_idemp_l by lia.
  rewrite Nat2Z.inj_succ. unfold Z.succ. reflexivity.
Qed.

Lemma reset_stops (s : Scheduler) :
  isRunning (fst (reset s)) = false /\ dispatched (snd (reset s)) = [].
Proof.
  unfold reset. pose proof (stop_spec s) as Hs. cbv zeta in Hs.
  destruct (stop s) as [s1 e1]. cbn [fst snd] in Hs |- *.
  destruct Hs as (Hrun & _ & _ & _ & _ & _ & _ & _ & _ & _ & Hd & _).
  split; [exact Hrun|]. rewrite dispatched_app, Hd. reflexivity.
Qed.

Lemma onstatechange_spec (st : ContextState) (s : Scheduler) :
  let r := onstatechange st s in
  dispatched (snd r) = [] /\
  (isRunning (fst r) = true ->
     isRunning s = true /\ currentBeat (fst r) = currentBeat s /\
     schedulerCallback (fst r) = schedulerCallback s /\
     nextBeatTime (fst r) = nextBeatTime s).
Proof.
  cbv zeta. unfold onstatechange.
  destruct st.
  - destruct (audioContext s); simpl; (split; [reflexivity|]); intro H;
      repeat split; try reflexivity; exact H.
  - destruct (audioContext s); simpl; (split; [reflexivity|]); intro H;
      repeat split; try reflexivity; exact H.
  - match goal with |- context [reset ?x] =>
      destruct (reset_stops x) as [R1 R2]; destruct (reset x) as [s2 e2] end.
    cbn [fst snd] in *. split; [exact R2|].
    intro H. rewrite R1 in H. discriminate H.
Qed.

End BeatCycle.

(** Start at 120 bpm in 4/4, then one tick with six beats due. *)
Example six_beats_numbers :
  map snd (dispatched
             (snd (Trace.run Samples.six_beats
                     (snd (fst (Sched.start (Some Samples.always_returns) 1000
                                  (Samples.env_120 1000) Samples.sample_ready))))))
  = [1; 2; 3; 4; 1; 2]%Z.
Proof. vm_compute. reflexivity. Qed.

(** ** C5: a suspended device is never scheduled against *)

Section SuspendedDevice.
Import Sched Trace GridSpec.

Lemma run_app (a b : list Event) (s : Scheduler) :
  run (a ++ b) s =
    (fst (run b (fst (run a s))), (snd (run a s) ++ snd (run b (fst (run a s))))%list).
Proof.
  revert s. induction a as [|ev a IH]; intro s; cbn [run app].
  - cbn [fst snd app]. destruct (run b s); reflexivity.
  - destruct (step ev s) as [s1 e1]. rewrite IH.
    destruct (run a s1) as [s2 e2]. cbn [fst snd].
    destruct (run b s2) as [s3 e3]. cbn [fst snd].
    rewrite app_assoc. reflexivity.
Qed.

Lemma run_two (a b : Event) (s : Scheduler) :
  run [a; b] s =
    (fst (step b (fst (step a s))), (snd (step a s) ++ snd (step b (fst (step a s))))%list).
Proof.
  cbn [run]. destruct (step a s) as [s1 e1]. cbn [fst snd].
  destruct (step b s1) as [s2 e2]. cbn [fst snd]. rewrite app_nil_r. reflexivity.
Qed.

Lemma suspended_tick (env : TickEnv) (s : Scheduler) (ctx : AudioContext) :
  audioContext s = Some ctx ->
  ctx_state ctx = Suspended ->
  let r := schedulerLoop env s in
  dispatched (snd r) = [] /\
  nextBeatTime (fst r) = nextBeatTime s /\ currentBeat (fst r) = currentBeat s /\
  audioContext (fst r) = Some ctx /\ isRunning (fst r) = isRunning s /\
  schedulerCallback (fst r) = schedulerCallback s /\
  (isRunning s = true -> throttled env s = false ->
     snd r = [ResumeAudio; SetTimeout TickTask 50] /\ timerID (fst r) = Some 50) /\
  (isRunning s = true -> throttled env s = true ->
     snd r = [SetTimeout TickTask minScheduleInterval] /\
     timerID (fst r) = Some minScheduleInterval).
Proof.
  intros Hac Hst. cbv zeta. unfold schedulerLoop.
  destruct (isRunning s) eqn:Erun; cbn [negb].
  2:{ simpl. repeat split; try assumption; try reflexivity; congruence. }
  fold (throttled env s). destruct (throttled env s).
  { simpl. repeat split; try assumption; try reflexivity; congruence. }
  change (audioContext (set_lastUpdateTime (dateNow env) s)) with (audioContext s).
  rewrite Hac, Hst. simpl. repeat split; try assumption; try reflexivity; congruence.
Qed.

Lemma suspended_ticks :
  forall (envs : list TickEnv) (s : Scheduler) (ctx : AudioContext),
    audioContext s = Some ctx ->
    ctx_state ctx = Suspended ->
    let r := run (map Tick envs) s in
    dispatched (snd r) = [] /\
    nextBeatTime (fst r) = nextBeatTime s /\ currentBeat (fst r) = currentBeat s /\
    audioContext (fst r) = Some ctx /\ isRunning (fst r) = isRunning s /\
    schedulerCallback (fst r) = schedulerCallback s.
Proof.
  induction envs as [|env envs IH]; intros s ctx Hac Hst; cbv zeta.
  - simpl. repeat split; try assumption; reflexivity.
  - cbn [map run step].
    pose proof (suspended_tick env s ctx Hac Hst) as H1. cbv zeta in H1.
    destruct (schedulerLoop env s) as [s1 e1]. cbn [fst snd] in H1.
    destruct H1 as (D1 & T1 & B1 & A1 & R1 & C1 & _ & _).
    pose proof (IH s1 ctx A1 Hst) as H2. cbv zeta in H2.
    destruct (run (map Tick envs) s1) as [s2 e2]. cbn [fst snd] in H2 |- *.
    destruct H2 as (D2 & T2 & B2 & A2 & R2 & C2).
    rewrite dispatched_app, D1, D2.
    repeat split; try assumption; try reflexivity; congruence.
Qed.

Lemma dispatchBeat_no_callback (iv : Q) (N : Z) (now : Q) (s : Scheduler) :
  schedulerCallback s = None ->
  let r := dispatchBeat iv N now s in
  dispatched (snd (fst r)) = [] /\ schedulerCallback (fst (fst r)) = None.
Proof.
  intro H. cbv zeta. unfold dispatchBeat.
  assert (H1 : schedulerCallback (countScheduled now s) = None) by exact H.
  rewrite H1. cbn [fst snd]. split; [reflexivity|exact H].
Qed.

Lemma beatLoop_no_callback (iv : Q) (N : Z) (now : Q) :
  forall (fuel : nat) (s : Scheduler),
    schedulerCallback s = None ->
    dispatched (snd (fst (beatLoop fuel iv N now s))) = [].
Proof.
  induction fuel as [|fuel IH]; intros s H; cbn [beatLoop]; [reflexivity|].
  destruct (Qltb _ _); [|reflexivity].
  pose proof (dispatchBeat_no_callback iv N now s H) as Hd. cbv zeta in Hd.
  destruct (dispatchBeat iv N now s) as [[s1 e1] r1]. cbn [fst snd] in Hd.
  destruct Hd as [Hd1 Hd2].
  destruct r1; cbn [fst snd]; [exact Hd1|].
  specialize (IH s1 Hd2).
  destruct (beatLoop fuel iv N now s1) as [[s2 e2] r2]. cbn [fst snd] in IH |- *.
  rewrite dispatched_app, Hd1, IH. reflexivity.
Qed.

(** Whatever a tick dispatches starts at the stored [nextBeatTime]. *)
Lemma tick_head (env : TickEnv) (s : Scheduler) :
  dispatched (snd (schedulerLoop env s)) = [] \/
  exists rest,
    dispatched (snd (schedulerLoop env s)) = (nextBeatTime s, currentBeat s) :: rest.
Proof.
  destruct (schedulerLoop_cases env s) as [(Hd & _)|(Hrun & _ & ctx & Hac & Hst & Hl)].
  - left. exact Hd.
  - cbv zeta in Hl. destruct Hl as (Hd & _). rewrite Hd.
    destruct (schedulerCallback s) as [cb|] eqn:Ecb.
    + pose proof (beatLoop_grid cb (secondsPerBeat (st_bpm env)) (st_beatNumerator env)
                    (currentTime ctx) maxSchedulesPerIteration
                    (set_lastUpdateTime (dateNow env) s) Ecb) as G.
      cbv zeta in G. destruct G as (Gd & _). rewrite Gd.
      destruct (length _); [left; reflexivity|right]. simpl. eexists. reflexivity.
    + left. apply beatLoop_no_callback. exact Ecb.
Qed.

(** C5, as the code has it.  A tick that finds the context suspended hands
    no beat to the callback and leaves [nextBeatTime] and the beat counter
    alone.  When the scheduler is running and the tick gets past the throttle
    test, it calls [audioContext.resume()] and re-arms itself with a delay of
    exactly 50 ms, and does nothing else; a throttled tick re-arms itself with
    [minScheduleInterval] (1 ms) before the state of the context is looked at.
    Over any number of suspended ticks nothing is dispatched, and the first
    beat dispatched once the context reports [running] again carries the
    [nextBeatTime] computed before the suspension. *)
Theorem suspended_device_not_scheduled :
  forall (env : TickEnv) (s : Scheduler) (ctx : AudioContext),
    audioContext s = Some ctx ->
    ctx_state ctx = Suspended ->
    let r := schedulerLoop env s in
    dispatched (snd r) = [] /\
    nextBeatTime (fst r) = nextBeatTime s /\
    currentBeat (fst r) = currentBeat s /\
    (isRunning s = true -> throttled env s = false ->
       snd r = [ResumeAudio; SetTimeout TickTask 50] /\
       timerID (fst r) = Some 50 /\ isRunning (fst r) = true) /\
    (isRunning s = true -> throttled env s = true ->
       snd r = [SetTimeout TickTask minScheduleInterval] /\
       timerID (fst r) = Some minScheduleInterval /\ isRunning (fst r) = true) /\
    forall (envs : list TickEnv),
      let r1 := run (map Tick envs) s in
      dispatched (snd r1) = [] /\
      nextBeatTime (fst r1) = nextBeatTime s /\
      forall env' : TickEnv,
        let r2 := run [ContextStateChange Running; Tick env'] (fst r1) in
        dispatched (snd r2) = [] \/
        exists rest, dispatched (snd r2) = (nextBeatTime s, currentBeat s) :: rest.
Proof.
  intros env s ctx Hac Hst r.
  pose proof (suspended_tick env s ctx Hac Hst) as H. cbv zeta in H. subst r.
  destruct H as (D & T & B & A & R & C & Hres & Hthr).
  split; [exact D|]. split; [exact T|]. split; [exact B|].
  split; [|split].
  - intros Hr Hn. destruct (Hres Hr Hn) as [E1 E2].
    split; [exact E1|]. split; [exact E2|]. rewrite R. exact Hr.
  - intros Hr Ht. destruct (Hthr Hr Ht) as [E1 E2].
    split; [exact E1|]. split; [exact E2|]. rewrite R. exact Hr.
  - intros envs r1.
    pose proof (suspended_ticks envs s ctx Hac Hst) as H1. cbv zeta in H1.
    destruct H1 as (D1 & T1 & B1 & A1 & _).
    split; [exact D1|]. split; [exact T1|].
    intros env' r2.
    subst r2 r1. rewrite run_two. cbn [step fst snd].
    unfold onstatechange. rewrite A1. cbn [fst snd List.app].
    match goal with |- context [schedulerLoop env' ?x] => set (s2 := x) end.
    change (dispatched (ConsoleLog "audio context state changed" :: snd (schedulerLoop env' s2)))
      with (dispatched (snd (schedulerLoop env' s2))).
    destruct (tick_head env' s2) as [H0|[rest Hh]].
    + left. exact H0.
    + right. exists rest. rewrite Hh.
      change (nextBeatTime s2) with (nextBeatTime (fst (run (map Tick envs) s))).
      change (currentBeat s2) with (currentBeat (fst (run (map Tick envs) s))).
      rewrite T1, B1. reflexivity.
Qed.

(** C5 at a running scheduler whose device is suspended, one second after the
    previous tick. *)
Lemma suspended_device_not_scheduled_witness :
  snd (schedulerLoop (Samples.env_120 2000)
         (Samples.sample_suspended Samples.always_returns))
  = [ResumeAudio; SetTimeout TickTask 50].
Proof.
  exact (proj1 (proj1 (proj2 (proj2 (proj2
    (suspended_device_not_scheduled (Samples.env_120 2000)
       (Samples.sample_suspended Samples.always_returns)
       (mkContext Suspended 1) eq_refl eq_refl)))) eq_refl eq_refl)).
Defined.

(** C5 fails as stated on a throttled tick: the same scheduler ticked in the
    millisecond of its previous tick (as the call of [schedulerLoop()] inside
    [start()] is) re-arms itself after 1 ms, not 50 ms, and does not call
    [resume()], although the context is suspended. *)
Lemma throttled_tick_skips_resume :
  let s := Samples.sample_suspended Samples.always_returns in
  let r := schedulerLoop (Samples.env_120 1000) s in
  isRunning s = true /\
  option_map ctx_state (audioContext s) = Some Suspended /\
  snd r = [SetTimeout TickTask 1] /\
  ~ In ResumeAudio (snd r) /\
  ~ In (SetTimeout TickTask 50) (snd r).
Proof.
  cbv zeta. vm_compute. repeat split; try reflexivity;
    intros [H|[]]; discriminate H.
Qed.

(** The same through [start()]: on a suspended context the first call of
    [schedulerLoop()], made inside [start()] in the millisecond in which
    [lastUpdateTime] was set, only re-arms the timer. *)
Example start_on_suspended_context :
  snd (start (Some Samples.always_returns) 1000 (Samples.env_120 1000)
         (set_audioContext (Some (mkContext Suspended 0)) scheduler0))
  = [SetTimeout TickTask 1].
Proof. vm_compute. reflexivity. Qed.

End SuspendedDevice.

(** ** C2: the grid between realignments, and what a tempo change does to it *)

Section GridTimes.
Import Sched Trace GridSpec.

Variables (t0 iv : Q).

Lemma on_grid_app (k : nat) (a b : list Q) :
  on_grid t0 iv k a -> on_grid t0 iv (k + length a) b -> on_grid t0 iv k (a ++ b).
Proof.
  intros Ha Hb i Hi. rewrite length_app in Hi.
  destruct (Nat.lt_ge_cases i (length a)) as [L|G].
  - rewrite app_nth1 by exact L. apply Ha. exact L.
  - rewrite app_nth2 by exact G.
    rewrite (Hb (i - length a)%nat) by lia.
    replace (k + length a + (i - length a))%nat with (k + i)%nat by lia. reflexivity.
Qed.

Lemma on_grid_nil (k : nat) : on_grid t0 iv k [].
Proof. intros i Hi. simpl in Hi. lia. Qed.

End GridTimes.

Lemma secondsPerBeat_pos (b : Q) : 0 < b -> 0 < Sched.secondsPerBeat b.
Proof.
  intro Hb. unfold Sched.secondsPerBeat.
  apply Qlt_shift_div_l; [exact Hb|]. rewrite Qmult_0_l. reflexivity.
Qed.

(** *** Callbacks that call back into the scheduler *)

Section NoReentry.
Import Sched Trace Reentrant.

(** A callback that calls nothing back is the callback of [Sched]. *)
Lemma dispatchBeat_no_reentry (iv : Q) (N : Z) (now : Q) (s : Scheduler) :
  Reentrant.dispatchBeat [] iv N now s = Sched.dispatchBeat iv N now s.
Proof.
  unfold Reentrant.dispatchBeat, Sched.dispatchBeat. cbn [reenterAll].
  destruct (schedulerCallback (countScheduled now s)) as [cb|]; cbn [fst snd]; [|reflexivity].
  destruct (cb _ _); reflexivity.
Qed.

Lemma beatLoop_no_reentry (iv : Q) (N : Z) (now : Q) :
  forall (fuel : nat) (s : Scheduler),
    Reentrant.beatLoop fuel [] iv N now s = (Sched.beatLoop fuel iv N now s, []).
Proof.
  induction fuel as [|fuel IH]; intro s; [reflexivity|].
  cbn [Reentrant.beatLoop Sched.beatLoop].
  destruct (Qltb _ _); [|reflexivity].
  assert (Hn : nextCalls [] s = ([], [])) by (unfold nextCalls; destruct (schedulerCallback s); reflexivity).
  rewrite Hn, dispatchBeat_no_reentry.
  destruct (Sched.dispatchBeat iv N now s) as [[s1 e1] ret].
  destruct ret; [reflexivity|]. rewrite IH.
  destruct (Sched.beatLoop fuel iv N now s1) as [[s2 e2] r2]. reflexivity.
Qed.

Lemma schedulerLoop_no_reentry (env : TickEnv) (s : Scheduler) :
  Reentrant.schedulerLoop env [] s = (Sched.schedulerLoop env s, []).
Proof.
  unfold Reentrant.schedulerLoop, Sched.schedulerLoop.
  destruct (negb (isRunning s)); [reflexivity|].
  destruct (_ && _); [reflexivity|]. cbv zeta.
  destruct (audioContext _) as [ctx|]; [|destruct (stop _); reflexivity].
  destruct (ctx_state ctx); [|reflexivity|destruct (stop _); reflexivity].
  rewrite beatLoop_no_reentry.
  destruct (Sched.beatLoop _ _ _ _ _) as [[s1 e1] ret].
  destruct ret; [reflexivity|]. destruct (isRunning s1); reflexivity.
Qed.

Lemma run_no_reentry :
  forall (evs : list Event) (s : Scheduler),
    Reentrant.run evs [] s = (Trace.run evs s, []).
Proof.
  induction evs as [|ev evs IH]; intro s; [reflexivity|].
  cbn [Reentrant.run Trace.run].
  assert (Hs : Reentrant.step ev [] s = (Trace.step ev s, [])).
  { destruct ev; cbn [Reentrant.step]; try (destruct (Trace.step _ s); reflexivity).
    rewrite schedulerLoop_no_reentry. reflexivity. }
  rewrite Hs. destruct (Trace.step ev s) as [s1 e1]. rewrite IH.
  destruct (Trace.run evs s1) as [s2 e2]. reflexivity.
Qed.

End NoReentry.

Section ReentrantGrid.
Import Sched Trace GridSpec Reentrant.

Lemma reenter_spec (call : Reentry) (s : Scheduler) :
  let r := reenter call s in
  dispatched (snd r) = [] /\
  audioContext (fst r) = audioContext s /\
  (schedulerCallback (fst r) = schedulerCallback s \/ schedulerCallback (fst r) = None) /\
  match call with
  | CallStop => nextBeatTime (fst r) = nextBeatTime s
  | CallUpdateInterval =>
      forall ctx, audioContext s = Some ctx -> nextBeatTime (fst r) = currentTime ctx + 0.15
  end.
Proof.
  cbv zeta. destruct call; cbn [reenter].
  - unfold updateInterval. destruct (audioContext s) as [ctx|] eqn:E; cbn [fst snd].
    + split; [reflexivity|]. split; [exact E|]. split; [left; reflexivity|].
      intros ctx' H. inversion H. reflexivity.
    + split; [reflexivity|]. split; [exact E|]. split; [left; reflexivity|].
      intros ctx' H. discriminate H.
  - pose proof (stop_spec s) as H. cbv zeta in H.
    destruct H as (_ & _ & _ & Hcb & _ & _ & Hac & Hnbt & _ & _ & Hd & _).
    split; [exact Hd|]. split; [exact Hac|]. split; [right; exact Hcb|exact Hnbt].
Qed.

Lemma reenterAll_cons (call : Reentry) (calls : list Reentry) (s : Scheduler) :
  reenterAll (call :: calls) s =
    (fst (reenterAll calls (fst (reenter call s))),
     (snd (reenter call s) ++ snd (reenterAll calls (fst (reenter call s))))%list).
Proof.
  cbn [reenterAll]. destruct (reenter call s) as [s1 e1]. cbn [fst snd].
  destruct (reenterAll calls s1) as [s2 e2]. reflexivity.
Qed.

(** What the calls of one invocation leave behind. *)
Lemma reenterAll_spec :
  forall (calls : list Reentry) (s : Scheduler),
    let r := reenterAll calls s in
    dispatched (snd r) = [] /\
    audioContext (fst r) = audioContext s /\
    (schedulerCallback (fst r) = schedulerCallback s \/ schedulerCallback (fst r) = None) /\
    (~ In CallUpdateInterval calls -> nextBeatTime (fst r) = nextBeatTime s) /\
    (In CallUpdateInterval calls ->
     forall ctx, audioContext s = Some ctx -> nextBeatTime (fst r) = currentTime ctx + 0.15).
Proof.
  induction calls as [|call calls IH]; intro s; cbv zeta.
  - cbn. split; [reflexivity|]. split; [reflexivity|]. split; [left; reflexivity|].
    split; [reflexivity|]. intros [].
  - rewrite reenterAll_cons. cbn [fst snd].
    pose proof (reenter_spec call s) as H1. cbv zeta in H1.
    destruct H1 as (D1 & A1 & C1 & T1).
    specialize (IH (fst (reenter call s))). cbv zeta in IH.
    destruct IH as (D2 & A2 & C2 & T2 & U2).
    split; [rewrite dispatched_app, D1, D2; reflexivity|].
    split; [rewrite A2; exact A1|].
    split.
    { destruct C2 as [C2|C2]; [|right; exact C2].
      rewrite C2. exact C1. }
    split.
    + intro Hno. rewrite T2 by (intro H; apply Hno; right; exact H).
      destruct call; [exfalso; apply Hno; left; reflexivity|exact T1].
    + intros Hin ctx Hctx.
      destruct (in_dec (fun a b : Reentry => ltac:(decide equality) : {a = b} + {a <> b})
                  CallUpdateInterval calls) as [Hrest|Hrest].
      * apply U2; [exact Hrest|]. rewrite A1. exact Hctx.
      * rewrite (T2 Hrest). destruct Hin as [Hc|Hin]; [|contradiction].
        subst call. apply T1. exact Hctx.
Qed.

(** One pass of the loop body, whatever the callback calls. *)
Lemma dispatchBeat_pass (calls : list Reentry) (iv : Q) (N : Z) (now : Q) (s : Scheduler) :
  let r := Reentrant.dispatchBeat calls iv N now s in
  let s' := fst (fst r) in
  (schedulerCallback s = None ->
     dispatched (snd (fst r)) = [] /\ schedulerCallback s' = None) /\
  (schedulerCallback s <> None ->
     dispatched (snd (fst r)) = [(nextBeatTime s, currentBeat s)]) /\
  (snd r = true -> schedulerCallback s' = None) /\
  audioContext s' = audioContext s /\
  (snd r = false ->
     (~ In CallUpdateInterval calls \/ schedulerCallback s = None ->
        nextBeatTime s' = nextBeatTime s + iv) /\
     (In CallUpdateInterval calls -> schedulerCallback s <> None ->
        forall ctx, audioContext s = Some ctx ->
          nextBeatTime s' = currentTime ctx + 0.15 + iv)).
Proof.
  cbv zeta. unfold Reentrant.dispatchBeat.
  change (schedulerCallback (countScheduled now s)) with (schedulerCallback s).
  change (nextBeatTime (countScheduled now s)) with (nextBeatTime s).
  change (currentBeat (countScheduled now s)) with (currentBeat s).
  destruct (schedulerCallback s) as [cb|] eqn:Ecb.
  2:{ cbn [fst snd].
      split; [intros _; split; [reflexivity|exact Ecb]|].
      split; [intro H; congruence|]. split; [intro H; discriminate H|].
      split; [reflexivity|]. intros _. split; [intros _; reflexivity|].
      intros _ H. congruence. }
  pose proof (reenterAll_spec calls (countScheduled now s)) as R. cbv zeta in R.
  destruct (reenterAll calls (countScheduled now s)) as [s1 ec]. cbn [fst snd] in R.
  destruct R as (RD & RA & RC & RT & RU).
  change (audioContext (countScheduled now s)) with (audioContext s) in RA, RU.
  change (nextBeatTime (countScheduled now s)) with (nextBeatTime s) in RT.
  split; [intro H; discriminate H|].
  destruct (cb (nextBeatTime s) (currentBeat s)).
  - cbn [fst snd]. split; [intros _; cbn; rewrite RD; reflexivity|].
    split; [intro H; discriminate H|]. split; [exact RA|].
    intros _. split.
    + intros [Hno|H]; [|discriminate H]. cbn. rewrite (RT Hno). reflexivity.
    + intros Hin _ ctx Hctx. cbn. rewrite (RU Hin ctx Hctx). reflexivity.
  - destruct (maxAllowedErrors <=? _)%Z.
    + match goal with |- context [stop ?x] => pose proof (stop_spec x) as Hs end.
      cbv zeta in Hs. destruct (stop _) as [s3 e3]. cbn [fst snd] in Hs.
      destruct Hs as (_ & _ & _ & Hcb & _ & Hrt & Hac & _ & _ & _ & Hd & _).
      rewrite (attemptRecovery_after_stop s3 Hrt). cbn [fst snd].
      split.
      { intros _. repeat (rewrite ?dispatched_app; cbn [dispatched List.app]).
        rewrite Hd, RD. reflexivity. }
      split; [intros _; exact Hcb|]. split; [rewrite <- RA; exact Hac|].
      intro H; discriminate H.
    + cbn [fst snd]. split.
      { intros _. repeat (rewrite ?dispatched_app; cbn [dispatched List.app]).
        rewrite RD. reflexivity. }
      split; [intro H; discriminate H|]. split; [exact RA|].
      intros _. split.
      * intros [Hno|H]; [|discriminate H]. cbn. rewrite (RT Hno). reflexivity.
      * intros Hin _ ctx Hctx. cbn. rewrite (RU Hin ctx Hctx). reflexivity.
Qed.


Lemma nextCalls_spec (script : Script) (s : Scheduler) :
  noRealign script ->
  ~ In CallUpdateInterval (fst (nextCalls script s)) /\ noRealign (snd (nextCalls script s)).
Proof.
  intro H. unfold nextCalls.
  destruct (schedulerCallback s); [|split; [intros []|exact H]].
  destruct script as [|calls rest]; [split; [intros []|exact H]|].
  cbn [fst snd]. split; [exact (Forall_inv H)|exact (Forall_inv_tail H)].
Qed.

Lemma beatLoop_unfold (fuel : nat) (script : Script) (iv : Q) (N : Z) (now : Q) (s : Scheduler) :
  Reentrant.beatLoop (S fuel) script iv N now s =
    if Qltb (nextBeatTime s) (now + scheduleAheadTime) then
      let d := Reentrant.dispatchBeat (fst (nextCalls script s)) iv N now s in
      if snd d then (fst (fst d), snd (fst d), true, snd (nextCalls script s))
      else
        let l := Reentrant.beatLoop fuel (snd (nextCalls script s)) iv N now (fst (fst d)) in
        (fst (fst (fst l)), (snd (fst d) ++ snd (fst (fst l)))%list, snd (fst l), snd l)
    else (s, [], false, script).
Proof.
  cbn [Reentrant.beatLoop]. destruct (Qltb _ _); [|reflexivity].
  destruct (nextCalls script s) as [calls script1]. cbn [fst snd].
  destruct (Reentrant.dispatchBeat calls iv N now s) as [[s1 e1] ret]. cbn [fst snd].
  destruct ret; [reflexivity|].
  destruct (Reentrant.beatLoop fuel script1 iv N now s1) as [[[s2 e2] r2] script2].
  reflexivity.
Qed.

(** Without a callback the loop hands nothing out, and none gets installed. *)
Lemma beatLoop_silent (iv : Q) (N : Z) (now : Q) :
  forall (fuel : nat) (script : Script) (s : Scheduler),
    schedulerCallback s = None ->
    let r := Reentrant.beatLoop fuel script iv N now s in
    dispatched (snd (fst (fst r))) = [] /\ schedulerCallback (fst (fst (fst r))) = None /\
    snd r = script.
Proof.
  induction fuel as [|fuel IH]; intros script s Hcb; cbv zeta.
  - cbn. split; [reflexivity|]. split; [exact Hcb|reflexivity].
  - rewrite beatLoop_unfold.
    destruct (Qltb _ _); [|cbn; split; [reflexivity|]; split; [exact Hcb|reflexivity]].
    cbv zeta.
    assert (Hn : nextCalls script s = ([], script)) by (unfold nextCalls; rewrite Hcb; reflexivity).
    rewrite Hn. cbn [fst snd].
    pose proof (dispatchBeat_pass [] iv N now s) as P. cbv zeta in P.
    destruct P as (Pnone & _ & _ & _).
    destruct (Pnone Hcb) as [Pd Pc].
    destruct (snd (Reentrant.dispatchBeat [] iv N now s)).
    + cbn [fst snd]. split; [exact Pd|]. split; [exact Pc|reflexivity].
    + specialize (IH script _ Pc). cbv zeta in IH. destruct IH as (I1 & I2 & I3).
      cbn [fst snd]. rewrite dispatched_app, Pd, I1. split; [reflexivity|].
      split; [exact I2|exact I3].
Qed.

(** Whatever the loop hands out starts with the stored time and number. *)
Lemma beatLoop_head (iv : Q) (N : Z) (now : Q) (fuel : nat) (script : Script) (s : Scheduler) :
  let out := dispatched (snd (fst (fst (Reentrant.beatLoop fuel script iv N now s)))) in
  out = [] \/ exists rest, out = (nextBeatTime s, currentBeat s) :: rest.
Proof.
  cbv zeta. destruct fuel as [|fuel]; [left; reflexivity|].
  rewrite beatLoop_unfold. destruct (Qltb _ _); [|left; reflexivity].
  cbv zeta.
  pose proof (dispatchBeat_pass (fst (nextCalls script s)) iv N now s) as P. cbv zeta in P.
  destruct P as (Pnone & Psome & _).
  destruct (schedulerCallback s) as [cb|] eqn:Ecb.
  - right. rewrite <- Ecb in Psome.
    assert (Hd := Psome ltac:(rewrite Ecb; discriminate)).
    destruct (snd (Reentrant.dispatchBeat _ iv N now s)); cbn [fst snd].
    + rewrite Hd. eexists. reflexivity.
    + rewrite dispatched_app, Hd. eexists. reflexivity.
  - left. destruct (Pnone eq_refl) as [Pd Pc].
    destruct (snd (Reentrant.dispatchBeat _ iv N now s)); cbn [fst snd]; [exact Pd|].
    rewrite dispatched_app, Pd.
    exact (proj1 (beatLoop_silent iv N now fuel _ _ Pc)).
Qed.

Lemma schedulerLoop_unfold (env : TickEnv) (script : Script) (s : Scheduler) :
  Reentrant.schedulerLoop env script s =
    if negb (isRunning s) then (s, [], script)
    else if throttled env s
    then (set_timerID (Some minScheduleInterval) s, [SetTimeout TickTask minScheduleInterval],
          script)
    else
      let s0 := set_lastUpdateTime (dateNow env) s in
      match audioContext s with
      | None => (fst (stop s0), HandleAudioError "audio context closed" :: snd (stop s0), script)
      | Some ctx =>
          match ctx_state ctx with
          | Closed =>
              (fst (stop s0), HandleAudioError "audio context closed" :: snd (stop s0), script)
          | Suspended => (set_timerID (Some 50) s0, [ResumeAudio; SetTimeout TickTask 50], script)
          | Running =>
              let l := Reentrant.beatLoop maxSchedulesPerIteration script
                         (secondsPerBeat (st_bpm env)) (st_beatNumerator env)
                         (currentTime ctx) s0 in
              let s1 := fst (fst (fst l)) in
              if snd (fst l) then (s1, snd (fst (fst l)), snd l)
              else if isRunning s1
                   then (set_timerID (Some (nextDelay (currentTime ctx) s1)) s1,
                         (snd (fst (fst l))
                          ++ [SetTimeout TickTask (nextDelay (currentTime ctx) s1)])%list, snd l)
                   else (s1, snd (fst (fst l)), snd l)
          end
      end.
Proof.
  unfold Reentrant.schedulerLoop, throttled.
  destruct (negb (isRunning s)); [reflexivity|].
  destruct (_ && _); [reflexivity|]. cbv zeta.
  change (audioContext (set_lastUpdateTime (dateNow env) s)) with (audioContext s).
  destruct (audioContext s) as [ctx|].
  2:{ destruct (stop _); reflexivity. }
  destruct (ctx_state ctx); [|reflexivity|destruct (stop _); reflexivity].
  destruct (Reentrant.beatLoop _ _ _ _ _ _) as [[[s1 e1] ret] script1]. cbn [fst snd].
  destruct ret; [reflexivity|]. destruct (isRunning s1); reflexivity.
Qed.

(** Whatever a tick hands out starts with the stored time and number, also
    when the callback calls back into the scheduler. *)
Lemma tick_head_reentrant (env : TickEnv) (script : Script) (s : Scheduler) :
  let out := dispatched (snd (fst (Reentrant.schedulerLoop env script s))) in
  out = [] \/ exists rest, out = (nextBeatTime s, currentBeat s) :: rest.
Proof.
  cbv zeta. rewrite schedulerLoop_unfold.
  destruct (negb (isRunning s)); [left; reflexivity|].
  destruct (throttled env s); [left; reflexivity|]. cbv zeta.
  assert (Hstop : forall x : Scheduler,
             dispatched (HandleAudioError "audio context closed" :: snd (stop x)) = []).
  { intro x. pose proof (stop_spec x) as Hs. cbv zeta in Hs. cbn [dispatched]. tauto. }
  destruct (audioContext s) as [ctx|]; [|left; apply Hstop].
  destruct (ctx_state ctx); [|left; reflexivity|left; apply Hstop].
  pose proof (beatLoop_head (secondsPerBeat (st_bpm env)) (st_beatNumerator env)
                (currentTime ctx) maxSchedulesPerIteration script
                (set_lastUpdateTime (dateNow env) s)) as H. cbv zeta in H.
  change (nextBeatTime (set_lastUpdateTime (dateNow env) s)) with (nextBeatTime s) in H.
  change (currentBeat (set_lastUpdateTime (dateNow env) s)) with (currentBeat s) in H.
  destruct (snd (fst (Reentrant.beatLoop _ _ _ _ _ _))); cbn [fst snd]; [exact H|].
  destruct (isRunning _); cbn [fst snd]; [|exact H].
  rewrite dispatched_app. cbn [dispatched]. rewrite app_nil_r. exact H.
Qed.


Variables (t0 iv : Q).

Lemma anchored_next (k : nat) (s s' : Scheduler) :
  anchored t0 iv k s -> schedulerCallback s <> None ->
  nextBeatTime s' = nextBeatTime s + iv -> anchored t0 iv (S k) s'.
Proof.
  intros Ha Hcb Hn _. rewrite Hn, (Ha Hcb).
  rewrite Nat2Z.inj_succ. unfold Z.succ. rewrite inject_Z_plus.
  change (inject_Z 1) with 1. ring.
Qed.

Lemma anchored_silent (k k' : nat) (s : Scheduler) :
  schedulerCallback s = None -> anchored t0 iv k' s.
Proof. intros H Hcb. congruence. Qed.

Lemma beatLoop_anchored (N : Z) (now : Q) :
  forall (fuel : nat) (script : Script) (s : Scheduler) (k : nat),
    noRealign script -> anchored t0 iv k s ->
    let r := Reentrant.beatLoop fuel script iv N now s in
    let ts := map fst (dispatched (snd (fst (fst r)))) in
    on_grid t0 iv k ts /\ anchored t0 iv (k + length ts) (fst (fst (fst r))) /\
    noRealign (snd r) /\
    (snd (fst r) = true -> schedulerCallback (fst (fst (fst r))) = None).
Proof.
  induction fuel as [|fuel IH]; intros script s k Hscript Hinv; cbv zeta.
  - cbn. split; [apply on_grid_nil|]. rewrite Nat.add_0_r.
    split; [exact Hinv|]. split; [exact Hscript|]. intro H; discriminate H.
  - rewrite beatLoop_unfold.
    destruct (Qltb _ _).
    2:{ cbn. split; [apply on_grid_nil|]. rewrite Nat.add_0_r.
        split; [exact Hinv|]. split; [exact Hscript|]. intro H; discriminate H. }
    cbv zeta.
    destruct (nextCalls_spec script s Hscript) as [Hcalls Hrest].
    pose proof (dispatchBeat_pass (fst (nextCalls script s)) iv N now s) as P. cbv zeta in P.
    destruct P as (Pnone & Psome & Pret & _ & Pgo).
    destruct (schedulerCallback s) as [cb|] eqn:Ecb.
    + assert (Hne : Some cb <> None) by discriminate.
      pose proof (Psome Hne) as Hd.
      assert (Hfirst : on_grid t0 iv k [nextBeatTime s]).
      { intros i Hi. cbn in Hi. assert (i = 0%nat) by lia. subst i. cbn [nth].
        rewrite Nat.add_0_r. apply Hinv. rewrite Ecb. exact Hne. }
      destruct (snd (Reentrant.dispatchBeat _ iv N now s)) eqn:Eret.
      * cbn [fst snd]. rewrite Hd. cbn [map length fst].
        split; [exact Hfirst|]. split; [apply (anchored_silent k); apply Pret; reflexivity|].
        split; [exact Hrest|]. intros _. apply Pret. reflexivity.
      * destruct (Pgo eq_refl) as [Pt _].
        assert (Hnext : anchored t0 iv (S k) (fst (fst (Reentrant.dispatchBeat
                                                          (fst (nextCalls script s)) iv N now s)))).
        { apply (anchored_next k s); [exact Hinv|rewrite Ecb; exact Hne|].
          apply Pt. left. exact Hcalls. }
        specialize (IH _ _ (S k) Hrest Hnext). cbv zeta in IH.
        destruct IH as (I1 & I2 & I3 & I4).
        cbn [fst snd]. rewrite dispatched_app, map_app, Hd. cbn [map fst List.app length].
        split.
        { change (nextBeatTime s :: ?l) with ([nextBeatTime s] ++ l)%list.
          apply on_grid_app; [exact Hfirst|]. cbn [length].
          replace (k + 1)%nat with (S k) by lia. exact I1. }
        split; [|split; [exact I3|exact I4]].
        replace (k + S (length (map fst (dispatched (snd (fst (fst (Reentrant.beatLoop fuel
                   (snd (nextCalls script s)) iv N now (fst (fst (Reentrant.dispatchBeat
                   (fst (nextCalls script s)) iv N now s)))))))))))%nat
          with (S k + length (map fst (dispatched (snd (fst (fst (Reentrant.beatLoop fuel
                   (snd (nextCalls script s)) iv N now (fst (fst (Reentrant.dispatchBeat
                   (fst (nextCalls script s)) iv N now s))))))))))%nat by lia.
        exact I2.
    + destruct (Pnone eq_refl) as [Pd Pc].
      destruct (snd (Reentrant.dispatchBeat _ iv N now s)) eqn:Eret.
      * cbn [fst snd]. rewrite Pd. cbn [map length].
        split; [apply on_grid_nil|]. split; [apply (anchored_silent k); exact Pc|].
        split; [exact Hrest|]. intros _. exact Pc.
      * pose proof (beatLoop_silent iv N now fuel (snd (nextCalls script s)) _ Pc) as S.
        cbv zeta in S. destruct S as (S1 & S2 & S3).
        cbn [fst snd]. rewrite dispatched_app, Pd, S1. cbn [map length List.app].
        split; [apply on_grid_nil|]. split; [apply (anchored_silent k); exact S2|].
        split; [rewrite S3; exact Hrest|]. intros _. exact S2.
Qed.

Variable b : Q.
Hypothesis iv_is : iv = secondsPerBeat b.

Lemma tick_anchored (env : TickEnv) (script : Script) (s : Scheduler) (k : nat) :
  st_bpm env = b ->
  noRealign script -> anchored t0 iv k s ->
  let r := Reentrant.schedulerLoop env script s in
  let ts := map fst (dispatched (snd (fst r))) in
  on_grid t0 iv k ts /\ anchored t0 iv (k + length ts) (fst (fst r)) /\ noRealign (snd r).
Proof.
  intros Hb Hscript Hinv. cbv zeta. rewrite schedulerLoop_unfold.
  assert (Hsame : forall s' : Scheduler,
             schedulerCallback s' = schedulerCallback s -> nextBeatTime s' = nextBeatTime s ->
             anchored t0 iv (k + 0) s').
  { intros s' H1 H2 H. rewrite Nat.add_0_r, H2. apply Hinv. rewrite <- H1. exact H. }
  destruct (negb (isRunning s)).
  { cbn. split; [apply on_grid_nil|]. split; [apply Hsame; reflexivity|exact Hscript]. }
  destruct (throttled env s).
  { cbn. split; [apply on_grid_nil|]. split; [apply Hsame; reflexivity|exact Hscript]. }
  cbv zeta.
  assert (Hstop : forall x : Scheduler,
             let r := (fst (stop x), HandleAudioError "audio context closed" :: snd (stop x),
                       script) in
             on_grid t0 iv k (map fst (dispatched (snd (fst r)))) /\
             anchored t0 iv (k + length (map fst (dispatched (snd (fst r))))) (fst (fst r)) /\
             noRealign (snd r)).
  { intro x. cbv zeta. cbn [fst snd dispatched].
    pose proof (stop_spec x) as Hs. cbv zeta in Hs.
    destruct Hs as (_ & _ & _ & Hcb & _ & _ & _ & _ & _ & _ & Hd & _).
    rewrite Hd. cbn. split; [apply on_grid_nil|].
    split; [apply (anchored_silent k); exact Hcb|exact Hscript]. }
  destruct (audioContext s) as [ctx|]; [|apply Hstop].
  destruct (ctx_state ctx); [|cbn; split; [apply on_grid_nil|];
                              split; [apply Hsame; reflexivity|exact Hscript]|apply Hstop].
  assert (Hinv0 : anchored t0 iv k (set_lastUpdateTime (dateNow env) s)) by exact Hinv.
  pose proof (beatLoop_anchored (st_beatNumerator env) (currentTime ctx)
                maxSchedulesPerIteration script _ k Hscript Hinv0) as L.
  cbv zeta in L. rewrite Hb, <- iv_is.
  destruct L as (L1 & L2 & L3 & _).
  destruct (snd (fst (Reentrant.beatLoop _ _ _ _ _ _))); cbn [fst snd].
  { split; [exact L1|]. split; [exact L2|exact L3]. }
  destruct (isRunning _); cbn [fst snd].
  - rewrite dispatched_app. cbn [dispatched]. rewrite app_nil_r.
    split; [exact L1|]. split; [exact L2|exact L3].
  - split; [exact L1|]. split; [exact L2|exact L3].
Qed.

Lemma step_anchored (ev : Event) (script : Script) (s : Scheduler) (k : nat) :
  steady b ev ->
  noRealign script -> anchored t0 iv k s ->
  let r := Reentrant.step ev script s in
  let ts := map fst (dispatched (snd (fst r))) in
  on_grid t0 iv k ts /\ anchored t0 iv (k + length ts) (fst (fst r)) /\ noRealign (snd r).
Proof.
  intros Hev Hscript Hinv. destruct ev as [env| |t|st]; cbn [Reentrant.step Trace.step].
  - apply tick_anchored; assumption.
  - destruct Hev.
  - cbn. split; [apply on_grid_nil|]. rewrite Nat.add_0_r. split; [|exact Hscript].
    unfold set_clock. destruct (audioContext s); exact Hinv.
  - destruct (onstatechange_spec st s) as [D _]. cbv zeta.
    assert (E : (let '(s1, e1) := onstatechange st s in (s1, e1, script))
                = (fst (onstatechange st s), snd (onstatechange st s), script))
      by (destruct (onstatechange st s); reflexivity).
    rewrite E. cbn [fst snd]. rewrite D.
    cbn [map length]. split; [apply on_grid_nil|]. rewrite Nat.add_0_r.
    split; [|exact Hscript].
    unfold onstatechange. destruct st.
    + cbn [fst]. destruct (audioContext s); exact Hinv.
    + cbn [fst]. destruct (audioContext s); exact Hinv.
    + match goal with |- context [reset ?x] =>
        pose proof (stop_spec x) as Hs; unfold reset; cbv zeta in Hs;
        destruct (stop x) as [s2 e2] end.
      cbn [fst snd] in Hs |- *. apply (anchored_silent k). cbn. tauto.
Qed.

Lemma run_cons (ev : Event) (evs : list Event) (script : Script) (s : Scheduler) :
  Reentrant.run (ev :: evs) script s =
    let r1 := Reentrant.step ev script s in
    let r2 := Reentrant.run evs (snd r1) (fst (fst r1)) in
    (fst (fst r2), (snd (fst r1) ++ snd (fst r2))%list, snd r2).
Proof.
  cbn [Reentrant.run]. destruct (Reentrant.step ev script s) as [[s1 e1] script1].
  cbn [fst snd]. destruct (Reentrant.run evs script1 s1) as [[s2 e2] script2]. reflexivity.
Qed.

Lemma run_anchored :
  forall (evs : list Event) (script : Script) (s : Scheduler) (k : nat),
    Forall (steady b) evs ->
    noRealign script -> anchored t0 iv k s ->
    on_grid t0 iv k (map fst (dispatched (snd (fst (Reentrant.run evs script s))))).
Proof.
  induction evs as [|ev evs IH]; intros script s k Hall Hscript Hinv.
  - apply on_grid_nil.
  - rewrite run_cons. cbv zeta. cbn [fst snd].
    pose proof (Forall_inv Hall) as Hev. pose proof (Forall_inv_tail Hall) as Hrest.
    pose proof (step_anchored ev script s k Hev Hscript Hinv) as Hs. cbv zeta in Hs.
    destruct Hs as (H1 & H2 & H3).
    rewrite dispatched_app, map_app.
    apply on_grid_app; [exact H1|]. apply IH; assumption.
Qed.

End ReentrantGrid.


(** C2, as the code has it.  Between two realignments, at a constant tempo
    [bpm > 0], the timestamps handed to the callback are
    [nextBeatTime + k * 60/bpm] for k = 0, 1, 2, ...: consecutive ones differ
    by exactly [60 / bpm] and increase strictly, whether or not a callback
    stops the scheduler on the way.  A tempo change calls [updateInterval],
    which re-anchors the timeline at [currentTime + 0.15] instead of keeping
    the phase.  Called between two ticks, it leaves that time as the timestamp
    of the next beat, which is later than every timestamp [last] below it.
    Called from inside the callback of a beat, it is followed by the
    [nextBeatTime += interval] of the loop body, with the interval of the
    tempo the tick had read: the next beat is stamped
    [currentTime + 0.15 + 60/bpm] for that tempo, later than the beat whose
    callback made the call when that tempo is at most 300. *)
Theorem grid_between_realignments :
  forall (bpm : Q) (evs : list Trace.Event) (script : Reentrant.Script) (s : Sched.Scheduler),
    0 < bpm ->
    Forall (GridSpec.steady bpm) evs ->
    Reentrant.noRealign script ->
    let ts := map fst (dispatched (snd (fst (Reentrant.run evs script s)))) in
    (forall k : nat, (k < length ts)%nat ->
       nth k ts 0 == Sched.nextBeatTime s + inject_Z (Z.of_nat k) * (60 / bpm)) /\
    (forall i : nat, (S i < length ts)%nat ->
       nth (S i) ts 0 - nth i ts 0 == 60 / bpm /\ nth i ts 0 < nth (S i) ts 0) /\
    (forall (ctx : Sched.AudioContext) (env : Sched.TickEnv) (later : Reentrant.Script)
            (last : Q),
       Sched.audioContext s = Some ctx ->
       last < Sched.currentTime ctx + 0.15 ->
       let s' := snd (fst (Sched.updateInterval s)) in
       let out := dispatched (snd (fst (Reentrant.schedulerLoop env later s'))) in
       Sched.nextBeatTime s' = Sched.currentTime ctx + 0.15 /\
       last < Sched.nextBeatTime s' /\
       (out = [] \/
        exists rest, out = (Sched.currentTime ctx + 0.15, Sched.currentBeat s) :: rest)) /\
    (forall (ctx : Sched.AudioContext) (cb : Sched.Callback) (calls : list Reentrant.Reentry)
            (tickBpm : Q) (N : Z) (env : Sched.TickEnv) (later : Reentrant.Script),
       Sched.audioContext s = Some ctx ->
       Sched.schedulerCallback s = Some cb ->
       In Reentrant.CallUpdateInterval calls ->
       0 < tickBpm <= 300 ->
       Sched.nextBeatTime s < Sched.currentTime ctx + Sched.scheduleAheadTime ->
       let r := Reentrant.dispatchBeat calls (60 / tickBpm) N (Sched.currentTime ctx) s in
       let s' := fst (fst r) in
       let out := dispatched (snd (fst (Reentrant.schedulerLoop env later s'))) in
       dispatched (snd (fst r)) = [(Sched.nextBeatTime s, Sched.currentBeat s)] /\
       (snd r = false ->
        Sched.nextBeatTime s' = Sched.currentTime ctx + 0.15 + 60 / tickBpm /\
        Sched.nextBeatTime s < Sched.nextBeatTime s' /\
        (out = [] \/
         exists rest,
           out = (Sched.currentTime ctx + 0.15 + 60 / tickBpm, Sched.currentBeat s') :: rest))).
Proof.
  intros bpm evs script s Hb Hall Hscript ts.
  assert (Hinv : GridSpec.anchored (Sched.nextBeatTime s) (Sched.secondsPerBeat bpm) 0 s).
  { intros _. cbn. ring. }
  pose proof (run_anchored (Sched.nextBeatTime s) (Sched.secondsPerBeat bpm) bpm eq_refl
                evs script s 0 Hall Hscript Hinv) as G.
  fold ts in G. unfold GridSpec.on_grid in G. cbn [Nat.add] in G.
  change (Sched.secondsPerBeat bpm) with (60 / bpm) in G.
  split; [exact G|]. split; [|split].
  - intros i Hi.
    assert (Hi' : (i < length ts)%nat) by lia.
    rewrite (G (S i) Hi), (G i Hi').
    rewrite Nat2Z.inj_succ. unfold Z.succ. rewrite inject_Z_plus.
    change (inject_Z 1) with 1.
    pose proof (secondsPerBeat_pos bpm Hb) as Hp. unfold Sched.secondsPerBeat in Hp.
    split; [ring|].
    set (d := 60 / bpm) in *. set (x := inject_Z (Z.of_nat i)) in *.
    apply Qlt_minus_iff.
    setoid_replace (Sched.nextBeatTime s + (x + 1) * d + - (Sched.nextBeatTime s + x * d))
      with d by ring.
    exact Hp.
  - intros ctx env later last Hac Hlast. cbv zeta. unfold Sched.updateInterval. rewrite Hac.
    cbn [fst snd]. split; [reflexivity|]. split; [exact Hlast|].
    apply (tick_head_reentrant env later
             (Sched.set_nextBeatTime (Sched.currentTime ctx + 0.15) s)).
  - intros ctx cb calls tickBpm N env later Hac Hcb Hin [Hpos Hmax] Hdue. cbv zeta.
    pose proof (dispatchBeat_pass calls (60 / tickBpm) N (Sched.currentTime ctx) s) as P.
    cbv zeta in P. destruct P as (_ & Psome & _ & _ & Pgo).
    split; [apply Psome; rewrite Hcb; discriminate|].
    intro Hret. destruct (Pgo Hret) as [_ Pu].
    assert (Hn : Sched.nextBeatTime
                   (fst (fst (Reentrant.dispatchBeat calls (60 / tickBpm) N
                                (Sched.currentTime ctx) s)))
                 = Sched.currentTime ctx + 0.15 + 60 / tickBpm).
    { apply Pu; [exact Hin|rewrite Hcb; discriminate|exact Hac]. }
    split; [exact Hn|]. split.
    + rewrite Hn.
      assert (Hiv : (1 # 5) <= 60 / tickBpm).
      { apply Qle_shift_div_l; [exact Hpos|]. lra. }
      unfold Sched.scheduleAheadTime in Hdue. lra.
    + rewrite <- Hn. apply tick_head_reentrant.
Qed.

(** C2 on a steady run at 60 bpm in which the callback of the second beat
    stops the scheduler: the two beats are one second apart. *)
Lemma grid_between_realignments_witness :
  let s := snd (fst (Sched.start (Some Samples.always_returns) 1000 (Samples.env_60 1000)
                       Samples.sample_ready)) in
  let ts := map fst (dispatched (snd (fst (Reentrant.run Samples.steady_run
                                             Samples.stop_at_second_beat s)))) in
  length ts = 2%nat /\ nth 1 ts 0 - nth 0 ts 0 == 60 / 60 /\ nth 0 ts 0 < nth 1 ts 0.
Proof.
  split; [vm_compute; reflexivity|].
  exact (proj1 (proj2
    (grid_between_realignments 60 Samples.steady_run Samples.stop_at_second_beat
       (snd (fst (Sched.start (Some Samples.always_returns) 1000 (Samples.env_60 1000)
                    Samples.sample_ready)))
       ltac:(reflexivity)
       ltac:(repeat constructor)
       ltac:(constructor; [intros []|constructor; [intros [H|[]]; discriminate H|constructor]])))
      0%nat ltac:(vm_compute; lia)).
Defined.

(** C2 fails as stated: at 60 bpm the second beat is stamped 1.2 s; the tempo
    is set to 120 while the clock reads 1.1 s, which realigns the timeline to
    1.1 + 0.15 = 1.25 s.  The third beat is dispatched with that timestamp:
    after the second, but 0.05 s after it and not 60/120 = 0.5 s. *)
Lemma tempo_change_breaks_grid :
  let s := snd (fst (Sched.start (Some Samples.always_returns) 1000 (Samples.env_60 1000)
                       Samples.sample_ready)) in
  let ts := map fst (dispatched (snd (fst (Reentrant.run Samples.tempo_change_run [] s)))) in
  map Qred ts = [1 # 5; 6 # 5; 5 # 4] /\
  GridSpec.strictly_increasing ts /\
  ~ (nth 2 ts 0 - nth 1 ts 0 == 60 / 120).
Proof.
  cbv zeta. split; [vm_compute; reflexivity|]. split.
  - intros i Hi.
    assert (Hlen : length (map fst (dispatched (snd (fst (Reentrant.run
                      Samples.tempo_change_run []
                      (snd (fst (Sched.start (Some Samples.always_returns) 1000
                                   (Samples.env_60 1000) Samples.sample_ready)))))))) = 3%nat)
      by (vm_compute; reflexivity).
    rewrite Hlen in Hi.
    destruct i as [|[|i]]; [vm_compute; reflexivity|vm_compute; reflexivity|lia].
  - intro H. vm_compute in H. discriminate H.
Qed.

(** The same run with the tempo changed from inside the callback of the
    second beat, while the clock reads 1.01 s: the loop adds the second of
    the old tempo to [1.01 + 0.15], and the third beat is stamped 2.16 s. *)
Example tempo_change_inside_callback :
  let s := snd (fst (Sched.start (Some Samples.always_returns) 1000 (Samples.env_60 1000)
                       Samples.sample_ready)) in
  map Qred (map fst (dispatched (snd (fst (Reentrant.run Samples.steady_run
                                            Samples.realign_at_second_beat s)))))
  = [1 # 5; 6 # 5; 54 # 25].
Proof. vm_compute. reflexivity. Qed.

(** ** C9: recovery after the error threshold *)

Section Recovery.
Import Sched.

Lemma dispatchBeat_returned_handoff (iv : Q) (N : Z) (now : Q) (s : Scheduler) :
  let r := dispatchBeat iv N now s in
  snd r = true ->
  isRunning (fst (fst r)) = false /\
  recoveryTimeout (fst (fst r)) = Some 1000 /\
  In (SetTimeout RecoveryTask 1000) (snd (fst r)) /\
  (forall task d, In (SetTimeout task d) (snd (fst r)) -> task = RecoveryTask /\ d = 1000).
Proof.
  cbv zeta. unfold dispatchBeat.
  destruct (fst _); [intro H; discriminate H|].
  destruct (maxAllowedErrors <=? _)%Z; [|intro H; discriminate H].
  match goal with |- context [stop ?x] => pose proof (stop_spec x) as Hs end.
  cbv zeta in Hs. destruct (stop _) as [s3 e3]. cbn [fst snd] in Hs.
  destruct Hs as (Hrun & _ & _ & _ & _ & Hrt & _ & _ & _ & _ & _ & Ht).
  rewrite (attemptRecovery_after_stop s3 Hrt). cbn [fst snd]. intros _.
  split; [exact Hrun|]. split; [reflexivity|]. split.
  - apply in_or_app. right. right. apply in_or_app. right. right. left. reflexivity.
  - intros task d Hin.
    apply in_app_or in Hin. destruct Hin as [Hin|Hin].
    + apply in_app_or in Hin. destruct Hin as [Hin|[Hin|[]]]; [|discriminate Hin].
      destruct (schedulerCallback _); simpl in Hin.
      * destruct Hin as [Hin|[]]. discriminate Hin.
      * destruct Hin.
    + destruct Hin as [Hin|Hin]; [discriminate Hin|].
      apply in_app_or in Hin. destruct Hin as [Hin|Hin]; [exfalso; exact (Ht _ _ Hin)|].
      destruct Hin as [Hin|[Hin|[]]]; [discriminate Hin|].
      inversion Hin. split; reflexivity.
Qed.

(** What recovery does.  When a throw brings the error count to the threshold the loop body
    stops the scheduler and arms one timer, the recovery timer, with a delay
    of 1000 ms.  When that timer fires, the closure clears [errorCount], calls
    [init()] only if the context is absent or closed, never sets [isRunning],
    installs no callback, dispatches nothing and arms no timer: a restart
    needs a call of [start] from outside.  If no context is stored and
    creating one fails, the failure is logged and the scheduler is left as it
    was, stopped; if creating one succeeds, it is stored. *)
Lemma recovery_closure_spec :
  forall (io : InitOutcome) (iv : Q) (N : Z) (now : Q) (s0 s : Scheduler),
    (snd (dispatchBeat iv N now s0) = true ->
       let stopped := fst (fst (dispatchBeat iv N now s0)) in
       let es := snd (fst (dispatchBeat iv N now s0)) in
       isRunning stopped = false /\
       In (SetTimeout RecoveryTask 1000) es /\
       (forall task d, In (SetTimeout task d) es -> task = RecoveryTask /\ d = 1000) /\
       isRunning (fst (recoveryTimerFired io stopped)) = false) /\
    let r := recoveryTimerFired io s in
    errorCount (fst r) = 0%Z /\
    isRunning (fst r) = isRunning s /\
    schedulerCallback (fst r) = schedulerCallback s /\
    timerID (fst r) = timerID s /\
    recoveryTimeout (fst r) = None /\
    dispatched (snd r) = [] /\
    (forall task d, ~ In (SetTimeout task d) (snd r)) /\
    (In CreateAudioContext (snd r) -> needsInit s = true) /\
    (needsInit s = false -> audioContext (fst r) = audioContext s) /\
    (audioContext s = None -> io = ConstructorThrows ->
       In (HandleAudioError "scheduler recovery") (snd r) /\
       In (ConsoleWarn "scheduler recovery failed") (snd r) /\
       audioContext (fst r) = None) /\
    (audioContext s = None ->
     forall st t ok, io = Created st t ok ->
       exists ctx, audioContext (fst r) = Some ctx /\ currentTime ctx = t).
Proof.
  intros io iv N now s0 s.
  assert (Hfire : forall x : Scheduler,
             let r := recoveryTimerFired io x in
             errorCount (fst r) = 0%Z /\
             isRunning (fst r) = isRunning x /\
             schedulerCallback (fst r) = schedulerCallback x /\
             timerID (fst r) = timerID x /\
             recoveryTimeout (fst r) = None /\
             dispatched (snd r) = [] /\
             (forall task d, ~ In (SetTimeout task d) (snd r)) /\
             (In CreateAudioContext (snd r) -> needsInit x = true) /\
             (needsInit x = false -> audioContext (fst r) = audioContext x) /\
             (audioContext x = None -> io = ConstructorThrows ->
                In (HandleAudioError "scheduler recovery") (snd r) /\
                In (ConsoleWarn "scheduler recovery failed") (snd r) /\
                audioContext (fst r) = None) /\
             (audioContext x = None ->
              forall st t ok, io = Created st t ok ->
                exists ctx, audioContext (fst r) = Some ctx /\ currentTime ctx = t)).
  { intro x. cbv zeta. unfold recoveryTimerFired.
    change (needsInit (set_errorCount 0 x)) with (needsInit x).
    unfold needsInit, init.
    change (audioContext (set_errorCount 0 x)) with (audioContext x).
    destruct x as [ac run cur nbt cb lut tid ec rt ps]. cbn [audioContext].
    destruct ac as [[st t]|].
    - destruct st; cbn; repeat split; try reflexivity; try congruence;
        try (intros task d H; repeat (destruct H as [H|H]; [discriminate H|]); exact H);
        try (intro H; repeat (destruct H as [H|H]; [discriminate H|]); destruct H).
    - destruct io as [|st t ok]; [|destruct st, ok]; cbn;
        repeat split; try reflexivity; try congruence;
        try (intros task d H; repeat (destruct H as [H|H]; [discriminate H|]); exact H);
        try (right; left; reflexivity);
        try (right; right; left; reflexivity);
        try (right; right; right; left; reflexivity);
        try (intros _ st' t' ok' Hio; inversion Hio; subst; eexists; split; reflexivity). }
  split.
  - intros Hret stopped es.
    destruct (dispatchBeat_returned_handoff iv N now s0 Hret) as (H1 & _ & H3 & H4).
    repeat split; try assumption.
    + apply (H4 task d). assumption.
    + apply (H4 task d). assumption.
    + destruct (Hfire stopped) as (_ & Hr & _). rewrite Hr. exact H1.
  - apply Hfire.
Qed.

(** [init()] never replaces a stored context, whatever its state, so the
    recovery closure leaves a stored context in place. *)
Lemma recovery_keeps_stored_context (io : InitOutcome) (s : Scheduler) (ctx : AudioContext) :
  audioContext s = Some ctx ->
  audioContext (fst (recoveryTimerFired io s)) = Some ctx /\
  ~ In CreateAudioContext (snd (recoveryTimerFired io s)).
Proof.
  intro Hac. unfold recoveryTimerFired, needsInit, init.
  change (audioContext (set_errorCount 0 s)) with (audioContext s). rewrite Hac.
  destruct (ctx_state ctx); cbn [fst snd]; (split; [exact Hac|]);
    intro H; repeat (destruct H as [H|H]; [discriminate H|]); exact H.
Qed.

(** [reset()], which is how a stored context is ever cleared, cancels a
    pending recovery: the closure does not get to run on a cleared context. *)
Lemma reset_cancels_recovery (s : Scheduler) (handle : Q) :
  recoveryTimeout s = Some handle ->
  recoveryTimeout (fst (reset s)) = None /\
  audioContext (fst (reset s)) = None /\
  In (ClearTimeout RecoveryTask) (snd (reset s)).
Proof.
  intro H. unfold reset, stop.
  destruct s as [ac run cur nbt cb lut tid ec rt ps]. cbn in H. subst rt.
  destruct tid; cbn; repeat split; auto.
Qed.

(** C9 at the input the code mishandles.  The scheduler has stopped on its
    third consecutive failure and armed the recovery timer; during the
    cooldown the context closes, and the timer fires before the
    [onstatechange] listener has run.  The closure finds the context closed
    and calls [init()], which returns at its "already initialised" test: no
    context is created although the host would provide one, and the closed
    context stays stored. *)
Theorem recovery_leaves_closed_context :
  let stopped := fst (fst (dispatchBeat (secondsPerBeat 120) 4 1
                             (Samples.sample_running 2 Samples.always_throws))) in
  let s := set_audioContext (Some (mkContext Closed 1)) stopped in
  let r := recoveryTimerFired (Created Running 0 true) s in
  recoveryTimeout s = Some 1000 /\
  needsInit s = true /\
  audioContext (fst r) = Some (mkContext Closed 1) /\
  snd r = [ConsoleWarn "scheduler already initialised";
           ConsoleLog "recovery attempt finished"] /\
  isRunning (fst r) = false /\ errorCount (fst r) = 0%Z.
Proof.
  cbv zeta. vm_compute. repeat split; reflexivity.
Qed.

End Recovery.

(** ** C8: starting a running scheduler, stopping a stopped metronome *)

Section Idempotence.
Import Sched.

Lemma dispatchBeat_audioContext (iv : Q) (N : Z) (now : Q) (s : Scheduler) :
  audioContext (fst (fst (dispatchBeat iv N now s))) = audioContext s.
Proof.
  unfold dispatchBeat.
  destruct (schedulerCallback (countScheduled now s)) as [cb|]; cbn [fst snd];
    [|reflexivity].
  destruct (cb _ _); [reflexivity|].
  destruct (maxAllowedErrors <=? _)%Z; [|reflexivity].
  match goal with |- context [stop ?x] => pose proof (stop_spec x) as Hs end.
  cbv zeta in Hs. destruct (stop _) as [s3 e3]. cbn [fst snd] in Hs.
  destruct Hs as (_ & _ & _ & _ & _ & Hrt & Hac & _).
  rewrite (attemptRecovery_after_stop s3 Hrt). cbn [fst snd]. exact Hac.
Qed.

Lemma beatLoop_audioContext (iv : Q) (N : Z) (now : Q) :
  forall (fuel : nat) (s : Scheduler),
    audioContext (fst (fst (beatLoop fuel iv N now s))) = audioContext s.
Proof.
  induction fuel as [|fuel IH]; intro s; cbn [beatLoop]; [reflexivity|].
  destruct (Qltb _ _); [|reflexivity].
  pose proof (dispatchBeat_audioContext iv N now s) as Hd.
  destruct (dispatchBeat iv N now s) as [[s1 e1] r1]. cbn [fst snd] in Hd.
  destruct r1; [exact Hd|].
  specialize (IH s1). destruct (beatLoop fuel iv N now s1) as [[s2 e2] r2].
  cbn [fst snd] in *. congruence.
Qed.

Lemma schedulerLoop_audioContext (env : TickEnv) (s : Scheduler) :
  audioContext (fst (schedulerLoop env s)) = audioContext s.
Proof.
  unfold schedulerLoop.
  destruct (negb (isRunning s)); [reflexivity|].
  destruct (_ && _); [reflexivity|].
  change (audioContext (set_lastUpdateTime (dateNow env) s)) with (audioContext s).
  destruct (audioContext s) as [ctx|] eqn:Eac.
  2:{ pose proof (stop_spec (set_lastUpdateTime (dateNow env) s)) as Hs. cbv zeta in Hs.
      destruct (stop _) as [s1 e1]. cbn [fst snd] in *.
      destruct Hs as (_ & _ & _ & _ & _ & _ & Hac & _). rewrite Hac. exact Eac. }
  destruct (ctx_state ctx).
  - pose proof (beatLoop_audioContext (secondsPerBeat (st_bpm env)) (st_beatNumerator env)
                  (currentTime ctx) maxSchedulesPerIteration
                  (set_lastUpdateTime (dateNow env) s)) as Hl.
    destruct (beatLoop _ _ _ _ _) as [[s1 e1] ret]. cbn [fst snd] in Hl.
    change (audioContext (set_lastUpdateTime (dateNow env) s)) with (audioContext s) in Hl.
    destruct ret; [cbn [fst]; congruence|].
    destruct (isRunning s1); cbn [fst]; [|congruence].
    change (audioContext (set_timerID (Some (nextDelay (currentTime ctx) s1)) s1))
      with (audioContext s1). congruence.
  - simpl. exact Eac.
  - pose proof (stop_spec (set_lastUpdateTime (dateNow env) s)) as Hs. cbv zeta in Hs.
    destruct (stop _) as [s1 e1]. cbn [fst snd] in *.
    destruct Hs as (_ & _ & _ & _ & _ & _ & Hac & _). rewrite Hac. exact Eac.
Qed.

Lemma start_keeps_context (cb : option Callback) (ms : Z) (env : TickEnv) (s : Scheduler) :
  fst (fst (start cb ms env s)) = true ->
  exists ctx, audioContext (snd (fst (start cb ms env s))) = Some ctx.
Proof.
  unfold start.
  destruct (audioContext s) as [ctx|] eqn:Eac; [|intro H; discriminate H].
  destruct (isRunning s).
  - intros _. exists ctx. exact Eac.
  - destruct cb as [cb|]; [|intro H; discriminate H].
    match goal with |- context [schedulerLoop env ?x] =>
      pose proof (schedulerLoop_audioContext env x) as Hl;
      destruct (schedulerLoop env x) as [s8 e8] end.
    cbn [fst snd] in *. intros _. exists ctx. rewrite Hl. exact Eac.
Qed.

Lemma start_when_running (cb : option Callback) (ms : Z) (env : TickEnv)
      (s : Scheduler) (ctx : AudioContext) :
  audioContext s = Some ctx ->
  isRunning s = true ->
  start cb ms env s = (true, s, [ConsoleWarn "scheduler already running"]).
Proof.
  intros Hac Hrun. unfold start. rewrite Hac, Hrun. reflexivity.
Qed.

End Idempotence.

(** C8.  [scheduler.start] on a scheduler that is running returns [true] and
    changes nothing: the state is the same object field by field, so the
    timer handle, [nextBeatTime] and the beat counter are untouched, and the
    only effect is a warning -- no timer is armed.  In particular a second
    [start] right after a [start] that left the scheduler running is a no-op.
    [stopMetronome] on a metronome that is not running returns [false] and
    changes nothing. *)
Theorem start_stop_idempotent :
  forall (cb1 cb2 : option Sched.Callback) (ms1 ms2 now_ms : Z)
         (env1 env2 : Sched.TickEnv) (s0 : Sched.Scheduler) (w : Metronome.World),
    (forall ctx, Sched.audioContext s0 = Some ctx -> Sched.isRunning s0 = true ->
       Sched.start cb2 ms2 env2 s0 = (true, s0, [ConsoleWarn "scheduler already running"])) /\
    (let first := Sched.start cb1 ms1 env1 s0 in
     fst (fst first) = true ->
     Sched.isRunning (snd (fst first)) = true ->
     let second := Sched.start cb2 ms2 env2 (snd (fst first)) in
     fst (fst second) = true /\
     snd (fst second) = snd (fst first) /\
     (forall task d, ~ In (SetTimeout task d) (snd second))) /\
    (State.isRunning (Metronome.app w) = false ->
     Metronome.stopMetronome now_ms w = (false, w, [ConsoleWarn "metronome is not running"])).
Proof.
  intros cb1 cb2 ms1 ms2 now_ms env1 env2 s0 w.
  split; [|split].
  - intros ctx Hac Hrun. apply (start_when_running cb2 ms2 env2 s0 ctx Hac Hrun).
  - intros first Hok Hrun second.
    destruct (start_keeps_context cb1 ms1 env1 s0 Hok) as [ctx Hctx].
    subst second. fold first in Hctx.
    rewrite (start_when_running cb2 ms2 env2 (snd (fst first)) ctx Hctx Hrun).
    cbn [fst snd]. repeat split.
    intros task d [H|[]]. discriminate H.
  - intro Hstop. unfold Metronome.stopMetronome. rewrite Hstop. reflexivity.
Qed.

(** C8 on a metronome started once: the scheduler is started a second time,
    and a stopped metronome is stopped again. *)
Lemma start_stop_idempotent_witness :
  snd (fst (Sched.start (Some Samples.always_returns) 1001 (Samples.env_120 1001)
              (snd (fst (Sched.start (Some Samples.always_returns) 1000
                           (Samples.env_120 1000) Samples.sample_ready)))))
  = snd (fst (Sched.start (Some Samples.always_returns) 1000 (Samples.env_120 1000)
                Samples.sample_ready))
  /\ Metronome.stopMetronome 5 WorldSamples.ready
     = (false, WorldSamples.ready, [ConsoleWarn "metronome is not running"]).
Proof.
  pose proof (start_stop_idempotent (Some Samples.always_returns) (Some Samples.always_returns)
                1000 1001 5 (Samples.env_120 1000) (Samples.env_120 1001)
                Samples.sample_ready WorldSamples.ready) as H.
  split.
  - exact (proj1 (proj2 (proj1 (proj2 H) eq_refl eq_refl))).
  - exact (proj2 (proj2 H) eq_refl).
Defined.

(** ** C10: the debounce lock of [toggleMetronome] *)

Section ToggleLock.
Import Metronome Host.

Lemma deliver_keeps_lock :
  forall (beats : list (Q * Z)) (w : World),
    toggleLock (fst (deliver beats w)) = toggleLock w /\
    lockTimers (fst (deliver beats w)) = lockTimers w.
Proof.
  induction beats as [|[t b] rest IH]; intro w; cbn [deliver]; [split; reflexivity|].
  unfold scheduleBeat.
  match goal with |- context [deliver rest ?x] =>
    destruct (IH x) as [I1 I2]; destruct (deliver rest x) as [w2 e2] end.
  cbn [fst snd] in *. rewrite I1, I2. split; reflexivity.
Qed.

Lemma startMetronome_keeps_lock (ms : Z) (w : World) :
  toggleLock (snd (fst (startMetronome ms w))) = toggleLock w /\
  lockTimers (snd (fst (startMetronome ms w))) = lockTimers w.
Proof.
  unfold startMetronome, startFailed.
  destruct (negb (isInitialized (metro w))); [split; reflexivity|].
  destruct (negb (isAudioReady w)); [split; reflexivity|].
  destruct (State.isRunning (app w)); [split; reflexivity|].
  destruct (Sched.start _ _ _ _) as [[started s'] es].
  match goal with |- context [deliver ?l ?x] =>
    destruct (deliver_keeps_lock l x) as [I1 I2]; destruct (deliver l x) as [w3 e3] end.
  cbn [fst snd] in *.
  destruct started; cbn [fst snd]; split; (etransitivity; [|eassumption]); reflexivity.
Qed.

Lemma stopMetronome_keeps_lock (ms : Z) (w : World) :
  toggleLock (snd (fst (stopMetronome ms w))) = toggleLock w /\
  lockTimers (snd (fst (stopMetronome ms w))) = lockTimers w.
Proof.
  unfold stopMetronome.
  destruct (negb (State.isRunning (app w))); [split; reflexivity|].
  destruct (Sched.stop (sched w)) as [s' es]. split; reflexivity.
Qed.

Lemma toggle_accepted (t0 : Z) (w : World) :
  toggleLock w = false ->
  toggleLock (snd (fst (toggleMetronome t0 w))) = true /\
  lockTimers (snd (fst (toggleMetronome t0 w)))
    = (lockTimers w ++ [t0 + TOGGLE_LOCK_DURATION])%Z%list.
Proof.
  intro Hopen. unfold toggleMetronome. rewrite Hopen.
  set (w1 := with_lock true _ w).
  destruct (State.isRunning (app w1)).
  - destruct (stopMetronome_keeps_lock t0 w1) as [I1 I2].
    destruct (stopMetronome t0 w1) as [[r w2] e2]. cbn [fst snd] in *.
    rewrite I1, I2. split; reflexivity.
  - destruct (startMetronome_keeps_lock t0 w1) as [I1 I2].
    destruct (startMetronome t0 w1) as [[r w2] e2]. cbn [fst snd] in *.
    rewrite I1, I2. split; reflexivity.
Qed.

Lemma toggle_rejected (t : Z) (w : World) :
  toggleLock w = true ->
  toggleMetronome t w = (false, w, [ConsoleWarn "toggle blocked by the debounce lock"]).
Proof.
  intro H. unfold toggleMetronome. rewrite H. reflexivity.
Qed.

(** The lock invariant holds initially and every host event keeps it. *)
Lemma lockInvariant_initial : lockInvariant world0.
Proof. left. split; reflexivity. Qed.

Lemma lockInvariant_step (ev : HostEvent) (w : World) :
  lockInvariant w -> lockInvariant (fst (hostStep ev w)).
Proof.
  intros [[Hl Ht]|[Hl [due Ht]]]; destruct ev as [t|t]; cbn [hostStep].
  - destruct (toggle_accepted t w Hl) as [A1 A2].
    destruct (toggleMetronome t w) as [[r w'] e]. cbn [fst snd] in *.
    right. split; [exact A1|]. rewrite A2, Ht. eexists. reflexivity.
  - cbn [fst]. unfold fireUnlock. rewrite Ht. left. split; assumption.
  - rewrite (toggle_rejected t w Hl). cbn [fst]. right. split; [exact Hl|].
    exists due. exact Ht.
  - cbn [fst]. unfold fireUnlock. rewrite Ht.
    destruct (due <=? t)%Z.
    + left. split; reflexivity.
    + right. split; [exact Hl|]. exists due. exact Ht.
Qed.

(** C10.  Take a world in which no stale unlock timer is pending (true
    initially and kept by every call and timer) and a call of
    [toggleMetronome] at [t0] that the lock lets through.  Then, whatever the
    host does during the next 300 ms -- further calls, timer phases -- every
    further call returns [false] and leaves the whole world, the running state
    included, as the first call left it. *)
Theorem toggle_locked_for_300ms :
  forall (w : World) (t0 : Z) (evs : list HostEvent),
    lockInvariant w ->
    toggleLock w = false ->
    Forall (within t0) evs ->
    let w1 := snd (fst (toggleMetronome t0 w)) in
    TOGGLE_LOCK_DURATION = 300%Z /\
    fst (runHost evs w1) = w1 /\
    snd (runHost evs w1) = map (fun _ => false) (filter isCall evs) /\
    (forall t : Z, (t0 <= t < t0 + 300)%Z ->
       toggleMetronome t w1
         = (false, w1, [ConsoleWarn "toggle blocked by the debounce lock"]) /\
       State.isRunning (app (snd (fst (toggleMetronome t w1)))) = State.isRunning (app w1)).
Proof.
  intros w t0 evs Hinv Hopen Hall w1.
  split; [reflexivity|].
  destruct Hinv as [[_ Ht]|[Hl _]]; [|congruence].
  destruct (toggle_accepted t0 w Hopen) as [A1 A2]. fold w1 in A1, A2.
  rewrite Ht in A2.
  assert (Hstep : forall ev, within t0 ev ->
            hostStep ev w1 = (w1, if isCall ev then Some false else None)).
  { intros [t|t] Hw; cbn [hostStep isCall].
    - rewrite (toggle_rejected t w1 A1). reflexivity.
    - unfold fireUnlock. rewrite A2. cbn [List.app].
      unfold within in Hw. cbn [eventTime] in Hw.
      destruct (Z.leb_spec (t0 + TOGGLE_LOCK_DURATION) t) as [L|G]; [lia|reflexivity]. }
  assert (Hrun : runHost evs w1 = (w1, map (fun _ => false) (filter isCall evs))).
  { clear - Hall Hstep. induction evs as [|ev evs IH]; [reflexivity|].
    cbn [runHost]. rewrite (Hstep ev (Forall_inv Hall)).
    rewrite (IH (Forall_inv_tail Hall)).
    destruct ev; reflexivity. }
  rewrite Hrun. cbn [fst snd].
  split; [reflexivity|]. split; [reflexivity|].
  intros t _. rewrite (toggle_rejected t w1 A1). split; reflexivity.
Qed.

(** C10: the metronome is toggled on at 1000 ms; calls at 1000, 1150 and
    1299 ms, with a timer phase in between, are all refused. *)
Lemma toggle_locked_for_300ms_witness :
  snd (runHost [Call 1000; Fire 1100; Call 1150; Call 1299]
         (snd (fst (toggleMetronome 1000 WorldSamples.ready))))
  = [false; false; false].
Proof.
  exact (proj1 (proj2 (proj2
    (toggle_locked_for_300ms WorldSamples.ready 1000
       [Call 1000; Fire 1100; Call 1150; Call 1299]
       (or_introl (conj eq_refl eq_refl)) eq_refl
       ltac:(repeat constructor; vm_compute; discriminate))))).
Defined.

(** Once 300 ms have passed and the host has run the unlock timer, the next
    call goes through again: the metronome started at 1000 ms is stopped by
    the call at 1300 ms. *)
Example toggle_unlocked_after_300ms :
  let r := runHost [Call 1000; Call 1299; Fire 1299; Fire 1300; Call 1300] WorldSamples.ready in
  snd r = [true; false; true] /\
  State.isRunning (app (fst r)) = false /\
  lockTimers (fst r) = [1600%Z].
Proof. vm_compute. repeat split; reflexivity. Qed.

End ToggleLock.

(** ** C4: the tempo setters *)

Section TempoSetters.
Import Js Config.

Lemma Qeq_bool_pos (x : Q) : 0 < x -> Qeq_bool x 0 = false.
Proof.
  intro H. destruct (Qeq_bool x 0) eqn:E; [|reflexivity].
  apply Qeq_bool_iff in E. rewrite E in H. exfalso. exact (Qlt_irrefl 0 H).
Qed.

Ltac clamp_case :=
  intros; try discriminate;
  repeat match goal with
         | H : Fin _ = Fin _ |- _ => inversion H; clear H; subst
         end;
  try reflexivity; exfalso; lra.

Lemma clamp_in_range (n : num) (lo hi : Q) :
  0 < lo -> lo <= hi ->
  exists b : Q,
    MetronomeClass.clamp n lo hi = Fin b /\
    lo <= b <= hi /\
    (forall q, n = Fin q -> hi < q -> b = hi) /\
    (forall q, n = Fin q -> q < lo -> b = lo) /\
    (forall q, n = Fin q -> lo <= q <= hi -> b = q) /\
    (n = NaN -> b = lo).
Proof.
  intros Hlo Hle. unfold MetronomeClass.clamp.
  assert (Hhl : Qltb hi lo = false) by (apply Qltb_ge; exact Hle).
  assert (H0l : Qltb 0 lo = true) by (apply Qltb_lt; exact Hlo).
  assert (Hll : lo <= lo) by apply Qle_refl.
  assert (Hhh : hi <= hi) by apply Qle_refl.
  destruct n as [q| | |]; cbn [orZero max min lt].
  - destruct (Qltb q lo) eqn:E1; cbn [min lt].
    + apply Qltb_lt in E1. rewrite Hhl. exists lo.
      split; [reflexivity|]. split; [split; assumption|].
      split; [|split; [|split]]; clamp_case.
    + apply Qltb_ge in E1. destruct (Qltb hi q) eqn:E2.
      * apply Qltb_lt in E2. exists hi.
        split; [reflexivity|]. split; [split; assumption|].
        split; [|split; [|split]]; clamp_case.
      * apply Qltb_ge in E2. exists q.
        split; [reflexivity|]. split; [split; assumption|].
        split; [|split; [|split]]; clamp_case.
  - rewrite H0l. cbn [min lt]. rewrite Hhl. exists lo.
    split; [reflexivity|]. split; [split; assumption|].
    split; [|split; [|split]]; clamp_case.
  - exists hi. split; [reflexivity|]. split; [split; assumption|].
    split; [|split; [|split]]; clamp_case.
  - rewrite Hhl. exists lo.
    split; [reflexivity|]. split; [split; assumption|].
    split; [|split; [|split]]; clamp_case.
Qed.

(** C4, as the code has it.  With [0 < minBPM <= maxBPM]: the class setter
    [Metronome.setBPM] clamps -- the tempo it stores, in the instance and in
    the application state, lies in [[minBPM, maxBPM]], equals the input when
    that is in range, [maxBPM] when it is above (so 1000 gives 300 when
    [maxBPM] is 300) and [minBPM] when it is below; [NaN] falls back to 0 and
    is stored as [minBPM].  The module-level [setBPM] does not clamp: an
    argument that is not a number, or a number below [minBPM] or above
    [maxBPM], is refused -- [false] is returned and nothing changes. *)
Theorem tempo_setters_clamp_or_reject :
  forall (cfg : Config) (v : value) (n : num)
         (m : MetronomeClass.Metronome) (a : State.AppState) (w : Metronome.World),
    0 < minBPM cfg ->
    minBPM cfg <= maxBPM cfg ->
    (let r := MetronomeClass.setBPM cfg n m a in
     exists b : Q,
       MetronomeClass.bpm (fst (fst r)) = Fin b /\
       State.bpm (snd (fst r)) = Fin b /\
       minBPM cfg <= b <= maxBPM cfg /\
       (forall q, n = Fin q -> maxBPM cfg < q -> b = maxBPM cfg) /\
       (forall q, n = Fin q -> q < minBPM cfg -> b = minBPM cfg) /\
       (forall q, n = Fin q -> minBPM cfg <= q <= maxBPM cfg -> b = q) /\
       (n = NaN -> b = minBPM cfg)) /\
    (maxBPM cfg = 300 ->
     MetronomeClass.bpm (fst (fst (MetronomeClass.setBPM cfg (Fin 1000) m a))) = Fin 300) /\
    ((v = NotNumber \/ v = Number PosInf \/ v = Number NegInf \/
      exists q, v = Number (Fin q) /\ (q < minBPM cfg \/ maxBPM cfg < q)) ->
     Metronome.setBPM cfg v w = (false, w, [HandleConfigError "setting BPM"])).
Proof.
  intros cfg v n m a w Hmin Hle.
  assert (Hmax : 0 < maxBPM cfg) by (apply Qlt_le_trans with (minBPM cfg); assumption).
  assert (Hclass : forall x,
            fst (MetronomeClass.setBPM cfg x m a)
            = (MetronomeClass.set_bpm (MetronomeClass.clamp x (minBPM cfg) (maxBPM cfg)) m,
               State.update_bpm (MetronomeClass.clamp x (minBPM cfg) (maxBPM cfg)) a)).
  { intro x. unfold MetronomeClass.setBPM, MetronomeClass.orDefault.
    rewrite (Qeq_bool_pos _ Hmin), (Qeq_bool_pos _ Hmax). reflexivity. }
  split; [|split].
  - cbv zeta. rewrite Hclass. cbn [fst snd].
    destruct (clamp_in_range n (minBPM cfg) (maxBPM cfg) Hmin Hle) as (b & Hb & Hrest).
    exists b. rewrite Hb. split; [reflexivity|]. split; [reflexivity|]. exact Hrest.
  - intro H300. rewrite Hclass. cbn [fst snd].
    destruct (clamp_in_range (Fin 1000) (minBPM cfg) (maxBPM cfg) Hmin Hle)
      as (b & Hb & _ & Hhi & _).
    cbn [MetronomeClass.set_bpm MetronomeClass.bpm]. rewrite Hb.
    rewrite (Hhi 1000 eq_refl) by (rewrite H300; reflexivity).
    rewrite H300. reflexivity.
  - intros [Hv|[Hv|[Hv|(q & Hv & Hq)]]]; subst v; unfold Metronome.setBPM.
    + reflexivity.
    + reflexivity.
    + reflexivity.
    + cbn [lt gt]. destruct Hq as [Hq|Hq]; apply Qltb_lt in Hq; rewrite Hq;
        rewrite ?orb_true_r; reflexivity.
Qed.

(** C4 at the shipped configuration. *)
Lemma tempo_setters_clamp_or_reject_witness :
  MetronomeClass.bpm
    (fst (fst (MetronomeClass.setBPM CONFIG (Fin 1000) WorldSamples.instance State.state0)))
  = Fin 300.
Proof.
  exact (proj1 (proj2
    (tempo_setters_clamp_or_reject CONFIG NotNumber NaN WorldSamples.instance State.state0
       WorldSamples.ready ltac:(reflexivity) ltac:(vm_compute; discriminate))) eq_refl).
Defined.

(** C4 fails as stated on both setters: the module-level [setBPM(1000)] with
    [maxBPM = 300] returns [false] and leaves the tempo at 120 instead of
    storing 300, and the class setter turns [NaN] into the tempo 40 instead of
    leaving the tempo unchanged. *)
Lemma tempo_setter_neither_clamps_nor_rejects :
  (let r := Metronome.setBPM CONFIG (Number (Fin 1000)) WorldSamples.ready in
   fst (fst r) = false /\
   State.bpm (Metronome.app (snd (fst r))) = Fin 120 /\
   State.bpm (Metronome.app (snd (fst r))) <> Fin 300) /\
  (let r := MetronomeClass.setBPM CONFIG NaN WorldSamples.instance State.state0 in
   MetronomeClass.bpm WorldSamples.instance = Fin 120 /\
   MetronomeClass.bpm (fst (fst r)) = Fin 40 /\
   State.bpm (snd (fst r)) = Fin 40).
Proof.
  cbv zeta. vm_compute. repeat split; try reflexivity. intro H. discriminate H.
Qed.

(** The slip behind the [NaN] half of C4 in the module-level setter: the range
    test is written with [<] and [>], both false on [NaN], so [setBPM(NaN)]
    returns [true] and stores [NaN]; the helper [isValidBPM], written with
    [>=] and [<=], refuses the same value. *)
Example module_setBPM_stores_NaN :
  let r := Metronome.setBPM CONFIG (Number NaN) WorldSamples.ready in
  fst (fst r) = true /\
  State.bpm (Metronome.app (snd (fst r))) = NaN /\
  Metronome.isValidBPM CONFIG (Number NaN) = false.
Proof. vm_compute. repeat split; reflexivity. Qed.

(** A tempo change on a running metronome realigns the scheduler: unless the
    new tempo is within 0.1 of the stored one, the scheduler after [setBPM] is
    the scheduler after [updateInterval()]. *)
Lemma setBPM_realigns_running (cfg : Config) (q : Q) (w : Metronome.World) :
  State.isRunning (Metronome.app w) = true ->
  let r := Metronome.setBPM cfg (Number (Fin q)) w in
  fst (fst r) = true ->
  snd (fst r) = w \/
  Metronome.sched (snd (fst r)) = snd (fst (Sched.updateInterval (Metronome.sched w))).
Proof.
  intros Hrun. cbv zeta. unfold Metronome.setBPM.
  destruct (_ || _); [intro H; discriminate H|].
  destruct (lt _ _); [intros _; left; reflexivity|].
  rewrite Hrun. intros _. right.
  change (Metronome.sched (Metronome.with_app _ w)) with (Metronome.sched w).
  destruct (Sched.updateInterval (Metronome.sched w)) as [[ok s'] es]. reflexivity.
Qed.

(** The run behind the counterexample of C2, through the application: the
    metronome is started at 60 bpm, two beats are handed to [playSound] for
    0.2 s and 1.2 s, [setBPM(120)] is called while the clock reads 1.1 s, and
    the next tick asks for a sound at 1.25 s. *)
Example tempo_change_through_setBPM :
  option_map (fun r => map Qred (Metronome.played (snd r))) WorldSamples.afterTempoChange
  = Some [1 # 5; 6 # 5; 5 # 4].
Proof. vm_compute. reflexivity. Qed.

(** The same change made by a listener from the event of the second beat,
    while the clock reads 1.01 s: [setBPM(120)] realigns to 1.16 s inside the
    loop, the loop adds the second of the old tempo, and the next sound is
    asked for at 2.16 s. *)
Example tempo_change_from_listener :
  option_map (fun r => map Qred (Metronome.played (snd r)))
    WorldSamples.afterTempoChangeByListener
  = Some [1 # 5; 6 # 5; 54 # 25].
Proof. vm_compute. reflexivity. Qed.

End TempoSetters.

(** ** C7: the time-signature setter *)

Section SignatureSetter.
Import Js Config State Metronome.

(** What the setter does on every numerator other than [NaN]: an argument
    that is not a number, a numerator below [minBeatNumerator] or above
    [maxBeatNumerator], or a denominator outside [validDenominators] is
    refused with nothing changed; an accepted signature that differs from the
    stored one is stored with [currentBeat] and [currentBar] reset to 0. *)
Lemma setTimeSignature_spec (cfg : Config) (numerator denominator : value) (w : World) :
  let r := setTimeSignature cfg numerator denominator w in
  ((numerator = NotNumber \/ numerator = Number PosInf \/ numerator = Number NegInf \/
    (exists q, numerator = Number (Fin q) /\
               (q < minBeatNumerator cfg \/ maxBeatNumerator cfg < q)) \/
    includes (validDenominators cfg) denominator = false) ->
   r = (false, w, [HandleConfigError "setting time signature"])) /\
  (fst (fst r) = true ->
   snd (fst r) = w \/
   exists n d,
     numerator = Number n /\ denominator = Number d /\
     beatNumerator (app (snd (fst r))) = n /\
     beatDenominator (app (snd (fst r))) = d /\
     currentBeat (app (snd (fst r))) = Fin 0 /\
     currentBar (app (snd (fst r))) = Fin 0).
Proof.
  cbv zeta. unfold setTimeSignature. split.
  - intros [H|[H|[H|[(q & H & Hq)|H]]]]; try (subst numerator; reflexivity).
    + subst numerator. cbn [lt gt].
      destruct Hq as [Hq|Hq]; apply Qltb_lt in Hq; rewrite Hq;
        rewrite ?orb_true_r; reflexivity.
    + destruct numerator as [n|]; [|reflexivity].
      destruct (_ || _); [reflexivity|]. rewrite H. reflexivity.
  - destruct numerator as [n|]; [|intro H; discriminate H].
    destruct (_ || _); [intro H; discriminate H|].
    destruct (negb _); [intro H; discriminate H|].
    destruct denominator as [d|]; [|intro H; discriminate H].
    destruct (_ && _); [intros _; left; reflexivity|].
    intros _. right. exists n, d.
    destruct (isRunning (app w)).
    + destruct (Sched.updateInterval _) as [[ok s'] es]. cbn.
      repeat split; reflexivity.
    + cbn. repeat split; reflexivity.
Qed.

(** C7 at the input the code mishandles.  [setTimeSignature(NaN, 4)]: both
    range tests are false on [NaN], so the call returns [true] and stores
    [NaN] as the numerator, although [NaN] is no number in
    [[minBeatNumerator, maxBeatNumerator]] and [isValidTimeSignature] refuses
    the same pair. *)
Theorem signature_setter_accepts_NaN :
  let r := setTimeSignature CONFIG (Number NaN) (Number (Fin 4)) WorldSamples.ready in
  fst (fst r) = true /\
  beatNumerator (app (snd (fst r))) = NaN /\
  snd (fst r) <> WorldSamples.ready /\
  isValidTimeSignature CONFIG (Number NaN) (Number (Fin 4)) = false.
Proof.
  cbv zeta. vm_compute. repeat split; try reflexivity. intro H. discriminate H.
Qed.

End SignatureSetter.

(** ** C6: gain and start time of the sound emitters *)

Section Emitters.
Import SoundBuffers.

Lemma safeVolume_bounds (v : Q) : 0 <= Qmax 0 (Qmin 0.9 v) <= 0.9.
Proof.
  split.
  - apply Q.le_max_l.
  - apply Q.max_lub; [discriminate|apply Q.le_min_l].
Qed.

(** C6, as the code has it.  Whenever [playSoundInternal] starts a source, it
    starts it at [max(time, currentTime)], never before the clock; the gain
    ramps up to the requested volume clamped to [[0, 0.9]] and every value
    programmed on the gain node lies between 0 and that peak.  The class
    method [_playBeat] is different: it takes a percentage, clamps
    [volume / 100] to [[0, 1]], ramps to half of that, and starts the
    oscillator at the requested time as given. *)
Theorem emitters_gain_and_start :
  forall (cfg : SoundConfig) (st : SoundState) (ctx : Sched.AudioContext)
         (o : Options) (voice : Voice) (es : list Effect)
         (time : Q) (isAccent : bool) (percent : Q),
    (playSoundInternal cfg st (Some ctx) (Some o) = (Some voice, es) ->
     let requested := match SoundBuffers.time o with
                      | Some t => t | None => Sched.currentTime ctx end in
     let vol := match SoundBuffers.volume o with Some v => v | None => 1 end in
     let peak := Qmax 0 (Qmin 0.9 vol) in
     startTime voice = Qmax requested (Sched.currentTime ctx) /\
     Sched.currentTime ctx <= startTime voice /\
     0 <= peak <= 0.9 /\
     (exists t1 rest,
        envelope voice
        = SetValueAtTime 0 (startTime voice) :: LinearRampToValueAtTime peak t1 :: rest) /\
     Forall (fun e => 0 <= gainValue e <= peak) (envelope voice)) /\
    (exists (safe : Q) (v : MetronomeClass.OscillatorVoice),
       MetronomeClass._playBeat time isAccent percent = Some v /\
       0 <= safe <= 1 /\
       (0 <= percent / 100 <= 1 -> safe = percent / 100) /\
       (1 < percent / 100 -> safe = 1) /\
       (percent / 100 < 0 -> safe = 0) /\
       MetronomeClass.osc_start v = time /\
       MetronomeClass.osc_envelope v
       = [SetValueAtTime 0 time;
          LinearRampToValueAtTime (safe * 0.5) (time + 0.01);
          ExponentialRampToValueAtTime 0.001
            (time + MetronomeClass.duration
                      (if isAccent then MetronomeClass.accent else MetronomeClass.click))]).
Proof.
  intros cfg st ctx o voice es time isAccent percent. split.
  - unfold playSoundInternal.
    destruct (negb (initialized st)); [intro H; discriminate H|].
    destruct (negb (hasBuffer st _)); [intro H; discriminate H|].
    intro H. inversion H as [[Hv He]]. clear H He. cbv zeta. cbn [startTime envelope].
    pose proof (safeVolume_bounds
                  (match SoundBuffers.volume o with Some v => v | None => 1 end)) as Hb.
    split; [reflexivity|]. split; [apply Q.le_max_r|]. split; [exact Hb|]. split.
    + eexists. eexists. reflexivity.
    + destruct Hb as [Hb0 Hb1].
      repeat constructor; cbn [gainValue]; try apply Qle_refl; try exact Hb0;
        destruct (Qltb 0.001 _); repeat constructor; cbn [gainValue];
        try apply Qle_refl; exact Hb0.
  - unfold MetronomeClass._playBeat, MetronomeClass.clamp.
    cbn [Js.orZero Js.max Js.min Js.lt].
    destruct (Qltb (percent / 100) 0) eqn:E1; cbn [Js.min Js.lt].
    + apply Qltb_lt in E1.
      replace (Qltb 1 0) with false by reflexivity.
      exists 0. eexists. split; [reflexivity|].
      split; [split; [apply Qle_refl|discriminate]|].
      split; [|split; [|split; [|split]]]; try reflexivity; intros; exfalso; lra.
    + apply Qltb_ge in E1. destruct (Qltb 1 (percent / 100)) eqn:E2.
      * apply Qltb_lt in E2. exists 1. eexists. split; [reflexivity|].
        split; [split; [discriminate|apply Qle_refl]|].
        split; [|split; [|split; [|split]]]; try reflexivity; intros; exfalso; lra.
      * apply Qltb_ge in E2. exists (percent / 100). eexists. split; [reflexivity|].
        split; [split; assumption|].
        split; [|split; [|split; [|split]]]; try reflexivity; intros; exfalso; lra.
Qed.

(** C6 on {type: 'firstBeat', time: 1, volume: 3} with the clock at 5 s. *)
Lemma emitters_gain_and_start_witness :
  exists voice : Voice,
    fst (playSoundInternal SOUNDS WorldSamples.sounds (Some (Sched.mkContext Sched.Running 5))
           (Some (mkOptions true (Some 1) (Some 3)))) = Some voice /\
    Sched.currentTime (Sched.mkContext Sched.Running 5) <= startTime voice.
Proof.
  eexists. split; [reflexivity|].
  exact (proj1 (proj2 (proj1
    (emitters_gain_and_start SOUNDS WorldSamples.sounds (Sched.mkContext Sched.Running 5)
       (mkOptions true (Some 1) (Some 3)) _ _ 0 true 50) eq_refl))).
Defined.

(** C6 fails as stated on [_playBeat]: asked at clock time 5 s to play full
    volume at time 0.5 s, it starts the oscillator at 0.5 s, before the clock,
    and its gain peaks at 0.5 where the volume clamped to [[0, 0.9]] is 0.9. *)
Lemma playBeat_neither_clamps_time_nor_gain :
  exists v : MetronomeClass.OscillatorVoice,
    MetronomeClass._playBeat (1 # 2) false 100 = Some v /\
    MetronomeClass.osc_start v < Sched.currentTime (Sched.mkContext Sched.Running 5) /\
    gainValue (nth 1 (MetronomeClass.osc_envelope v) (SetValueAtTime 0 0)) == 1 # 2 /\
    ~ gainValue (nth 1 (MetronomeClass.osc_envelope v) (SetValueAtTime 0 0))
      == Qmax 0 (Qmin 0.9 100).
Proof.
  eexists. split; [reflexivity|]. cbn. split; [reflexivity|]. split; [reflexivity|].
  intro H. vm_compute in H. discriminate H.
Qed.

End Emitters.

(** ** Well-formed schedulers: a running scheduler has a context *)

Section RunningHasContext.
Import Sched Trace GridSpec.

Lemma runningHasContext_initial : runningHasContext scheduler0.
Proof. intro H. discriminate H. Qed.

Lemma runningHasContext_start (cb : option Callback) (ms : Z) (env : TickEnv) (s : Scheduler) :
  runningHasContext s -> runningHasContext (snd (fst (start cb ms env s))).
Proof.
  intros Hwf Hrun. unfold start in *.
  destruct (audioContext s) as [ctx|] eqn:Eac.
  - destruct (isRunning s) eqn:Er.
    + exists ctx. exact Eac.
    + destruct cb as [cb|]; [|cbn [fst snd] in *; congruence].
      match goal with |- context [schedulerLoop env ?x] =>
        pose proof (schedulerLoop_audioContext env x) as Hl;
        destruct (schedulerLoop env x) as [s8 e8] end.
      cbn [fst snd] in *. exists ctx. rewrite Hl. exact Eac.
  - cbn [fst snd] in *. apply Hwf. exact Hrun.
Qed.

Lemma runningHasContext_step (ev : Event) (s : Scheduler) :
  runningHasContext s -> runningHasContext (fst (step ev s)).
Proof.
  intros Hwf. destruct ev as [env| |t|st]; cbn [step].
  - intro Hrun.
    rewrite schedulerLoop_audioContext.
    destruct (schedulerLoop_cases env s) as [(_ & _ & K)|(Hr & _)].
    + apply Hwf. apply (K Hrun).
    + apply Hwf. exact Hr.
  - unfold updateInterval. destruct (audioContext s) as [ctx|] eqn:Eac; cbn [fst snd].
    + intros _. exists ctx. exact Eac.
    + exact Hwf.
  - unfold set_clock. destruct (audioContext s) as [ctx|] eqn:Eac; cbn [fst].
    + intros _. eexists. reflexivity.
    + exact Hwf.
  - intro Hrun. destruct (onstatechange_spec st s) as [_ K].
    destruct (K Hrun) as (Hr & _).
    destruct (Hwf Hr) as [ctx Hctx].
    unfold onstatechange in *. rewrite Hctx in *.
    destruct st; cbn [fst snd] in *; try (eexists; reflexivity).
    exfalso.
    match goal with H : isRunning (fst (let '(_, _) := reset ?x in _)) = true |- _ =>
      destruct (reset_stops x) as [R1 _]; destruct (reset x) as [s2 e2] end.
    cbn [fst snd] in *. congruence.
Qed.

End RunningHasContext.

(** ** The scheduler's life cycle: dispatch window, timers, flags and counters *)

Section SchedulerLifecycle.
Import Sched Trace SchedOps.

Lemma armed_app (a b : list Effect) : armed (a ++ b) = (armed a ++ armed b)%list.
Proof.
  induction a as [|e a IH]; [reflexivity|].
  destruct e; simpl; rewrite ?IH; reflexivity.
Qed.

Lemma stop_armed (s : Scheduler) : armed (snd (stop s)) = [].
Proof.
  unfold stop. destruct (timerID _), (recoveryTimeout _); reflexivity.
Qed.

Lemma statsOk_fresh : statsOk freshStats.
Proof. unfold statsOk, freshStats; simpl. repeat split; try lia; lra. Qed.

Lemma consistent_stop (s : Scheduler) : consistent (fst (stop s)).
Proof.
  pose proof (stop_spec s) as H. cbv zeta in H.
  destruct H as (H1 & _ & H3 & H4 & H5 & _).
  unfold consistent. rewrite H1, H3, H4, H5. unfold maxAllowedErrors.
  repeat split; try lia; try discriminate.
Qed.

(** One pass through the loop body. *)
Lemma dispatchBeat_summary (iv : Q) (N : Z) (now : Q) (s : Scheduler) :
  let r := dispatchBeat iv N now s in
  let s' := fst (fst r) in
  let es := snd (fst r) in
  (dispatched es = [] \/ dispatched es = [(nextBeatTime s, currentBeat s)]) /\
  (statsOk (performanceStats s) -> statsOk (performanceStats s')) /\
  (snd r = false ->
     armed es = [] /\ isRunning s' = isRunning s /\
     schedulerCallback s' = schedulerCallback s /\ audioContext s' = audioContext s /\
     timerID s' = timerID s /\
     nextBeatTime s' = nextBeatTime s + iv /\
     ((0 <= errorCount s < maxAllowedErrors)%Z -> (0 <= errorCount s' < maxAllowedErrors)%Z)) /\
  (snd r = true ->
     armed es = [(RecoveryTask, 1000)] /\ isRunning s' = false /\
     schedulerCallback s' = None /\ audioContext s' = audioContext s /\
     timerID s' = None /\ errorCount s' = 0%Z).
Proof.
  cbv zeta. destruct s as [ac run cbt nbt cb lut tid ec rt ps].
  unfold dispatchBeat, statsOk. cbn -[Z.leb Qabs Qdiv Qplus Z.add maxAllowedErrors].
  destruct cb as [f|]; cbn -[Z.leb Qabs Qdiv Qplus Z.add maxAllowedErrors].
  - destruct (f nbt cbt); cbn -[Z.leb Qabs Qdiv Qplus Z.add maxAllowedErrors].
    + split; [right; reflexivity|]. split.
      { intros (A & B & C & D). repeat split; try lia.
        pose proof (Qabs_nonneg (nbt - now)). lra. }
      split; [|intro H; discriminate H].
      intros _. repeat split; try reflexivity; unfold maxAllowedErrors; lia.
    + destruct (maxAllowedErrors <=? ec + 1)%Z eqn:E.
      * unfold stop, attemptRecovery. cbn -[Z.leb Qabs Qdiv Qplus Z.add maxAllowedErrors].
        destruct tid, rt; cbn -[Z.leb Qabs Qdiv Qplus Z.add maxAllowedErrors];
          (split; [right; reflexivity|]);
          (split; [intros (A & B & C & D); repeat split; try lia;
                   pose proof (Qabs_nonneg (nbt - now)); lra|]);
          (split; [intro H; discriminate H|]);
          intros _; repeat split; reflexivity.
      * cbn -[Z.leb Qabs Qdiv Qplus Z.add maxAllowedErrors].
        split; [right; reflexivity|]. split.
        { intros (A & B & C & D). repeat split; try lia.
          pose proof (Qabs_nonneg (nbt - now)). lra. }
        split; [|intro H; discriminate H].
        intros _. apply Z.leb_gt in E. repeat split; try reflexivity; lia.
  - split; [left; reflexivity|]. split.
    { intros (A & B & C & D). repeat split; try lia.
      pose proof (Qabs_nonneg (nbt - now)). lra. }
    split; [|intro H; discriminate H].
    intros _. repeat split; try reflexivity; unfold maxAllowedErrors; lia.
Qed.


Lemma beatLoop_summary (iv : Q) (N : Z) (now : Q) :
  forall (fuel : nat) (s : Scheduler),
    let r := beatLoop fuel iv N now s in
    let s' := fst (fst r) in
    let es := snd (fst r) in
    (length (dispatched es) <= fuel)%nat /\
    Forall (fun tb => fst tb < horizon now) (dispatched es) /\
    (statsOk (performanceStats s) -> statsOk (performanceStats s')) /\
    (snd r = false ->
       armed es = [] /\ isRunning s' = isRunning s /\
       schedulerCallback s' = schedulerCallback s /\ audioContext s' = audioContext s /\
       timerID s' = timerID s /\
       ((0 <= errorCount s < maxAllowedErrors)%Z -> (0 <= errorCount s' < maxAllowedErrors)%Z)) /\
    (snd r = true ->
       armed es = [(RecoveryTask, 1000)] /\ isRunning s' = false /\
       schedulerCallback s' = None /\ audioContext s' = audioContext s /\
       timerID s' = None /\ errorCount s' = 0%Z).
Proof.
  induction fuel as [|fuel IH]; intro s; cbv zeta.
  - simpl. split; [lia|]. split; [constructor|]. split; [tauto|].
    split; [intros _; repeat split; tauto | intro H; discriminate H].
  - cbn [beatLoop].
    destruct (Qltb (nextBeatTime s) (now + scheduleAheadTime)) eqn:Elt.
    2:{ simpl. split; [lia|]. split; [constructor|]. split; [tauto|].
        split; [intros _; repeat split; tauto | intro H; discriminate H]. }
    apply Qltb_lt in Elt.
    pose proof (dispatchBeat_summary iv N now s) as Hd. cbv zeta in Hd.
    destruct (dispatchBeat iv N now s) as [[s1 e1] ret1]. cbn [fst snd] in Hd.
    destruct Hd as (Hd1 & Hstats & Hgo & Hstop).
    assert (Hwin : Forall (fun tb => fst tb < horizon now) (dispatched e1)).
    { destruct Hd1 as [-> | ->]; [constructor|].
      constructor; [exact Elt|constructor]. }
    assert (Hlen : (length (dispatched e1) <= 1)%nat).
    { destruct Hd1 as [-> | ->]; simpl; lia. }
    destruct ret1.
    + cbn [fst snd]. split; [lia|]. split; [exact Hwin|]. split; [exact Hstats|].
      split; [intro H; discriminate H|]. intros _. apply Hstop. reflexivity.
    + destruct (Hgo eq_refl) as (G1 & G2 & G3 & G4 & G5 & _ & G6).
      pose proof (IH s1) as IH1. cbv zeta in IH1.
      destruct (beatLoop fuel iv N now s1) as [[s2 e2] r2]. cbn [fst snd] in IH1 |- *.
      destruct IH1 as (I1 & I2 & I3 & I4 & I5).
      rewrite dispatched_app, length_app, armed_app, G1.
      split; [lia|]. split; [apply Forall_app; split; assumption|].
      split; [tauto|]. split.
      * intro Hr. destruct (I4 Hr) as (J1 & J2 & J3 & J4 & J5 & J6).
        rewrite J1, J2, J3, J4, J5, G2, G3, G4, G5. repeat split; tauto.
      * intro Hr. destruct (I5 Hr) as (J1 & J2 & J3 & J4 & J5 & J6).
        rewrite J1, J2, J3, J4, J5, J6, G4. repeat split; reflexivity.
Qed.

(** With a callback installed every pass through the loop body dispatches, so
    a loop that ends early has reached the horizon. *)
Lemma beatLoop_reaches_horizon (cb : Callback) (iv : Q) (N : Z) (now : Q) :
  forall (fuel : nat) (s : Scheduler),
    schedulerCallback s = Some cb ->
    let r := beatLoop fuel iv N now s in
    snd r = false ->
    (length (dispatched (snd (fst r))) < fuel)%nat ->
    horizon now <= nextBeatTime (fst (fst r)).
Proof.
  induction fuel as [|fuel IH]; intros s Hcb; cbv zeta.
  - simpl. intros _ H. lia.
  - cbn [beatLoop].
    destruct (Qltb (nextBeatTime s) (now + scheduleAheadTime)) eqn:Elt.
    2:{ simpl. intros _ _. apply Qltb_ge in Elt. exact Elt. }
    pose proof (dispatchBeat_shape cb iv N now s Hcb) as Hd. cbv zeta in Hd.
    destruct (dispatchBeat iv N now s) as [[s1 e1] ret1]. cbn [fst snd] in Hd.
    destruct Hd as (Hd1 & _ & Hgo).
    destruct ret1; [intro H; discriminate H|].
    destruct (Hgo eq_refl) as (_ & Hcb' & _).
    specialize (IH s1 Hcb'). cbv zeta in IH.
    destruct (beatLoop fuel iv N now s1) as [[s2 e2] r2]. cbn [fst snd] in IH |- *.
    rewrite dispatched_app, length_app, Hd1. simpl length.
    intros Hr Hl. apply IH; [exact Hr|lia].
Qed.

Lemma nextDelay_bounds (now : Q) (s : Scheduler) :
  nextDelay now s = 0 \/
  (minScheduleInterval <= nextDelay now s <= maxScheduleInterval).
Proof.
  unfold nextDelay, minScheduleInterval, maxScheduleInterval.
  destruct (Qle_bool _ 0); [left; reflexivity|right].
  split.
  - apply Q.le_max_l.
  - apply Q.max_lub; [lra|]. apply Q.le_min_r.
Qed.


(** Everything one call of [schedulerLoop] does to the flags, the counters
    and the timers. *)
Lemma schedulerLoop_summary (env : TickEnv) (s : Scheduler) :
  let r := schedulerLoop env s in
  let s' := fst r in
  let es := snd r in
  (length (dispatched es) <= maxSchedulesPerIteration)%nat /\
  Forall (fun tb => exists ctx,
            audioContext s = Some ctx /\ ctx_state ctx = Running /\ isRunning s = true /\
            fst tb < horizon (currentTime ctx)) (dispatched es) /\
  (statsOk (performanceStats s) -> statsOk (performanceStats s')) /\
  (consistent s -> consistent s') /\
  (isRunning s' = true ->
     exists d, armed es = [(TickTask, d)] /\ timerID s' = Some d /\
               (d == 0 \/ minScheduleInterval <= d <= maxScheduleInterval)) /\
  (isRunning s' = false -> armed es = [] \/ armed es = [(RecoveryTask, 1000)]).
Proof.
  cbv zeta. unfold schedulerLoop.
  destruct (isRunning s) eqn:Erun; cbn [negb].
  2:{ cbn [fst snd dispatched armed length]. split; [lia|]. split; [constructor|].
      split; [tauto|]. split; [tauto|]. split.
      - intro H. rewrite Erun in H. discriminate H.
      - intros _. left. reflexivity. }
  destruct (negb (lastUpdateTime s =? 0)%Z
            && Qltb (inject_Z (dateNow env - lastUpdateTime s)) minScheduleInterval).
  { cbn [fst snd dispatched armed length]. split; [lia|]. split; [constructor|].
    split; [tauto|]. split.
    - unfold consistent. simpl. rewrite Erun. intros (A & B & C).
      repeat split; try tauto; try discriminate.
    - split.
      + intros _. exists minScheduleInterval. split; [reflexivity|]. split; [reflexivity|].
        right. unfold minScheduleInterval, maxScheduleInterval. lra.
      + simpl. rewrite Erun. intro H. discriminate H. }
  change (audioContext (set_lastUpdateTime (dateNow env) s)) with (audioContext s).
  assert (Hstopped : forall s0 : Scheduler,
             performanceStats s0 = performanceStats s ->
             let r := stop s0 in
             (length (dispatched (HandleAudioError "audio context closed" :: snd r))
                <= maxSchedulesPerIteration)%nat /\
             Forall (fun tb => exists ctx,
                  audioContext s = Some ctx /\ ctx_state ctx = Running /\ true = true /\
                  fst tb < horizon (currentTime ctx))
               (dispatched (HandleAudioError "audio context closed" :: snd r)) /\
             (statsOk (performanceStats s) -> statsOk (performanceStats (fst r))) /\
             (consistent s -> consistent (fst r)) /\
             (isRunning (fst r) = true ->
                exists d, armed (HandleAudioError "audio context closed" :: snd r)
                          = [(TickTask, d)] /\ timerID (fst r) = Some d /\
                          (d == 0 \/ minScheduleInterval <= d <= maxScheduleInterval)) /\
             (isRunning (fst r) = false ->
                armed (HandleAudioError "audio context closed" :: snd r) = [] \/
                armed (HandleAudioError "audio context closed" :: snd r)
                  = [(RecoveryTask, 1000)])).
  { intros s0 Hps. cbv zeta.
    pose proof (stop_spec s0) as Hs. cbv zeta in Hs.
    destruct Hs as (H1 & _ & _ & _ & _ & _ & _ & _ & _ & H10 & H11 & _).
    pose proof (stop_armed s0) as Ha. pose proof (consistent_stop s0) as Hc.
    cbn [dispatched armed]. rewrite H11, Ha, H10, H1, Hps. simpl length.
    split; [lia|]. split; [constructor|]. split; [tauto|]. split; [tauto|].
    split; [intro H; discriminate H|]. intros _. left. reflexivity. }
  destruct (audioContext s) as [ctx|] eqn:Eac.
  2:{ specialize (Hstopped (set_lastUpdateTime (dateNow env) s) eq_refl). cbv zeta in Hstopped.
      destruct (stop _) as [s1 e1]. exact Hstopped. }
  destruct (ctx_state ctx) eqn:Est.
  - pose proof (beatLoop_summary (secondsPerBeat (st_bpm env)) (st_beatNumerator env)
                  (currentTime ctx) maxSchedulesPerIteration
                  (set_lastUpdateTime (dateNow env) s)) as Hl.
    cbv zeta in Hl.
    destruct (beatLoop _ _ _ _ _) as [[s1 e1] ret]. cbn [fst snd] in Hl.
    destruct Hl as (L1 & L2 & L3 & L4 & L5).
    change (performanceStats (set_lastUpdateTime (dateNow env) s))
      with (performanceStats s) in L3.
    assert (Hwin : Forall (fun tb => exists ctx0,
                Some ctx = Some ctx0 /\ ctx_state ctx0 = Running /\ true = true /\
                fst tb < horizon (currentTime ctx0)) (dispatched e1)).
    { eapply Forall_impl; [|exact L2]. intros tb Htb. exists ctx. tauto. }
    destruct ret.
    + destruct (L5 eq_refl) as (J1 & J2 & J3 & J4 & J5 & J6). cbn [fst snd].
      split; [exact L1|]. split; [exact Hwin|]. split; [exact L3|]. split.
      { intros _. unfold consistent. rewrite J2, J3, J5, J6. unfold maxAllowedErrors.
        repeat split; try lia; discriminate. }
      split; [rewrite J2; intro H; discriminate H|].
      intros _. right. exact J1.
    + destruct (L4 eq_refl) as (J1 & J2 & J3 & J4 & J5 & J6).
      simpl in J2, J3, J4, J5, J6. rewrite Erun in J2. rewrite J2. cbn [fst snd].
      rewrite dispatched_app, armed_app, J1. cbn [dispatched armed List.app].
      rewrite app_nil_r.
      split; [exact L1|]. split; [exact Hwin|]. split; [exact L3|]. split.
      { unfold consistent. simpl. rewrite J2, J3, J4, Eac, Erun. intros (A & B & C).
        repeat split; try tauto; try discriminate; apply J6; exact C. }
      split.
      * intros _. exists (nextDelay (currentTime ctx) s1).
        split; [reflexivity|]. split; [reflexivity|].
        destruct (nextDelay_bounds (currentTime ctx) s1) as [-> | H]; [left; reflexivity|].
        right. exact H.
      * simpl. rewrite J2. intro H. discriminate H.
  - cbn [fst snd dispatched armed length]. split; [lia|]. split; [constructor|].
    split; [tauto|]. split.
    + unfold consistent. simpl. rewrite Erun, Eac. intros (A & B & C).
      repeat split; try tauto; try discriminate.
    + split.
      * intros _. exists 50. split; [reflexivity|]. split; [reflexivity|].
        right. unfold minScheduleInterval, maxScheduleInterval. lra.
      * simpl. rewrite Erun. intro H. discriminate H.
  - specialize (Hstopped (set_lastUpdateTime (dateNow env) s) eq_refl). cbv zeta in Hstopped.
    destruct (stop _) as [s1 e1].
    destruct Hstopped as (H1 & H2 & H3 & H4 & H5 & H6).
    split; [exact H1|]. split; [|tauto].
    cbn [snd dispatched] in H2 |- *. exact H2.
Qed.


Lemma consistent_flags (s s' : Scheduler) :
  isRunning s' = isRunning s -> schedulerCallback s' = schedulerCallback s ->
  timerID s' = timerID s -> errorCount s' = errorCount s ->
  (isRunning s = true -> audioContext s <> None -> audioContext s' <> None) ->
  consistent s -> consistent s'.
Proof.
  unfold consistent. intros -> -> -> -> Hac (A & B & C).
  split; [|tauto]. intro Hr. destruct (A Hr) as ((ctx & Hctx) & Hcb). split; [|exact Hcb].
  destruct (audioContext s') as [c|] eqn:E; [exists c; reflexivity|].
  exfalso. apply (Hac Hr); [rewrite Hctx; discriminate|reflexivity].
Qed.

Lemma init_summary (io : InitOutcome) (s : Scheduler) :
  let s' := snd (fst (init io s)) in
  isRunning s' = isRunning s /\ schedulerCallback s' = schedulerCallback s /\
  timerID s' = timerID s /\ errorCount s' = errorCount s /\
  recoveryTimeout s' = recoveryTimeout s /\
  (audioContext s <> None -> audioContext s' = audioContext s) /\
  (statsOk (performanceStats s) -> statsOk (performanceStats s')).
Proof.
  cbv zeta. unfold init.
  destruct (audioContext s) eqn:Eac.
  - simpl. rewrite Eac. do 5 (split; [reflexivity|]).
    split; [intros _; reflexivity|tauto].
  - destruct io as [|st t ok]; [|destruct st]; simpl;
      do 5 (split; [reflexivity|]);
      (split; [intro H; exfalso; apply H; reflexivity|intros _; exact statsOk_fresh]).
Qed.

Lemma start_summary (cb : option Callback) (ms : Z) (env : TickEnv) (s : Scheduler) :
  let s' := snd (fst (start cb ms env s)) in
  (consistent s -> consistent s') /\
  (statsOk (performanceStats s) -> statsOk (performanceStats s')).
Proof.
  cbv zeta. unfold start.
  destruct (audioContext s) as [ctx|] eqn:Eac; [|simpl; tauto].
  destruct (isRunning s) eqn:Erun; [simpl; tauto|].
  destruct cb as [f|]; [|simpl; tauto].
  match goal with |- context [schedulerLoop env ?x] =>
    pose proof (schedulerLoop_summary env x) as Hl; cbv zeta in Hl;
    destruct (schedulerLoop env x) as [s8 e8] end.
  cbn [fst snd] in Hl |- *.
  destruct Hl as (_ & _ & L3 & L4 & _). split.
  - intros _. apply L4. unfold consistent, maxAllowedErrors. simpl. rewrite Eac.
    repeat split; try lia; try discriminate; eexists; reflexivity.
  - intro H. apply L3. simpl. unfold statsOk in *. simpl. exact H.
Qed.

Lemma reset_summary (s : Scheduler) :
  let s' := fst (reset s) in
  isRunning s' = false /\ schedulerCallback s' = None /\ timerID s' = None /\
  errorCount s' = 0%Z /\ recoveryTimeout s' = None /\ audioContext s' = None /\
  performanceStats s' = freshStats /\ nextBeatTime s' = 0 /\ lastUpdateTime s' = 0%Z /\
  currentBeat s' = 1%Z.
Proof.
  cbv zeta. unfold reset.
  pose proof (stop_spec s) as Hs. cbv zeta in Hs.
  destruct (stop s) as [s1 e1]. cbn [fst snd] in Hs |- *.
  destruct Hs as (H1 & H2 & H3 & H4 & H5 & H6 & _).
  simpl. rewrite H1, H2, H3, H4, H5, H6. repeat split; reflexivity.
Qed.

Lemma consistent_reset (s : Scheduler) : consistent (fst (reset s)).
Proof.
  pose proof (reset_summary s) as H. cbv zeta in H.
  destruct H as (H1 & H2 & H3 & H4 & _).
  unfold consistent. rewrite H1, H2, H3, H4. unfold maxAllowedErrors.
  repeat split; try lia; discriminate.
Qed.

Lemma apply_consistent (op : Op) (s : Scheduler) :
  consistent s -> consistent (fst (apply op s)).
Proof.
  intro Hc. destruct op as [io|cb ms env| | | | |env|io|st|t]; cbn [apply].
  - pose proof (init_summary io s) as H. cbv zeta in H.
    destruct (init io s) as [[ok s1] e1]. cbn [fst snd] in H |- *.
    destruct H as (H1 & H2 & H3 & H4 & _ & H6 & _).
    apply (consistent_flags s); try assumption.
    intros _ Hn. rewrite (H6 Hn). exact Hn.
  - pose proof (start_summary cb ms env s) as H. cbv zeta in H.
    destruct (start cb ms env s) as [[ok s1] e1]. cbn [fst snd] in H |- *. tauto.
  - apply consistent_stop.
  - unfold updateInterval. destruct (audioContext s) eqn:E; cbn [fst snd]; [|exact Hc].
    apply (consistent_flags s); try reflexivity; [|exact Hc].
    intros _ _. simpl. rewrite E. discriminate.
  - apply consistent_reset.
  - unfold cleanupScheduler. pose proof (consistent_stop s) as H.
    destruct (stop s) as [s1 e1]. exact H.
  - pose proof (schedulerLoop_summary env s) as H. cbv zeta in H. tauto.
  - destruct (recoveryTimeout s) eqn:Ert; [|exact Hc].
    unfold recoveryTimerFired.
    assert (Hc0 : consistent (set_errorCount 0 s)).
    { destruct Hc as (A & B & C). unfold consistent, maxAllowedErrors. simpl.
      repeat split; try tauto; lia. }
    destruct (needsInit (set_errorCount 0 s)).
    + pose proof (init_summary io (set_errorCount 0 s)) as H. cbv zeta in H.
      destruct (init io (set_errorCount 0 s)) as [[ok s1] e1]. cbn [fst snd] in H.
      destruct H as (H1 & H2 & H3 & H4 & _ & H6 & _).
      assert (consistent s1).
      { apply (consistent_flags (set_errorCount 0 s)); try assumption.
        intros _ Hn. rewrite (H6 Hn). exact Hn. }
      destruct ok; cbn [fst];
        (apply (consistent_flags s1); try reflexivity; [|assumption]; intros _ Hn; exact Hn).
    + cbn [fst]. apply (consistent_flags (set_errorCount 0 s)); try reflexivity; [|exact Hc0].
      intros _ Hn. exact Hn.
  - unfold onstatechange.
    assert (Hc1 : consistent (match audioContext s with
                              | Some ctx => set_audioContext (Some (mkContext st (currentTime ctx))) s
                              | None => s end)).
    { destruct (audioContext s) eqn:E; [|exact Hc].
      apply (consistent_flags s); try reflexivity; [|exact Hc].
      intros _ _. simpl. discriminate. }
    destruct st; cbn [fst]; try exact Hc1.
    match goal with |- context [reset ?x] =>
      pose proof (consistent_reset x) as H; destruct (reset x) as [s2 e2] end.
    exact H.
  - unfold set_clock. cbn [fst]. destruct (audioContext s) eqn:E; [|exact Hc].
    apply (consistent_flags s); try reflexivity; [|exact Hc].
    intros _ _. simpl. discriminate.
Qed.

Lemma apply_statsOk (op : Op) (s : Scheduler) :
  statsOk (performanceStats s) -> statsOk (performanceStats (fst (apply op s))).
Proof.
  intro Hc. destruct op as [io|cb ms env| | | | |env|io|st|t]; cbn [apply].
  - pose proof (init_summary io s) as H. cbv zeta in H.
    destruct (init io s) as [[ok s1] e1]. cbn [fst snd] in H |- *. tauto.
  - pose proof (start_summary cb ms env s) as H. cbv zeta in H.
    destruct (start cb ms env s) as [[ok s1] e1]. cbn [fst snd] in H |- *. tauto.
  - pose proof (stop_spec s) as H. cbv zeta in H.
    destruct H as (_ & _ & _ & _ & _ & _ & _ & _ & _ & H & _). rewrite H. exact Hc.
  - unfold updateInterval. destruct (audioContext s); exact Hc.
  - pose proof (reset_summary s) as H. cbv zeta in H.
    destruct H as (_ & _ & _ & _ & _ & _ & H & _). rewrite H. exact statsOk_fresh.
  - unfold cleanupScheduler. pose proof (stop_spec s) as H. cbv zeta in H.
    destruct (stop s) as [s1 e1]. cbn [fst snd] in H |- *.
    destruct H as (_ & _ & _ & _ & _ & _ & _ & _ & _ & H & _). rewrite H. exact Hc.
  - pose proof (schedulerLoop_summary env s) as H. cbv zeta in H. tauto.
  - destruct (recoveryTimeout s) eqn:Ert; [|exact Hc].
    unfold recoveryTimerFired.
    destruct (needsInit (set_errorCount 0 s)); [|exact Hc].
    pose proof (init_summary io (set_errorCount 0 s)) as H. cbv zeta in H.
    destruct (init io (set_errorCount 0 s)) as [[ok s1] e1]. cbn [fst snd] in H.
    destruct H as (_ & _ & _ & _ & _ & _ & H).
    destruct ok; cbn [fst]; apply H; exact Hc.
  - unfold onstatechange.
    assert (Hc1 : statsOk (performanceStats
                    (match audioContext s with
                     | Some ctx => set_audioContext (Some (mkContext st (currentTime ctx))) s
                     | None => s end))).
    { destruct (audioContext s); exact Hc. }
    destruct st; cbn [fst]; try exact Hc1.
    match goal with |- context [reset ?x] =>
      pose proof (reset_summary x) as H; cbv zeta in H; destruct (reset x) as [s2 e2] end.
    cbn [fst] in H |- *. destruct H as (_ & _ & _ & _ & _ & _ & H & _).
    rewrite H. exact statsOk_fresh.
  - unfold set_clock. cbn [fst]. destruct (audioContext s); exact Hc.
Qed.

Lemma runOps_invariant (P : Scheduler -> Prop) :
  (forall op s, P s -> P (fst (apply op s))) ->
  forall (ops : list Op) (s : Scheduler), P s -> P (fst (runOps ops s)).
Proof.
  intros Hstep. induction ops as [|op ops IH]; intros s Hs; [exact Hs|].
  cbn [runOps]. specialize (Hstep op s Hs).
  destruct (apply op s) as [s1 e1]. cbn [fst] in Hstep.
  specialize (IH s1 Hstep). destruct (runOps ops s1) as [s2 e2]. exact IH.
Qed.


(** X1 (schedulerLoop): one tick hands at most [maxSchedulesPerIteration]
    (20) beats to the callback, and only on a running scheduler whose context
    is running; every beat it hands over is due before the look-ahead horizon
    [currentTime + scheduleAheadTime] read at that tick. *)
Theorem tick_dispatch_window :
  forall (env : TickEnv) (s : Scheduler),
    let beats := dispatched (snd (schedulerLoop env s)) in
    (length beats <= 20)%nat /\
    Forall (fun tb => exists ctx,
              audioContext s = Some ctx /\ ctx_state ctx = Running /\ isRunning s = true /\
              fst tb < currentTime ctx + scheduleAheadTime) beats.
Proof.
  intros env s. cbv zeta.
  pose proof (schedulerLoop_summary env s) as H. cbv zeta in H.
  destruct H as (H1 & H2 & _). split; [exact H1|exact H2].
Qed.

(** X2 (schedulerLoop): a tick that leaves the scheduler running arms exactly
    one timer, the next tick, with a delay that is 0 (behind schedule) or lies
    between [minScheduleInterval] (1 ms) and [maxScheduleInterval] (100 ms),
    and stores its handle in [timerID]; a tick that leaves it stopped arms no
    tick timer: it arms nothing, or only the recovery timer of 1000 ms. *)
Theorem tick_rearms_once :
  forall (env : TickEnv) (s : Scheduler),
    let r := schedulerLoop env s in
    (isRunning (fst r) = true ->
       exists d, armed (snd r) = [(TickTask, d)] /\ timerID (fst r) = Some d /\
                 (d == 0 \/ 1 <= d <= 100)) /\
    (isRunning (fst r) = false ->
       armed (snd r) = [] \/ armed (snd r) = [(RecoveryTask, 1000)]).
Proof.
  intros env s. cbv zeta.
  pose proof (schedulerLoop_summary env s) as H. cbv zeta in H.
  destruct H as (_ & _ & _ & _ & H5 & H6). split; [exact H5|exact H6].
Qed.

Lemma tick_rearms_once_witness :
  exists d, armed (snd (schedulerLoop (Samples.env_120 2000)
                          (Samples.sample_running 0 Samples.always_returns)))
            = [(TickTask, d)] /\ (d == 0 \/ 1 <= d <= 100).
Proof.
  destruct (proj1 (tick_rearms_once (Samples.env_120 2000)
                     (Samples.sample_running 0 Samples.always_returns)) eq_refl)
    as (d & Hd & _ & Hb).
  exists d. split; [exact Hd|exact Hb].
Defined.

(** X3 (schedulerLoop): a tick of a running scheduler with a callback, on a
    running context and past the throttle test, that leaves the scheduler
    running and dispatched fewer than 20 beats has filled the look-ahead
    window: the next beat is due at or after [currentTime + scheduleAheadTime]. *)
Theorem tick_reaches_horizon :
  forall (env : TickEnv) (s : Scheduler) (ctx : AudioContext) (cb : Callback),
    isRunning s = true ->
    throttled env s = false ->
    audioContext s = Some ctx ->
    ctx_state ctx = Running ->
    schedulerCallback s = Some cb ->
    let r := schedulerLoop env s in
    isRunning (fst r) = true ->
    (length (dispatched (snd r)) < 20)%nat ->
    currentTime ctx + scheduleAheadTime <= nextBeatTime (fst r).
Proof.
  intros env s ctx cb Hrun Hth Hac Hst Hcb. cbv zeta.
  unfold schedulerLoop. rewrite Hrun. cbn [negb].
  fold (throttled env s). rewrite Hth.
  change (audioContext (set_lastUpdateTime (dateNow env) s)) with (audioContext s).
  rewrite Hac, Hst.
  pose proof (beatLoop_reaches_horizon cb (secondsPerBeat (st_bpm env)) (st_beatNumerator env)
                (currentTime ctx) maxSchedulesPerIteration
                (set_lastUpdateTime (dateNow env) s) Hcb) as Hh.
  pose proof (beatLoop_returned_stopped maxSchedulesPerIteration
                (secondsPerBeat (st_bpm env)) (st_beatNumerator env) (currentTime ctx)
                (set_lastUpdateTime (dateNow env) s)) as Hst'.
  cbv zeta in Hh.
  destruct (beatLoop _ _ _ _ _) as [[s1 e1] ret]. cbn [fst snd] in Hh, Hst'.
  destruct ret.
  - cbn [fst snd]. intro H. rewrite (Hst' eq_refl) in H. discriminate H.
  - destruct (isRunning s1) eqn:Er1; cbn [fst snd].
    + intros _. rewrite dispatched_app. simpl. rewrite app_nil_r.
      intro Hl. apply (Hh eq_refl). exact Hl.
    + intro H. rewrite Er1 in H. discriminate H.
Qed.

Lemma tick_reaches_horizon_witness :
  let s := Samples.sample_running 0 Samples.always_returns in
  1 + scheduleAheadTime <= nextBeatTime (fst (schedulerLoop (Samples.env_120 2000) s)).
Proof.
  cbv zeta.
  apply (tick_reaches_horizon (Samples.env_120 2000)
           (Samples.sample_running 0 Samples.always_returns)
           (mkContext Running 1) Samples.always_returns
           eq_refl eq_refl eq_refl eq_refl eq_refl eq_refl).
  vm_compute. lia.
Defined.

(** What [start(callback)] does on a stopped scheduler that has a context. *)
Lemma start_outcome :
  forall (cb : Callback) (ms : Z) (env : TickEnv) (s : Scheduler) (ctx : AudioContext),
    audioContext s = Some ctx ->
    isRunning s = false ->
    let r := start (Some cb) ms env s in
    let s' := snd (fst r) in
    fst (fst r) = true /\
    dispatched (snd r) = [] /\
    (isRunning s' = true ->
       nextBeatTime s' = currentTime ctx + 0.2 /\ currentBeat s' = 1%Z /\
       errorCount s' = 0%Z /\ schedulerCallback s' = Some cb /\
       exists d, armed (snd r) = [(TickTask, d)] /\ timerID s' = Some d /\
                 (d = 0 \/ d = 1 \/ d = 50)) /\
    (isRunning s' = false -> ctx_state ctx = Closed /\ armed (snd r) = []).
Proof.
  intros cb ms env s ctx Hac Hrun. cbv zeta.
  unfold start. rewrite Hac, Hrun.
  unfold schedulerLoop. cbn [isRunning set_isRunning set_currentBeat set_errorCount
    set_performanceStats set_nextBeatTime set_lastUpdateTime set_schedulerCallback negb].
  match goal with |- context [if ?c then _ else _] => destruct c end.
  { cbn. split; [reflexivity|]. split; [reflexivity|]. split.
    - intros _. repeat split. exists minScheduleInterval. repeat split.
      right. left. reflexivity.
    - intro H. discriminate H. }
  cbn [audioContext set_lastUpdateTime set_nextBeatTime set_performanceStats set_errorCount
       set_currentBeat set_isRunning set_schedulerCallback].
  rewrite Hac.
  destruct (ctx_state ctx) eqn:Est.
  - cbn [maxSchedulesPerIteration beatLoop nextBeatTime set_lastUpdateTime set_nextBeatTime].
    replace (Qltb (currentTime ctx + 0.2) (currentTime ctx + scheduleAheadTime)) with false.
    2:{ symmetry. apply Qltb_ge. unfold scheduleAheadTime. lra. }
    unfold nextDelay.
    replace (Qle_bool _ 0) with true.
    2:{ symmetry. apply Qle_bool_iff. unfold scheduleAheadTime. simpl nextBeatTime. lra. }
    cbn. split; [reflexivity|]. split; [reflexivity|]. split.
    + intros _. repeat split. exists 0. repeat split. left. reflexivity.
    + intro H. discriminate H.
  - cbn. split; [reflexivity|]. split; [reflexivity|]. split.
    + intros _. repeat split. exists 50. repeat split. right. right. reflexivity.
    + intro H. discriminate H.
  - match goal with |- context [stop ?x] =>
      pose proof (stop_spec x) as Hs; pose proof (stop_armed x) as Ha;
      cbv zeta in Hs; destruct (stop x) as [s1 e1] end.
    cbn [fst snd] in Hs, Ha |- *.
    destruct Hs as (H1 & _ & _ & _ & _ & _ & _ & _ & _ & _ & H11 & _).
    cbn [dispatched armed]. rewrite H1, H11, Ha.
    split; [reflexivity|]. split; [reflexivity|]. split.
    + intro H. discriminate H.
    + intros _. split; reflexivity.
Qed.

(** X4 (start): on a stopped scheduler with a context, [start(callback)]
    returns [true] and hands no beat to the callback itself, because the first
    beat is placed exactly at the horizon [currentTime + 0.2].  If the
    scheduler is running afterwards, the first beat (number 1) is due at
    [currentTime + 0.2] and one tick timer is armed, with delay 0, 1 or 50 ms;
    it is stopped afterwards only when the context is closed. *)
Theorem start_arms_first_tick :
  forall (cb : Callback) (ms : Z) (env : TickEnv) (s : Scheduler) (ctx : AudioContext),
    audioContext s = Some ctx ->
    isRunning s = false ->
    let r := start (Some cb) ms env s in
    let s' := snd (fst r) in
    fst (fst r) = true /\
    dispatched (snd r) = [] /\
    (isRunning s' = true ->
       nextBeatTime s' = currentTime ctx + 0.2 /\ currentBeat s' = 1%Z /\
       errorCount s' = 0%Z /\ schedulerCallback s' = Some cb /\
       exists d, armed (snd r) = [(TickTask, d)] /\ timerID s' = Some d /\
                 (d = 0 \/ d = 1 \/ d = 50)) /\
    (isRunning s' = false -> ctx_state ctx = Closed /\ armed (snd r) = []).
Proof.
  intros cb ms env s ctx Hac Hrun. cbv zeta.
  pose proof (start_outcome cb ms env s ctx Hac Hrun) as H. cbv zeta in H.
  destruct H as (H1 & H2 & H3 & H4).
  split; [exact H1|]. split; [exact H2|]. split; [exact H3|exact H4].
Qed.

Lemma start_arms_first_tick_witness :
  let r := start (Some Samples.always_returns) 1000 (Samples.env_120 1001)
             Samples.sample_ready in
  fst (fst r) = true /\ dispatched (snd r) = [].
Proof.
  cbv zeta.
  destruct (start_arms_first_tick Samples.always_returns 1000 (Samples.env_120 1001)
              Samples.sample_ready (mkContext Running 0) eq_refl eq_refl)
    as (H1 & H2 & _).
  split; [exact H1|exact H2].
Defined.

(** X5 (stop, schedulerLoop): [stop()] is idempotent, and a stale tick after
    it is a no-op: a second [stop()] and a call of [schedulerLoop()] on the
    stopped scheduler both leave the object as it is, clear no timer, arm no
    timer and dispatch nothing. *)
Theorem stop_idempotent :
  forall (env : TickEnv) (s : Scheduler),
    let stopped := fst (stop s) in
    stop stopped = (stopped, []) /\
    schedulerLoop env stopped = (stopped, []) /\
    armed (snd (stop s)) = [].
Proof.
  intros env s. cbv zeta. split; [|split].
  - unfold stop. destruct s as [ac run cbt nbt cb lut tid ec rt ps]. simpl.
    destruct tid, rt; reflexivity.
  - unfold schedulerLoop.
    pose proof (stop_spec s) as H. cbv zeta in H. destruct H as (H & _).
    rewrite H. reflexivity.
  - apply stop_armed.
Qed.

(** X6 (reset, isInitialized, getAudioContextState, start, init): after
    [reset()] the scheduler is uninitialised with fresh statistics, [start]
    is refused and changes nothing, and once [init()] has created a context
    again [start] with a callback succeeds. *)
Theorem reset_needs_init :
  forall (s : Scheduler) (cb : option Callback) (f : Callback) (ms : Z) (env : TickEnv)
         (st : ContextState) (t : Q) (ok : bool),
    let s1 := fst (reset s) in
    let s2 := snd (fst (init (Created st t ok) s1)) in
    isInitialized s1 = false /\
    getAudioContextState s1 = None /\
    isRunning s1 = false /\
    performanceStats s1 = freshStats /\
    start cb ms env s1 = (false, s1, [HandleAudioError "scheduler start"]) /\
    isInitialized s2 = true /\
    fst (fst (start (Some f) ms env s2)) = true.
Proof.
  intros s cb f ms env st t ok. cbv zeta.
  pose proof (reset_summary s) as H. cbv zeta in H.
  destruct (reset s) as [s1 e1]. cbn [fst] in H |- *.
  destruct H as (H1 & H2 & H3 & H4 & H5 & H6 & H7 & _).
  unfold isInitialized, getAudioContextState, start. rewrite H6.
  split; [reflexivity|]. split; [reflexivity|]. split; [exact H1|]. split; [exact H7|].
  split; [reflexivity|].
  unfold init. rewrite H6.
  assert (Hi : forall c, audioContext (set_audioContext (Some c) (set_performanceStats freshStats s1))
                         = Some c) by reflexivity.
  assert (Hr : forall c, isRunning (set_audioContext (Some c) (set_performanceStats freshStats s1))
                         = false) by (intro c; exact H1).
  destruct st; cbn [fst snd]; rewrite Hi, Hr; (split; [reflexivity|]);
    match goal with |- context [schedulerLoop env ?x] =>
      destruct (schedulerLoop env x) as [s8 e8] end; reflexivity.
Qed.

(** X7 (init, start, stop, updateInterval, reset, cleanupScheduler,
    schedulerLoop, attemptRecovery, onstatechange): whatever sequence of
    method calls, timer callbacks and context events the scheduler object goes
    through from its initial state, its flags stay consistent: while
    [isRunning] it has an audio context and a callback; while stopped it has
    no callback and no tick timer handle; and [errorCount] stays below
    [maxAllowedErrors]. *)
Theorem lifecycle_flags_invariant :
  forall ops : list Op,
    let s := fst (runOps ops scheduler0) in
    (isRunning s = true ->
       (exists ctx, audioContext s = Some ctx) /\ (exists cb, schedulerCallback s = Some cb)) /\
    (isRunning s = false -> schedulerCallback s = None /\ timerID s = None) /\
    (0 <= errorCount s < 3)%Z.
Proof.
  intro ops. cbv zeta.
  apply (runOps_invariant consistent apply_consistent ops scheduler0).
  unfold consistent, scheduler0, maxAllowedErrors. simpl.
  repeat split; try lia; discriminate.
Qed.

Lemma lifecycle_flags_invariant_witness :
  let s := fst (runOps [Init (Created Running 0 true);
                        Start (Some Samples.always_returns) 1000 (Samples.env_120 1001)]
                  scheduler0) in
  (exists ctx, audioContext s = Some ctx) /\ (exists cb, schedulerCallback s = Some cb).
Proof.
  cbv zeta.
  exact (proj1 (lifecycle_flags_invariant
                  [Init (Created Running 0 true);
                   Start (Some Samples.always_returns) 1000 (Samples.env_120 1001)])
           eq_refl).
Defined.

(** X8 (schedulerLoop, init, reset): through any such sequence the counters of
    [performanceStats] add up: [successfulBeats] and [failedBeats] are never
    negative, together they never exceed [beatsScheduled] (the dispatch that
    trips the error threshold is counted as scheduled only), and
    [totalLatency] is never negative. *)
Theorem performance_counters_invariant :
  forall ops : list Op,
    let p := performanceStats (fst (runOps ops scheduler0)) in
    (0 <= successfulBeats p)%Z /\ (0 <= failedBeats p)%Z /\
    (successfulBeats p + failedBeats p <= beatsScheduled p)%Z /\
    0 <= totalLatency p.
Proof.
  intro ops. cbv zeta.
  apply (runOps_invariant (fun s => statsOk (performanceStats s)) apply_statsOk ops scheduler0).
  exact statsOk_fresh.
Qed.

End SchedulerLifecycle.

(** ** C3: the cycle of beat numbers, and every due beat handed out *)

Section LoopUnfolding.
Import Sched Trace GridSpec.

Lemma beatLoop_step (fuel : nat) (iv : Q) (N : Z) (now : Q) (s : Scheduler) :
  beatLoop (S fuel) iv N now s =
    if Qltb (nextBeatTime s) (now + scheduleAheadTime) then
      let d := dispatchBeat iv N now s in
      if snd d then (fst (fst d), snd (fst d), true)
      else
        let l := beatLoop fuel iv N now (fst (fst d)) in
        (fst (fst l), (snd (fst d) ++ snd (fst l))%list, snd l)
    else (s, [], false).
Proof.
  cbn [beatLoop]. destruct (Qltb _ _); [|reflexivity].
  destruct (dispatchBeat iv N now s) as [[s1 e1] ret]. cbn [fst snd].
  destruct ret; [reflexivity|].
  destruct (beatLoop fuel iv N now s1) as [[s2 e2] r2]. reflexivity.
Qed.

End LoopUnfolding.

Section ReentrantCycle.
Import Sched Trace GridSpec Reentrant.

Variable N : Z.
Hypothesis N_pos : (1 <= N)%Z.

(** The calls of one invocation either leave the callback, the running flag
    and the counter alone, or leave the scheduler stopped. *)
Lemma reenterAll_keeps :
  forall (calls : list Reentry) (s : Scheduler),
    let s' := fst (reenterAll calls s) in
    (schedulerCallback s' = schedulerCallback s /\ isRunning s' = isRunning s /\
     currentBeat s' = currentBeat s) \/
    (schedulerCallback s' = None /\ isRunning s' = false).
Proof.
  induction calls as [|call calls IH]; intro s; cbv zeta.
  - left. cbn. repeat split.
  - rewrite reenterAll_cons. cbn [fst].
    specialize (IH (fst (reenter call s))). cbv zeta in IH.
    assert (H1 : (schedulerCallback (fst (reenter call s)) = schedulerCallback s /\
                  isRunning (fst (reenter call s)) = isRunning s /\
                  currentBeat (fst (reenter call s)) = currentBeat s) \/
                 (schedulerCallback (fst (reenter call s)) = None /\
                  isRunning (fst (reenter call s)) = false)).
    { destruct call; cbn [reenter].
      - left. unfold updateInterval. destruct (audioContext s); cbn; repeat split.
      - right. pose proof (stop_spec s) as Hs. cbv zeta in Hs. tauto. }
    destruct IH as [(C2 & R2 & B2)|(C2 & R2)]; [|right; split; assumption].
    destruct H1 as [(C1 & R1 & B1)|(C1 & R1)].
    + left. repeat split; congruence.
    + right. split; congruence.
Qed.

Lemma numbered_stopped (k : nat) (s : Scheduler) :
  schedulerCallback s = None -> isRunning s = false -> numbered N k s.
Proof. intros Hc Hr. split; intro H; congruence. Qed.

Lemma numbered_same (k : nat) (s s' : Scheduler) :
  numbered N k s ->
  schedulerCallback s' = schedulerCallback s -> isRunning s' = isRunning s ->
  currentBeat s' = currentBeat s ->
  numbered N k s'.
Proof.
  intros [H1 H2] Hc Hr Hb. split.
  - intro H. rewrite Hb. apply H1. rewrite <- Hc. exact H.
  - intro H. rewrite Hc. apply H2. rewrite <- Hr. exact H.
Qed.

(** One pass of the loop body hands out the counter when a callback is
    installed, and the counter moves on by one. *)
Lemma dispatchBeat_numbered (calls : list Reentry) (iv now : Q) (s : Scheduler) (k : nat) :
  numbered N k s ->
  let r := Reentrant.dispatchBeat calls iv N now s in
  let out := map snd (dispatched (snd (fst r))) in
  out = map (beatAt N) (seq k (length out)) /\
  numbered N (k + length out) (fst (fst r)).
Proof.
  intros [Hcur Hinst]. cbv zeta. unfold Reentrant.dispatchBeat.
  change (schedulerCallback (countScheduled now s)) with (schedulerCallback s).
  change (nextBeatTime (countScheduled now s)) with (nextBeatTime s).
  change (currentBeat (countScheduled now s)) with (currentBeat s).
  destruct (schedulerCallback s) as [cb|] eqn:Ecb.
  2:{ cbn [fst snd dispatched map length seq]. split; [reflexivity|].
      rewrite Nat.add_0_r. split.
      - intro H. exfalso. apply H. cbn. exact Ecb.
      - intro H. exfalso. apply (Hinst H). reflexivity. }
  assert (Hb : currentBeat s = beatAt N k) by (apply Hcur; discriminate).
  pose proof (reenterAll_spec calls (countScheduled now s)) as R. cbv zeta in R.
  pose proof (reenterAll_keeps calls (countScheduled now s)) as K. cbv zeta in K.
  destruct (reenterAll calls (countScheduled now s)) as [s1 ec]. cbn [fst snd] in R, K.
  destruct R as (RD & _).
  change (schedulerCallback (countScheduled now s)) with (schedulerCallback s) in K.
  change (isRunning (countScheduled now s)) with (isRunning s) in K.
  change (currentBeat (countScheduled now s)) with (currentBeat s) in K.
  rewrite Ecb in K.
  assert (Hmoved : forall s2 : Scheduler,
             schedulerCallback s2 = schedulerCallback s1 -> isRunning s2 = isRunning s1 ->
             currentBeat s2 = (Z.rem (currentBeat s1) N + 1)%Z ->
             numbered N (k + 1) s2).
  { intros s2 Hc Hr Hn. destruct K as [(C & Rn & B)|(C & Rn)].
    - split.
      + intros _. rewrite Hn, B, Hb, Nat.add_1_r. apply beatAt_next. exact N_pos.
      + intros _. rewrite Hc, C. discriminate.
    - apply numbered_stopped; congruence. }
  destruct (cb (nextBeatTime s) (currentBeat s)).
  - cbn [fst snd dispatched]. rewrite RD. cbn [map snd length seq]. rewrite Hb.
    split; [reflexivity|]. apply Hmoved; reflexivity.
  - destruct (maxAllowedErrors <=? _)%Z.
    + match goal with |- context [stop ?x] => pose proof (stop_spec x) as Hs end.
      cbv zeta in Hs. destruct (stop _) as [s3 e3]. cbn [fst snd] in Hs.
      destruct Hs as (Hrun & _ & _ & Hcb & _ & Hrt & _ & _ & _ & _ & Hd & _).
      rewrite (attemptRecovery_after_stop s3 Hrt). cbn [fst snd].
      repeat (rewrite ?dispatched_app; cbn [dispatched List.app]).
      rewrite Hd, RD. cbn [map snd length seq List.app]. rewrite Hb.
      split; [reflexivity|]. apply numbered_stopped; assumption.
    + cbn [fst snd].
      repeat (rewrite ?dispatched_app; cbn [dispatched List.app]).
      rewrite RD. cbn [map snd length seq List.app]. rewrite Hb.
      split; [reflexivity|]. apply Hmoved; reflexivity.
Qed.

Lemma beatLoop_numbered (iv now : Q) :
  forall (fuel : nat) (script : Script) (s : Scheduler) (k : nat),
    numbered N k s ->
    let r := Reentrant.beatLoop fuel script iv N now s in
    let out := map snd (dispatched (snd (fst (fst r)))) in
    out = map (beatAt N) (seq k (length out)) /\
    numbered N (k + length out) (fst (fst (fst r))).
Proof.
  induction fuel as [|fuel IH]; intros script s k Hinv; cbv zeta.
  - cbn. rewrite Nat.add_0_r. split; [reflexivity|exact Hinv].
  - rewrite beatLoop_unfold.
    destruct (Qltb _ _); [|cbn; rewrite Nat.add_0_r; split; [reflexivity|exact Hinv]].
    cbv zeta.
    pose proof (dispatchBeat_numbered (fst (nextCalls script s)) iv now s k Hinv) as D.
    cbv zeta in D. destruct D as [D1 D2].
    destruct (snd (Reentrant.dispatchBeat _ iv N now s)); cbn [fst snd].
    + split; [exact D1|exact D2].
    + specialize (IH (snd (nextCalls script s)) _ _ D2). cbv zeta in IH.
      destruct IH as [I1 I2].
      rewrite dispatched_app, map_app, length_app, seq_app, map_app.
      split.
      * rewrite D1 at 1. rewrite I1 at 1. reflexivity.
      * rewrite Nat.add_assoc. exact I2.
Qed.

Lemma tick_numbered (env : TickEnv) (script : Script) (s : Scheduler) (k : nat) :
  st_beatNumerator env = N ->
  numbered N k s ->
  let r := Reentrant.schedulerLoop env script s in
  let out := map snd (dispatched (snd (fst r))) in
  out = map (beatAt N) (seq k (length out)) /\
  numbered N (k + length out) (fst (fst r)).
Proof.
  intros HN Hinv. cbv zeta. rewrite schedulerLoop_unfold.
  assert (Hidle : forall s' : Scheduler,
             schedulerCallback s' = schedulerCallback s -> isRunning s' = isRunning s ->
             currentBeat s' = currentBeat s ->
             @nil Z = map (beatAt N) (seq k 0) /\ numbered N (k + 0) s').
  { intros s' H1 H2 H3. split; [reflexivity|]. rewrite Nat.add_0_r.
    apply (numbered_same k s); assumption. }
  destruct (negb (isRunning s)); [apply Hidle; reflexivity|].
  destruct (throttled env s); [apply Hidle; reflexivity|].
  cbv zeta.
  assert (Hstop : forall x : Scheduler,
             let r := (fst (stop x), HandleAudioError "audio context closed" :: snd (stop x),
                       script) in
             map snd (dispatched (snd (fst r)))
             = map (beatAt N) (seq k (length (map snd (dispatched (snd (fst r)))))) /\
             numbered N (k + length (map snd (dispatched (snd (fst r))))) (fst (fst r))).
  { intro x. cbv zeta. cbn [fst snd dispatched].
    pose proof (stop_spec x) as Hs. cbv zeta in Hs.
    destruct Hs as (Hrun & _ & _ & Hcb & _ & _ & _ & _ & _ & _ & Hd & _).
    rewrite Hd. cbn. split; [reflexivity|]. apply numbered_stopped; assumption. }
  destruct (audioContext s) as [ctx|]; [|apply Hstop].
  destruct (ctx_state ctx); [|apply Hidle; reflexivity|apply Hstop].
  assert (Hinv0 : numbered N k (set_lastUpdateTime (dateNow env) s)) by exact Hinv.
  pose proof (beatLoop_numbered (secondsPerBeat (st_bpm env)) (currentTime ctx)
                maxSchedulesPerIteration script _ k Hinv0) as L.
  cbv zeta in L. rewrite HN. destruct L as [L1 L2].
  destruct (snd (fst (Reentrant.beatLoop _ _ _ _ _ _))); cbn [fst snd].
  { split; [exact L1|exact L2]. }
  match goal with |- context [if isRunning ?x then _ else _] => destruct (isRunning x) end;
    cbn [fst snd].
  - rewrite dispatched_app. cbn [dispatched]. rewrite app_nil_r.
    split; [exact L1|]. exact L2.
  - split; [exact L1|exact L2].
Qed.

Lemma step_numbered (ev : Event) (script : Script) (s : Scheduler) (k : nat) :
  numerator_is N ev ->
  numbered N k s ->
  let r := Reentrant.step ev script s in
  let out := map snd (dispatched (snd (fst r))) in
  out = map (beatAt N) (seq k (length out)) /\
  numbered N (k + length out) (fst (fst r)).
Proof.
  intros Hev Hinv. destruct ev as [env| |t|st]; cbn [Reentrant.step Trace.step].
  - apply tick_numbered; assumption.
  - unfold updateInterval. destruct (audioContext s); cbn;
      rewrite Nat.add_0_r; (split; [reflexivity|exact Hinv]).
  - cbn. rewrite Nat.add_0_r. split; [reflexivity|].
    unfold set_clock. destruct (audioContext s); exact Hinv.
  - destruct (onstatechange_spec st s) as [D _]. cbv zeta.
    assert (E : (let '(s1, e1) := onstatechange st s in (s1, e1, script))
                = (fst (onstatechange st s), snd (onstatechange st s), script))
      by (destruct (onstatechange st s); reflexivity).
    rewrite E. cbn [fst snd]. rewrite D.
    cbn [map length seq]. rewrite Nat.add_0_r. split; [reflexivity|].
    unfold onstatechange. destruct st.
    + cbn [fst]. destruct (audioContext s); exact Hinv.
    + cbn [fst]. destruct (audioContext s); exact Hinv.
    + match goal with |- context [reset ?x] =>
        pose proof (stop_spec x) as Hs; unfold reset; cbv zeta in Hs;
        destruct (stop x) as [s2 e2] end.
      cbn [fst snd] in Hs |- *. apply numbered_stopped; cbn; tauto.
Qed.

(** The numbers handed out over a whole run, and the counter after it. *)
Lemma run_numbered :
  forall (evs : list Event) (script : Script) (s : Scheduler) (k : nat),
    Forall (numerator_is N) evs ->
    numbered N k s ->
    let r := Reentrant.run evs script s in
    let out := map snd (dispatched (snd (fst r))) in
    out = map (beatAt N) (seq k (length out)) /\
    numbered N (k + length out) (fst (fst r)).
Proof.
  induction evs as [|ev evs IH]; intros script s k Hall Hinv; cbv zeta.
  - cbn. rewrite Nat.add_0_r. split; [reflexivity|exact Hinv].
  - rewrite run_cons. cbv zeta. cbn [fst snd].
    pose proof (Forall_inv Hall) as Hev. pose proof (Forall_inv_tail Hall) as Hrest.
    pose proof (step_numbered ev script s k Hev Hinv) as Hs. cbv zeta in Hs.
    destruct Hs as [H1 H2].
    specialize (IH (snd (Reentrant.step ev script s)) _ _ Hrest H2). cbv zeta in IH.
    destruct IH as [I1 I2].
    rewrite dispatched_app, map_app, length_app, seq_app, map_app.
    split.
    + rewrite H1 at 1. rewrite I1 at 1. reflexivity.
    + rewrite Nat.add_assoc. exact I2.
Qed.

(** A tick that gets to the loop with a beat inside the window hands it to
    the callback, whatever the callback goes on to call. *)
Lemma due_tick_dispatches_reentrant (env : TickEnv) (script : Script) (s : Scheduler)
    (ctx : AudioContext) :
  isRunning s = true -> throttled env s = false ->
  audioContext s = Some ctx -> ctx_state ctx = Running ->
  schedulerCallback s <> None ->
  nextBeatTime s < currentTime ctx + scheduleAheadTime ->
  exists rest,
    dispatched (snd (fst (Reentrant.schedulerLoop env script s)))
    = (nextBeatTime s, currentBeat s) :: rest.
Proof.
  intros Hrun Hth Hac Hst Hcb Hdue.
  rewrite schedulerLoop_unfold. rewrite Hrun, Hth, Hac, Hst. cbn [negb]. cbv zeta.
  change maxSchedulesPerIteration with (S 19). rewrite beatLoop_unfold.
  change (nextBeatTime (set_lastUpdateTime (dateNow env) s)) with (nextBeatTime s).
  assert (Hq : Qltb (nextBeatTime s) (currentTime ctx + scheduleAheadTime) = true)
    by (apply Qltb_lt; exact Hdue).
  rewrite Hq. cbv zeta.
  pose proof (dispatchBeat_pass
                (fst (nextCalls script (set_lastUpdateTime (dateNow env) s)))
                (secondsPerBeat (st_bpm env)) (st_beatNumerator env)
                (currentTime ctx) (set_lastUpdateTime (dateNow env) s)) as P.
  cbv zeta in P. destruct P as (_ & Psome & _).
  change (schedulerCallback (set_lastUpdateTime (dateNow env) s))
    with (schedulerCallback s) in Psome.
  change (nextBeatTime (set_lastUpdateTime (dateNow env) s)) with (nextBeatTime s) in Psome.
  change (currentBeat (set_lastUpdateTime (dateNow env) s)) with (currentBeat s) in Psome.
  specialize (Psome Hcb).
  destruct (snd (Reentrant.dispatchBeat _ _ _ _ _)); cbn [fst snd].
  - rewrite Psome. eexists. reflexivity.
  - destruct (snd (fst (Reentrant.beatLoop _ _ _ _ _ _))); cbn [fst snd].
    + rewrite dispatched_app, Psome. eexists. reflexivity.
    + match goal with |- context [if isRunning ?x then _ else _] => destruct (isRunning x) end;
        cbn [fst snd]; rewrite ?dispatched_app, Psome; eexists; reflexivity.
Qed.

End ReentrantCycle.

Section StartedCounter.
Import Sched Trace GridSpec.

(** After [start] the counter is 1, also when the context turned out closed. *)
Lemma start_counter :
  forall (cb : Callback) (ms : Z) (env : TickEnv) (s : Scheduler) (ctx : AudioContext),
    audioContext s = Some ctx ->
    isRunning s = false ->
    currentBeat (snd (fst (start (Some cb) ms env s))) = 1%Z.
Proof.
  intros cb ms env s ctx Hac Hrun.
  unfold start. rewrite Hac, Hrun.
  unfold schedulerLoop. cbn [isRunning set_isRunning set_currentBeat set_errorCount
    set_performanceStats set_nextBeatTime set_lastUpdateTime set_schedulerCallback negb].
  match goal with |- context [if ?c then _ else _] => destruct c end.
  { reflexivity. }
  cbn [audioContext set_lastUpdateTime set_nextBeatTime set_performanceStats set_errorCount
       set_currentBeat set_isRunning set_schedulerCallback].
  rewrite Hac.
  destruct (ctx_state ctx) eqn:Est.
  - cbn [maxSchedulesPerIteration beatLoop nextBeatTime set_lastUpdateTime set_nextBeatTime].
    replace (Qltb (currentTime ctx + 0.2) (currentTime ctx + scheduleAheadTime)) with false.
    2:{ symmetry. apply Qltb_ge. unfold scheduleAheadTime. lra. }
    reflexivity.
  - reflexivity.
  - match goal with |- context [stop ?x] =>
      pose proof (stop_spec x) as Hs; cbv zeta in Hs; destruct (stop x) as [s1 e1] end.
    cbn [fst snd] in Hs |- *. tauto.
Qed.

End StartedCounter.

(** C3.  In a run with numerator [N >= 1] -- a successful [start] on a stopped
    scheduler followed by any timer ticks, realignments after a tempo change,
    clock movement and context state changes, the callback free to call
    [updateInterval()] and [stop()] as the listeners of ['metronome:beat']
    do -- the beat numbers handed to the callback are
    [1, 2, ..., N, 1, 2, ...]: the [k]-th one (from 0) is [k mod N + 1], each
    obtained from the previous as [currentBeat % N + 1].  The beats are really
    handed out: [start] leaves the scheduler running with the counter at 1
    (unless the context is closed) and dispatches nothing itself, and every
    later tick that gets past the throttle on a running context while the
    scheduler is running and the next beat lies inside the look-ahead window
    hands at least that beat to the callback, with the number that continues
    the cycle. *)
Theorem beat_numbers_cycle :
  forall (N : Z) (cb : Sched.Callback) (now_ms : Z) (env : Sched.TickEnv)
         (evs : list Trace.Event) (script : Reentrant.Script) (s0 : Sched.Scheduler),
    (1 <= N)%Z ->
    Sched.isRunning s0 = false ->
    Sched.st_beatNumerator env = N ->
    Forall (GridSpec.numerator_is N) evs ->
    fst (fst (Sched.start (Some cb) now_ms env s0)) = true ->
    let started := Sched.start (Some cb) now_ms env s0 in
    let s1 := snd (fst started) in
    let ran := Reentrant.run evs script s1 in
    let beats := map snd (dispatched (snd started ++ snd (fst ran))) in
    beats = map (fun k => (Z.of_nat k mod N + 1)%Z) (seq 0 (length beats)) /\
    (forall k, (S k < length beats)%nat ->
       nth (S k) beats 0%Z = (Z.rem (nth k beats 0%Z) N + 1)%Z) /\
    dispatched (snd started) = [] /\
    (forall ctx, Sched.audioContext s0 = Some ctx -> Sched.ctx_state ctx <> Sched.Closed ->
       Sched.isRunning s1 = true /\ Sched.currentBeat s1 = 1%Z) /\
    (forall (pre post : list Trace.Event) (env' : Sched.TickEnv) (ctx : Sched.AudioContext),
       evs = (pre ++ Trace.Tick env' :: post)%list ->
       let before := Reentrant.run pre script s1 in
       let sp := fst (fst before) in
       let count := length (dispatched (snd started ++ snd (fst before))) in
       Sched.isRunning sp = true ->
       Trace.throttled env' sp = false ->
       Sched.audioContext sp = Some ctx ->
       Sched.ctx_state ctx = Sched.Running ->
       Sched.nextBeatTime sp < Sched.currentTime ctx + Sched.scheduleAheadTime ->
       exists rest,
         map snd (dispatched (snd (fst (Reentrant.schedulerLoop env' (snd before) sp))))
         = (Z.of_nat count mod N + 1)%Z :: rest).
Proof.
  intros N cb now_ms env evs script s0 HN Hstopped HenvN Hall Hok started s1 ran beats.
  destruct (Sched.audioContext s0) as [ctx0|] eqn:Eac.
  2:{ exfalso. unfold Sched.start in Hok. rewrite Eac in Hok. discriminate Hok. }
  pose proof (start_outcome cb now_ms env s0 ctx0 Eac Hstopped) as Hst. cbv zeta in Hst.
  fold started in Hst. fold s1 in Hst.
  destruct Hst as (_ & Hnone & Hrunning & Hclosed).
  assert (Hinv : GridSpec.numbered N 0 s1).
  { split.
    - intros _. exact (start_counter cb now_ms env s0 ctx0 Eac Hstopped).
    - intro Hr. destruct (Hrunning Hr) as (_ & _ & _ & Hcb & _). rewrite Hcb. discriminate. }
  pose proof (run_numbered N HN evs script s1 0 Hall Hinv) as Hr. cbv zeta in Hr.
  fold ran in Hr. destruct Hr as [Hr _]. cbn [Nat.add] in Hr.
  assert (Hbeats : beats = map snd (dispatched (snd (fst ran)))).
  { subst beats. rewrite dispatched_app, Hnone. reflexivity. }
  assert (Hb : beats = map (GridSpec.beatAt N) (seq 0 (length beats))).
  { rewrite Hbeats. exact Hr. }
  split; [exact Hb|]. split.
  { intros k Hk.
    remember (length beats) as L eqn:EL.
    clear Hbeats Hr. clearbody beats. subst beats.
    rewrite (nth_indep _ 0%Z (GridSpec.beatAt N 0)) by (rewrite length_map, length_seq; lia).
    rewrite (nth_indep _ 0%Z (GridSpec.beatAt N 0)) by (rewrite length_map, length_seq; lia).
    rewrite !map_nth.
    rewrite !seq_nth by lia. simpl Nat.add.
    symmetry. apply beatAt_next. exact HN. }
  split; [exact Hnone|]. split.
  { intros ctx Hctx Hopen. inversion Hctx; subst ctx0.
    destruct (Sched.isRunning s1) eqn:Er.
    - destruct (Hrunning eq_refl) as (_ & Hc & _). split; [reflexivity|exact Hc].
    - exfalso. apply Hopen. exact (proj1 (Hclosed eq_refl)). }
  intros pre post env' ctx Hsplit before sp count Hrun Hth Hac Hstate Hdue.
  assert (Hpre : Forall (GridSpec.numerator_is N) pre).
  { rewrite Hsplit in Hall. apply Forall_app in Hall. tauto. }
  pose proof (run_numbered N HN pre script s1 0 Hpre Hinv) as Hc. cbv zeta in Hc.
  fold before in Hc. fold sp in Hc. cbn [Nat.add] in Hc. destruct Hc as [_ [Hcur Hinst]].
  pose proof (Hinst Hrun) as Hcb.
  destruct (due_tick_dispatches_reentrant env' (snd before) sp ctx
              Hrun Hth Hac Hstate Hcb Hdue) as [rest Hd].
  exists (map snd rest). rewrite Hd. cbn [map snd]. rewrite (Hcur Hcb).
  unfold GridSpec.beatAt. subst count. rewrite dispatched_app, Hnone. cbn [List.app].
  rewrite length_map. reflexivity.
Qed.

(** C3 at 120 bpm in 4/4: start, then two ticks three seconds apart, the
    callback of the third beat changing the tempo setting mid-bar: nine beats,
    numbered 1, 2, 3, 4, 1, 2, 3, 4, 1; the second tick starts with number 4. *)
Lemma beat_numbers_cycle_witness :
  let started := Sched.start (Some Samples.always_returns) 1000 (Samples.env_120 1000)
                   Samples.sample_ready in
  let ran := Reentrant.run Samples.two_ticks_run Samples.realign_at_third_beat
               (snd (fst started)) in
  let beats := map snd (dispatched (snd started ++ snd (fst ran))) in
  let before := Reentrant.run [Trace.ClockAdvance 3; Trace.Tick (Samples.env_120 1010);
                               Trace.ClockAdvance 6]
                  Samples.realign_at_third_beat (snd (fst started)) in
  beats = [1; 2; 3; 4; 1; 2; 3; 4; 1]%Z /\
  Sched.isRunning (snd (fst started)) = true /\
  exists rest,
    map snd (dispatched (snd (fst (Reentrant.schedulerLoop (Samples.env_120 2010)
                                     (snd before) (fst (fst before))))))
    = 4%Z :: rest.
Proof.
  cbv zeta.
  pose proof (beat_numbers_cycle 4 Samples.always_returns 1000 (Samples.env_120 1000)
                Samples.two_ticks_run Samples.realign_at_third_beat Samples.sample_ready
                ltac:(lia) eq_refl eq_refl ltac:(repeat constructor) eq_refl) as H.
  cbv zeta in H. destruct H as (Hcycle & _ & _ & Hstart & Hdue).
  split; [|split].
  - etransitivity; [exact Hcycle|]. vm_compute. reflexivity.
  - exact (proj1 (Hstart (Sched.mkContext Sched.Running 0) eq_refl ltac:(discriminate))).
  - exact (Hdue [Trace.ClockAdvance 3; Trace.Tick (Samples.env_120 1010); Trace.ClockAdvance 6]
             [] (Samples.env_120 2010)
             (Sched.mkContext Sched.Running 6) eq_refl eq_refl eq_refl eq_refl eq_refl
             ltac:(vm_compute; reflexivity)).
Defined.

(** ** The module's setters: accepted values, rounding and repetition *)

Section ModuleSetters.
Import Js Config State Metronome MetronomeOps.

(** [Math.round]: the integer it returns is within one half of its argument. *)
Lemma round_half (x : Q) :
  x - (1 # 2) < inject_Z (Qfloor (x + (1 # 2))) /\ inject_Z (Qfloor (x + (1 # 2))) <= x + (1 # 2).
Proof.
  pose proof (Qfloor_le (x + (1 # 2))) as H1.
  pose proof (Qlt_floor (x + (1 # 2))) as H2.
  rewrite inject_Z_plus in H2. change (inject_Z 1) with 1 in H2.
  split; lra.
Qed.

Lemma round_between (lo hi : Z) (x : Q) :
  inject_Z lo <= x <= inject_Z hi ->
  (lo <= Qfloor (x + (1 # 2)) <= hi)%Z.
Proof.
  intros [Hlo Hhi]. destruct (round_half x) as [H1 H2].
  assert (A : inject_Z lo < inject_Z (Qfloor (x + (1 # 2)) + 1)).
  { rewrite inject_Z_plus. change (inject_Z 1) with 1. lra. }
  assert (B : inject_Z (Qfloor (x + (1 # 2))) < inject_Z (hi + 1)).
  { rewrite inject_Z_plus. change (inject_Z 1) with 1. lra. }
  rewrite <- Zlt_Qlt in A, B. lia.
Qed.

Lemma roundTenth_close (q : Q) : Qabs (roundTenth q - q) <= 1 # 20.
Proof.
  unfold roundTenth. destruct (round_half (q * 10)) as [H1 H2].
  unfold Qdiv. change (/ 10) with (1 # 10).
  apply Qabs_Qle_condition. split; lra.
Qed.

Lemma roundTenth_between (a b : Z) (q : Q) :
  inject_Z a / 10 <= q <= inject_Z b / 10 ->
  inject_Z a / 10 <= roundTenth q <= inject_Z b / 10.
Proof.
  unfold roundTenth, Qdiv. change (/ 10) with (1 # 10). intros [Hlo Hhi].
  destruct (round_between a b (q * 10)) as [H1 H2]; [split; lra|].
  rewrite Zle_Qle in H1, H2. split; lra.
Qed.


Lemma roundTenth_exact (a : Z) (q : Q) : q == inject_Z a / 10 -> roundTenth q == q.
Proof.
  intro H. unfold roundTenth.
  assert (H' : q == inject_Z a * (1 # 10)) by exact H.
  destruct (round_between a a (q * 10)) as [H1 H2]; [split; lra|].
  replace (Qfloor (q * 10 + (1 # 2))) with a by lia.
  symmetry. exact H.
Qed.

(** [setBPM] on a finite tempo inside the configured range. *)
Lemma setBPM_in_range (cfg : Config) (q : Q) (w : World) :
  minBPM cfg <= q <= maxBPM cfg ->
  let r := setBPM cfg (Number (Fin q)) w in
  let t := roundTenth q in
  fst (fst r) = true /\
  ~ In (HandleConfigError "setting BPM") (snd r) /\
  ((snd (fst r) = w /\ snd r = [] /\ Qabs (readTempo (app w) - t) < 0.1) \/
   (app (snd (fst r)) = update_bpm (Fin t) (app w) /\
    In (WindowEvent "metronome:bpmChanged") (snd r) /\
    ~ Qabs (readTempo (app w) - t) < 0.1)).
Proof.
  intros [Hlo Hhi]. cbv zeta. unfold setBPM.
  assert (E1 : lt (Fin q) (Fin (minBPM cfg)) = false) by (apply Qltb_ge; exact Hlo).
  assert (E2 : gt (Fin q) (Fin (maxBPM cfg)) = false) by (apply Qltb_ge; exact Hhi).
  rewrite E1, E2. cbn [orb].
  change (over (round (times (Fin q) 10)) 10) with (Fin (roundTenth q)).
  change (lt (abs (minus (jsonToQ (toJSON (bpm (app w)))) (Fin (roundTenth q)))) (Fin 0.1))
    with (Qltb (Qabs (readTempo (app w) - roundTenth q)) 0.1).
  destruct (Qltb (Qabs (readTempo (app w) - roundTenth q)) 0.1) eqn:Eclose.
  - cbn [fst snd]. split; [reflexivity|]. split; [intros []|].
    left. split; [reflexivity|]. split; [reflexivity|]. apply Qltb_lt. exact Eclose.
  - assert (Hfar : ~ Qabs (readTempo (app w) - roundTenth q) < 0.1).
    { intro H. apply Qltb_lt in H. congruence. }
    destruct (isRunning (app w)).
    + unfold Sched.updateInterval. cbn [sched with_app].
      destruct (Sched.audioContext (sched w)); cbn [fst snd List.app];
        (split; [reflexivity|]); (split; [|right; split; [reflexivity|split; [|exact Hfar]]]).
      * intros [H|[]]. discriminate H.
      * left. reflexivity.
      * intros [H|[H|[H|[]]]]; discriminate H.
      * right. right. left. reflexivity.
    + cbn [fst snd List.app]. split; [reflexivity|]. split.
      * intros [H|[]]. discriminate H.
      * right. split; [reflexivity|]. split; [left; reflexivity|exact Hfar].
Qed.



Lemma not_lt_ge (n : num) (b : Q) : n <> NaN -> negb (lt n (Fin b)) = ge n (Fin b).
Proof.
  intro Hn. destruct n as [x| | |]; try reflexivity; [|congruence].
  unfold ge, le, lt, Qltb. rewrite negb_involutive. reflexivity.
Qed.

Lemma not_gt_le (n : num) (b : Q) : n <> NaN -> negb (gt n (Fin b)) = le n (Fin b).
Proof.
  intro Hn. destruct n as [x| | |]; try reflexivity; [|congruence].
  unfold gt, le, lt, Qltb. rewrite negb_involutive. reflexivity.
Qed.

(** X10 (setBPM, isValidBPM): the tempo setter accepts exactly the values the
    validator [isValidBPM] accepts, and [NaN] besides: [setBPM(v)] returns
    [true] if and only if [isValidBPM(v)] holds or [v] is [NaN]. *)
Theorem setBPM_accepts_valid_or_NaN :
  forall (cfg : Config) (v : value) (w : World),
    fst (fst (setBPM cfg v w)) = true <-> (isValidBPM cfg v = true \/ v = Number NaN).
Proof.
  intros cfg v w. unfold setBPM, isValidBPM.
  destruct v as [n|].
  2:{ cbn [fst]. split; [intro H; discriminate H|intros [H|H]; discriminate H]. }
  destruct n as [x| | |].
  - rewrite <- (not_lt_ge (Fin x)), <- (not_gt_le (Fin x)) by discriminate.
    rewrite <- negb_orb.
    destruct (lt (Fin x) (Fin (minBPM cfg)) || gt (Fin x) (Fin (maxBPM cfg))).
    + cbn [fst negb]. split; [intro H; discriminate H|intros [H|H]; discriminate H].
    + cbn [negb]. split; [intros _; left; reflexivity|intros _].
      destruct (lt _ _); [reflexivity|].
      destruct (isRunning (app w)); [|reflexivity].
      destruct (Sched.updateInterval _) as [[ok s'] es]. reflexivity.
  - split; [intros _; right; reflexivity|intros _].
    cbn. destruct (isRunning (app w)); [|reflexivity].
    destruct (Sched.updateInterval _) as [[ok s'] es]. reflexivity.
  - cbn. split; [intro H; discriminate H|intros [H|H]; discriminate H].
  - cbn. split; [intro H; discriminate H|intros [H|H]; discriminate H].
Qed.

(** X11 (setTimeSignature, isValidTimeSignature): the signature setter accepts
    exactly the signatures the validator accepts, and a [NaN] numerator with
    a listed denominator besides. *)
Theorem setTimeSignature_accepts_valid_or_NaN :
  forall (cfg : Config) (numerator denominator : value) (w : World),
    fst (fst (setTimeSignature cfg numerator denominator w)) = true <->
    (isValidTimeSignature cfg numerator denominator = true \/
     (numerator = Number NaN /\ includes (validDenominators cfg) denominator = true)).
Proof.
  intros cfg numerator denominator w. unfold setTimeSignature, isValidTimeSignature.
  destruct numerator as [n|].
  2:{ cbn [fst]. split; [intro H; discriminate H|intros [H|[H _]]; discriminate H]. }
  assert (Hacc : forall d : num,
             fst (fst (if strictEq (toJSON (beatNumerator (app w))) n
                          && strictEq (toJSON (beatDenominator (app w))) d
                       then (true, w, [])
                       else
                         let w1 := with_app (update_signature n d (app w)) w in
                         let '(w2, e2) :=
                           if isRunning (app w)
                           then let '(_, s', es) := Sched.updateInterval (sched w1) in
                                (with_sched s' w1, es)
                           else (w1, []) in
                         (true, w2,
                          (e2 ++ [WindowEvent "metronome:timeSignatureChanged"])%list))) = true).
  { intro d. destruct (_ && _); [reflexivity|]. cbv zeta.
    destruct (isRunning (app w)); [|reflexivity].
    destruct (Sched.updateInterval _) as [[ok s'] es]. reflexivity. }
  destruct denominator as [d|].
  2:{ cbn [includes negb].
      destruct (lt n _ || gt n _); cbn [fst];
        (split; [intro H; discriminate H|intros [H|[_ H]]; discriminate H]). }
  destruct (includes (validDenominators cfg) (Number d)) eqn:Einc.
  2:{ rewrite andb_false_r.
      destruct (lt n _ || gt n _); cbn [negb fst];
        (split; [intro H; discriminate H|intros [H|[_ H]]; discriminate H]). }
  rewrite andb_true_r. cbn [negb].
  destruct n as [x| | |].
  - rewrite <- (not_lt_ge (Fin x)), <- (not_gt_le (Fin x)) by discriminate.
    rewrite <- negb_orb.
    destruct (lt (Fin x) _ || gt (Fin x) _).
    + cbn [fst negb]. split; [intro H; discriminate H|intros [H|[H _]]; discriminate H].
    + cbn [negb]. split; [intros _; left; reflexivity|intros _; apply Hacc].
  - cbn [lt gt orb]. split; [intros _; right; split; reflexivity|intros _; apply Hacc].
  - cbn. split; [intro H; discriminate H|intros [H|[H _]]; discriminate H].
  - cbn. split; [intro H; discriminate H|intros [H|[H _]]; discriminate H].
Qed.


(** X12 (setVolume): [setVolume] refuses what is not a number and every
    number outside [minVolume, maxVolume] without touching anything; for a
    finite volume inside integer bounds it returns [true] and works with the
    nearest integer, which is inside the bounds and within 0.5 of the
    argument: if that is the stored volume nothing happens, otherwise it is
    stored and ['metronome:volumeChanged'] is dispatched; repeating the call
    changes nothing. *)
Theorem setVolume_rounds_into_range :
  forall (lo hi : Z) (v : value) (q : Q) (w : World),
    ((v = NotNumber \/ v = Number PosInf \/ v = Number NegInf \/
      exists x, v = Number (Fin x) /\ (x < inject_Z lo \/ inject_Z hi < x)) ->
     setVolume (inject_Z lo) (inject_Z hi) v w
       = (false, w, [HandleConfigError "setting volume"])) /\
    (inject_Z lo <= q <= inject_Z hi ->
     let r := setVolume (inject_Z lo) (inject_Z hi) (Number (Fin q)) w in
     let w' := snd (fst r) in
     let k := Qfloor (q + (1 # 2)) in
     fst (fst r) = true /\
     (lo <= k <= hi)%Z /\
     Qabs (inject_Z k - q) <= 1 # 2 /\
     ((w' = w /\ snd r = [] /\ exists old, volume (app w) = Fin old /\ old == inject_Z k) \/
      (app w' = update_volume (Fin (inject_Z k)) (app w) /\
       snd r = [WindowEvent "metronome:volumeChanged"])) /\
     setVolume (inject_Z lo) (inject_Z hi) (Number (Fin q)) w' = (true, w', [])).
Proof.
  intros lo hi v q w. split.
  - intros [-> | [-> | [-> | (x & -> & Hx)]]]; try reflexivity.
    unfold setVolume.
    replace (lt (Fin x) (Fin (inject_Z lo)) || gt (Fin x) (Fin (inject_Z hi))) with true;
      [reflexivity|].
    symmetry. apply orb_true_iff.
    destruct Hx as [Hx|Hx]; [left|right]; apply Qltb_lt; exact Hx.
  - intros [Hlo Hhi]. cbv zeta.
    assert (E1 : lt (Fin q) (Fin (inject_Z lo)) = false) by (apply Qltb_ge; exact Hlo).
    assert (E2 : gt (Fin q) (Fin (inject_Z hi)) = false) by (apply Qltb_ge; exact Hhi).
    destruct (round_half q) as [R1 R2].
    unfold setVolume. rewrite E1, E2. cbn [orb round].
    split.
    { destruct (strictEq _ _); reflexivity. }
    split; [apply round_between; split; assumption|].
    split; [apply Qabs_Qle_condition; split; lra|].
    destruct (strictEq (toJSON (volume (app w))) (Fin (inject_Z (Qfloor (q + (1 # 2))))))
      eqn:Eeq; cbn [fst snd].
    + split.
      * left. split; [reflexivity|]. split; [reflexivity|].
        destruct (volume (app w)) as [old| | |]; try discriminate Eeq.
        exists old. split; [reflexivity|]. apply Qeq_bool_iff. exact Eeq.
      * rewrite Eeq. reflexivity.
    + split; [right; split; reflexivity|].
      cbn [app with_app update_volume volume toJSON strictEq].
      rewrite (proj2 (Qeq_bool_iff _ _) (Qeq_refl _)). reflexivity.
Qed.

Lemma setVolume_rounds_into_range_witness :
  let r := setVolume (inject_Z 0) (inject_Z 100) (Number (Fin (151 # 2))) WorldSamples.ready in
  fst (fst r) = true /\
  volume (app (snd (fst r))) = Fin (inject_Z 76) /\
  setVolume (inject_Z 0) (inject_Z 100) (Number (Fin 1000)) WorldSamples.ready
    = (false, WorldSamples.ready, [HandleConfigError "setting volume"]).
Proof.
  cbv zeta.
  pose proof (setVolume_rounds_into_range 0 100 (Number (Fin 1000)) (151 # 2)
                WorldSamples.ready) as [Hrej Hacc].
  cbv zeta in Hacc.
  destruct Hacc as (H1 & _); [split; vm_compute; discriminate|].
  split; [exact H1|]. split; [reflexivity|].
  apply Hrej. right. right. right. exists 1000. split; [reflexivity|].
  right. vm_compute. reflexivity.
Defined.

Lemma Qfloor_zero (x : Q) : 0 <= x -> x < 1 -> Qfloor x = 0%Z.
Proof.
  intros H0 H1.
  pose proof (Qfloor_le x) as A. pose proof (Qlt_floor x) as B.
  assert (A' : inject_Z (Qfloor x) < inject_Z 1) by (change (inject_Z 1) with 1; lra).
  assert (B' : inject_Z 0 < inject_Z (Qfloor x + 1)) by (change (inject_Z 0) with 0; lra).
  rewrite <- Zlt_Qlt in A', B'. lia.
Qed.

(** X13 (scheduleBeat): for a beat number [b] between 1 and the numerator of
    the stored time signature, as the scheduler hands them out,
    [scheduleBeat] asks [playSound] for the beat at the given time with the
    stored volume divided by 100, as a first beat exactly when [b] is 1,
    dispatches ['metronome:beat'], counts the beat, and stores the position
    [currentBeat = b]; the bar index it stores,
    [Math.floor((b - 1) / beatNumerator)], is 0 for every such beat. *)
Theorem scheduleBeat_bar_is_zero :
  forall (t : Q) (b : Z) (n : Q) (w : World),
    beatNumerator (app w) = Fin n ->
    (1 <= b)%Z ->
    inject_Z b <= n ->
    let r := scheduleBeat t b w in
    currentBeat (app (fst r)) = Fin (inject_Z b) /\
    currentBar (app (fst r)) = Fin 0 /\
    totalBeats (metro (fst r)) = (totalBeats (metro w) + 1)%Z /\
    snd r = [PlaySound (b =? 1)%Z t (jsonToQ (toJSON (volume (app w))) / 100);
             WindowEvent "metronome:beat"] /\
    isRunning (app (fst r)) = isRunning (app w) /\
    bpm (app (fst r)) = bpm (app w) /\
    sched (fst r) = sched w.
Proof.
  intros t b n w Hn Hb Hbn. cbv zeta. unfold scheduleBeat.
  cbn [fst snd app with_app with_metro metro update_position currentBeat currentBar
       totalBeats isRunning bpm sched].
  split; [reflexivity|]. split; [|repeat split; reflexivity].
  rewrite Hn. unfold divide. cbn [toJSON jsonToQ].
  assert (Hb' : inject_Z 1 <= inject_Z b) by (rewrite <- Zle_Qle; exact Hb).
  change (inject_Z 1) with 1 in Hb'.
  assert (Hpos : 0 < n) by lra.
  rewrite (Qeq_bool_pos n Hpos). cbn [floor].
  rewrite Qfloor_zero; [reflexivity| |].
  - apply Qle_shift_div_l; [exact Hpos|].
    unfold Z.sub. rewrite inject_Z_plus.
    replace (inject_Z (- (1))) with (- (1)) by reflexivity. lra.
  - apply Qlt_shift_div_r; [exact Hpos|].
    unfold Z.sub. rewrite inject_Z_plus.
    replace (inject_Z (- (1))) with (- (1)) by reflexivity. lra.
Qed.

Lemma scheduleBeat_bar_is_zero_witness :
  currentBar (app (fst (scheduleBeat (1 # 5) 4 WorldSamples.ready))) = Fin 0.
Proof.
  apply (scheduleBeat_bar_is_zero (1 # 5) 4 4 WorldSamples.ready eq_refl).
  - lia.
  - vm_compute. discriminate.
Defined.

End ModuleSetters.

(** ** Starting, stopping, recovering and resetting the metronome *)

Section StartStop.
Import Js Config State Metronome MetronomeOps.

Lemma deliver_nil (w : World) : deliver [] w = (w, []).
Proof. reflexivity. Qed.

(** The scheduler call inside [startMetronome], once the audio is ready. *)
Lemma start_when_ready (ms : Z) (env : Sched.TickEnv) (w : World) :
  isAudioReady w = true ->
  let r := Sched.start (Some scheduleBeatOutcome) ms env (sched w) in
  fst (fst r) = true /\ dispatched (snd r) = [] /\ Sched.isRunning (snd (fst r)) = true /\
  Sched.audioContext (snd (fst r)) = Sched.audioContext (sched w).
Proof.
  unfold isAudioReady. intro Hready. apply andb_true_iff in Hready. destruct Hready as [_ Hctx].
  destruct (Sched.audioContext (sched w)) as [ctx|] eqn:Eac; [|discriminate Hctx].
  cbv zeta.
  destruct (Sched.isRunning (sched w)) eqn:Erun.
  - rewrite (start_when_running _ ms env (sched w) ctx Eac Erun). cbn [fst snd].
    split; [reflexivity|]. split; [reflexivity|]. split; [exact Erun|exact Eac].
  - pose proof (start_outcome scheduleBeatOutcome ms env (sched w) ctx Eac Erun) as H.
    cbv zeta in H. destruct H as (H1 & H2 & H3 & H4).
    pose proof (start_keeps_context (Some scheduleBeatOutcome) ms env (sched w) H1) as Hk.
    split; [exact H1|]. split; [exact H2|].
    destruct (Sched.isRunning (snd (fst (Sched.start _ ms env (sched w))))) eqn:Er.
    + split; [reflexivity|].
      unfold Sched.start. rewrite Eac, Erun.
      match goal with |- context [Sched.schedulerLoop env ?x] =>
        pose proof (schedulerLoop_audioContext env x) as Ha;
        destruct (Sched.schedulerLoop env x) as [s8 e8] end.
      cbn [fst snd] in Ha |- *. rewrite Ha. simpl. exact Eac.
    + destruct (H4 eq_refl) as [Hclosed _]. rewrite Hclosed in Hctx. discriminate Hctx.
Qed.

(** What [startMetronome] returns and leaves behind. *)
Lemma startMetronome_summary (ms : Z) (w : World) :
  let r := startMetronome ms w in
  let w' := snd (fst r) in
  (isInitialized (metro w) = true -> isAudioReady w = true -> isRunning (app w) = false ->
     fst (fst r) = true /\
     app w' = update_isRunning true (app w) /\
     metro w' = mkMetro true 0 (totalRuntime (metro w)) ms (avgBeatInterval (metro w)) /\
     Sched.isRunning (sched w') = true /\
     Sched.audioContext (sched w') = Sched.audioContext (sched w) /\
     soundsReady w' = soundsReady w /\
     dispatched (snd r) = [] /\
     In (WindowEvent "metronome:started") (snd r)) /\
  (isInitialized (metro w) = true -> isAudioReady w = true -> isRunning (app w) = true ->
     r = (false, w, [ConsoleWarn "metronome already running"])) /\
  (isInitialized (metro w) = false \/ isAudioReady w = false -> r = startFailed w).
Proof.
  cbv zeta. unfold startMetronome. split; [|split].
  - intros Hi Ha Hr. rewrite Hi, Ha, Hr. cbn [negb].
    match goal with |- context [Sched.start _ ms ?e (sched ?x)] =>
      pose proof (start_when_ready ms e x) as Hs end.
    cbv zeta in Hs.
    match type of Hs with ?A -> _ => assert (Hready : A) by exact Ha end.
    specialize (Hs Hready).
    destruct (Sched.start _ _ _ _) as [[started s'] es]. cbn [fst snd] in Hs.
    destruct Hs as (H1 & H2 & H3 & H4). rewrite H1, H2, deliver_nil.
    cbn [fst snd List.app]. rewrite dispatched_app. cbn [dispatched]. rewrite H2.
    split; [reflexivity|]. split; [reflexivity|]. split; [reflexivity|].
    split; [exact H3|]. split; [exact H4|]. split; [reflexivity|]. split; [reflexivity|].
    apply in_or_app. right. left. reflexivity.
  - intros Hi Ha Hr. rewrite Hi, Ha, Hr. reflexivity.
  - intros [Hi|Ha].
    + rewrite Hi. reflexivity.
    + rewrite Ha. destruct (isInitialized (metro w)); reflexivity.
Qed.

(** X14 (startMetronome): [startMetronome()] returns [true] exactly when the
    module is initialised, the audio is ready and the state does not say
    running.  It then leaves the state and the scheduler running, zeroes the
    beat count, records the start time, hands no beat to [scheduleBeat] yet
    and dispatches ['metronome:started'].  Otherwise it returns [false]: with
    a warning and no change when already running, and through its [catch]
    block (state set to not running, ['metronome:startFailed']) when the
    module is not initialised or the audio is not ready. *)
Theorem startMetronome_outcome :
  forall (ms : Z) (w : World),
    let r := startMetronome ms w in
    let w' := snd (fst r) in
    (fst (fst r) = true <->
       isInitialized (metro w) = true /\ isAudioReady w = true /\ isRunning (app w) = false) /\
    (fst (fst r) = true ->
       isRunning (app w') = true /\ Sched.isRunning (sched w') = true /\
       totalBeats (metro w') = 0%Z /\ lastStartTime (metro w') = ms /\
       bpm (app w') = bpm (app w) /\ volume (app w') = volume (app w) /\
       dispatched (snd r) = [] /\
       In (WindowEvent "metronome:started") (snd r)) /\
    (fst (fst r) = false ->
       r = (false, w, [ConsoleWarn "metronome already running"]) \/
       (r = startFailed w /\ isRunning (app w') = false /\
        In (WindowEvent "metronome:startFailed") (snd r))).
Proof.
  intros ms w. cbv zeta.
  pose proof (startMetronome_summary ms w) as H. cbv zeta in H.
  destruct H as (Hgo & Hbusy & Hfail).
  destruct (isInitialized (metro w)) eqn:Ei.
  2:{ rewrite (Hfail (or_introl eq_refl)). cbn [startFailed fst snd].
      split; [split; [intro H; discriminate H|intros (H & _); discriminate H]|].
      split; [intro H; discriminate H|].
      intros _. right. split; [reflexivity|]. split; [reflexivity|].
      right. left. reflexivity. }
  destruct (isAudioReady w) eqn:Ea.
  2:{ rewrite (Hfail (or_intror eq_refl)). cbn [startFailed fst snd].
      split; [split; [intro H; discriminate H|intros (_ & H & _); discriminate H]|].
      split; [intro H; discriminate H|].
      intros _. right. split; [reflexivity|]. split; [reflexivity|].
      right. left. reflexivity. }
  destruct (isRunning (app w)) eqn:Er.
  - rewrite (Hbusy eq_refl eq_refl eq_refl). cbn [fst snd].
    split; [split; [intro H; discriminate H|intros (_ & _ & H); discriminate H]|].
    split; [intro H; discriminate H|]. intros _. left. reflexivity.
  - destruct (Hgo eq_refl eq_refl eq_refl) as (H1 & H2 & H3 & H4 & _ & _ & H7 & H8).
    split; [split; [intros _; repeat split; reflexivity|intros _; exact H1]|].
    split.
    + intros _. rewrite H2, H3. cbn. repeat split; assumption.
    + intro H. rewrite H1 in H. discriminate H.
Qed.

Lemma startMetronome_outcome_witness :
  let r := startMetronome 1000 WorldSamples.ready in
  fst (fst r) = true /\ Sched.isRunning (sched (snd (fst r))) = true.
Proof.
  cbv zeta.
  pose proof (startMetronome_outcome 1000 WorldSamples.ready) as [Hiff [Hgo _]].
  cbv zeta in Hiff, Hgo.
  assert (H : fst (fst (startMetronome 1000 WorldSamples.ready)) = true).
  { apply Hiff. repeat split; reflexivity. }
  split; [exact H|]. destruct (Hgo H) as (_ & H2 & _). exact H2.
Defined.


Lemma stopMetronome_summary (t : Z) (w : World) :
  let r := stopMetronome t w in
  let w' := snd (fst r) in
  isRunning (app w') = false /\
  isAudioReady w' = isAudioReady w /\
  isInitialized (metro w') = isInitialized (metro w) /\
  bpm (app w') = bpm (app w) /\ beatNumerator (app w') = beatNumerator (app w) /\
  beatDenominator (app w') = beatDenominator (app w) /\ volume (app w') = volume (app w) /\
  SchedOps.armed (snd r) = [] /\ dispatched (snd r) = [] /\
  (isRunning (app w) = false -> r = (false, w, [ConsoleWarn "metronome is not running"])) /\
  (isRunning (app w) = true ->
     fst (fst r) = true /\
     currentBeat (app w') = Fin 0 /\ currentBar (app w') = Fin 0 /\
     sched w' = fst (Sched.stop (sched w)) /\
     totalBeats (metro w') = totalBeats (metro w) /\
     totalRuntime (metro w') =
       (if (0 <? lastStartTime (metro w))%Z
        then totalRuntime (metro w) + (t - lastStartTime (metro w))
        else totalRuntime (metro w))%Z /\
     snd r = (snd (Sched.stop (sched w)) ++
              [ConsoleWarn "scheduler stop may have failed"; WindowEvent "metronome:stopped"])%list).
Proof.
  cbv zeta. unfold stopMetronome.
  destruct (isRunning (app w)) eqn:Er; cbn [negb].
  - pose proof (stop_spec (sched w)) as Hs. cbv zeta in Hs.
    pose proof (stop_armed (sched w)) as Ha.
    destruct (Sched.stop (sched w)) as [s' es]. cbn [fst snd] in Hs, Ha |- *.
    destruct Hs as (_ & _ & _ & _ & _ & _ & Hac & _ & _ & _ & Hd & _).
    rewrite armed_app, dispatched_app, Ha, Hd.
    unfold isAudioReady. cbn [sched with_app with_sched with_metro soundsReady]. rewrite Hac.
    split; [reflexivity|]. split; [reflexivity|].
    split; [destruct (0 <? _)%Z; reflexivity|].
    do 6 (split; [reflexivity|]).
    split; [intro H; discriminate H|]. intros _.
    split; [reflexivity|]. split; [reflexivity|]. split; [reflexivity|]. split; [reflexivity|].
    split; [destruct (0 <? _)%Z; reflexivity|].
    split; [destruct (0 <? _)%Z; reflexivity|reflexivity].
  - cbn [fst snd]. split; [exact Er|]. do 8 (split; [reflexivity|]).
    split; [reflexivity|]. intro H. discriminate H.
Qed.

(** X15 (startMetronome, stopMetronome): after a successful start at [t0 > 0],
    [stopMetronome()] at [t1] returns [true]; it leaves the state not running
    at position 0/0 with tempo, signature and volume untouched, the scheduler
    stopped with no callback and no tick timer handle, arms no timer, adds
    [t1 - t0] to the total runtime and dispatches ['metronome:stopped'];
    [startMetronome()] then succeeds again. *)
Theorem stop_after_start_then_restart :
  forall (t0 t1 t2 : Z) (w : World),
    isInitialized (metro w) = true ->
    isAudioReady w = true ->
    isRunning (app w) = false ->
    (0 < t0)%Z ->
    let w1 := snd (fst (startMetronome t0 w)) in
    let r := stopMetronome t1 w1 in
    let w2 := snd (fst r) in
    fst (fst r) = true /\
    isRunning (app w2) = false /\
    currentBeat (app w2) = Fin 0 /\ currentBar (app w2) = Fin 0 /\
    bpm (app w2) = bpm (app w) /\ beatNumerator (app w2) = beatNumerator (app w) /\
    beatDenominator (app w2) = beatDenominator (app w) /\ volume (app w2) = volume (app w) /\
    Sched.isRunning (sched w2) = false /\ Sched.schedulerCallback (sched w2) = None /\
    Sched.timerID (sched w2) = None /\
    totalRuntime (metro w2) = (totalRuntime (metro w) + (t1 - t0))%Z /\
    SchedOps.armed (snd r) = [] /\
    In (WindowEvent "metronome:stopped") (snd r) /\
    fst (fst (startMetronome t2 w2)) = true.
Proof.
  intros t0 t1 t2 w Hi Ha Hr Ht0. cbv zeta.
  pose proof (startMetronome_summary t0 w) as [Hgo _]. cbv zeta in Hgo.
  destruct (Hgo Hi Ha Hr) as (_ & G2 & G3 & _ & G5 & G6 & _).
  set (w1 := snd (fst (startMetronome t0 w))) in *.
  assert (Hr1 : isRunning (app w1) = true) by (rewrite G2; reflexivity).
  assert (Ha1 : isAudioReady w1 = true).
  { rewrite <- Ha. unfold isAudioReady. rewrite G5, G6. reflexivity. }
  pose proof (stopMetronome_summary t1 w1) as Hs. cbv zeta in Hs.
  destruct Hs as (S1 & S2 & S3 & S4 & S5 & S6 & S7 & S8 & _ & _ & Hrun).
  destruct (Hrun Hr1) as (R1 & R2 & R3 & R4 & _ & R6 & R7).
  pose proof (stop_spec (sched w1)) as Hst. cbv zeta in Hst.
  destruct Hst as (T1 & _ & _ & T4 & T5 & _).
  split; [exact R1|]. split; [exact S1|]. split; [exact R2|]. split; [exact R3|].
  split; [rewrite S4, G2; reflexivity|]. split; [rewrite S5, G2; reflexivity|].
  split; [rewrite S6, G2; reflexivity|]. split; [rewrite S7, G2; reflexivity|].
  rewrite R4. split; [exact T1|]. split; [exact T4|]. split; [exact T5|].
  split.
  { rewrite R6, G3. cbn [lastStartTime totalRuntime].
    replace (0 <? t0)%Z with true by (symmetry; apply Z.ltb_lt; exact Ht0). reflexivity. }
  split; [exact S8|].
  split; [rewrite R7; apply in_or_app; right; right; left; reflexivity|].
  pose proof (startMetronome_summary t2 (snd (fst (stopMetronome t1 w1)))) as [Hgo2 _].
  cbv zeta in Hgo2.
  destruct Hgo2 as (H & _); [rewrite S3, G3; reflexivity|rewrite S2; exact Ha1|exact S1|exact H].
Qed.

Lemma stop_after_start_then_restart_witness :
  let w1 := snd (fst (startMetronome 1000 WorldSamples.ready)) in
  let r := stopMetronome 4000 w1 in
  fst (fst r) = true /\ totalRuntime (metro (snd (fst r))) = 3000%Z.
Proof.
  cbv zeta.
  destruct (stop_after_start_then_restart 1000 4000 5000 WorldSamples.ready
              eq_refl eq_refl eq_refl eq_refl)
    as (H1 & _ & _ & _ & _ & _ & _ & _ & _ & _ & _ & H12 & _).
  split; [exact H1|exact H12].
Defined.

(** X16 (attemptRecovery, resetMetronome): the module's [attemptRecovery()]
    returns [true], leaves the state not running at position 0/0, zeroes the
    statistics and dispatches ['metronome:recovered']; it keeps the
    initialised flag, so a metronome that was initialised with ready audio can
    be started again.  [resetMetronome()] returns [true], leaves the state not
    running and clears the initialised flag, so that [startMetronome()] fails
    until the module is initialised again. *)
Theorem recovery_and_reset :
  forall (t t2 : Z) (w : World),
    (let r := attemptRecovery t w in
     let w' := snd (fst r) in
     fst (fst r) = true /\
     isRunning (app w') = false /\
     currentBeat (app w') = Fin 0 /\ currentBar (app w') = Fin 0 /\
     bpm (app w') = bpm (app w) /\
     metro w' = freshPerformance (isInitialized (metro w)) /\
     In (WindowEvent "metronome:recovered") (snd r) /\
     (isInitialized (metro w) = true -> isAudioReady w = true ->
        fst (fst (startMetronome t2 w')) = true)) /\
    (let r := resetMetronome t w in
     let w' := snd (fst r) in
     fst (fst r) = true /\
     isRunning (app w') = false /\
     metro w' = freshPerformance false /\
     startMetronome t2 w' = startFailed w' /\
     fst (fst (startMetronome t2 w')) = false).
Proof.
  intros t t2 w.
  pose proof (stopMetronome_summary t w) as Hs. cbv zeta in Hs.
  destruct Hs as (S1 & S2 & S3 & S4 & _).
  split; cbv zeta.
  - unfold attemptRecovery.
    destruct (stopMetronome t w) as [[ok w1] e1]. cbn [fst snd] in S1, S2, S3, S4 |- *.
    split; [reflexivity|]. split; [reflexivity|]. split; [reflexivity|].
    split; [reflexivity|]. split; [exact S4|]. split; [rewrite S3; reflexivity|].
    split.
    { right. apply in_or_app. right. left. reflexivity. }
    intros Hi Ha.
    match goal with |- fst (fst (startMetronome t2 ?x)) = true =>
      pose proof (startMetronome_summary t2 x) as [Hgo _] end.
    cbv zeta in Hgo.
    destruct Hgo as (H & _); [rewrite S3; exact Hi| |reflexivity|exact H].
    rewrite <- Ha, <- S2. reflexivity.
  - unfold resetMetronome.
    destruct (stopMetronome t w) as [[ok w1] e1]. cbn [fst snd] in S1 |- *.
    split; [reflexivity|]. split; [exact S1|]. split; [reflexivity|].
    match goal with |- startMetronome t2 ?x = _ /\ _ =>
      pose proof (startMetronome_summary t2 x) as (_ & _ & Hfail) end.
    cbv zeta in Hfail. rewrite (Hfail (or_introl eq_refl)).
    split; reflexivity.
Qed.

Lemma recovery_and_reset_witness :
  fst (fst (startMetronome 9000
              (snd (fst (attemptRecovery 5000 WorldSamples.running))))) = true.
Proof.
  destruct (recovery_and_reset 5000 9000 WorldSamples.running) as [(_ & _ & _ & _ & _ & _ & _ & H) _].
  apply H; reflexivity.
Defined.

End StartStop.

(** ** The keyboard's tempo steps *)

Section KeyboardSteps.
Import Js Config State Metronome MetronomeOps Keyboard.

(** X17 (_increaseBPM, _decreaseBPM, getBPM): with range bounds that are
    multiples of 0.1 and a stored tempo [q] inside the range, the keyboard's
    tempo steps are never refused by [setBPM].  After [_increaseBPM] the
    tempo lies between [q] and [maxBPM], at most 5.05 above [q], and within
    0.1 of [maxBPM] once [q + 5] reaches it; after [_decreaseBPM] it lies
    between [minBPM] and [q], at most 5.05 below [q], and within 0.1 of
    [minBPM] once [q - 5] reaches it. *)
Theorem keyboard_steps_stay_in_range :
  forall (cfg : Config) (a b : Z) (q : Q) (w : World),
    minBPM cfg == inject_Z a / 10 ->
    maxBPM cfg == inject_Z b / 10 ->
    bpm (app w) = Fin q ->
    minBPM cfg <= q <= maxBPM cfg ->
    (let r := _increaseBPM cfg w in
     ~ In (HandleConfigError "setting BPM") (snd r) /\
     exists v, bpm (app (fst r)) = Fin v /\
               q <= v /\ v <= maxBPM cfg /\ v <= q + 5 + (1 # 20) /\
               (maxBPM cfg <= q + 5 -> Qabs (v - maxBPM cfg) < 0.1)) /\
    (let r := _decreaseBPM cfg w in
     ~ In (HandleConfigError "setting BPM") (snd r) /\
     exists v, bpm (app (fst r)) = Fin v /\
               minBPM cfg <= v /\ v <= q /\ q - 5 - (1 # 20) <= v /\
               (q - 5 <= minBPM cfg -> Qabs (v - minBPM cfg) < 0.1)).
Proof.
  intros cfg a b q w Ha Hb Hbpm [Hlo Hhi].
  assert (Hread : readTempo (app w) = q) by (unfold readTempo; rewrite Hbpm; reflexivity).
  split; cbv zeta.
  - unfold _increaseBPM, getBPM. rewrite Hbpm. cbn [toJSON jsonToQ].
    set (x := Qmin (q + 5) (maxBPM cfg)).
    assert (Hx : minBPM cfg <= x <= maxBPM cfg).
    { unfold x. split; [apply Q.min_glb; lra|apply Q.le_min_r]. }
    assert (Hx5 : x <= q + 5) by (unfold x; apply Q.le_min_l).
    pose proof (setBPM_in_range cfg x w Hx) as H. cbv zeta in H.
    pose proof (roundTenth_close x) as Hc. apply Qabs_Qle_condition in Hc.
    assert (Ht : minBPM cfg <= roundTenth x <= maxBPM cfg).
    { rewrite Ha, Hb. apply roundTenth_between. rewrite <- Ha, <- Hb. exact Hx. }
    assert (Hsat : maxBPM cfg <= q + 5 -> roundTenth x == maxBPM cfg).
    { intro Hm. assert (Hxm : x == maxBPM cfg).
      { unfold x. destruct (Q.min_spec (q + 5) (maxBPM cfg)) as [[H1 H2]|[H1 H2]]; lra. }
      rewrite (roundTenth_exact b x); [exact Hxm|]. rewrite Hxm. exact Hb. }
    destruct (setBPM cfg (Number (Fin x)) w) as [[ok w1] e1]. cbn [fst snd] in H |- *.
    destruct H as (_ & Herr & Hcases). split; [exact Herr|].
    destruct Hcases as [(Hw & _ & Hnear) | (Happ & _ & _)].
    + exists q. rewrite Hw. split; [exact Hbpm|].
      split; [lra|]. split; [exact Hhi|]. split; [lra|].
      intro Hm. specialize (Hsat Hm). rewrite Hread in Hnear.
      apply Qabs_Qlt_condition in Hnear. apply Qabs_Qlt_condition. split; lra.
    + exists (roundTenth x). rewrite Happ. split; [reflexivity|].
      split.
      { destruct (Q.min_spec (q + 5) (maxBPM cfg)) as [[H1 H2]|[H1 H2]]; fold x in H2.
        - lra.
        - rewrite (roundTenth_exact b x); [lra|]. rewrite H2. exact Hb. }
      split; [tauto|]. split; [lra|].
      intro Hm. specialize (Hsat Hm). apply Qabs_Qlt_condition. split; lra.
  - unfold _decreaseBPM, getBPM. rewrite Hbpm. cbn [toJSON jsonToQ].
    set (x := Qmax (q - 5) (minBPM cfg)).
    assert (Hx : minBPM cfg <= x <= maxBPM cfg).
    { unfold x. split; [apply Q.le_max_r|apply Q.max_lub; lra]. }
    assert (Hx5 : q - 5 <= x) by (unfold x; apply Q.le_max_l).
    pose proof (setBPM_in_range cfg x w Hx) as H. cbv zeta in H.
    pose proof (roundTenth_close x) as Hc. apply Qabs_Qle_condition in Hc.
    assert (Ht : minBPM cfg <= roundTenth x <= maxBPM cfg).
    { rewrite Ha, Hb. apply roundTenth_between. rewrite <- Ha, <- Hb. exact Hx. }
    assert (Hsat : q - 5 <= minBPM cfg -> roundTenth x == minBPM cfg).
    { intro Hm. assert (Hxm : x == minBPM cfg).
      { unfold x. destruct (Q.max_spec (q - 5) (minBPM cfg)) as [[H1 H2]|[H1 H2]]; lra. }
      rewrite (roundTenth_exact a x); [exact Hxm|]. rewrite Hxm. exact Ha. }
    destruct (setBPM cfg (Number (Fin x)) w) as [[ok w1] e1]. cbn [fst snd] in H |- *.
    destruct H as (_ & Herr & Hcases). split; [exact Herr|].
    destruct Hcases as [(Hw & _ & Hnear) | (Happ & _ & _)].
    + exists q. rewrite Hw. split; [exact Hbpm|].
      split; [exact Hlo|]. split; [lra|]. split; [lra|].
      intro Hm. specialize (Hsat Hm). rewrite Hread in Hnear.
      apply Qabs_Qlt_condition in Hnear. apply Qabs_Qlt_condition. split; lra.
    + exists (roundTenth x). rewrite Happ. split; [reflexivity|].
      split; [tauto|]. split.
      { destruct (Q.max_spec (q - 5) (minBPM cfg)) as [[H1 H2]|[H1 H2]]; fold x in H2.
        - rewrite (roundTenth_exact a x); [lra|]. rewrite H2. exact Ha.
        - lra. }
      split; [lra|].
      intro Hm. specialize (Hsat Hm). apply Qabs_Qlt_condition. split; lra.
Qed.

Lemma keyboard_steps_stay_in_range_witness :
  exists v, bpm (app (fst (_increaseBPM CONFIG WorldSamples.ready))) = Fin v /\ 120 <= v.
Proof.
  destruct (keyboard_steps_stay_in_range CONFIG 400 3000 120 WorldSamples.ready)
    as [(_ & v & Hv & Hq & _) _].
  - reflexivity.
  - reflexivity.
  - reflexivity.
  - split; vm_compute; discriminate.
  - exists v. split; [exact Hv|exact Hq].
Defined.

End KeyboardSteps.

(** ** The class's volume and signature setters *)

Section ClassSetters.
Import Js MetronomeClass MetronomeClassOps.

Ltac range_case :=
  repeat split; intros; try discriminate;
  repeat match goal with H : Fin _ = Fin _ |- _ => inversion H; clear H; subst end;
  try lra.

(** [Math.max(lo, Math.min(hi, x))] on a number that is not [NaN]. *)
Lemma max_min_in_range (lo hi : Q) (x : num) :
  lo <= hi -> x <> NaN ->
  exists y, max (Fin lo) (min (Fin hi) x) = Fin y /\ lo <= y <= hi /\
            (forall q, x = Fin q -> lo <= q <= hi -> y == q) /\
            (forall q, x = Fin q -> q < lo -> y == lo) /\
            (forall q, x = Fin q -> hi < q -> y == hi) /\
            (x = PosInf -> y == hi) /\ (x = NegInf -> y == lo).
Proof.
  intros Hle Hx. destruct x as [q| | |]; [|congruence| |].
  - cbn [min lt]. destruct (Qltb q hi) eqn:E1.
    + apply Qltb_lt in E1. cbn [max lt]. destruct (Qltb lo q) eqn:E2.
      * apply Qltb_lt in E2. exists q. split; [reflexivity|]. range_case.
      * apply Qltb_ge in E2. exists lo. split; [reflexivity|]. range_case.
    + apply Qltb_ge in E1. cbn [max lt]. destruct (Qltb lo hi) eqn:E2.
      * apply Qltb_lt in E2. exists hi. split; [reflexivity|]. range_case.
      * apply Qltb_ge in E2. exists lo. split; [reflexivity|]. range_case.
  - cbn [min lt max]. destruct (Qltb lo hi) eqn:E2.
    + apply Qltb_lt in E2. exists hi. split; [reflexivity|]. range_case.
    + apply Qltb_ge in E2. exists lo. split; [reflexivity|]. range_case.
  - cbn [min lt max]. exists lo. split; [reflexivity|]. range_case.
Qed.

(** X18 (Metronome.setVolume): the class stores and publishes
    [Math.max(0, Math.min(100, volume))]: for every number but [NaN] that is
    a finite value between 0 and 100, the argument itself when it is in that
    range, 0 below it and 100 above it; [NaN] is stored as it is. *)
Theorem class_setVolume_clamps :
  forall (v : num) (m : Metronome) (a : State.AppState),
    let r := setVolume v m a in
    State.volume (snd (fst r)) = volume (fst (fst r)) /\
    bpm (fst (fst r)) = bpm m /\ State.bpm (snd (fst r)) = State.bpm a /\
    (v = NaN -> volume (fst (fst r)) = NaN) /\
    (v <> NaN ->
     exists y, volume (fst (fst r)) = Fin y /\ 0 <= y <= 100 /\
               (forall q, v = Fin q -> 0 <= q <= 100 -> y == q) /\
               (forall q, v = Fin q -> q < 0 -> y == 0) /\
               (forall q, v = Fin q -> 100 < q -> y == 100) /\
               (v = PosInf -> y == 100) /\ (v = NegInf -> y == 0)).
Proof.
  intros v m a. cbv zeta. unfold setVolume. cbn [fst snd].
  split; [reflexivity|]. split; [reflexivity|]. split; [reflexivity|]. split.
  - intros ->. reflexivity.
  - intro Hv. cbn [volume set_volume].
    apply max_min_in_range; [lra|exact Hv].
Qed.

Lemma class_setVolume_clamps_witness :
  exists y, volume (fst (fst (setVolume (Fin 250) WorldSamples.instance State.state0))) = Fin y
            /\ y == 100.
Proof.
  destruct (class_setVolume_clamps (Fin 250) WorldSamples.instance State.state0)
    as (_ & _ & _ & _ & H).
  destruct H as (y & Hy & _ & _ & _ & Hhi & _); [discriminate|].
  exists y. split; [exact Hy|]. apply (Hhi 250 eq_refl). reflexivity.
Defined.

Lemma roundLog2_range (x : Q) : (0 <= roundLog2 x <= 4)%Z.
Proof.
  unfold roundLog2.
  destruct (Qltb (x * x) 2); [lia|]. destruct (Qltb (x * x) 8); [lia|].
  destruct (Qltb (x * x) 32); [lia|]. destruct (Qltb (x * x) 128); lia.
Qed.

Lemma snap_values (x : Q) :
  In (inject_Z (2 ^ roundLog2 x)) [1; 2; 4; 8; 16].
Proof.
  unfold roundLog2.
  destruct (Qltb (x * x) 2); [left; reflexivity|].
  destruct (Qltb (x * x) 8); [right; left; reflexivity|].
  destruct (Qltb (x * x) 32); [right; right; left; reflexivity|].
  destruct (Qltb (x * x) 128); [right; right; right; left; reflexivity|].
  right; right; right; right; left; reflexivity.
Qed.

(** The power of two chosen for [x] is the nearest one on the logarithmic
    scale: [p / sqrt 2 <= x < p * sqrt 2], written on the squares. *)
Lemma snap_nearest (x : Q) :
  1 <= x <= 16 ->
  let p := inject_Z (2 ^ roundLog2 x) in
  p * p <= 2 * (x * x) /\ x * x < 2 * (p * p).
Proof.
  intros [H1 H16]. cbv zeta. unfold roundLog2.
  assert (Hsq1 : 1 <= x * x) by nra.
  assert (Hsq2 : x * x <= 256) by nra.
  destruct (Qltb (x * x) 2) eqn:E2.
  { apply Qltb_lt in E2. change (inject_Z (2 ^ 0)) with 1. lra. }
  apply Qltb_ge in E2.
  destruct (Qltb (x * x) 8) eqn:E8.
  { apply Qltb_lt in E8. change (inject_Z (2 ^ 1)) with 2. lra. }
  apply Qltb_ge in E8.
  destruct (Qltb (x * x) 32) eqn:E32.
  { apply Qltb_lt in E32. change (inject_Z (2 ^ 2)) with 4. lra. }
  apply Qltb_ge in E32.
  destruct (Qltb (x * x) 128) eqn:E128.
  { apply Qltb_lt in E128. change (inject_Z (2 ^ 3)) with 8. lra. }
  apply Qltb_ge in E128. change (inject_Z (2 ^ 4)) with 16. lra.
Qed.

Lemma snap_fixed (x : Q) :
  (x == 1 \/ x == 2 \/ x == 4 \/ x == 8 \/ x == 16) -> inject_Z (2 ^ roundLog2 x) == x.
Proof.
  intro H.
  assert (Hr : 1 <= x <= 16) by (destruct H as [H|[H|[H|[H|H]]]]; rewrite H; split; lra).
  pose proof (snap_nearest x Hr) as [N1 N2]. cbv zeta in N1, N2.
  pose proof (snap_values x) as Hv.
  remember (inject_Z (2 ^ roundLog2 x)) as p eqn:Ep. clear Ep.
  assert (Hsq : forall c, x == c -> x * x == c * c) by (intros c Hc; rewrite Hc; reflexivity).
  destruct Hv as [<-|[<-|[<-|[<-|[<-|[]]]]]];
    destruct H as [H|[H|[H|[H|H]]]]; pose proof (Hsq _ H) as S; lra.
Qed.

(** The power of two chosen for [x] is within a factor 1.4143 of [x], and a
    power of two within a factor 1.4142 of [x] is the one chosen; [sqrt 2]
    lies between the two factors. *)
Lemma snap_within (x : Q) :
  1 <= x <= 16 ->
  let p := inject_Z (2 ^ roundLog2 x) in
  p < (14143 # 10000) * x /\ x < (14143 # 10000) * p /\
  (forall c, In c [1; 2; 4; 8; 16] ->
     c <= (14142 # 10000) * x -> x <= (14142 # 10000) * c -> p == c).
Proof.
  intros Hx. pose proof (snap_nearest x Hx) as [N1 N2]. cbv zeta in N1, N2 |- *.
  pose proof (snap_values x) as Hv.
  destruct Hx as [H1 H16].
  remember (inject_Z (2 ^ roundLog2 x)) as p eqn:Ep. clear Ep.
  assert (Hp : 1 <= p <= 16).
  { destruct Hv as [<-|[<-|[<-|[<-|[<-|[]]]]]]; split; lra. }
  split; [nra|]. split; [nra|].
  intros c Hc Hlo Hhi.
  assert (Hc1 : c * c < 2 * (x * x)) by nra.
  assert (Hc2 : x * x < 2 * (c * c)) by nra.
  destruct Hv as [<-|[<-|[<-|[<-|[<-|[]]]]]];
    destruct Hc as [<-|[<-|[<-|[<-|[<-|[]]]]]]; try reflexivity; exfalso; lra.
Qed.

(** X19 (Metronome.setTimeSignature): the class clamps the numerator to
    [1, 16] and snaps the denominator to a power of two: for every
    denominator but [NaN] the stored denominator [p] is one of 1, 2, 4, 8, 16
    and lies within a factor 1.4143 of the denominator [x] clamped to
    [1, 16]; a power of two within a factor 1.4142 of [x] is the one stored
    (between the two factors, next to [sqrt 2], the choice rests on the
    rounding of [Math.log2] and is left open), and one of those five values
    is stored unchanged; for every numerator but [NaN] the stored numerator
    lies in [1, 16] and equals the argument when that is in range.  The state
    receives the same two values and keeps its position and tempo; [NaN] is
    stored as it is. *)
Theorem class_setTimeSignature_snaps :
  forall (n d : num) (m : Metronome) (a : State.AppState),
    let r := setTimeSignature n d m a in
    let m' := fst (fst r) in
    let a' := snd (fst r) in
    State.beatNumerator a' = beatNumerator m' /\
    State.beatDenominator a' = beatDenominator m' /\
    State.currentBeat a' = State.currentBeat a /\ State.currentBar a' = State.currentBar a /\
    State.bpm a' = State.bpm a /\ bpm m' = bpm m /\
    (n = NaN -> beatNumerator m' = NaN) /\
    (d = NaN -> beatDenominator m' = NaN) /\
    (n <> NaN ->
     exists y, beatNumerator m' = Fin y /\ 1 <= y <= 16 /\
               (forall q, n = Fin q -> 1 <= q <= 16 -> y == q)) /\
    (d <> NaN ->
     exists p x, beatDenominator m' = Fin p /\
                 In p (Config.validDenominators Config.CONFIG) /\
                 max (Fin 1) (min (Fin 16) d) = Fin x /\
                 p < (14143 # 10000) * x /\ x < (14143 # 10000) * p /\
                 (forall c, In c (Config.validDenominators Config.CONFIG) ->
                    c <= (14142 # 10000) * x -> x <= (14142 # 10000) * c -> p == c) /\
                 (forall q, d = Fin q -> In q (Config.validDenominators Config.CONFIG) -> p == q)).
Proof.
  intros n d m a. cbv zeta. unfold setTimeSignature. cbn [fst snd].
  do 6 (split; [reflexivity|]).
  split; [intros ->; reflexivity|]. split; [intros ->; reflexivity|]. split.
  - intro Hn. cbn [beatNumerator set_signature].
    destruct (max_min_in_range 1 16 n) as (y & Hy & Hr & Hin & _); [lra|exact Hn|].
    exists y. split; [exact Hy|]. split; [exact Hr|exact Hin].
  - intro Hd. cbn [beatDenominator set_signature]. unfold snapDenominator.
    destruct (max_min_in_range 1 16 d) as (x & Hx & Hr & Hin & _); [lra|exact Hd|].
    rewrite Hx. exists (inject_Z (2 ^ roundLog2 x)), x.
    split; [reflexivity|]. split; [apply snap_values|]. split; [reflexivity|].
    pose proof (snap_within x Hr) as (W1 & W2 & W3). cbv zeta in W1, W2, W3.
    split; [exact W1|]. split; [exact W2|]. split; [exact W3|].
    intros q Hq Hval.
    assert (Hq' : q == 1 \/ q == 2 \/ q == 4 \/ q == 8 \/ q == 16).
    { cbn in Hval. destruct Hval as [<-|[<-|[<-|[<-|[<-|[]]]]]];
        [left|right; left|right; right; left|right; right; right; left|
         right; right; right; right]; reflexivity. }
    assert (Hxq : x == q).
    { apply (Hin q Hq). destruct Hq' as [H|[H|[H|[H|H]]]]; rewrite H; split; lra. }
    assert (Hx' : x == 1 \/ x == 2 \/ x == 4 \/ x == 8 \/ x == 16).
    { destruct Hq' as [H|[H|[H|[H|H]]]]; rewrite Hxq, H;
        [left|right; left|right; right; left|right; right; right; left|
         right; right; right; right]; reflexivity. }
    rewrite (snap_fixed x Hx'). exact Hxq.
Qed.

Lemma class_setTimeSignature_snaps_witness :
  exists p, beatDenominator (fst (fst (setTimeSignature (Fin 7) (Fin 3) WorldSamples.instance
                                          State.state0))) = Fin p
            /\ p == 4.
Proof.
  destruct (class_setTimeSignature_snaps (Fin 7) (Fin 3) WorldSamples.instance State.state0)
    as (_ & _ & _ & _ & _ & _ & _ & _ & _ & H).
  destruct H as (p & x & Hp & _ & Hx & _ & _ & Hnear & _); [discriminate|].
  exists p. split; [exact Hp|].
  vm_compute in Hx. inversion Hx; subst x.
  apply Hnear; [right; right; left; reflexivity|vm_compute; discriminate|vm_compute; discriminate].
Defined.

End ClassSetters.

(** ** The sound module: envelope timing and buffer contents *)

Section SoundEnvelope.
Import SoundBuffers SoundBuffersOps.

Lemma getActualSoundDuration_range (soundType : string) :
  (1 # 100) <= getActualSoundDuration soundType <= (5 # 100).
Proof.
  unfold getActualSoundDuration.
  repeat match goal with |- context [String.eqb ?a ?b] => destruct (String.eqb a b) end;
    split; lra.
Qed.

(** X20 (playSoundInternal, getActualSoundDuration): every sound that is
    started gets the four-point envelope: silence at the start time, a linear
    fade-in to the peak, the peak held until the fade-out begins, and a
    linear fade-out that reaches 0 exactly [actualDuration] after the start.
    The four times increase strictly, the fade-in lasts at most 2 ms and the
    fade-out at most 3 ms; the branch that scales the fades and the branch
    for sounds too short to sustain are never taken for the durations
    [getActualSoundDuration] returns (10 ms to 50 ms).  The delay given to the
    clean-up timer is 100 ms: the other argument of its [Math.max],
    [actualDuration * 1000 + 50], never exceeds 100 for these durations.  (The
    timer runs from the call; nothing is said about a start time later than
    the call.) *)
Theorem envelope_has_four_points :
  forall (cfg : SoundConfig) (st : SoundState) (ctx : Sched.AudioContext)
         (o : Options) (voice : Voice) (es : list Effect),
    playSoundInternal cfg st (Some ctx) (Some o) = (Some voice, es) ->
    let D := getActualSoundDuration (soundType voice) in
    (1 # 100) <= D <= (5 # 100) /\
    exists peak t1 t2 t3,
      envelope voice =
        [SetValueAtTime 0 (startTime voice); LinearRampToValueAtTime peak t1;
         SetValueAtTime peak t2; LinearRampToValueAtTime 0 t3] /\
      startTime voice < t1 /\ t1 < t2 /\ t2 < t3 /\
      t1 - startTime voice <= 2 # 1000 /\
      t3 - t2 <= 3 # 1000 /\
      t3 == startTime voice + D /\
      cleanupDelay voice == 100 /\
      D * 1000 + 50 <= cleanupDelay voice.
Proof.
  intros cfg st ctx o voice es. unfold playSoundInternal.
  destruct (initialized st); cbn [negb]; [|intro H; discriminate H].
  set (sound := if firstBeat o then orName (firstBeatSound cfg) "high"
                else orName (regularBeatSound cfg) "medium").
  destruct (hasBuffer st sound); cbn [negb]; [|intro H; discriminate H].
  pose proof (getActualSoundDuration_range sound) as [Dlo Dhi].
  set (D := getActualSoundDuration sound) in *.
  set (fi := Qmin 0.002 (D * 0.1)).
  set (fo := Qmin 0.003 (D * 0.15)).
  assert (Hfi : (1 # 1000) <= fi <= (2 # 1000)).
  { unfold fi. split; [apply Q.min_glb; lra|].
    eapply Qle_trans; [apply Q.le_min_l|lra]. }
  assert (Hfo : (15 # 10000) <= fo <= (3 # 1000)).
  { unfold fo. split; [apply Q.min_glb; lra|].
    eapply Qle_trans; [apply Q.le_min_l|lra]. }
  assert (Hscaled : Qltb (D * 0.8) (fi + fo) = false) by (apply Qltb_ge; lra).
  rewrite Hscaled.
  set (sustain := Qmax 0 (D - fi - fo)).
  assert (Hsus : sustain == D - fi - fo).
  { unfold sustain. apply Q.max_r. lra. }
  assert (Hlong : Qltb 0.001 sustain = true) by (apply Qltb_lt; rewrite Hsus; lra).
  rewrite Hlong.
  assert (Hclean : Qmax 100 (D * 1000 + 50) == 100) by (apply Q.max_l; lra).
  intro H. inversion H; subst voice es; clear H.
  cbn [soundType startTime envelope cleanupDelay]. fold D.
  split; [split; assumption|].
  eexists _, _, _, _. split; [reflexivity|].
  rewrite Hclean, Hsus. repeat split; lra.
Qed.

Lemma envelope_has_four_points_witness :
  let r := playSoundInternal SOUNDS WorldSamples.sounds (Some (Sched.mkContext Sched.Running 5))
             (Some (mkOptions true (Some 6) (Some (1 # 2)))) in
  exists voice, fst r = Some voice /\ cleanupDelay voice == 100.
Proof.
  cbv zeta.
  destruct (playSoundInternal SOUNDS WorldSamples.sounds (Some (Sched.mkContext Sched.Running 5))
              (Some (mkOptions true (Some 6) (Some (1 # 2))))) as [[voice|] es] eqn:E.
  - exists voice. split; [reflexivity|].
    destruct (envelope_has_four_points _ _ _ _ _ _ E)
      as (_ & peak & t1 & t2 & t3 & _ & _ & _ & _ & _ & _ & _ & Hc & _).
    exact Hc.
  - vm_compute in E. discriminate E.
Defined.

Lemma sanitizeSample_range (x : Js.num) :
  exists y, sanitizeSample x = Js.Fin y /\ -1 <= y <= 1 /\
            (forall q, x = Js.Fin q -> -1 <= q <= 1 -> y == q) /\
            (forall q, x = Js.Fin q -> 1 < q -> y == 1) /\
            (forall q, x = Js.Fin q -> q < -1 -> y == -1) /\
            (x = Js.NaN \/ x = Js.PosInf \/ x = Js.NegInf -> y == 0).
Proof.
  unfold sanitizeSample.
  destruct x as [q| | |].
  - destruct (max_min_in_range (-1) 1 (Js.Fin q)) as (y & Hy & Hr & H1 & H2 & H3 & _);
      [lra|discriminate|].
    cbv zeta. rewrite Hy.
    exists y. split; [reflexivity|]. split; [exact Hr|].
    split; [exact H1|]. split; [exact H3|]. split; [exact H2|].
    intros [H|[H|H]]; discriminate H.
  - exists 0. split; [reflexivity|]. split; [lra|].
    repeat split; intros; try discriminate; reflexivity.
  - exists 0. split; [reflexivity|]. split; [lra|].
    repeat split; intros; try discriminate; reflexivity.
  - exists 0. split; [reflexivity|]. split; [lra|].
    repeat split; intros; try discriminate; reflexivity.
Qed.

(** X21 (createSoundBuffer): the buffer size that is used is a finite number
    between 512 and 16384 whatever the configured value is, 4096 when none is
    configured; after the integrity pass every sample of the buffer is a
    finite number between -1 and 1: a [NaN] or an infinity written by the
    generator has become 0, a value beyond the limits has become the limit,
    a value inside them is kept, and a generator that throws leaves silence. *)
Theorem buffer_is_sanitised :
  forall (configured : Js.num) (size : nat) (generator : option (nat -> Js.num)),
    (exists b, bufferSizeFor configured = Js.Fin b /\ 512 <= b <= 16384) /\
    bufferSizeFor Js.NaN = Js.Fin 4096 /\
    length (bufferData size generator) = size /\
    Forall (fun x => exists y, x = Js.Fin y /\ -1 <= y <= 1) (bufferData size generator) /\
    (forall g i q, generator = Some g -> (i < size)%nat -> g i = Js.Fin q -> -1 <= q <= 1 ->
       exists y, nth i (bufferData size generator) Js.NaN = Js.Fin y /\ y == q) /\
    (forall g i, generator = Some g -> (i < size)%nat ->
       g i = Js.NaN \/ g i = Js.PosInf \/ g i = Js.NegInf ->
       nth i (bufferData size generator) Js.NaN = Js.Fin 0) /\
    (generator = None -> bufferData size generator = repeat (Js.Fin 0) size).
Proof.
  intros configured size generator.
  split.
  { unfold bufferSizeFor.
    match goal with |- context [Js.round ?x] =>
      destruct (max_min_in_range 512 16384 (Js.round x)) as (b & Hb & Hr & _) end.
    - lra.
    - destruct configured as [q| | |]; try discriminate.
      destruct (Qeq_bool q 0); discriminate.
    - exists b. split; assumption. }
  split; [reflexivity|].
  split.
  { unfold bufferData. destruct generator; rewrite length_map, length_seq; reflexivity. }
  split.
  { unfold bufferData. destruct generator as [g|]; apply Forall_map, Forall_forall; intros i _.
    - destruct (sanitizeSample_range (g i)) as (y & Hy & Hr & _).
      exists y. split; assumption.
    - exists 0. split; [reflexivity|lra]. }
  split.
  { intros g i q -> Hi Hg Hq. unfold bufferData.
    rewrite (nth_indep _ Js.NaN (sanitizeSample (g 0%nat)))
      by (rewrite length_map, length_seq; exact Hi).
    rewrite (map_nth (fun i => sanitizeSample (g i)) (seq 0 size) 0%nat i).
    rewrite seq_nth by exact Hi. cbn [Nat.add].
    destruct (sanitizeSample_range (g i)) as (y & Hy & _ & Hin & _).
    exists y. split; [exact Hy|]. exact (Hin q Hg Hq). }
  split.
  { intros g i -> Hi Hg. unfold bufferData.
    rewrite (nth_indep _ Js.NaN (sanitizeSample (g 0%nat)))
      by (rewrite length_map, length_seq; exact Hi).
    rewrite (map_nth (fun i => sanitizeSample (g i)) (seq 0 size) 0%nat i).
    rewrite seq_nth by exact Hi. cbn [Nat.add].
    destruct Hg as [-> | [-> | ->]]; reflexivity. }
  intros ->. unfold bufferData. generalize 0%nat.
  induction size as [|size IH]; intro k; [reflexivity|].
  cbn [seq map repeat]. rewrite IH. reflexivity.
Qed.

Lemma buffer_is_sanitised_witness :
  nth 1 (bufferData 3 (Some (fun i => if Nat.eqb i 1 then Js.PosInf else Js.Fin 2))) Js.NaN
  = Js.Fin 0.
Proof.
  destruct (buffer_is_sanitised Js.NaN 3
              (Some (fun i => if Nat.eqb i 1 then Js.PosInf else Js.Fin 2)))
    as (_ & _ & _ & _ & _ & H & _).
  apply (H _ 1%nat eq_refl).
  - lia.
  - right. left. reflexivity.
Defined.

End SoundEnvelope.

(** ** From a tick to the sound requests *)

Section TickPipeline.
Import Js State Metronome Pipeline Application.

Lemma soundRequests_app (a b : list Effect) :
  soundRequests (a ++ b) = (soundRequests a ++ soundRequests b)%list.
Proof.
  induction a as [|e a IH]; [reflexivity|].
  destruct e; simpl; rewrite ?IH; reflexivity.
Qed.

(** Effects that are neither a beat handed to the callback nor a call of
    [playSound]. *)
Lemma quiet_effects (es : list Effect) :
  Forall (fun e => match e with Dispatch _ _ | PlaySound _ _ _ => False | _ => True end) es ->
  soundRequests es = [] /\ dispatched es = [].
Proof.
  induction 1 as [|e es He _ [IH1 IH2]]; [split; reflexivity|].
  destruct e; cbn [soundRequests dispatched]; try contradiction; split; assumption.
Qed.

Ltac quiet := repeat first [ apply Forall_nil | apply Forall_cons; [exact I|]
                           | apply Forall_app; split ].

Lemma stop_quiet (s : Sched.Scheduler) :
  Forall (fun e => match e with Dispatch _ _ | PlaySound _ _ _ => False | _ => True end)
    (snd (Sched.stop s)).
Proof.
  unfold Sched.stop. destruct (Sched.timerID _), (Sched.recoveryTimeout _); cbn; quiet.
Qed.

(** A call made by a listener plays nothing, hands no beat out, and leaves
    the volume and the beat count alone. *)
Lemma listenerCall_spec (cfg : Config.Config) (now_ms : Z) (call : ListenerCall) (w : World) :
  let r := listenerCall cfg now_ms call w in
  soundRequests (snd r) = [] /\ dispatched (snd r) = [] /\
  volume (app (fst r)) = volume (app w) /\
  totalBeats (metro (fst r)) = totalBeats (metro w).
Proof.
  cbv zeta. destruct call as [v|n d|]; cbn [listenerCall].
  - unfold setBPM. destruct v as [x|]; [|cbn; repeat split].
    destruct (_ || _); [cbn; repeat split|].
    destruct (lt _ _); [cbn; repeat split|].
    destruct (isRunning (app w)); [|cbn; repeat split].
    unfold Sched.updateInterval. cbn [sched with_app].
    destruct (Sched.audioContext (sched w)); cbn; repeat split.
  - unfold setTimeSignature. destruct n as [x|]; [|cbn; repeat split].
    destruct (_ || _); [cbn; repeat split|].
    destruct (negb _); [cbn; repeat split|].
    destruct d as [y|]; [|cbn; repeat split].
    destruct (_ && _); [cbn; repeat split|].
    destruct (isRunning (app w)); [|cbn; repeat split].
    unfold Sched.updateInterval. cbn [sched with_app].
    destruct (Sched.audioContext (sched w)); cbn; repeat split.
  - unfold stopMetronome. destruct (negb _); [cbn; repeat split|].
    pose proof (stop_quiet (sched w)) as Hq.
    destruct (Sched.stop (sched w)) as [s' es]. cbn [fst snd] in Hq |- *.
    destruct (quiet_effects es Hq) as [Q1 Q2].
    rewrite soundRequests_app, dispatched_app, Q1, Q2.
    split; [reflexivity|]. split; [reflexivity|]. split; [reflexivity|].
    destruct (0 <? _)%Z; reflexivity.
Qed.

Lemma listenerCalls_spec (cfg : Config.Config) (now_ms : Z) :
  forall (calls : list ListenerCall) (w : World),
    let r := listenerCalls cfg now_ms calls w in
    soundRequests (snd r) = [] /\ dispatched (snd r) = [] /\
    volume (app (fst r)) = volume (app w) /\
    totalBeats (metro (fst r)) = totalBeats (metro w).
Proof.
  induction calls as [|call calls IH]; intro w; cbv zeta.
  - cbn. repeat split.
  - cbn [listenerCalls].
    pose proof (listenerCall_spec cfg now_ms call w) as H1. cbv zeta in H1.
    destruct (listenerCall cfg now_ms call w) as [w1 e1]. cbn [fst snd] in H1.
    specialize (IH w1). cbv zeta in IH.
    destruct (listenerCalls cfg now_ms calls w1) as [w2 e2]. cbn [fst snd] in IH |- *.
    destruct H1 as (A1 & A2 & A3 & A4). destruct IH as (B1 & B2 & B3 & B4).
    rewrite soundRequests_app, dispatched_app, A1, A2, B1, B2.
    split; [reflexivity|]. split; [reflexivity|]. split; congruence.
Qed.


Lemma dispatchBeat_piped (cfg : Config.Config) (now_ms : Z) (listeners : Listeners)
    (iv : Q) (N : Z) (now : Q) (w : World) :
  piped w (dispatchBeat cfg now_ms listeners iv N now w) /\
  (length (dispatched (snd (fst (dispatchBeat cfg now_ms listeners iv N now w)))) <= 1)%nat.
Proof.
  unfold piped, dispatchBeat.
  change (Sched.schedulerCallback (Sched.countScheduled now (sched w)))
    with (Sched.schedulerCallback (sched w)).
  destruct (Sched.schedulerCallback (sched w)) as [cb|].
  2:{ cbn. repeat split; lia. }
  unfold beatCallback, scheduleBeat. cbv zeta.
  match goal with |- context [listenerCalls cfg now_ms ?c ?x] =>
    pose proof (listenerCalls_spec cfg now_ms c x) as L; cbv zeta in L;
    destruct (listenerCalls cfg now_ms c x) as [w2 e2] end.
  cbn [fst snd] in L. destruct L as (L1 & L2 & L3 & L4).
  cbn [fst snd soundRequests dispatched List.app app with_app with_sched with_metro metro
       volume update_position totalBeats] in *.
  rewrite L1, L2, L3, L4. cbn [List.app map length].
  split; [|lia]. split; [reflexivity|]. split; [reflexivity|]. lia.
Qed.

Lemma beatLoop_cons (cfg : Config.Config) (now_ms : Z) (fuel : nat) (listeners : Listeners)
    (iv : Q) (N : Z) (now : Q) (w : World) :
  beatLoop cfg now_ms (S fuel) listeners iv N now w =
    if Qltb (Sched.nextBeatTime (sched w)) (now + Sched.scheduleAheadTime) then
      let d := dispatchBeat cfg now_ms listeners iv N now w in
      let l := beatLoop cfg now_ms fuel (snd d) iv N now (fst (fst d)) in
      (fst (fst l), (snd (fst d) ++ snd (fst l))%list, snd l)
    else (w, [], listeners).
Proof.
  cbn [beatLoop]. destruct (Qltb _ _); [|reflexivity].
  destruct (dispatchBeat cfg now_ms listeners iv N now w) as [[w1 e1] rest]. cbn [fst snd].
  destruct (beatLoop cfg now_ms fuel rest iv N now w1) as [[w2 e2] rest2]. reflexivity.
Qed.

Lemma beatLoop_piped (cfg : Config.Config) (now_ms : Z) (iv : Q) (N : Z) (now : Q) :
  forall (fuel : nat) (listeners : Listeners) (w : World),
    piped w (beatLoop cfg now_ms fuel listeners iv N now w) /\
    (length (dispatched (snd (fst (beatLoop cfg now_ms fuel listeners iv N now w)))) <= fuel)%nat.
Proof.
  induction fuel as [|fuel IH]; intros listeners w.
  - unfold piped. cbn. repeat split; lia.
  - rewrite beatLoop_cons. destruct (Qltb _ _); [|unfold piped; cbn; repeat split; lia].
    cbv zeta.
    destruct (dispatchBeat_piped cfg now_ms listeners iv N now w) as [(D1 & D2 & D3) D4].
    destruct (IH (snd (dispatchBeat cfg now_ms listeners iv N now w))
                 (fst (fst (dispatchBeat cfg now_ms listeners iv N now w))))
      as [(I1 & I2 & I3) I4].
    unfold piped. cbn [fst snd].
    rewrite soundRequests_app, dispatched_app, map_app, length_app, D1, I1, I2, I3, !D2, D3.
    split; [|lia]. split; [reflexivity|]. split; [reflexivity|]. lia.
Qed.

Lemma tick_piped (cfg : Config.Config) (now_ms : Z) (listeners : Listeners) (w : World) :
  match tick cfg now_ms listeners w with
  | Some r =>
      piped w r /\
      (length (dispatched (snd (fst r))) <= Sched.maxSchedulesPerIteration)%nat
  | None => True
  end.
Proof.
  unfold tick.
  destruct (negb _); [unfold piped; cbn; repeat split; lia|].
  destruct (Trace.throttled _ _); [unfold piped; cbn; repeat split; lia|].
  cbv zeta.
  assert (Hstop : forall x : Sched.Scheduler,
             match (let '(s1, e1) := Sched.stop x in
                    Some (with_sched s1 w, HandleAudioError "audio context closed" :: e1,
                          listeners)) with
             | Some r =>
                 piped w r /\
                 (length (dispatched (snd (fst r))) <= Sched.maxSchedulesPerIteration)%nat
             | None => True
             end).
  { intro x. pose proof (stop_quiet x) as Hq. destruct (Sched.stop x) as [s1 e1].
    cbn [fst snd] in Hq. destruct (quiet_effects e1 Hq) as [Q1 Q2].
    unfold piped. cbn [fst snd soundRequests dispatched]. rewrite Q1, Q2.
    cbn. repeat split; lia. }
  destruct (Sched.audioContext _) as [ctx|]; [|apply Hstop].
  destruct (Sched.ctx_state ctx); [|unfold piped; cbn; repeat split; lia|apply Hstop].
  destruct (_ && _); [exact I|].
  match goal with |- context [beatLoop cfg now_ms ?f ?l ?i ?n ?t ?x] =>
    destruct (beatLoop_piped cfg now_ms i n t f l x) as [(B1 & B2 & B3) B4];
    destruct (beatLoop cfg now_ms f l i n t x) as [[w1 e1] rest] end.
  cbn [fst snd app with_sched metro] in B1, B2, B3, B4.
  destruct (Sched.isRunning (sched w1)); unfold piped; cbn [fst snd app with_sched metro].
  - rewrite soundRequests_app, dispatched_app. cbn [soundRequests dispatched].
    rewrite !app_nil_r. repeat split; assumption.
  - repeat split; assumption.
Qed.

Lemma last_app_cons {A : Type} (l1 : list A) (x : A) (l2 : list A) (d : A) :
  last (l1 ++ x :: l2) d = last (x :: l2) d.
Proof.
  induction l1 as [|y l1 IH]; [reflexivity|].
  cbn [List.app]. rewrite <- IH. destruct (l1 ++ x :: l2) eqn:E; [|reflexivity].
  destruct l1; discriminate E.
Qed.

Lemma dispatchBeat_undisturbed (cfg : Config.Config) (now_ms : Z) (iv : Q) (N : Z) (now : Q)
    (w : World) :
  undisturbed w (dispatchBeat cfg now_ms [] iv N now w).
Proof.
  unfold undisturbed, dispatchBeat. cbv zeta.
  change (Sched.schedulerCallback (Sched.countScheduled now (sched w)))
    with (Sched.schedulerCallback (sched w)).
  destruct (Sched.schedulerCallback (sched w)) as [cb|]; cbn; repeat split.
Qed.

Lemma beatLoop_undisturbed (cfg : Config.Config) (now_ms : Z) (iv : Q) (N : Z) (now : Q) :
  forall (fuel : nat) (w : World),
    undisturbed w (beatLoop cfg now_ms fuel [] iv N now w).
Proof.
  induction fuel as [|fuel IH]; intro w.
  - unfold undisturbed. cbn. repeat split.
  - rewrite beatLoop_cons. destruct (Qltb _ _); [|unfold undisturbed; cbn; repeat split].
    cbv zeta.
    destruct (dispatchBeat_undisturbed cfg now_ms iv N now w) as (D0 & D1 & D2 & D3 & D4 & D5).
    cbv zeta in D0, D1, D2, D3, D4, D5. rewrite D0.
    destruct (IH (fst (fst (dispatchBeat cfg now_ms [] iv N now w))))
      as (I0 & I1 & I2 & I3 & I4 & I5).
    cbv zeta in I0, I1, I2, I3, I4, I5.
    unfold undisturbed. cbv zeta. cbn [fst snd].
    split; [exact I0|]. split; [congruence|]. split; [congruence|].
    split; [congruence|]. split; [congruence|].
    rewrite I5, dispatched_app.
    destruct (dispatched (snd (fst (beatLoop cfg now_ms fuel [] iv N now _)))) as [|b2 l2] eqn:E2.
    + rewrite app_nil_r. exact D5.
    + destruct (dispatched (snd (fst (dispatchBeat cfg now_ms [] iv N now w)))) as [|b1 l1].
      * reflexivity.
      * rewrite last_app_cons. reflexivity.
Qed.

Lemma tick_undisturbed (cfg : Config.Config) (now_ms : Z) (w : World) :
  match tick cfg now_ms [] w with
  | Some r => undisturbed w r
  | None => True
  end.
Proof.
  unfold tick.
  destruct (negb _); [unfold undisturbed; cbn; repeat split|].
  destruct (Trace.throttled _ _); [unfold undisturbed; cbn; repeat split|].
  cbv zeta.
  assert (Hstop : forall x : Sched.Scheduler,
             match (let '(s1, e1) := Sched.stop x in
                    Some (with_sched s1 w, HandleAudioError "audio context closed" :: e1,
                          @nil (list ListenerCall))) with
             | Some r => undisturbed w r
             | None => True
             end).
  { intro x. pose proof (stop_quiet x) as Hq. destruct (Sched.stop x) as [s1 e1].
    cbn [fst snd] in Hq. destruct (quiet_effects e1 Hq) as [_ Q2].
    unfold undisturbed. cbn [fst snd dispatched]. rewrite Q2. cbn. repeat split. }
  destruct (Sched.audioContext _) as [ctx|]; [|apply Hstop].
  destruct (Sched.ctx_state ctx); [|unfold undisturbed; cbn; repeat split|apply Hstop].
  destruct (_ && _); [exact I|].
  match goal with |- context [beatLoop cfg now_ms ?f [] ?i ?n ?t ?x] =>
    pose proof (beatLoop_undisturbed cfg now_ms i n t f x) as B;
    destruct (beatLoop cfg now_ms f [] i n t x) as [[w1 e1] rest] end.
  unfold undisturbed in B. cbv zeta in B.
  cbn [fst snd app with_sched] in B.
  destruct (Sched.isRunning (sched w1)); unfold undisturbed; cbv zeta;
    cbn [fst snd app with_sched].
  - rewrite dispatched_app. cbn [dispatched]. rewrite app_nil_r. exact B.
  - exact B.
Qed.

Lemma dispatchBeat_alone (cfg : Config.Config) (now_ms : Z) (iv : Q) (N : Z) (now : Q)
    (w : World) :
  callbackReturns (sched w) ->
  let a := Application.dispatchBeat cfg now_ms [] iv N now w in
  let d := Sched.dispatchBeat iv N now (sched w) in
  sched (fst (fst a)) = fst (fst d) /\ dispatched (snd (fst a)) = dispatched (snd (fst d)) /\
  snd d = false /\ callbackReturns (fst (fst d)).
Proof.
  intro Hret. cbv zeta. unfold Application.dispatchBeat, Sched.dispatchBeat.
  change (Sched.schedulerCallback (Sched.countScheduled now (sched w)))
    with (Sched.schedulerCallback (sched w)).
  destruct (Sched.schedulerCallback (sched w)) as [cb|] eqn:Ecb.
  - cbn [fst snd]. rewrite (Hret cb Ecb). cbn.
    repeat split. intros cb' H. apply (Hret cb'). exact H.
  - cbn. repeat split. intros cb' H. cbn in H. rewrite Ecb in H. discriminate H.
Qed.

Lemma beatLoop_alone (cfg : Config.Config) (now_ms : Z) (iv : Q) (N : Z) (now : Q) :
  forall (fuel : nat) (w : World),
    callbackReturns (sched w) ->
    let a := Application.beatLoop cfg now_ms fuel [] iv N now w in
    let l := Sched.beatLoop fuel iv N now (sched w) in
    sched (fst (fst a)) = fst (fst l) /\ dispatched (snd (fst a)) = dispatched (snd (fst l)) /\
    snd l = false.
Proof.
  induction fuel as [|fuel IH]; intros w Hret; cbv zeta.
  - cbn. repeat split.
  - rewrite beatLoop_cons, beatLoop_step.
    destruct (Qltb _ _); [|cbn; repeat split]. cbv zeta.
    destruct (dispatchBeat_alone cfg now_ms iv N now w Hret) as (D1 & D2 & D3 & D4).
    cbv zeta in D1, D2, D3, D4. rewrite D3.
    assert (Hrest : snd (Application.dispatchBeat cfg now_ms [] iv N now w) = [])
      by apply dispatchBeat_undisturbed.
    rewrite Hrest.
    rewrite <- D1 in D4 |- *.
    destruct (IH _ D4) as (I1 & I2 & I3). cbv zeta in I1, I2, I3.
    cbn [fst snd]. rewrite !dispatched_app, D2, I2. repeat split; assumption.
Qed.

(** With no listener calling back, the tick of the application is the
    [schedulerLoop] of the scheduler object. *)
Lemma tick_alone (cfg : Config.Config) (now_ms : Z) (w : World) :
  callbackReturns (sched w) ->
  let l := Sched.schedulerLoop (tickEnv now_ms w) (sched w) in
  match Application.tick cfg now_ms [] w with
  | Some a => sched (fst (fst a)) = fst l /\ dispatched (snd (fst a)) = dispatched (snd l)
  | None => True
  end.
Proof.
  intro Hret. cbv zeta. unfold Application.tick, Sched.schedulerLoop.
  destruct (negb _); [split; reflexivity|].
  fold (Trace.throttled (tickEnv now_ms w) (sched w)).
  destruct (Trace.throttled _ _); [split; reflexivity|]. cbv zeta.
  change (Sched.dateNow (tickEnv now_ms w)) with now_ms.
  destruct (Sched.audioContext _) as [ctx|]; [|destruct (Sched.stop _); split; reflexivity].
  destruct (Sched.ctx_state ctx);
    [|split; reflexivity|destruct (Sched.stop _); split; reflexivity].
  destruct (_ && _); [exact I|].
  match goal with |- context [Application.beatLoop cfg now_ms ?f [] ?i ?n ?t ?x] =>
    pose proof (beatLoop_alone cfg now_ms i n t f x Hret) as B; cbv zeta in B;
    destruct (Application.beatLoop cfg now_ms f [] i n t x) as [[w1 e1] rest] end.
  cbn [fst snd sched with_sched] in B.
  destruct (Sched.beatLoop _ _ _ _ _) as [[s1 e1'] ret]. cbn [fst snd] in B.
  destruct B as (B1 & B2 & B3). subst ret. rewrite B1.
  destruct (Sched.isRunning s1); cbn [fst snd sched with_sched].
  - rewrite !dispatched_app, B2. split; reflexivity.
  - split; [exact B1|exact B2].
Qed.

Lemma readable_positive (a : AppState) (q : Q) (n : Z) :
  bpm a = Fin q -> 0 < q -> beatNumerator a = Fin (inject_Z n) -> (1 <= n)%Z ->
  readable a = true.
Proof.
  intros Hb Hq Hn Hn1. unfold readable. rewrite Hb, Hn.
  assert (E1 : Qeq_bool q 0 = false).
  { destruct (Qeq_bool q 0) eqn:E; [|reflexivity].
    apply Qeq_bool_iff in E. rewrite E in Hq. exfalso. exact (Qlt_irrefl 0 Hq). }
  assert (E2 : Qeq_bool (inject_Z (Qfloor (inject_Z n))) (inject_Z n) = true).
  { apply Qeq_bool_iff. rewrite Qfloor_Z. reflexivity. }
  assert (E3 : Qeq_bool (inject_Z n) 0 = false).
  { destruct (Qeq_bool (inject_Z n) 0) eqn:E; [|reflexivity].
    apply Qeq_bool_iff in E. unfold Qeq in E. cbn in E. lia. }
  rewrite E1, E2, E3. reflexivity.
Qed.

(** On a readable state the tick has a result. *)
Lemma tick_returns (cfg : Config.Config) (now_ms : Z) (listeners : Listeners) (w : World) :
  readable (app w) = true -> exists r, tick cfg now_ms listeners w = Some r.
Proof.
  intro H. unfold tick.
  destruct (negb (Sched.isRunning _)); [eexists; reflexivity|].
  destruct (Trace.throttled _ _); [eexists; reflexivity|]. cbv zeta.
  destruct (Sched.audioContext _) as [ctx|];
    [|destruct (Sched.stop _); eexists; reflexivity].
  destruct (Sched.ctx_state ctx);
    [|eexists; reflexivity|destruct (Sched.stop _); eexists; reflexivity].
  rewrite H. cbn [negb]. rewrite andb_false_r.
  destruct (beatLoop _ _ _ _ _ _ _ _) as [[w1 e1] rest].
  destruct (Sched.isRunning (sched w1)); eexists; reflexivity.
Qed.

(** X22 (schedulerLoop, scheduleBeat): inside the application, at a finite
    positive tempo and a whole numerator of at least 1, a tick has a result
    and asks [playSound] for exactly the beats it hands to [scheduleBeat], in
    the same order: one request per beat, at the beat's timestamp, with the
    volume stored when the tick began divided by 100, marked as first beat
    exactly when the beat number is 1; at most 20 of them.  This holds
    whatever the listeners of ['metronome:beat'] call from inside the loop
    ([setBPM], [setTimeSignature], [stopMetronome]): none of these calls
    plays a sound or changes the volume.  The tick adds the number of beats
    to [totalBeats].  When no listener calls back, the tick also leaves the
    running flag, the tempo and the signature of the state as they are, the
    stored [currentBeat] is the number of the last beat handed out, and the
    scheduler and the beats are those of [schedulerLoop] on the scheduler
    object alone. *)
Theorem tick_plays_every_dispatched_beat :
  forall (cfg : Config.Config) (now_ms : Z) (listeners : Listeners) (w : World) (q : Q) (n : Z),
    bpm (app w) = Fin q -> 0 < q ->
    beatNumerator (app w) = Fin (inject_Z n) -> (1 <= n)%Z ->
    exists r,
      tick cfg now_ms listeners w = Some r /\
      let w' := fst (fst r) in
      let beats := dispatched (snd (fst r)) in
      soundRequests (snd (fst r)) = map (requestFor (volume (app w))) beats /\
      map (fun x => snd (fst x)) (soundRequests (snd (fst r))) = map fst beats /\
      (length beats <= 20)%nat /\
      volume (app w') = volume (app w) /\
      totalBeats (metro w') = (totalBeats (metro w) + Z.of_nat (length beats))%Z /\
      (listeners = [] ->
       isRunning (app w') = isRunning (app w) /\ bpm (app w') = bpm (app w) /\
       beatNumerator (app w') = beatNumerator (app w) /\
       beatDenominator (app w') = beatDenominator (app w) /\
       (beats <> [] -> currentBeat (app w') = Fin (inject_Z (snd (last beats (0, 0%Z))))) /\
       (callbackReturns (sched w) ->
        sched w' = fst (Sched.schedulerLoop (tickEnv now_ms w) (sched w)) /\
        beats = dispatched (snd (Sched.schedulerLoop (tickEnv now_ms w) (sched w))))).
Proof.
  intros cfg now_ms listeners w q n Hb Hq Hn Hn1.
  destruct (tick_returns cfg now_ms listeners w (readable_positive _ q n Hb Hq Hn Hn1))
    as [r Hr].
  exists r. split; [exact Hr|]. cbv zeta.
  pose proof (tick_piped cfg now_ms listeners w) as P. rewrite Hr in P.
  destruct P as [(P1 & P2 & P3) P4].
  split; [exact P1|]. split.
  { rewrite P1, map_map. apply map_ext. intros [t b]. reflexivity. }
  split; [exact P4|]. split; [exact P2|]. split; [exact P3|].
  intro Hl. subst listeners.
  pose proof (tick_undisturbed cfg now_ms w) as U. rewrite Hr in U.
  destruct U as (_ & U1 & U2 & U3 & U4 & U5).
  cbv zeta in U1, U2, U3, U4, U5.
  split; [exact U1|]. split; [exact U2|]. split; [exact U3|]. split; [exact U4|].
  split.
  - intro Hne. rewrite U5.
    destruct (dispatched (snd (fst r))); [congruence|reflexivity].
  - intro Hret. pose proof (tick_alone cfg now_ms w Hret) as A. cbv zeta in A.
    rewrite Hr in A. exact A.
Qed.

(** A running metronome at 120 bpm whose listeners stop it from the event of
    the first beat: the beat is still played, at 0.2 s. *)
Lemma tick_plays_every_dispatched_beat_witness :
  let w := advanceClock (1 # 100) WorldSamples.running in
  exists r,
    tick Config.CONFIG 1010 [[ListenerStopMetronome]] w = Some r /\
    map (fun x => (fst (fst x), Qred (snd (fst x)))) (soundRequests (snd (fst r)))
      = [(true, 1 # 5)] /\
    isRunning (app (fst (fst r))) = false.
Proof.
  cbv zeta.
  destruct (tick_plays_every_dispatched_beat Config.CONFIG 1010 [[ListenerStopMetronome]]
              (advanceClock (1 # 100) WorldSamples.running) 120 4
              eq_refl eq_refl eq_refl ltac:(lia))
    as (r & Hr & _).
  exists r. split; [exact Hr|].
  assert (E : tick Config.CONFIG 1010 [[ListenerStopMetronome]]
                (advanceClock (1 # 100) WorldSamples.running) = Some r) by exact Hr.
  vm_compute in E. injection E as E. subst r.
  split; vm_compute; reflexivity.
Defined.

End TickPipeline.

(** ** Throttled and debounced functions *)

Section RateLimiting.
Import Helpers.
Context {A : Type}.

Lemma runThrottle_cons (limit : Z) (ev : CallEvent A) (evs : list (CallEvent A)) (st : Throttle) :
  runThrottle limit (ev :: evs) st =
    (fst (runThrottle limit evs (fst (throttleStep limit ev st))),
     (snd (throttleStep limit ev st)
      ++ snd (runThrottle limit evs (fst (throttleStep limit ev st))))%list).
Proof.
  cbn [runThrottle]. destruct (throttleStep limit ev st) as [st1 c1]. cbn [fst snd].
  destruct (runThrottle limit evs st1) as [st2 c2]. reflexivity.
Qed.

Lemma runThrottle_spaced (limit : Z) :
  forall (evs : list (CallEvent A)) (st : Throttle) (last : option Z) (now : Z),
    throttleInv limit st last now ->
    chronological now (map callTime evs) ->
    let calls := snd (runThrottle limit evs st) in
    spaced limit (map fst calls) /\
    Forall (fun c => In (Invoke (fst c) (snd c)) evs) calls /\
    (forall t, last = Some t ->
       match map fst calls with
       | first :: _ => (t + limit <= first)%Z
       | [] => True
       end).
Proof.
  induction evs as [|ev evs IH]; intros st last now Hinv Hchr; cbv zeta.
  - cbn. split; [exact I|]. split; [constructor|]. intros; exact I.
  - rewrite runThrottle_cons. cbn [fst snd].
    cbn [map chronological] in Hchr. destruct Hchr as [Hnow Hchr].
    assert (Hin : forall c, In (Invoke (fst c) (snd c)) evs ->
                            In (Invoke (fst c) (snd c)) (ev :: evs)).
    { intros c Hc. right. exact Hc. }
    destruct ev as [t args|t]; cbn [callTime] in Hnow, Hchr; cbn [throttleStep].
    + destruct Hinv as [(Hth & tl & Hlast & Htim & Htl) | (Hth & Htim & Hlast)]; rewrite Hth.
      * cbn [fst snd List.app].
        destruct (IH st last t) as (I1 & I2 & I3); [|exact Hchr|].
        { left. split; [exact Hth|]. exists tl. repeat split; try assumption. lia. }
        cbv zeta in I1, I2, I3.
        split; [exact I1|]. split; [eapply Forall_impl; [exact Hin|exact I2]|exact I3].
      * cbn [fst snd List.app map]. rewrite Htim. cbn [List.app].
        destruct (IH (mkThrottle true [t + limit]%Z) (Some t) t) as (I1 & I2 & I3);
          [|exact Hchr|].
        { left. split; [reflexivity|]. exists t. repeat split; lia. }
        cbv zeta in I1, I2, I3. specialize (I3 t eq_refl).
        split.
        { cbn [spaced]. destruct (map fst (snd (runThrottle limit evs _))) as [|b rest] eqn:E.
          - exact I.
          - split; [exact I3|exact I1]. }
        split.
        { constructor; [left; reflexivity|].
          eapply Forall_impl; [exact Hin|exact I2]. }
        intros tl Hl. specialize (Hlast tl Hl). lia.
    + destruct Hinv as [(Hth & tl & Hlast & Htim & Htl) | (Hth & Htim & Hlast)]; rewrite Htim.
      * destruct (tl + limit <=? t)%Z eqn:Edue; cbn [fst snd List.app].
        -- apply Z.leb_le in Edue.
           destruct (IH (mkThrottle false []) last t) as (I1 & I2 & I3); [|exact Hchr|].
           { right. split; [reflexivity|]. split; [reflexivity|].
             intros t' Ht'. rewrite Hlast in Ht'. inversion Ht'; subst. exact Edue. }
           cbv zeta in I1, I2, I3.
           split; [exact I1|]. split; [eapply Forall_impl; [exact Hin|exact I2]|exact I3].
        -- destruct (IH st last t) as (I1 & I2 & I3); [|exact Hchr|].
           { left. split; [exact Hth|]. exists tl. repeat split; try assumption. lia. }
           cbv zeta in I1, I2, I3.
           split; [exact I1|]. split; [eapply Forall_impl; [exact Hin|exact I2]|exact I3].
      * cbn [fst snd List.app].
        destruct (IH st last t) as (I1 & I2 & I3); [|exact Hchr|].
        { right. split; [exact Hth|]. split; [exact Htim|].
          intros t' Ht'. specialize (Hlast t' Ht'). lia. }
        cbv zeta in I1, I2, I3.
        split; [exact I1|]. split; [eapply Forall_impl; [exact Hin|exact I2]|exact I3].
Qed.

Lemma runThrottle_first (limit : Z) :
  forall (pre : list (CallEvent A)) (t : Z) (args : A) (suf : list (CallEvent A)),
    invokeCount pre = 0%nat ->
    exists rest,
      snd (runThrottle limit (pre ++ Invoke t args :: suf) throttle0) = (t, args) :: rest.
Proof.
  induction pre as [|ev pre IH]; intros t args suf Hpre.
  - cbn [List.app]. rewrite runThrottle_cons. cbn. eexists. reflexivity.
  - destruct ev as [t' a'|t']; [discriminate Hpre|].
    cbn [List.app]. rewrite runThrottle_cons. cbn [throttleStep throttle0 resetTimers fst snd
      List.app].
    apply IH. exact Hpre.
Qed.

End RateLimiting.

(** X23 (throttle): whenever the events reach a function made by
    [throttle(func, limit)] in chronological order, any two consecutive calls
    of [func] are at least [limit] ms apart; every call of [func] passes on
    the arguments of a call made at that very time, and the first call made
    is always passed on. *)
Theorem throttle_spaces_calls :
  forall (A : Type) (limit t0 : Z) (evs : list (Helpers.CallEvent A)),
    Helpers.chronological t0 (map Helpers.callTime evs) ->
    let calls := snd (Helpers.runThrottle limit evs Helpers.throttle0) in
    Helpers.spaced limit (map fst calls) /\
    Forall (fun c => In (Helpers.Invoke (fst c) (snd c)) evs) calls /\
    (forall pre t args suf,
       evs = (pre ++ Helpers.Invoke t args :: suf)%list -> Helpers.invokeCount pre = 0%nat ->
       exists rest, calls = (t, args) :: rest).
Proof.
  intros A limit t0 evs Hchr. cbv zeta.
  destruct (runThrottle_spaced limit evs Helpers.throttle0 None t0) as (H1 & H2 & _).
  - right. split; [reflexivity|]. split; [reflexivity|]. intros t H. discriminate H.
  - exact Hchr.
  - split; [exact H1|]. split; [exact H2|].
    intros pre t args suf -> Hpre. apply runThrottle_first. exact Hpre.
Qed.

Lemma throttle_spaces_calls_witness :
  let evs := [Helpers.Invoke 0 1%nat; Helpers.Invoke 100 2%nat; Helpers.TimerPhase 310;
              Helpers.Invoke 320 3%nat; Helpers.Invoke 400 4%nat] in
  Helpers.spaced 300 (map fst (snd (Helpers.runThrottle 300 evs Helpers.throttle0))).
Proof.
  cbv zeta.
  refine (proj1 (throttle_spaces_calls nat 300 0 _ _)).
  cbn. lia.
Defined.

Section Debouncing.
Import Helpers.
Context {A : Type}.

Lemma lastInvoke_snoc (pre : list (CallEvent A)) (ev : CallEvent A) :
  lastInvoke (pre ++ [ev]) =
    match ev with
    | Invoke t args => Some (t, args)
    | TimerPhase _ => lastInvoke pre
    end.
Proof.
  induction pre as [|e pre IH]; cbn [List.app lastInvoke].
  - destruct ev; reflexivity.
  - rewrite IH. destruct ev as [t a|t]; [reflexivity|].
    destruct (lastInvoke pre); reflexivity.
Qed.

Lemma runDebounce_cons (wait : Z) (ev : CallEvent A) (evs : list (CallEvent A))
      (st : Debounce A) :
  runDebounce wait (ev :: evs) st =
    (fst (runDebounce wait evs (fst (debounceStep wait ev st))),
     (snd (debounceStep wait ev st)
      ++ snd (runDebounce wait evs (fst (debounceStep wait ev st))))%list).
Proof.
  cbn [runDebounce]. destruct (debounceStep wait ev st) as [st1 c1]. cbn [fst snd].
  destruct (runDebounce wait evs st1) as [st2 c2]. reflexivity.
Qed.

Lemma runDebounce_waits (wait : Z) :
  forall (suf pre : list (CallEvent A)) (st : Debounce A),
    (forall due a, st = Some (due, a) ->
       exists t0, lastInvoke pre = Some (t0, a) /\ due = (t0 + wait)%Z) ->
    let calls := snd (runDebounce wait suf st) in
    Forall (fun c => exists p s t0,
              (pre ++ suf)%list = (p ++ TimerPhase (fst c) :: s)%list /\
              lastInvoke p = Some (t0, snd c) /\ (t0 + wait <= fst c)%Z) calls /\
    (length calls <= (match st with Some _ => 1 | None => 0 end) + invokeCount suf)%nat.
Proof.
  induction suf as [|ev suf IH]; intros pre st Hinv; cbv zeta.
  - cbn. split; [constructor|lia].
  - rewrite runDebounce_cons. cbn [fst snd].
    replace (pre ++ ev :: suf)%list with ((pre ++ [ev]) ++ suf)%list
      by (rewrite <- app_assoc; reflexivity).
    destruct ev as [t args|t]; cbn [debounceStep invokeCount].
    + cbn [fst snd List.app].
      destruct (IH (pre ++ [Invoke t args])%list (Some (t + wait, args)%Z)) as [I1 I2].
      { intros due a H. inversion H; subst. exists t. split; [|reflexivity].
        rewrite lastInvoke_snoc. reflexivity. }
      cbv zeta in I1, I2. split; [exact I1|]. destruct st; lia.
    + destruct st as [[due a]|].
      * destruct (due <=? t)%Z eqn:Edue; cbn [fst snd List.app].
        -- apply Z.leb_le in Edue.
           destruct (IH (pre ++ [TimerPhase t])%list None) as [I1 I2].
           { intros due' a' H. discriminate H. }
           cbv zeta in I1, I2. split.
           ++ constructor; [|exact I1].
              destruct (Hinv due a eq_refl) as (t0 & Hl & Hd).
              exists pre, suf, t0. cbn [fst snd]. split.
              { rewrite <- app_assoc. reflexivity. }
              split; [exact Hl|lia].
           ++ cbn [length]. lia.
        -- destruct (IH (pre ++ [TimerPhase t])%list (Some (due, a))) as [I1 I2].
           { intros due' a' H. rewrite lastInvoke_snoc. apply Hinv. exact H. }
           cbv zeta in I1, I2. split; [exact I1|exact I2].
      * cbn [fst snd List.app].
        destruct (IH (pre ++ [TimerPhase t])%list None) as [I1 I2].
        { intros due' a' H. discriminate H. }
        cbv zeta in I1, I2. split; [exact I1|exact I2].
Qed.

End Debouncing.

(** X24 (debounce): a function made by [debounce(func, wait)] calls [func]
    only from its timer, with the arguments of the most recent call made
    before that timer ran, and not before [wait] ms have passed since that
    call; it calls [func] at most as often as it was called itself. *)
Theorem debounce_waits_for_quiet :
  forall (A : Type) (wait : Z) (evs : list (Helpers.CallEvent A)),
    let calls := snd (Helpers.runDebounce wait evs None) in
    Forall (fun c => exists pre suf t0,
              evs = (pre ++ Helpers.TimerPhase (fst c) :: suf)%list /\
              Helpers.lastInvoke pre = Some (t0, snd c) /\ (t0 + wait <= fst c)%Z) calls /\
    (length calls <= Helpers.invokeCount evs)%nat.
Proof.
  intros A wait evs. cbv zeta.
  destruct (runDebounce_waits wait evs [] None) as [H1 H2].
  - intros due a H. discriminate H.
  - cbv zeta in H1, H2. cbn [List.app] in H1. split; [exact H1|exact H2].
Qed.

(** A burst of three calls less than 50 ms apart: [func] runs once, with the
    arguments of the last call, once 50 ms have passed since it. *)
Example debounce_collapses_a_burst :
  snd (Helpers.runDebounce 50
         [Helpers.Invoke 0 1%nat; Helpers.TimerPhase 30; Helpers.Invoke 40 2%nat;
          Helpers.TimerPhase 50; Helpers.Invoke 80 3%nat; Helpers.TimerPhase 120;
          Helpers.TimerPhase 130; Helpers.TimerPhase 200] None)
  = [(130%Z, 3%nat)].
Proof. reflexivity. Qed.

(** ** The controls: tap tempo and limited inputs *)

Section TapTempo.
Import Js Config State Metronome MetronomeOps UIControls.

Lemma fold_left_add_acc (l : list Z) (acc : Z) :
  fold_left Z.add l acc = (acc + fold_left Z.add l 0)%Z.
Proof.
  revert acc. induction l as [|x l IH]; intro acc; cbn [fold_left]; [lia|].
  rewrite (IH (acc + x)%Z), (IH (0 + x)%Z). lia.
Qed.

Lemma sum_bounds (l : list Z) :
  Forall (fun i => (200 <= i <= 2000)%Z) l ->
  (200 * Z.of_nat (length l) <= fold_left Z.add l 0 <= 2000 * Z.of_nat (length l))%Z.
Proof.
  induction 1 as [|x l Hx _ IH]; [cbn; lia|].
  cbn [fold_left length]. rewrite fold_left_add_acc. lia.
Qed.

Lemma averageInterval_bounds (l : list Z) :
  l <> [] -> Forall (fun i => (200 <= i <= 2000)%Z) l ->
  200 <= averageInterval l <= 2000.
Proof.
  intros Hne Hall. unfold averageInterval.
  pose proof (sum_bounds l Hall) as [Hlo Hhi].
  assert (Hn : (0 < Z.of_nat (length l))%Z) by (destruct l; [congruence|cbn; lia]).
  assert (Hn' : 0 < inject_Z (Z.of_nat (length l))).
  { change 0 with (inject_Z 0). rewrite <- Zlt_Qlt. exact Hn. }
  rewrite Zle_Qle, inject_Z_mult in Hlo, Hhi.
  split.
  - apply Qle_shift_div_l; [exact Hn'|exact Hlo].
  - apply Qle_shift_div_r; [exact Hn'|exact Hhi].
Qed.

(** The tempo computed from valid intervals never needs the upper limit. *)
Lemma tappedBPM_bounds (l : list Z) :
  l <> [] -> Forall (fun i => (200 <= i <= 2000)%Z) l ->
  30 <= tappedBPM l <= 300.
Proof.
  intros Hne Hall. unfold tappedBPM.
  pose proof (averageInterval_bounds l Hne Hall) as [Hlo Hhi].
  assert (Hpos : 0 < averageInterval l) by lra.
  destruct (round_between 30 300 (60000 / averageInterval l)) as [H1 H2].
  { split.
    - apply Qle_shift_div_l; [exact Hpos|]. change (inject_Z 30) with 30. lra.
    - apply Qle_shift_div_r; [exact Hpos|]. change (inject_Z 300) with 300. lra. }
  rewrite Zle_Qle in H1, H2. split; assumption.
Qed.

Lemma validTapBPM_range (l : list Z) : 40 <= validTapBPM l <= 300.
Proof.
  unfold validTapBPM. split; [apply Q.le_max_l|].
  apply Q.max_lub; [lra|apply Q.le_min_l].
Qed.

Lemma pushInterval_ok (i : Z) (l : list Z) :
  (200 <= i <= 2000)%Z -> tapsOk l -> tapsOk (pushInterval i l) /\ pushInterval i l <> [].
Proof.
  intros Hi [Hlen Hall]. unfold pushInterval.
  assert (Hall1 : Forall (fun i => (200 <= i <= 2000)%Z) (l ++ [i])).
  { apply Forall_app. split; [exact Hall|constructor; [exact Hi|constructor]]. }
  assert (Hlen1 : length (l ++ [i]) = S (length l)) by (rewrite length_app; cbn; lia).
  destruct (5 <? length (l ++ [i]))%nat eqn:E.
  - apply Nat.ltb_lt in E.
    destruct (l ++ [i])%list as [|x rest] eqn:El; [cbn in E; lia|].
    cbn [tl]. cbn [length] in Hlen1, E. split; [split|].
    + lia.
    + inversion Hall1. assumption.
    + destruct rest; [cbn in E; lia|discriminate].
  - apply Nat.ltb_ge in E. split; [split; [exact E|exact Hall1]|].
    destruct l; discriminate.
Qed.

(** What one tap does. *)
Lemma handleTapClick_step (now : Z) (ui : TapState) (w : World) :
  tapsOk (tapIntervals ui) ->
  let r := _handleTapClick CONFIG now ui w in
  tapsOk (tapIntervals (fst (fst r))) /\
  lastTapTime (fst (fst r)) = Some now /\
  ~ In (HandleConfigError "setting BPM") (snd r) /\
  ((forall q0, bpm (app w) = Fin q0 -> 40 <= q0 <= 300 ->
      exists q, bpm (app (snd (fst r))) = Fin q /\ 40 <= q <= 300)) /\
  (forall last, lastTapTime ui = Some last -> last <> 0%Z ->
      (200 <= now - last <= 2000)%Z ->
      let l := pushInterval (now - last) (tapIntervals ui) in
      tapIntervals (fst (fst r)) = l /\
      Qabs (readTempo (app (snd (fst r))) - roundTenth (validTapBPM l)) < 0.1).
Proof.
  intro Hok. cbv zeta. unfold _handleTapClick.
  assert (Hskip : forall (P : TapState * World * list Effect -> Prop),
             P (mkTap (Some now) (tapIntervals ui), w, []) ->
             (tapsOk (tapIntervals (fst (fst (mkTap (Some now) (tapIntervals ui), w, @nil Effect)))) /\
              lastTapTime (fst (fst (mkTap (Some now) (tapIntervals ui), w, @nil Effect))) = Some now /\
              ~ In (HandleConfigError "setting BPM") (snd (mkTap (Some now) (tapIntervals ui), w, @nil Effect)) /\
              (forall q0, bpm (app w) = Fin q0 -> 40 <= q0 <= 300 ->
                 exists q, bpm (app (snd (fst (mkTap (Some now) (tapIntervals ui), w, @nil Effect)))) = Fin q
                           /\ 40 <= q <= 300))).
  { intros _ _. cbn [fst snd tapIntervals lastTapTime].
    split; [exact Hok|]. split; [reflexivity|]. split; [intros []|].
    intros q0 Hq0 Hr. exists q0. split; assumption. }
  destruct (lastTapTime ui) as [last|] eqn:Elast.
  2:{ destruct (Hskip (fun _ => True) I) as (S1 & S2 & S3 & S4).
      split; [exact S1|]. split; [exact S2|]. split; [exact S3|]. split; [exact S4|].
      intros last' H. discriminate H. }
  destruct (last =? 0)%Z eqn:Ez.
  { apply Z.eqb_eq in Ez.
    destruct (Hskip (fun _ => True) I) as (S1 & S2 & S3 & S4).
    split; [exact S1|]. split; [exact S2|]. split; [exact S3|]. split; [exact S4|].
    intros last' H Hne. inversion H; subst. congruence. }
  destruct ((200 <=? now - last)%Z && (now - last <=? 2000)%Z) eqn:Ein.
  2:{ destruct (Hskip (fun _ => True) I) as (S1 & S2 & S3 & S4).
      split; [exact S1|]. split; [exact S2|]. split; [exact S3|]. split; [exact S4|].
      intros last' H _ Hr. inversion H; subst.
      apply andb_false_iff in Ein. destruct Ein as [E|E].
      - apply Z.leb_gt in E. lia.
      - apply Z.leb_gt in E. lia. }
  apply andb_true_iff in Ein. destruct Ein as [E1 E2].
  apply Z.leb_le in E1. apply Z.leb_le in E2.
  destruct (pushInterval_ok (now - last) (tapIntervals ui)) as [Hok' Hne]; [lia|exact Hok|].
  set (l := pushInterval (now - last) (tapIntervals ui)) in *.
  pose proof (validTapBPM_range l) as Hv.
  pose proof (setBPM_in_range CONFIG (validTapBPM l) w Hv) as Hs. cbv zeta in Hs.
  assert (Ht : 40 <= roundTenth (validTapBPM l) <= 300).
  { destruct (roundTenth_between 400 3000 (validTapBPM l)) as [A B].
    - change (inject_Z 400) with 400. change (inject_Z 3000) with 3000.
      unfold Qdiv. change (/ 10) with (1 # 10). destruct Hv. split; lra.
    - change (inject_Z 400) with 400 in A. change (inject_Z 3000) with 3000 in B.
      unfold Qdiv in A, B. change (/ 10) with (1 # 10) in A, B. split; lra. }
  destruct (setBPM CONFIG (Number (Fin (validTapBPM l))) w) as [[ok w1] e1].
  cbn [fst snd tapIntervals lastTapTime] in Hs |- *.
  destruct Hs as (_ & Herr & Hcases).
  split; [exact Hok'|]. split; [reflexivity|]. split; [exact Herr|]. split.
  - intros q0 Hq0 Hr.
    destruct Hcases as [(Hw & _ & _) | (Happ & _ & _)].
    + rewrite Hw. exists q0. split; assumption.
    + rewrite Happ. exists (roundTenth (validTapBPM l)). split; [reflexivity|exact Ht].
  - intros last' H _ _. inversion H; subst last'. split; [reflexivity|].
    destruct Hcases as [(Hw & _ & Hnear) | (Happ & _ & _)].
    + rewrite Hw. exact Hnear.
    + rewrite Happ. unfold readTempo. cbn [bpm update_bpm toJSON jsonToQ].
      assert (E : forall x, Qabs (x - x) < 0.1)
        by (intro x; apply Qabs_Qlt_condition; split; lra).
      apply E.
Qed.

Lemma runTaps_cons (now : Z) (rest : list Z) (ui : TapState) (w : World) :
  runTaps CONFIG (now :: rest) ui w =
    let r1 := _handleTapClick CONFIG now ui w in
    let r2 := runTaps CONFIG rest (fst (fst r1)) (snd (fst r1)) in
    (fst (fst r2), snd (fst r2), (snd r1 ++ snd r2)%list).
Proof.
  cbn [runTaps]. destruct (_handleTapClick CONFIG now ui w) as [[ui1 w1] e1]. cbn [fst snd].
  destruct (runTaps CONFIG rest ui1 w1) as [[ui2 w2] e2]. reflexivity.
Qed.

Lemma runTaps_ok :
  forall (taps : list Z) (ui : TapState) (w : World),
    tapsOk (tapIntervals ui) ->
    let r := runTaps CONFIG taps ui w in
    tapsOk (tapIntervals (fst (fst r))) /\
    ~ In (HandleConfigError "setting BPM") (snd r) /\
    (forall q0, bpm (app w) = Fin q0 -> 40 <= q0 <= 300 ->
       exists q, bpm (app (snd (fst r))) = Fin q /\ 40 <= q <= 300).
Proof.
  induction taps as [|now rest IH]; intros ui w Hok; cbv zeta.
  - cbn. split; [exact Hok|]. split; [intros []|].
    intros q0 Hq0 Hr. exists q0. split; assumption.
  - rewrite runTaps_cons. cbv zeta. cbn [fst snd].
    pose proof (handleTapClick_step now ui w Hok) as Hs. cbv zeta in Hs.
    destruct Hs as (S1 & _ & S3 & S4 & _).
    destruct (IH _ (snd (fst (_handleTapClick CONFIG now ui w))) S1) as (I1 & I2 & I3).
    cbv zeta in I1, I2, I3.
    split; [exact I1|]. split.
    + intro Hin. apply in_app_or in Hin. tauto.
    + intros q0 Hq0 Hr. destruct (S4 q0 Hq0 Hr) as (q1 & Hq1 & Hr1).
      exact (I3 q1 Hq1 Hr1).
Qed.

Lemma validTapBPM_exact (l : list Z) : roundTenth (validTapBPM l) == validTapBPM l.
Proof.
  assert (Hk : forall k, inject_Z k == inject_Z (10 * k) / 10).
  { intro k. rewrite inject_Z_mult. change (inject_Z 10) with 10. field. }
  unfold validTapBPM.
  destruct (Q.max_spec 40 (Qmin 300 (tappedBPM l))) as [[_ E]|[_ E]].
  - destruct (Q.min_spec 300 (tappedBPM l)) as [[_ E2]|[_ E2]].
    + apply (roundTenth_exact 3000). rewrite E, E2. reflexivity.
    + apply (roundTenth_exact (10 * Qfloor (60000 / averageInterval l + (1 # 2)))).
      rewrite E, E2. unfold tappedBPM. apply Hk.
  - apply (roundTenth_exact 400). rewrite E. reflexivity.
Qed.

End TapTempo.

(** X25 (_handleTapClick): whatever the times of the taps, the tap handler
    keeps at most five intervals, all between 200 and 2000 ms, and the tempo
    it hands to [setBPM] is never refused under the shipped limits: a stored
    tempo inside [40, 300] stays inside.  The tempo computed from the kept
    intervals, [Math.round(60000 / average)], lies between 30 and 300, so the
    upper limit of the clamp is never needed.  Two taps [d] ms apart, with
    [200 <= d <= 2000], leave the stored tempo less than 0.1 away from
    [max(40, Math.round(60000 / d))]. *)
Theorem tap_tempo_stays_in_range :
  forall (taps : list Z) (t d : Z) (l : list Z) (w : Metronome.World),
    (let r := UIControls.runTaps Config.CONFIG taps UIControls.tap0 w in
     UIControls.tapsOk (UIControls.tapIntervals (fst (fst r))) /\
     ~ In (HandleConfigError "setting BPM") (snd r) /\
     (forall q0, State.bpm (Metronome.app w) = Js.Fin q0 -> 40 <= q0 <= 300 ->
        exists q, State.bpm (Metronome.app (snd (fst r))) = Js.Fin q /\ 40 <= q <= 300)) /\
    (UIControls.tapsOk l -> l <> [] ->
     30 <= UIControls.tappedBPM l <= 300 /\
     UIControls.validTapBPM l == Qmax 40 (UIControls.tappedBPM l)) /\
    (t <> 0%Z -> (200 <= d <= 2000)%Z ->
     let r := UIControls.runTaps Config.CONFIG [t; (t + d)%Z] UIControls.tap0 w in
     UIControls.tapIntervals (fst (fst r)) = [d] /\
     Qabs (State.readTempo (Metronome.app (snd (fst r)))
           - Qmax 40 (inject_Z (Qfloor (60000 / inject_Z d + (1 # 2))))) < 0.1).
Proof.
  intros taps t d l w. split; [|split].
  - apply runTaps_ok. split; [cbn; lia|constructor].
  - intros [_ Hall] Hne.
    pose proof (tappedBPM_bounds l Hne Hall) as Hb. split; [exact Hb|].
    unfold UIControls.validTapBPM. rewrite (Q.min_r 300 (UIControls.tappedBPM l)); [reflexivity|].
    tauto.
  - intros Ht Hd. cbv zeta.
    rewrite runTaps_cons. cbv zeta.
    change (UIControls._handleTapClick Config.CONFIG t UIControls.tap0 w)
      with (UIControls.mkTap (Some t) [], w, @nil Effect).
    cbn [fst snd List.app]. rewrite runTaps_cons. cbv zeta. cbn [UIControls.runTaps fst snd].
    pose proof (handleTapClick_step (t + d) (UIControls.mkTap (Some t) []) w) as Hs.
    cbv zeta in Hs.
    destruct Hs as (_ & _ & _ & _ & Hl); [split; [cbn; lia|constructor]|].
    destruct (Hl t eq_refl Ht) as [L1 L2]; [lia|].
    replace (t + d - t)%Z with d in L1, L2 by lia.
    change (UIControls.pushInterval d (UIControls.tapIntervals (UIControls.mkTap (Some t) [])))
      with [d] in L1, L2.
    split; [exact L1|].
    assert (Hv : UIControls.validTapBPM [d]
                 == Qmax 40 (inject_Z (Qfloor (60000 / inject_Z d + (1 # 2))))).
    { assert (Hb : 30 <= UIControls.tappedBPM [d] <= 300).
      { apply tappedBPM_bounds; [discriminate|]. constructor; [exact Hd|constructor]. }
      unfold UIControls.validTapBPM. rewrite (Q.min_r 300 (UIControls.tappedBPM [d])) by tauto.
      unfold UIControls.tappedBPM, UIControls.averageInterval. cbn [fold_left length Z.of_nat].
      assert (Havg : inject_Z (0 + d) / inject_Z (Z.pos 1) == inject_Z d).
      { replace (0 + d)%Z with d by lia. change (inject_Z (Z.pos 1)) with 1. field. }
      rewrite Havg. reflexivity. }
    pose proof (validTapBPM_exact [d]) as Hexact.
    apply Qabs_Qlt_condition in L2. apply Qabs_Qlt_condition. split; lra.
Qed.

Lemma tap_tempo_stays_in_range_witness :
  let r := UIControls.runTaps Config.CONFIG [1000; 1500]%Z UIControls.tap0 WorldSamples.ready in
  UIControls.tapIntervals (fst (fst r)) = [500%Z] /\
  Qabs (State.readTempo (Metronome.app (snd (fst r)))
        - Qmax 40 (inject_Z (Qfloor (60000 / inject_Z 500 + (1 # 2))))) < 0.1.
Proof.
  cbv zeta.
  destruct (tap_tempo_stays_in_range [] 1000 500 [] WorldSamples.ready) as (_ & _ & H).
  apply H; lia.
Defined.

Section ControlInputs.
Import Js Config State Metronome MetronomeOps UIControls.

Lemma Js_NaN_dec (v : num) : v = NaN \/ v <> NaN.
Proof. destruct v; [right|left|right|right]; try reflexivity; discriminate. Qed.

(** [setVolume] on a finite volume inside integer bounds. *)
Lemma setVolume_in_range (lo hi : Z) (q : Q) (w : World) :
  inject_Z lo <= q <= inject_Z hi ->
  let r := setVolume (inject_Z lo) (inject_Z hi) (Number (Fin q)) w in
  fst (fst r) = true /\
  ~ In (HandleConfigError "setting volume") (snd r) /\
  exists y, volume (app (snd (fst r))) = Fin y /\ inject_Z lo <= y <= inject_Z hi.
Proof.
  intros [Hlo Hhi]. cbv zeta. unfold setVolume.
  assert (E1 : lt (Fin q) (Fin (inject_Z lo)) = false) by (apply Qltb_ge; exact Hlo).
  assert (E2 : gt (Fin q) (Fin (inject_Z hi)) = false) by (apply Qltb_ge; exact Hhi).
  rewrite E1, E2. cbn [orb round].
  destruct (round_between lo hi q) as [K1 K2]; [split; assumption|].
  rewrite Zle_Qle in K1, K2.
  destruct (strictEq (toJSON (volume (app w))) (Fin (inject_Z (Qfloor (q + (1 # 2))))))
    eqn:Eeq; cbn [fst snd].
  - split; [reflexivity|]. split; [intros []|].
    destruct (volume (app w)) as [old| | |]; try discriminate Eeq.
    exists old. split; [reflexivity|].
    apply Qeq_bool_iff in Eeq. rewrite Eeq. split; assumption.
  - split; [reflexivity|]. split; [intros [H|[]]; discriminate H|].
    eexists. split; [reflexivity|]. split; assumption.
Qed.

(** X26 (_updateBPM, _handleVolumeInput): the controls limit a value before
    they hand it to a setter, so under the shipped limits the setters never
    refuse them: [_updateBPM] skips [NaN], and otherwise [setBPM] accepts
    the tempo it gets and a stored tempo inside [40, 300] stays inside;
    [_handleVolumeInput] skips [NaN], and otherwise [setVolume] accepts the
    volume it gets and the stored volume is a finite number between 0 and
    100 afterwards. *)
Theorem controls_pass_accepted_values :
  forall (v : num) (w : World),
    (let r := _updateBPM CONFIG v w in
     ~ In (HandleConfigError "setting BPM") (snd r) /\
     (v = NaN -> r = (w, [])) /\
     (forall q0, bpm (app w) = Fin q0 -> 40 <= q0 <= 300 ->
        exists q, bpm (app (fst r)) = Fin q /\ 40 <= q <= 300)) /\
    (let r := _handleVolumeInput (inject_Z 0) (inject_Z 100) v w in
     ~ In (HandleConfigError "setting volume") (snd r) /\
     (v = NaN -> r = (w, [])) /\
     (v <> NaN -> exists y, volume (app (fst r)) = Fin y /\ 0 <= y <= 100)).
Proof.
  intros v w. split; cbv zeta.
  - destruct (Js_NaN_dec v) as [-> | Hv].
    { cbn. split; [intros []|]. split; [reflexivity|].
      intros q0 Hq0 Hr. exists q0. split; assumption. }
    assert (Hu : _updateBPM CONFIG v w =
                 let '(_, w1, e1) := setBPM CONFIG (Number (max (Fin 40) (min (Fin 300) v))) w in
                 (w1, e1)).
    { destruct v; try reflexivity. congruence. }
    rewrite Hu.
    destruct (max_min_in_range 40 300 v) as (y & Hy & Hr & _); [lra|exact Hv|].
    rewrite Hy.
    pose proof (setBPM_in_range CONFIG y w Hr) as Hs. cbv zeta in Hs.
    assert (Ht : 40 <= roundTenth y <= 300).
    { destruct (roundTenth_between 400 3000 y) as [A B].
      - change (inject_Z 400) with 400. change (inject_Z 3000) with 3000.
        unfold Qdiv. change (/ 10) with (1 # 10). destruct Hr. split; lra.
      - change (inject_Z 400) with 400 in A. change (inject_Z 3000) with 3000 in B.
        unfold Qdiv in A, B. change (/ 10) with (1 # 10) in A, B. split; lra. }
    destruct (setBPM CONFIG (Number (Fin y)) w) as [[ok w1] e1]. cbn [fst snd] in Hs |- *.
    destruct Hs as (_ & Herr & Hcases).
    split; [exact Herr|]. split; [intro H; congruence|].
    intros q0 Hq0 Hr0.
    destruct Hcases as [(Hw & _ & _) | (Happ & _ & _)].
    + rewrite Hw. exists q0. split; assumption.
    + rewrite Happ. exists (roundTenth y). split; [reflexivity|exact Ht].
  - destruct (Js_NaN_dec v) as [-> | Hv].
    { cbn. split; [intros []|]. split; [reflexivity|]. intro H. congruence. }
    assert (Hu : _handleVolumeInput (inject_Z 0) (inject_Z 100) v w =
                 let '(_, w1, e1) :=
                   setVolume (inject_Z 0) (inject_Z 100)
                     (Number (max (Fin 0) (min (Fin 100) v))) w in
                 (w1, e1)).
    { destruct v; try reflexivity. congruence. }
    rewrite Hu.
    destruct (max_min_in_range 0 100 v) as (y & Hy & Hr & _); [lra|exact Hv|].
    rewrite Hy.
    pose proof (setVolume_in_range 0 100 y w Hr) as Hs. cbv zeta in Hs.
    destruct (setVolume (inject_Z 0) (inject_Z 100) (Number (Fin y)) w) as [[ok w1] e1].
    cbn [fst snd] in Hs |- *.
    destruct Hs as (_ & Herr & Hvol).
    split; [exact Herr|]. split; [intro H; congruence|]. intros _. exact Hvol.
Qed.

Lemma controls_pass_accepted_values_witness :
  exists y, volume (app (fst (_handleVolumeInput (inject_Z 0) (inject_Z 100) (Fin 250)
                                WorldSamples.ready))) = Fin y /\ 0 <= y <= 100.
Proof.
  destruct (controls_pass_accepted_values (Fin 250) WorldSamples.ready) as [_ (_ & _ & H)].
  apply H. discriminate.
Defined.

End ControlInputs.

(** ** Training sessions run to completion *)

Section TrainingSessions.
Import Training.
Local Open Scope Z_scope.

Lemma plannedBeats_acc (segs : list Segment) (acc : Z) :
  fold_left (fun total seg => total + seg_beats seg * seg_repeats seg) segs acc
  = acc + plannedBeats segs.
Proof.
  unfold plannedBeats. revert acc.
  induction segs as [|seg segs IH]; intro acc; cbn [fold_left]; [lia|].
  rewrite (IH (acc + _)), (IH (0 + _)). lia.
Qed.

Lemma plannedBeats_cons (seg : Segment) (segs : list Segment) :
  plannedBeats (seg :: segs) = seg_beats seg * seg_repeats seg + plannedBeats segs.
Proof.
  unfold plannedBeats at 1. cbn [fold_left]. rewrite plannedBeats_acc. lia.
Qed.

Lemma validSegment_spec (seg : Segment) :
  validSegment seg = true ->
  40 <= seg_bpm seg <= 208 /\ 1 <= seg_beats seg <= 16 /\ 1 <= seg_repeats seg <= 100.
Proof.
  unfold validSegment. intro H.
  repeat (apply andb_true_iff in H; destruct H as [H ?]).
  repeat match goal with H : (_ <=? _) = true |- _ => apply Z.leb_le in H end. lia.
Qed.

Lemma plannedBeats_nonneg (segs : list Segment) :
  forallb validSegment segs = true -> 0 <= plannedBeats segs.
Proof.
  induction segs as [|seg segs IH]; intro H; [cbn; lia|].
  cbn [forallb] in H. apply andb_true_iff in H. destruct H as [Hs Hr].
  rewrite plannedBeats_cons. specialize (IH Hr).
  destruct (validSegment_spec seg Hs) as (_ & Hb & Hp). nia.
Qed.

Lemma forallb_skipn (n : nat) (segs : list Segment) :
  forallb validSegment segs = true -> forallb validSegment (skipn n segs) = true.
Proof.
  revert segs. induction n as [|n IH]; intros segs H; [exact H|].
  destruct segs as [|seg segs]; [reflexivity|].
  cbn [skipn]. apply IH. cbn [forallb] in H. apply andb_true_iff in H. tauto.
Qed.

Lemma forallb_nth (n : nat) (segs : list Segment) (seg : Segment) :
  forallb validSegment segs = true -> nth_error segs n = Some seg -> validSegment seg = true.
Proof.
  intros Hall Hn. rewrite forallb_forall in Hall. apply Hall.
  eapply nth_error_In. exact Hn.
Qed.

Lemma skipn_nth (n : nat) (segs : list Segment) (seg : Segment) :
  nth_error segs n = Some seg -> skipn n segs = seg :: skipn (S n) segs.
Proof.
  revert segs. induction n as [|n IH]; intros segs H.
  - destruct segs; [discriminate H|]. cbn in H. inversion H. reflexivity.
  - destruct segs as [|x segs]; [discriminate H|]. cbn [nth_error] in H.
    cbn [skipn]. rewrite (IH segs H). reflexivity.
Qed.


Lemma beatsLeft_pos (s : Session) : inSession s -> 1 <= beatsLeft s.
Proof.
  intros (_ & _ & Hvalid & seg & Hseg & Hrem & Hrep).
  pose proof (plannedBeats_nonneg _ (forallb_skipn (S (currentSegmentIndex s)) _ Hvalid)).
  unfold beatsLeft. rewrite Hseg. nia.
Qed.

(** One beat event on a running session. *)
Lemma handleBeat_step (s : Session) :
  inSession s ->
  let r := _handleBeat s in
  let s' := fst r in
  processedBeats s' = processedBeats s + 1 /\
  totalBeats s' = totalBeats s /\
  emitted "training:error" (snd r) = 0%nat /\
  ((beatsLeft s = 1 /\ sessionId s' = None /\ isRunning s' = false /\
    emitted "training:complete" (snd r) = 1%nat /\ In CallStopMetronome (snd r) /\
    tempi (snd r) = [] /\ skipn (S (currentSegmentIndex s)) (segments s) = []) \/
   (1 < beatsLeft s /\ inSession s' /\ sessionId s' = sessionId s /\
    segments s' = segments s /\ beatsLeft s' = beatsLeft s - 1 /\
    emitted "training:complete" (snd r) = 0%nat /\ ~ In CallStopMetronome (snd r) /\
    (tempi (snd r) ++ map seg_bpm (skipn (S (currentSegmentIndex s')) (segments s)))%list
      = map seg_bpm (skipn (S (currentSegmentIndex s)) (segments s)))).
Proof.
  intros ((id & Hid) & Hrun & Hvalid & seg & Hseg & Hrem & Hrep). cbv zeta.
  pose proof (validSegment_spec seg (forallb_nth _ _ _ Hvalid Hseg)) as (_ & Hb & Hp).
  pose proof (plannedBeats_nonneg _ (forallb_skipn (S (currentSegmentIndex s)) _ Hvalid))
    as Hrest.
  assert (Hleft : beatsLeft s = remainingBeats s
                    + (seg_repeats seg - currentRepeat s) * seg_beats seg
                    + plannedBeats (skipn (S (currentSegmentIndex s)) (segments s))).
  { unfold beatsLeft. rewrite Hseg. reflexivity. }
  unfold _handleBeat. rewrite Hid, Hrun. cbn [negb remainingBeats].
  destruct (Z.max 0 (remainingBeats s - 1) <=? 0) eqn:Edone.
  2:{ apply Z.leb_gt in Edone. cbn [fst snd processedBeats totalBeats emitted].
      split; [reflexivity|]. split; [reflexivity|]. split; [reflexivity|].
      right. split; [nia|]. split.
      { split; [exists id; reflexivity|]. split; [reflexivity|]. split; [exact Hvalid|].
        exists seg. cbn [segments currentSegmentIndex currentRepeat remainingBeats]. split; [exact Hseg|]. lia. }
      split; [reflexivity|]. split; [reflexivity|]. split.
      { unfold beatsLeft. cbn [segments currentSegmentIndex currentRepeat remainingBeats]. rewrite Hseg. lia. }
      split; [reflexivity|]. split; [intros [H|[]]; discriminate H|reflexivity]. }
  apply Z.leb_le in Edone.
  assert (Hone : remainingBeats s = 1) by lia.
  unfold _handleSegmentCompletion. cbv zeta.
  cbn [segments currentSegmentIndex currentRepeat processedBeats totalBeats isRunning
       sessionId remainingBeats].
  rewrite Hseg.
  destruct (currentRepeat s <? seg_repeats seg) eqn:Erep.
  { apply Z.ltb_lt in Erep. cbn [fst snd processedBeats totalBeats emitted String.eqb].
    split; [reflexivity|]. split; [reflexivity|]. split; [reflexivity|].
    right. split; [nia|]. split.
    { split; [exists id; reflexivity|]. split; [reflexivity|]. split; [exact Hvalid|].
      exists seg. cbn [segments currentSegmentIndex currentRepeat remainingBeats]. split; [exact Hseg|]. lia. }
    split; [reflexivity|]. split; [reflexivity|]. split.
    { unfold beatsLeft. cbn [segments currentSegmentIndex currentRepeat remainingBeats]. rewrite Hseg. lia. }
    split; [reflexivity|]. split; [|reflexivity].
    intros [H|[H|[]]]; discriminate H. }
  apply Z.ltb_ge in Erep.
  assert (Hlast : currentRepeat s = seg_repeats seg) by lia.
  destruct (Z.of_nat (currentSegmentIndex s) <? Z.of_nat (length (segments s)) - 1) eqn:Emore.
  - apply Z.ltb_lt in Emore.
    destruct (nth_error (segments s) (S (currentSegmentIndex s))) as [next|] eqn:Enext.
    2:{ apply nth_error_None in Enext. lia. }
    pose proof (validSegment_spec next (forallb_nth _ _ _ Hvalid Enext)) as (_ & Hnb & Hnp).
    pose proof (skipn_nth _ _ _ Enext) as Hskip.
    pose proof (plannedBeats_nonneg _
                  (forallb_skipn (S (S (currentSegmentIndex s))) _ Hvalid)) as Hrest2.
    cbn [fst snd processedBeats totalBeats emitted String.eqb _configureMetronome List.app].
    split; [reflexivity|]. split; [reflexivity|]. split; [reflexivity|].
    right. rewrite Hleft, Hskip, plannedBeats_cons.
    split; [nia|]. split.
    { split; [exists id; reflexivity|]. split; [reflexivity|]. split; [exact Hvalid|].
      exists next. cbn [segments currentSegmentIndex currentRepeat remainingBeats]. split; [exact Enext|]. lia. }
    split; [reflexivity|]. split; [reflexivity|]. split.
    { unfold beatsLeft. cbn [segments currentSegmentIndex currentRepeat remainingBeats]. rewrite Enext. lia. }
    split; [reflexivity|]. split; [|reflexivity].
    intros [H|[H|[H|[H|[]]]]]; discriminate H.
  - apply Z.ltb_ge in Emore.
    assert (Hlen : (currentSegmentIndex s < length (segments s))%nat).
    { apply nth_error_Some. rewrite Hseg. discriminate. }
    assert (Hnone : skipn (S (currentSegmentIndex s)) (segments s) = []).
    { apply skipn_all2. lia. }
    unfold _completeSession, stopSession. cbn [sessionId isRunning].
    cbn [fst snd processedBeats totalBeats emitted String.eqb List.app negb andb].
    split; [reflexivity|]. split; [reflexivity|]. split; [reflexivity|].
    left. rewrite Hleft, Hnone. cbn [plannedBeats fold_left].
    split; [nia|]. split; [reflexivity|]. split; [reflexivity|]. split; [reflexivity|].
    split; [left; reflexivity|]. split; reflexivity.
Qed.

Lemma beats_succ (k : nat) (s : Session) :
  beats (S k) s =
    (fst (beats k (fst (_handleBeat s))),
     (snd (_handleBeat s) ++ snd (beats k (fst (_handleBeat s))))%list).
Proof.
  cbn [beats]. destruct (_handleBeat s) as [s1 e1]. cbn [fst snd].
  destruct (beats k s1) as [s2 e2]. reflexivity.
Qed.

Lemma emitted_app (name : string) (a b : list TrainingEffect) :
  emitted name (a ++ b) = (emitted name a + emitted name b)%nat.
Proof.
  induction a as [|e a IH]; [reflexivity|].
  destruct e; cbn [List.app emitted]; try exact IH.
  destruct (String.eqb name0 name); rewrite IH; reflexivity.
Qed.

Lemma tempi_app (a b : list TrainingEffect) : tempi (a ++ b) = (tempi a ++ tempi b)%list.
Proof.
  induction a as [|e a IH]; [reflexivity|].
  destruct e; cbn [List.app tempi]; rewrite ?IH; reflexivity.
Qed.

(** Fewer beats than the session still has to see leave it running. *)
Lemma beats_before_end :
  forall (k : nat) (s : Session),
    inSession s -> Z.of_nat k < beatsLeft s ->
    let r := beats k s in
    inSession (fst r) /\ sessionId (fst r) = sessionId s /\
    segments (fst r) = segments s /\ totalBeats (fst r) = totalBeats s /\
    beatsLeft (fst r) = beatsLeft s - Z.of_nat k /\
    processedBeats (fst r) = processedBeats s + Z.of_nat k /\
    emitted "training:complete" (snd r) = 0%nat /\
    emitted "training:error" (snd r) = 0%nat /\
    ~ In CallStopMetronome (snd r) /\
    (tempi (snd r) ++ map seg_bpm (skipn (S (currentSegmentIndex (fst r))) (segments s)))%list
      = map seg_bpm (skipn (S (currentSegmentIndex s)) (segments s)).
Proof.
  induction k as [|k IH]; intros s Hin Hk; cbv zeta.
  - cbn [beats fst snd emitted tempi List.app].
    split; [exact Hin|]. do 3 (split; [reflexivity|]). split; [lia|]. split; [lia|].
    split; [reflexivity|]. split; [reflexivity|]. split; [intros []|reflexivity].
  - rewrite beats_succ. cbn [fst snd].
    pose proof (handleBeat_step s Hin) as Hs. cbv zeta in Hs.
    destruct Hs as (P1 & P2 & P3 & [(L1 & _) | (L1 & L2 & L3 & L4 & L5 & L6 & L7 & L8)]);
      [lia|].
    destruct (IH (fst (_handleBeat s)) L2) as (I1 & I2 & I3 & I4 & I5 & I6 & I7 & I8 & I9 & I10);
      [lia|].
    cbv zeta in I1, I2, I3, I4, I5, I6, I7, I8, I9, I10.
    rewrite !emitted_app, tempi_app, I7, I8, L6, P3.
    split; [exact I1|]. split; [congruence|]. split; [congruence|]. split; [congruence|].
    split; [lia|]. split; [lia|]. split; [reflexivity|]. split; [reflexivity|]. split.
    + intro H. apply in_app_or in H. tauto.
    + rewrite <- app_assoc. rewrite L4 in I10. rewrite I10. exact L8.
Qed.

(** Once the session is over, beat events are ignored. *)
Lemma beats_after_end :
  forall (k : nat) (s : Session), sessionId s = None -> beats k s = (s, []).
Proof.
  induction k as [|k IH]; intros s Hs; [reflexivity|].
  rewrite beats_succ. unfold _handleBeat. rewrite Hs. cbn [fst snd].
  rewrite (IH s Hs). reflexivity.
Qed.

Lemma beats_add (a b : nat) (s : Session) :
  beats (a + b) s =
    (fst (beats b (fst (beats a s))), (snd (beats a s) ++ snd (beats b (fst (beats a s))))%list).
Proof.
  revert s. induction a as [|a IH]; intro s.
  - cbn [Nat.add beats fst snd List.app]. destruct (beats b s). reflexivity.
  - cbn [Nat.add]. rewrite !beats_succ. cbn [fst snd]. rewrite IH. cbn [fst snd].
    rewrite app_assoc. reflexivity.
Qed.


(** What [startSession] leaves behind for an accepted plan. *)
Lemma startSession_accepts (now : Z) (segs : list Segment) (s : Session) :
  segs <> [] -> forallb validSegment segs = true ->
  let r := startSession now segs s in
  fst (fst r) = true /\ inSession (snd (fst r)) /\
  sessionId (snd (fst r)) = Some now /\ segments (snd (fst r)) = segs /\
  currentSegmentIndex (snd (fst r)) = 0%nat /\
  totalBeats (snd (fst r)) = plannedBeats segs /\
  processedBeats (snd (fst r)) = 0 /\
  beatsLeft (snd (fst r)) = plannedBeats segs /\
  emitted "training:complete" (snd r) = 0%nat /\
  emitted "training:error" (snd r) = 0%nat /\
  tempi (snd r) = map seg_bpm (firstn 1 segs).
Proof.
  intros Hne Hvalid. cbv zeta. unfold startSession.
  destruct segs as [|first rest]; [contradiction Hne; reflexivity|].
  rewrite Hvalid. cbn [negb].
  pose proof (validSegment_spec first (forallb_nth 0%nat _ first Hvalid eq_refl)) as (_ & Hb & Hp).
  assert (He : emitted "training:complete" (snd (stopSession false s)) = 0%nat /\
               emitted "training:error" (snd (stopSession false s)) = 0%nat /\
               tempi (snd (stopSession false s)) = []).
  { unfold stopSession. destruct (sessionId s); [|repeat split].
    destruct (isRunning s); repeat split. }
  destruct (stopSession false s) as [[ok s1] e1]. cbn [snd] in He.
  destruct He as (H1 & H2 & H3). cbn [fst snd].
  rewrite !emitted_app, !tempi_app, H1, H2, H3.
  split; [reflexivity|]. split.
  { split; [exists now; reflexivity|]. split; [reflexivity|]. split; [exact Hvalid|].
    exists first. cbn [segments currentSegmentIndex currentRepeat remainingBeats nth_error].
    split; [reflexivity|]. lia. }
  do 5 (split; [reflexivity|]). split.
  { unfold beatsLeft. cbn [segments currentSegmentIndex currentRepeat remainingBeats
                           nth_error skipn].
    rewrite plannedBeats_cons. lia. }
  repeat split.
Qed.

(** X27 (startSession, _handleBeat, _handleSegmentCompletion, _completeSession,
    stopSession, _configureMetronome): a non-empty plan whose segments all pass
    the checks of [startSession] is accepted, and the session it starts ends
    itself after exactly [sum of beats * repeats] beat events, never earlier.
    Before that many beats the session keeps its id, is running, has counted
    every beat, and has neither announced completion nor stopped the metronome;
    the beat that reaches the total clears the session, announces
    'training:complete' exactly once with no 'training:error', leaves
    [processedBeats] equal to [totalBeats], and by then [setBPM] has been called
    with the tempo of every segment once, in plan order; beat events after
    that change nothing. *)
Theorem training_session_runs_to_completion (now : Z) (segs : list Segment) (s : Session) :
  segs <> [] -> forallb validSegment segs = true ->
  let started := startSession now segs s in
  let s1 := snd (fst started) in
  let total := Z.to_nat (plannedBeats segs) in
  fst (fst started) = true /\
  totalBeats s1 = plannedBeats segs /\ 1 <= plannedBeats segs /\
  (forall k : nat,
     (k < total)%nat ->
     sessionId (fst (beats k s1)) = Some now /\
     isRunning (fst (beats k s1)) = true /\
     processedBeats (fst (beats k s1)) = Z.of_nat k /\
     emitted "training:complete" (snd (beats k s1)) = 0%nat /\
     ~ In CallStopMetronome (snd (beats k s1))) /\
  (sessionId (fst (beats total s1)) = None /\
   isRunning (fst (beats total s1)) = false /\
   processedBeats (fst (beats total s1)) = totalBeats (fst (beats total s1)) /\
   emitted "training:complete" (snd (beats total s1)) = 1%nat /\
   emitted "training:error" (snd started ++ snd (beats total s1)) = 0%nat /\
   tempi (snd started ++ snd (beats total s1)) = map seg_bpm segs) /\
  (forall k : nat, beats (total + k) s1 = (fst (beats total s1), snd (beats total s1))).
Proof.
  intros Hne Hvalid. cbv zeta.
  pose proof (startSession_accepts now segs s Hne Hvalid) as Hstart. cbv zeta in Hstart.
  destruct Hstart as (S1 & S2 & S3 & S4 & S5 & S6 & S7 & S8 & S9 & S10 & S11).
  set (s1 := snd (fst (startSession now segs s))) in *.
  set (e1 := snd (startSession now segs s)) in *.
  assert (Hpos : 1 <= plannedBeats segs).
  { rewrite <- S8. apply beatsLeft_pos. exact S2. }
  split; [exact S1|]. split; [exact S6|]. split; [exact Hpos|].
  split.
  { intros k Hk.
    destruct (beats_before_end k s1 S2) as (I1 & I2 & _ & _ & _ & I6 & I7 & _ & I9 & _);
      [lia|].
    cbv zeta in I1, I2, I6, I7, I9.
    destruct I1 as (_ & Hrun & _).
    split; [congruence|]. split; [exact Hrun|]. split; [lia|]. split; [exact I7|exact I9]. }
  assert (Hsplit : Z.to_nat (plannedBeats segs) = (Z.to_nat (plannedBeats segs - 1) + 1)%nat)
    by lia.
  destruct (beats_before_end (Z.to_nat (plannedBeats segs - 1)) s1 S2)
    as (I1 & I2 & I3 & I4 & I5 & I6 & I7 & I8 & I9 & I10); [lia|].
  cbv zeta in I1, I2, I3, I4, I5, I6, I7, I8, I9, I10.
  set (s2 := fst (beats (Z.to_nat (plannedBeats segs - 1)) s1)) in *.
  set (e2 := snd (beats (Z.to_nat (plannedBeats segs - 1)) s1)) in *.
  pose proof (handleBeat_step s2 I1) as Hlast. cbv zeta in Hlast.
  destruct Hlast as (P1 & P2 & P3 & [(L1 & L2 & L3 & L4 & _ & L6 & L7) | (L1 & _)]); [|lia].
  assert (Hend : beats (Z.to_nat (plannedBeats segs)) s1
                 = (fst (_handleBeat s2), (e2 ++ snd (_handleBeat s2))%list)).
  { rewrite Hsplit, beats_add. fold s2. fold e2.
    change 1%nat with (S O). rewrite beats_succ. cbn [beats fst snd].
    rewrite app_nil_r. reflexivity. }
  split.
  { rewrite Hend. cbn [fst snd].
    rewrite !emitted_app, !tempi_app, I7, I8, L4, P3, S10, L6, S11.
    split; [exact L2|]. split; [exact L3|]. split; [lia|]. split; [reflexivity|].
    split; [reflexivity|].
    rewrite I3, S4 in L7. rewrite S4, L7, S5 in I10. cbn [map List.app] in I10.
    rewrite app_nil_r in *. rewrite I10, <- map_app, firstn_skipn. reflexivity. }
  intro k. rewrite beats_add. rewrite Hend. cbn [fst snd].
  rewrite (beats_after_end k _ L2). cbn [fst snd]. rewrite app_nil_r. reflexivity.
Qed.

(** A plan of 2 beats twice at 60 and then 3 beats once at 90: seven beats. *)
Lemma training_session_runs_to_completion_witness :
  let segs := [mkSegment 60 2 2; mkSegment 90 3 1] in
  let s1 := snd (fst (startSession 1000 segs session0)) in
  (segs <> [] /\ forallb validSegment segs = true) /\
  Z.to_nat (plannedBeats segs) = 7%nat /\
  sessionId (fst (beats 6 s1)) = Some 1000 /\
  sessionId (fst (beats 7 s1)) = None /\
  tempi (snd (startSession 1000 segs session0) ++ snd (beats 7 s1)) = [60; 90].
Proof.
  cbv zeta.
  assert (Hne : [mkSegment 60 2 2; mkSegment 90 3 1] <> []) by discriminate.
  assert (Hvalid : forallb validSegment [mkSegment 60 2 2; mkSegment 90 3 1] = true)
    by reflexivity.
  pose proof (training_session_runs_to_completion 1000 _ session0 Hne Hvalid) as H.
  cbv zeta in H. destruct H as (_ & _ & _ & Hbefore & (Hid & _ & _ & _ & _ & Ht) & _).
  split; [split; [exact Hne|exact Hvalid]|]. split; [vm_compute; reflexivity|].
  split; [exact (proj1 (Hbefore 6%nat ltac:(vm_compute; lia)))|].
  change (Z.to_nat (plannedBeats [mkSegment 60 2 2; mkSegment 90 3 1])) with 7%nat in Hid, Ht.
  split; [exact Hid|exact Ht].
Defined.

End TrainingSessions.

(** ** Pausing and resuming a training session *)

Section TrainingPauses.
Import Training.
Local Open Scope Z_scope.

(** X28 (pauseSession, resumeSession, _handleBeat): pausing a running session
    and resuming it gives back exactly the session that was paused, however
    many beat events arrive in between: the pause is accepted and toggles the
    metronome once, every beat event that reaches the paused session leaves it
    as it is and is not counted, and the resume is accepted, toggles the
    metronome once and restores the running session with the same segment,
    repeat, remaining beats and counters, so the beats it still needs to
    finish are the same.  A second pause of the paused session, and a resume
    of the running one, are refused without touching the metronome. *)
Theorem pause_resume_round_trip (s : Session) (k : nat) :
  inSession s ->
  let paused := snd (fst (pauseSession s)) in
  let resumed := resumeSession (fst (beats k paused)) in
  pauseSession s
    = (true, paused, [CallToggleMetronome; Emit "training:paused"; UpdateTrainingState]) /\
  isRunning paused = false /\ sessionId paused = sessionId s /\
  beats k paused = (paused, []) /\
  resumed = (true, s, [CallToggleMetronome; Emit "training:resumed"; UpdateTrainingState]) /\
  (forall n : nat, beats n (snd (fst resumed)) = beats n s) /\
  pauseSession paused = (false, paused, []) /\
  resumeSession s = (false, s, []).
Proof.
  intros ((id & Hid) & Hrun & _). cbv zeta.
  assert (Hpause : pauseSession s
                   = (true,
                      mkSession (sessionId s) (segments s) (currentSegmentIndex s)
                        (currentRepeat s) (remainingBeats s) false (totalBeats s)
                        (processedBeats s),
                      [CallToggleMetronome; Emit "training:paused"; UpdateTrainingState])).
  { unfold pauseSession. rewrite Hrun, Hid. reflexivity. }
  rewrite Hpause. cbn [fst snd].
  set (paused := mkSession (sessionId s) (segments s) (currentSegmentIndex s)
                   (currentRepeat s) (remainingBeats s) false (totalBeats s)
                   (processedBeats s)).
  assert (Hignored : forall n : nat, beats n paused = (paused, [])).
  { induction n as [|n IH]; [reflexivity|].
    rewrite beats_succ. unfold _handleBeat at 1 2 3.
    cbn [paused sessionId isRunning]. rewrite Hid. cbn [negb fst snd].
    rewrite IH. reflexivity. }
  assert (Hresume : resumeSession paused
                    = (true, s,
                       [CallToggleMetronome; Emit "training:resumed"; UpdateTrainingState])).
  { unfold resumeSession. cbn [paused sessionId isRunning segments currentSegmentIndex
                               currentRepeat remainingBeats totalBeats processedBeats].
    rewrite Hid. destruct s. cbn in *. subst. reflexivity. }
  split; [reflexivity|]. split; [reflexivity|]. split; [reflexivity|].
  split; [apply Hignored|]. rewrite Hignored. cbn [fst snd]. rewrite Hresume. cbn [fst snd].
  split; [reflexivity|]. split; [reflexivity|]. split.
  - unfold pauseSession. reflexivity.
  - unfold resumeSession. rewrite Hrun. reflexivity.
Qed.

(** Pausing after one beat of a 2-beat segment at 60, three stray beats, resume. *)
Lemma pause_resume_round_trip_witness :
  let s := fst (beats 1 (snd (fst (startSession 1000 [mkSegment 60 2 1] session0)))) in
  inSession s /\
  remainingBeats s = 1 /\
  snd (fst (resumeSession (fst (beats 3 (snd (fst (pauseSession s))))))) = s.
Proof.
  cbv zeta.
  assert (Hin : inSession
                  (fst (beats 1 (snd (fst (startSession 1000 [mkSegment 60 2 1] session0)))))).
  { split; [exists 1000; reflexivity|]. split; [reflexivity|]. split; [reflexivity|].
    exists (mkSegment 60 2 1). split; [reflexivity|]. cbn. lia. }
  split; [exact Hin|]. split; [reflexivity|].
  destruct (pause_resume_round_trip _ 3%nat Hin) as (_ & _ & _ & _ & H & _).
  cbv zeta in H. rewrite H. reflexivity.
Defined.

End TrainingPauses.
